(* ===== verification/_CoqProject ===== *)
-Q . S2P
Prelude.v
Logger.v
ErrorHandler.v
ErrorCodes.v
Types.v
AdParser.v
Crypto.v
Tlv.v
Driver.v
DriverRun.v
DriverSafety.v
DriverProps.v
DriverWitness.v
DriverTyping.v
DriverSpec.v
DriverIsolation.v
Sync.v
Semaphores.v
MsgQueue.v
Threads.v
Ble.v
Boards.v
Exclusion.v
Usbd.v
App.v
Mains.v
AppText.v
AppPosix.v
AppZephyr.v
Concurrency.v
Atomicity.v
ConcurrencyZephyr.v
Deployment.v
Availability.v
