(* ===== verification/Prelude.v ===== *)
(** * Verification of the EnOcean/BLE framework

    The program listens for BLE advertisements of EnOcean switches and sensors,
    authenticates them with AES-CCM, and reports button presses and sensor
    readings to an application; it runs on Linux (POSIX) and on Zephyr. This
    library models its C++ code and proves what makes it correct.

    ** The parts and how they interact

    A BLE scanner delivers advertisements to a callback; the callback is the
    static [advertisement_cb] of an [EnoceanDriver], which looks the sender up
    in a table of eight devices, checks the sequence number and, through the
    crypto interface, the tag, and calls the application's callbacks. Mutexes,
    semaphores, queues and threads are CRTP bases over one backend per
    platform, errors travel in [ErrorHandler] values, and everything logs.

    - [Prelude] (this file): outcomes, traced effects, machine integers, spans,
      a loop with fuel, and the lemmas and tactics the components share.
    - [Logger]: include/logging/Logger.hpp, with the printf conversions its
      format strings use.
    - [ErrorHandler], [ErrorCodes]: include/error_handler/ErrorHandler.hpp and
      the error enumerations with their [ErrorTraits].
    - [Types]: src/enocean/EnoceanTypes.hpp.
    - [AdParser], [Tlv], [Driver]: src/enocean/EnoceanDriver.hpp and .ipp: the AD
      walk, the sensor record loop, and the driver with its handlers.
      [DriverRun] computes each handler on a well-formed table; [DriverSafety]
      has the effects of one advertisement, the table invariant and runs;
      [DriverProps] the properties; [DriverTyping] the types of what the driver
      reports; [DriverSpec] the abstract machine and the refinement;
      [DriverIsolation] one device among others; [DriverWitness] a concrete run.
    - [Crypto]: platform/common/icrypto and both backends (modules
      [PosixAesCcm], [ZephyrAesCcm]).
    - [Sync], [Semaphores], [MsgQueue], [Threads]: platform/common/imutex,
      isemaphore, imessage_queue, ithread and their backends.
    - [Ble]: platform/common/ible and both scanners (modules [HciScanner],
      [ZephyrScanner]).
    - [Boards]: GPIO, LED, watchdog, and serial base and wrapper of boards/.
    - [Exclusion]: threads that share a mutex, on the example of [blink]: its
      accesses to mutex, status and pin as steps of any number of threads.
    - [Usbd]: platform/zephyr_core/usb_common/common_usbd.c.
    - [App]: application/AppEntry.cpp, sleeping, and the Zephyr log appender, for
      any scanner; [AppText] the text of its log lines.
    - [Mains]: the entry point of the application's thread and the two mains.
    - [AppPosix], [AppZephyr]: the application over each scanner: one packet or
      one call of the Bluetooth stack through scanner, driver and callbacks,
      and what start-up leaves behind.
    - [Concurrency]: the scan thread of posix_core/ble/Ble.cpp, the thread that
      owns driver and scanner, and the kernel, as a labelled step relation; a
      label says whose step it is, what the driver is asked, what is logged,
      and which events come in and are taken up. [Atomicity] cuts the driver's
      calls where they read the flag the two threads share;
      [ConcurrencyZephyr] the calls of the Bluetooth stack between the stores
      and calls of start-up.
    - [Deployment]: the application over the crypto backend each platform is
      built with; [Availability]: the Zephyr gateway as a whole.

    ** How code becomes definitions

    A member function is a computation in [eff St Ev]: it takes the object's
    state and answers with a result, the new state and the trace of what it did
    outside (log lines, callbacks, advertisements), or with the reason why it
    does not ([stop]). Members are records; a pointer into the device table is a
    slot number, a pointer to a function or object a number, a span a list of
    bytes with its accesses checked: reading past the end is
    [Stop Undefined]. Integers are [Z] with the wrap-around of their width
    written out. A CRTP base is a type class with the backend's functions as
    fields ([CryptoImplementation], [MutexImplementation],
    [SemaphoreImplementation], [MessageQueueImplementation],
    [ThreadImplementation], [BleImplementation], ...), and the contract a
    client relies on is a second class ([CryptoTotal], [CryptoVerifier],
    [MutexLaws], [SharedMutex], [SemLaws], [QueueLaws], [ThreadLaws]) that the backends are
    proved to satisfy from stated behaviour of the system calls they make.

    ** What is proved

    - The driver refines a machine on a finite map from addresses to entries;
      its table invariant holds along every run; accepted sequence numbers
      strictly increase per device, callbacks come from authenticated packets
      only, forged packets change nothing but the signal strength, commissioned
      entries are never rewritten; switch, sensor and commissioning packets
      have exactly the documented effect ([DriverProps], [DriverSpec]).
    - The driver is a product of one-device machines: what the application hears
      of a commissioned device depends on the telegrams made with that device's
      key alone, and no other traffic keeps a press from being delivered
      ([DriverIsolation]); nor, on Zephyr, does any order of the stack's calls
      and the steps of start-up keep it from being logged ([Availability]).
    - The two parsers compute what a declarative reading of the formats says,
      on every byte string; the sensor encoding round-trips; the one case in
      which the AD walk leaves the advertisement is characterised
      ([AdParser], [Tlv]).
    - The scanner delivers exactly the reports in a packet, or none of them in two
      cases that are characterised; from start-up on,
      packet handler, driver and application together survive every packet but
      those with that one case; an authentic press and an authentic reading make
      exactly the lines they should, whatever their content, and a
      commissioning telegram is logged as what it is ([Ble], [AppPosix]);
      the same of the calls of Zephyr's Bluetooth stack ([AppZephyr]).
    - The driver's callbacks get arguments of their C++ types ([DriverTyping]),
      and what the application logs about them is never truncated
      ([AppText], by a checker for format strings that is proved right).
    - In every interleaving of scan thread, owner and kernel the table invariant
      and the wiring hold and the scan thread goes on, and the driver runs
      through the calls the labels carry, so that what holds of sequential
      runs holds here; setting the commissioning flag commutes with everything
      but commissioning telegrams; a stopped scan ends within nineteen steps;
      the destruction of the scanner ends, or waits for a thread that sits in
      [read] and that nothing wakes up ([Concurrency]). Whole calls are no
      simplification: wherever the owner's stores to the flag fall into a call
      of the scan thread, an interleaving of whole calls does the same
      ([Atomicity]).
    - However the calls of Zephyr's Bluetooth stack fall between the stores of
      [init], the start of the scan and the setting of the flag, as long as the
      scanner is not destroyed, the same invariant holds, every call is
      processed, and the driver makes a sequential run ([ConcurrencyZephyr]).
    - With the backends in place: on Zephyr every event the application logs is
      vouched for by the controller's verdict on the very bytes received, and
      that verdict alone decides a fresh switch telegram; on POSIX, where the
      verdict is overlooked, a switch telegram anyone can make is obeyed, and one
      with the largest counter silences the switch for ever ([Deployment]).
    - Threads blinking one LED exclude each other, lose no update, are never
      terminated and all finish, under every schedule ([Exclusion]).
    - Both mains end without a thread or with the one they started; the Zephyr
      main feeds the one channel it installed within the timeout it asked for,
      if its calls keep their times ([Mains]).
    - The USB set-up carries out a declarative plan up to its first failure
      ([Usbd]).
    - The OS wrappers keep their contracts: locks are released on every path,
      semaphores count, queues are first in first out from their [init] on, at
      most one thread per object, deadlines are exact but for the last second
      of the clock, each serial port is shut down as often as initialised
      whatever is moved where ([Sync], [Semaphores], [MsgQueue],
      [Threads], [Boards]).
    - What the code does where it departs from its documentation or intention
      is stated as a theorem too ([posix_accepts_any_tag], [forged_press_is_logged], [restart_fails],
      [extract_undefined_iff], [zephyr_lock_timeout_unknown],
      [commissioning_race], [destruction_outcome], [zephyr_startup], ...).

    ** Bounds and fuel

    [loop] runs its body at most [fuel] times. The two byte loops start with
    one more than the length of their input and every turn consumes a byte, so
    [OutOfFuel] cannot arise ([decode_tlv_spec], [process_progress]). The join
    loop of the POSIX thread takes its number of attempts as an argument; any
    number above that of the interruptions gives the same result
    ([destroy_joins]). A [blink] takes at most seven accesses, which is the fuel
    of [advance_to_end] ([advance_is_blink]). The endless loops of [run_impl], the Zephyr main and
    the scan thread are cut after a number of turns that is an argument; the
    step relations of [Concurrency], [Atomicity], [ConcurrencyZephyr] and
    [Exclusion] have no bound.

    ** What is not modelled

    OpenSSL, BlueZ, the Zephyr kernel and Bluetooth stack, pthreads, POSIX
    semaphores and queues, and plog are parameters; where a theorem needs their
    documented behaviour it is a named hypothesis or class. Memory is
    sequentially consistent. [Exclusion] interleaves single accesses of a guarded
    block; [Concurrency] the lines of the scan loop, whole callbacks and
    whole calls of the owner, [Atomicity] also the store and the read of
    [commissioning_enabled_] inside them, as one access each;
    [ConcurrencyZephyr] the stores of [init] and whole callbacks. The members
    of the scanner that [stop_scan] and the destructor write are written in
    one step (C++ leaves the races on [bool] and [int] members undefined; they
    are single accesses here). [std::size_t], [time_t] and pointers are those of a
    64-bit platform; comparing a pointer past the end of a buffer
    (dispatch_adv_report) is treated as comparing offsets. Deleted and
    defaulted special members, concepts' type checks and [static_assert]s,
    which the compiler discharges, build files and tests are left out. *)

From stdpp Require Import prelude list strings.
From Stdlib Require Import ZArith Lia.

#[global] Open Scope Z_scope.

(** ** Outcomes of a C++ computation

    [Stop Undefined] is behaviour the language leaves undefined (a span or
    array access out of range) and, conservatively, a [size_t] subtraction
    that would wrap; [Stop Terminated] is [std::terminate]; [Stop Thrown] is
    an exception leaving the function (nothing in the program catches one);
    [Stop OutOfFuel] only ever arises from a bounded loop and is proved unreachable for each
    loop of the model. *)

Inductive stop :=
| Undefined
| Terminated
| Thrown
| OutOfFuel.

#[export] Instance stop_eq_dec : EqDecision stop.
Proof. solve_decision. Defined.

Inductive outcome (A : Type) :=
| Done (a : A)
| Stop (r : stop).

Arguments Done {A} _.
Arguments Stop {A} _.

#[export] Instance outcome_ret : MRet outcome := @Done.
#[export] Instance outcome_bind : MBind outcome :=
  λ A B f m, match m with Done a => f a | Stop r => Stop r end.
#[export] Instance outcome_fmap : FMap outcome :=
  λ A B f m, match m with Done a => Done (f a) | Stop r => Stop r end.

Lemma outcome_bind_Done {A B} (m : outcome A) (f : A → outcome B) b :
  (m ≫= f) = Done b ↔ ∃ a, m = Done a ∧ f a = Done b.
Proof. destruct m; cbn; naive_solver. Qed.

(** ** Effects: state, a trace of external calls, and outcomes

    [eff St Ev A] threads the state [St] of the object a method belongs to and
    collects, in program order, the calls it makes to the outside ([Ev]:
    callbacks, log messages, system calls). *)

Definition eff (St Ev A : Type) : Type := St → outcome (A * St * list Ev).

#[export] Instance eff_ret St Ev : MRet (eff St Ev) :=
  λ A a s, Done (a, s, []).
#[export] Instance eff_bind St Ev : MBind (eff St Ev) :=
  λ A B f m s,
    match m s with
    | Done (a, s', t) =>
        match f a s' with
        | Done (b, s'', t') => Done (b, s'', t ++ t')
        | Stop r => Stop r
        end
    | Stop r => Stop r
    end.

Section Effects.
Context {St Ev : Type}.

Definition get : eff St Ev St := λ s, Done (s, s, []).
Definition put (s : St) : eff St Ev () := λ _, Done ((), s, []).
Definition modify (f : St → St) : eff St Ev () := λ s, Done ((), f s, []).
Definition emit (e : Ev) : eff St Ev () := λ s, Done ((), s, [e]).
Definition liftO {A} (m : outcome A) : eff St Ev A :=
  λ s, match m with Done a => Done (a, s, []) | Stop r => Stop r end.
Definition stopE {A} (r : stop) : eff St Ev A := λ _, Stop r.
(** A call into a library: the state is the library's. *)
Definition call {A} (f : St → A * St) : eff St Ev A :=
  λ w, let '(a, w') := f w in Done (a, w', []).
End Effects.

(** Running a computation of a part [B] of the state inside the whole [A];
    [up] re-labels its events. *)
Definition zoom {A B Ev Ev' X} (prj : A → B) (upd : B → A → A) (up : Ev' → Ev)
    (m : eff B Ev' X) : eff A Ev X :=
  λ s, match m (prj s) with
       | Done (x, b, t) => Done (x, upd b s, up <$> t)
       | Stop r => Stop r
       end.

Section EffectLemmas.
Context {St Ev : Type}.

Lemma bind_run {A B} (m : eff St Ev A) (f : A → eff St Ev B) s :
  (m ≫= f) s =
    match m s with
    | Done (a, s', t) =>
        match f a s' with
        | Done (b, s'', t') => Done (b, s'', t ++ t')
        | Stop r => Stop r
        end
    | Stop r => Stop r
    end.
Proof. reflexivity. Qed.

Lemma bind_Done {A B} (m : eff St Ev A) (f : A → eff St Ev B) s b s'' t :
  (m ≫= f) s = Done (b, s'', t) ↔
  ∃ a s' t1 t2, m s = Done (a, s', t1) ∧ f a s' = Done (b, s'', t2) ∧ t = t1 ++ t2.
Proof.
  rewrite bind_run. split.
  - destruct (m s) as [[[a s'] t1]|]; [|done].
    destruct (f a s') as [[[b' ?] t2]|] eqn:?; [|done].
    intros [= <- <- <-]. eauto 10.
  - intros (a & s' & t1 & t2 & -> & Hf & ->). by rewrite Hf.
Qed.

(** The steps that cannot fail, one rewrite each. *)
Lemma get_bind {B} (f : St → eff St Ev B) s : (get ≫= f) s = f s s.
Proof. rewrite bind_run. cbn. by destruct (f s s) as [[[? ?] ?]|]. Qed.

Lemma modify_bind {B} g (f : () → eff St Ev B) s : (modify g ≫= f) s = f () (g s).
Proof. rewrite bind_run. cbn. by destruct (f () (g s)) as [[[? ?] ?]|]. Qed.

Lemma ret_bind {A B} (a : A) (f : A → eff St Ev B) s : (mret a ≫= f) s = f a s.
Proof. rewrite bind_run. cbn. by destruct (f a s) as [[[? ?] ?]|]. Qed.

Lemma liftO_bind {A B} (a : A) (f : A → eff St Ev B) s : (liftO (Done a) ≫= f) s = f a s.
Proof. apply ret_bind. Qed.

Lemma liftO_Done {A} (m : outcome A) (s : St) a s' (t : list Ev) :
  liftO m s = Done (a, s', t) ↔ m = Done a ∧ s' = s ∧ t = [].
Proof. unfold liftO. destruct m; naive_solver. Qed.

Lemma call_run {A} (f : St → A * St) w :
  call (Ev := Ev) f w = Done ((f w).1, (f w).2, []).
Proof. unfold call. by destruct (f w). Qed.

Lemma zoom_Done {B Ev' X} (prj : St → B) upd (up : Ev' → Ev) (m : eff B Ev' X) s x s' t :
  zoom prj upd up m s = Done (x, s', t) ↔
  ∃ b t0, m (prj s) = Done (x, b, t0) ∧ s' = upd b s ∧ t = up <$> t0.
Proof.
  unfold zoom. destruct (m (prj s)) as [[[x' b] t0]|]; naive_solver.
Qed.
End EffectLemmas.

Create Rewrite HintDb eff.
#[export] Hint Rewrite @get_bind @modify_bind @ret_bind @liftO_bind : eff.

(** [eff_inv] decomposes hypotheses that say an effectful computation
    finished, one bind or primitive at a time. *)
Ltac eff_inv1 :=
  match goal with
  | H : (_ ≫= _) _ = Done (_, _, _) |- _ =>
      apply bind_Done in H; destruct H as (?&?&?&?&?&?&?)
  | H : liftO _ _ = Done _ |- _ => apply liftO_Done in H; destruct H as (?&?&?)
  | H : zoom _ _ _ _ _ = Done _ |- _ =>
      apply zoom_Done in H; destruct H as (?&?&?&?&?)
  | H : mret _ _ = Done _ |- _ => unfold mret, eff_ret in H
  | H : get _ = Done _ |- _ => unfold get in H
  | H : put _ _ = Done _ |- _ => unfold put in H
  | H : modify _ _ = Done _ |- _ => unfold modify in H
  | H : emit _ _ = Done _ |- _ => unfold emit in H
  | H : stopE _ _ = Done _ |- _ => discriminate H
  | H : Stop _ = Done _ |- _ => discriminate H
  | H : Done (_, _, _) = Done (_, _, _) |- _ =>
      injection H as ???
  | H : Done _ = Done _ |- _ => injection H as ?
  end; subst.
Ltac eff_inv := repeat eff_inv1.

(** [case_if H] splits on the test of the conditional computation [H] runs. *)
Tactic Notation "case_if" hyp(H) "as" simple_intropattern(p) :=
  match type of H with (if decide ?P then _ else _) _ = _ => destruct (decide P) as p end.

(** [out_inv] does the same for pure outcomes and the tests between binds. *)
Ltac out_inv1 :=
  match goal with
  | H : @mbind outcome _ _ _ _ _ = Done _ |- _ =>
      apply outcome_bind_Done in H; destruct H as (?&?&H)
  | H : Stop _ = Done _ |- _ => discriminate H
  | H : Done (inl _) = Done (inr _) |- _ => discriminate H
  | H : Done (inr _) = Done (inl _) |- _ => discriminate H
  | H : Done (inl _) = Done (inl _) |- _ => injection H as H
  | H : Done (inr _) = Done (inr _) |- _ => injection H as H
  | H : (if decide _ then _ else _) = Done _ |- _ => case_decide
  end.
Ltac out_inv := repeat out_inv1.

(** ** Bounded loops

    [loop fuel body s] runs [body] until it answers [inr]. *)

Fixpoint loop {St A} (fuel : nat) (body : St → outcome (St + A)) (s : St) : outcome A :=
  match fuel with
  | O => Stop OutOfFuel
  | S fuel' =>
      match body s with
      | Done (inl s') => loop fuel' body s'
      | Done (inr a) => Done a
      | Stop r => Stop r
      end
  end.

Section LoopRule.
Context {St A : Type} (body : St → outcome (St + A)).
Context (m : St → nat).

(** Total-correctness rule: an invariant and a decreasing measure. *)
Lemma loop_rule (I : St → Prop) (Q : outcome A → Prop) :
  (∀ s, I s →
     match body s with
     | Done (inl s') => I s' ∧ (m s' < m s)%nat
     | Done (inr a) => Q (Done a)
     | Stop r => Q (Stop r)
     end) →
  ∀ fuel s, I s → (m s < fuel)%nat → Q (loop fuel body s).
Proof.
  intros Hbody. induction fuel as [|fuel IH]; intros s HI Hm; [lia|].
  cbn. specialize (Hbody s HI).
  destruct (body s) as [[s'|a]|r]; [|done..].
  destruct Hbody. apply IH; [done|lia].
Qed.

(** Past the measure, the amount of fuel does not matter. *)
Lemma loop_fuel (I : St → Prop) :
  (∀ s s', I s → body s = Done (inl s') → I s' ∧ (m s' < m s)%nat) →
  ∀ f1 f2 s, I s → (m s < f1)%nat → (m s < f2)%nat → loop f1 body s = loop f2 body s.
Proof.
  intros Hbody. induction f1 as [|f1 IH]; intros [|f2] s HI H1 H2; [lia..|].
  cbn. destruct (body s) as [[s'|a]|r] eqn:Hb; [|done..].
  destruct (Hbody _ _ HI Hb). apply IH; [done|lia..].
Qed.
End LoopRule.

(** ** Fixed-width integers *)

Definition u8 (z : Z) : Z := z mod 2 ^ 8.
Definition u16 (z : Z) : Z := z mod 2 ^ 16.
Definition u32 (z : Z) : Z := z mod 2 ^ 32.
(** Two's-complement narrowing to [w] bits. *)
Definition signed (w z : Z) : Z := (z + 2 ^ (w - 1)) mod 2 ^ w - 2 ^ (w - 1).
Definition i8 (z : Z) : Z := signed 8 z.
Definition i16 (z : Z) : Z := signed 16 z.

Definition is_u8 (z : Z) : Prop := 0 ≤ z < 2 ^ 8.
Definition is_u16 (z : Z) : Prop := 0 ≤ z < 2 ^ 16.
Definition is_u32 (z : Z) : Prop := 0 ≤ z < 2 ^ 32.
Definition is_i8 (z : Z) : Prop := - 2 ^ 7 ≤ z < 2 ^ 7.
Definition is_i16 (z : Z) : Prop := - 2 ^ 15 ≤ z < 2 ^ 15.

(** Byte sequences: the contents of a [std::span<const std::uint8_t>]. *)
Abbreviation bytes := (list Z).

Definition is_bytes (bs : bytes) : Prop := Forall is_u8 bs.

Lemma u8_small z : is_u8 z → u8 z = z.
Proof. unfold is_u8, u8. intros. by apply Z.mod_small. Qed.
Lemma u16_small z : is_u16 z → u16 z = z.
Proof. unfold is_u16, u16. intros. by apply Z.mod_small. Qed.
Lemma u32_small z : is_u32 z → u32 z = z.
Proof. unfold is_u32, u32. intros. by apply Z.mod_small. Qed.
Lemma u8_range z : is_u8 (u8 z).
Proof. apply Z.mod_pos_bound. lia. Qed.
Lemma u16_range z : is_u16 (u16 z).
Proof. apply Z.mod_pos_bound. lia. Qed.
Lemma u32_range z : is_u32 (u32 z).
Proof. apply Z.mod_pos_bound. lia. Qed.

Lemma signed_range w z : 0 < w → - 2 ^ (w - 1) ≤ signed w z < 2 ^ (w - 1).
Proof.
  intros Hw. unfold signed.
  assert (2 ^ w = 2 * 2 ^ (w - 1)) as E.
  { rewrite <- Z.pow_succ_r by lia. f_equal. lia. }
  assert (0 < 2 ^ w) by (apply Z.pow_pos_nonneg; lia).
  pose proof (Z.mod_pos_bound (z + 2 ^ (w - 1)) (2 ^ w)). lia.
Qed.

Lemma signed_small w z : 0 < w → - 2 ^ (w - 1) ≤ z < 2 ^ (w - 1) → signed w z = z.
Proof.
  intros Hw Hz. unfold signed.
  assert (2 ^ w = 2 * 2 ^ (w - 1)) as E.
  { rewrite <- Z.pow_succ_r by lia. f_equal. lia. }
  rewrite Z.mod_small; lia.
Qed.

Lemma i16_range z : is_i16 (i16 z).
Proof. apply (signed_range 16). lia. Qed.
Lemma i16_small z : is_i16 z → i16 z = z.
Proof. apply (signed_small 16). lia. Qed.
Lemma i8_range z : is_i8 (i8 z).
Proof. apply (signed_range 8). lia. Qed.
Lemma i8_small z : is_i8 z → i8 z = z.
Proof. apply (signed_small 8). lia. Qed.

(** ** Bit operations on bytes *)

(** Or-ing a shifted value over a narrower one adds it. *)
Lemma lor_shiftl_add n a b :
  0 ≤ n → 0 ≤ a < 2 ^ n → Z.lor a (Z.shiftl b n) = a + b * 2 ^ n.
Proof.
  intros Hn Ha. rewrite <- Z.shiftl_mul_pow2 by done. symmetry.
  apply Z.add_nocarry_lor, Z.bits_inj'. intros i Hi.
  rewrite Z.land_spec, Z.bits_0, Z.shiftl_spec by done.
  destruct (decide (i < n)) as [Hlt|Hge].
  - rewrite (Z.testbit_neg_r b) by lia. by rewrite andb_false_r.
  - rewrite <- (Z.mod_small a (2 ^ n)), Z.mod_pow2_bits_high by lia. done.
Qed.

Lemma land_mask z n : 0 ≤ n → Z.land z (Z.ones n) = z mod 2 ^ n.
Proof. apply Z.land_ones. Qed.

Lemma shiftr_range z n w : 0 ≤ n ≤ w → 0 ≤ z < 2 ^ w → 0 ≤ Z.shiftr z n < 2 ^ (w - n).
Proof.
  intros Hn Hz. rewrite Z.shiftr_div_pow2 by lia.
  assert (0 < 2 ^ n) by (apply Z.pow_pos_nonneg; lia).
  split; [apply Z.div_pos; lia|].
  apply Z.div_lt_upper_bound; [done|].
  rewrite <- Z.pow_add_r by lia. replace (n + (w - n)) with w by lia. lia.
Qed.

(** [static_cast<std::uint32_t>(x) << n]. *)
Definition shl32 (x n : Z) : Z := u32 (Z.shiftl x n).

(** A 32-bit little-endian load, written with the source's shifts and ors. *)
Definition le32 (b0 b1 b2 b3 : Z) : Z :=
  Z.lor (Z.lor (Z.lor b0 (shl32 b1 8)) (shl32 b2 16)) (shl32 b3 24).

Lemma shl32_byte b n : is_u8 b → 0 ≤ n ≤ 24 → shl32 b n = Z.shiftl b n.
Proof.
  unfold is_u8, shl32. intros Hb Hn. apply u32_small. unfold is_u32.
  rewrite Z.shiftl_mul_pow2 by lia.
  assert (0 < 2 ^ n ≤ 2 ^ 24) by (split; [apply Z.pow_pos_nonneg|apply Z.pow_le_mono_r]; lia).
  nia.
Qed.

Lemma le32_add b0 b1 b2 b3 :
  is_u8 b0 → is_u8 b1 → is_u8 b2 → is_u8 b3 →
  le32 b0 b1 b2 b3 = b0 + b1 * 2 ^ 8 + b2 * 2 ^ 16 + b3 * 2 ^ 24.
Proof.
  unfold le32. intros. rewrite !shl32_byte by (done || lia). unfold is_u8 in *.
  by rewrite (lor_shiftl_add 8), (lor_shiftl_add 16), (lor_shiftl_add 24) by lia.
Qed.

Lemma le32_range b0 b1 b2 b3 :
  is_u8 b0 → is_u8 b1 → is_u8 b2 → is_u8 b3 → is_u32 (le32 b0 b1 b2 b3).
Proof. intros. rewrite le32_add by done. unfold is_u8, is_u32 in *. lia. Qed.

(** The [i]-th byte of a 32-bit value, as [(seq >> 8 * i) & 0xFF] extracts it. *)
Definition byte_of (i z : Z) : Z := u8 (Z.land (Z.shiftr z (8 * i)) 0xFF).

Lemma byte_of_div i z : 0 ≤ i → byte_of i z = (z / 2 ^ (8 * i)) mod 2 ^ 8.
Proof.
  intros Hi. unfold byte_of, u8. change 0xFF with (Z.ones 8).
  rewrite Z.land_ones, Z.shiftr_div_pow2 by lia. by rewrite Z.mod_mod.
Qed.

Lemma byte_of_range i z : is_u8 (byte_of i z).
Proof. apply u8_range. Qed.

(** Splitting a 32-bit value into bytes and loading it back is the identity. *)
Lemma le32_byte_of z :
  is_u32 z → le32 (byte_of 0 z) (byte_of 1 z) (byte_of 2 z) (byte_of 3 z) = z.
Proof.
  intros Hz. rewrite le32_add by apply byte_of_range. rewrite !byte_of_div by lia.
  unfold is_u32 in Hz. change (2 ^ (8 * 0)) with 1. change (2 ^ (8 * 1)) with (2 ^ 8).
  change (2 ^ (8 * 2)) with (2 ^ 16). change (2 ^ (8 * 3)) with (2 ^ 24).
  Z.div_mod_to_equations. lia.
Qed.

Lemma byte_of_le32 b0 b1 b2 b3 :
  is_u8 b0 → is_u8 b1 → is_u8 b2 → is_u8 b3 →
  byte_of 0 (le32 b0 b1 b2 b3) = b0 ∧ byte_of 1 (le32 b0 b1 b2 b3) = b1 ∧
  byte_of 2 (le32 b0 b1 b2 b3) = b2 ∧ byte_of 3 (le32 b0 b1 b2 b3) = b3.
Proof.
  intros. rewrite le32_add by done. rewrite !byte_of_div by lia. unfold is_u8 in *.
  change (2 ^ (8 * 0)) with 1. change (2 ^ (8 * 1)) with (2 ^ 8).
  change (2 ^ (8 * 2)) with (2 ^ 16). change (2 ^ (8 * 3)) with (2 ^ 24).
  Z.div_mod_to_equations. lia.
Qed.

(** ** Spans *)

(** [s[i]]: undefined when out of range. *)
Definition span_get {A} (s : list A) (i : nat) : outcome A :=
  match s !! i with Some b => Done b | None => Stop Undefined end.

(** [s.subspan(off, cnt)]: undefined unless [off + cnt <= s.size()]. *)
Definition subspan {A} (s : list A) (off cnt : nat) : outcome (list A) :=
  if decide (off + cnt ≤ length s)%nat then Done (take cnt (drop off s)) else Stop Undefined.

(** [a - b] on [size_t]; a wrap-around is reported as [Undefined]. *)
Definition size_sub (a b : nat) : outcome nat :=
  if decide (b ≤ a)%nat then Done (a - b)%nat else Stop Undefined.

(** [arr[i] = x] on a [std::array]. *)
Definition span_set {A} (s : list A) (i : nat) (x : A) : outcome (list A) :=
  if decide (i < length s)%nat then Done (<[i := x]> s) else Stop Undefined.

(** [std::copy(src.begin(), src.end(), dst.begin() + off)]. *)
Definition copy_at {A} (src dst : list A) (off : nat) : outcome (list A) :=
  if decide (off + length src ≤ length dst)%nat
  then Done (take off dst ++ src ++ drop (off + length src) dst)
  else Stop Undefined.

Lemma span_get_Done {A} (s : list A) i b : span_get s i = Done b ↔ s !! i = Some b.
Proof. unfold span_get. destruct (s !! i); naive_solver. Qed.

Lemma span_get_lt {A} (s : list A) i :
  (i < length s)%nat → ∃ b, s !! i = Some b ∧ span_get s i = Done b.
Proof.
  intros [b Hb]%lookup_lt_is_Some_2. exists b. by rewrite span_get_Done.
Qed.

Lemma span_get_ge {A} (s : list A) i : (length s ≤ i)%nat → span_get s i = Stop Undefined.
Proof. intros H. unfold span_get. by rewrite lookup_ge_None_2. Qed.

Lemma span_get_app {A} (pre suf : list A) k :
  span_get (pre ++ suf) (length pre + k) = span_get suf k.
Proof. unfold span_get. by rewrite lookup_app_r, Nat.add_sub' by lia. Qed.

Lemma subspan_app {A} (pre suf : list A) k n :
  subspan (pre ++ suf) (length pre + k) n = subspan suf k n.
Proof.
  unfold subspan. rewrite length_app, drop_app, (drop_ge pre) by lia.
  replace (length pre + k - length pre)%nat with k by lia. cbn.
  repeat case_decide; (done || lia).
Qed.

Lemma subspan_Done {A} (s : list A) off cnt r :
  subspan s off cnt = Done r ↔ (off + cnt ≤ length s)%nat ∧ r = take cnt (drop off s).
Proof. unfold subspan. case_decide; naive_solver. Qed.

Lemma subspan_in {A} (s : list A) off cnt :
  (off + cnt ≤ length s)%nat → subspan s off cnt = Done (take cnt (drop off s)).
Proof. intros. unfold subspan. by rewrite decide_True. Qed.

Lemma size_sub_in a b : (b ≤ a)%nat → size_sub a b = Done (a - b)%nat.
Proof. intros. unfold size_sub. by rewrite decide_True. Qed.

Lemma copy_at_0 {A} (src dst : list A) :
  length src = length dst → copy_at src dst 0 = Done src.
Proof.
  intros E. unfold copy_at. rewrite decide_True by lia. cbn.
  by rewrite E, drop_all, app_nil_r.
Qed.

Lemma Forall_span_get {A} (P : A → Prop) s i b : Forall P s → span_get s i = Done b → P b.
Proof. intros H ?%span_get_Done. by eapply Forall_lookup_1. Qed.

Lemma Forall_subspan {A} (P : A → Prop) s off cnt r :
  Forall P s → subspan s off cnt = Done r → Forall P r.
Proof. intros H [_ ->]%subspan_Done. by apply Forall_take, Forall_drop. Qed.

(** Little-endian 32-bit load at offset [off] of a span. *)
Definition read_le32 (s : bytes) (off : nat) : outcome Z :=
  b0 ← span_get s off;
  b1 ← span_get s (off + 1);
  b2 ← span_get s (off + 2);
  b3 ← span_get s (off + 3);
  Done (le32 b0 b1 b2 b3).

Lemma read_le32_in s off :
  (off + 4 ≤ length s)%nat →
  ∃ b0 b1 b2 b3, s !! off = Some b0 ∧ s !! (off + 1)%nat = Some b1 ∧
    s !! (off + 2)%nat = Some b2 ∧ s !! (off + 3)%nat = Some b3 ∧
    read_le32 s off = Done (le32 b0 b1 b2 b3).
Proof.
  intros H.
  destruct (span_get_lt s off) as (b0 & ? & E0); [lia|].
  destruct (span_get_lt s (off + 1)) as (b1 & ? & E1); [lia|].
  destruct (span_get_lt s (off + 2)) as (b2 & ? & E2); [lia|].
  destruct (span_get_lt s (off + 3)) as (b3 & ? & E3); [lia|].
  exists b0, b1, b2, b3. split_and!; [done..|].
  unfold read_le32. by rewrite E0; cbn; rewrite E1; cbn; rewrite E2; cbn; rewrite E3.
Qed.

Lemma read_le32_range s off z :
  is_bytes s → read_le32 s off = Done z → is_u32 z.
Proof.
  unfold read_le32. intros Hs.
  intros (b0 & H0 & (b1 & H1 & (b2 & H2 & (b3 & H3 & [= <-])%outcome_bind_Done)%outcome_bind_Done)%outcome_bind_Done)%outcome_bind_Done.
  apply le32_range; by eapply Forall_span_get.
Qed.

Create HintDb ints.
#[export] Hint Resolve u8_range u16_range u32_range i16_range i8_range byte_of_range : ints.
#[export] Hint Resolve Forall_subspan read_le32_range : ints.
#[export] Hint Resolve Forall_app_2 Forall_take Forall_drop : ints.

(** A byte read from a span of bytes is a byte. *)
Lemma is_bytes_get s i b : is_bytes s → span_get s i = Done b → is_u8 b.
Proof. apply Forall_span_get. Qed.
#[export] Hint Resolve is_bytes_get : ints.

(** Bytes by computation, for concrete inputs. *)
Lemma is_bytes_dec bs :
  forallb (λ b, (0 <=? b) && (b <? 256)) bs = true → is_bytes bs.
Proof.
  intros H. apply Forall_forall. intros b Hb%list_elem_of_In.
  rewrite forallb_forall in H. specialize (H b Hb). unfold is_u8. lia.
Qed.

(** ** Equality up to the trace

    Two computations that agree on results and states but may log
    differently. *)
Definition untraced {St Ev A} (r : outcome (A * St * list Ev)) : outcome (A * St) :=
  fst <$> r.

Definition eff_equiv {St Ev A} (m1 m2 : eff St Ev A) : Prop :=
  ∀ s, untraced (m1 s) = untraced (m2 s).

#[export] Instance eff_equiv_equivalence St Ev A : Equivalence (@eff_equiv St Ev A).
Proof.
  split; [done|by intros ?? H s; rewrite H|intros ??? H1 H2 s; by rewrite H1].
Qed.

Lemma untraced_bind {St Ev A B} (m : eff St Ev A) (f : A → eff St Ev B) s :
  untraced ((m ≫= f) s) =
    match untraced (m s) with
    | Done (a, s') => untraced (f a s')
    | Stop r => Stop r
    end.
Proof.
  rewrite bind_run. destruct (m s) as [[[a s'] t]|]; cbn; [|done].
  by destruct (f a s') as [[[b s''] t']|].
Qed.

#[export] Instance eff_bind_proper St Ev A B :
  Proper (pointwise_relation A eff_equiv ==> eff_equiv ==> eff_equiv)
    (mbind : (A → eff St Ev B) → eff St Ev A → eff St Ev B).
Proof.
  intros f1 f2 Hf m1 m2 Hm s. rewrite !untraced_bind, Hm.
  destruct (untraced (m2 s)) as [[a s']|]; [apply Hf|done].
Qed.

(** How many events of a trace satisfy a test. *)
Definition count_ev {Ev} (P : Ev → bool) (t : list Ev) : nat := length (filter P t).

Lemma count_ev_app {Ev} (P : Ev → bool) t1 t2 :
  count_ev P (t1 ++ t2) = (count_ev P t1 + count_ev P t2)%nat.
Proof. unfold count_ev. by rewrite filter_app, length_app. Qed.
