(* ===== verification/Logger.v ===== *)
(** * Logging (include/logging/Logger.hpp)

    The LOGGER_* macros, the printf conversions the program's format strings
    use, and [LogDispatch::operator()], which formats into a 256-byte buffer
    and hands one record to plog. A [LogCall] is one expansion of a macro: the
    other components put it in their traces, [LogDispatch_call] says what it
    prints. plog is third-party: its logger is a parameter (the severity
    filter of the default instance, or no instance). *)

From stdpp Require Import prelude list strings pretty.
From Stdlib Require Import ZArith Lia Ascii.
From S2P Require Import Prelude.

(** plog's severities, as the source names them. *)
Module plog.
Inductive Severity := none | fatal | error | warning | info | debug | verbose.

#[export] Instance Severity_eq_dec : EqDecision Severity.
Proof. solve_decision. Defined.
End plog.
Export (hints) plog.

(** printf arguments: integers (chars are promoted) and C strings. *)
Inductive log_arg :=
| AInt (z : Z)
| AStr (s : string).

Record LogCall := mkLog {
  log_severity : plog.Severity;
  log_fmt : string;
  log_args : list log_arg;
}.

Definition LOGGER_NOTICE (fmt : string) (args : list log_arg) : LogCall :=
  mkLog plog.info fmt args.
Definition LOGGER_WARNING (fmt : string) (args : list log_arg) : LogCall :=
  mkLog plog.warning fmt args.
Definition LOGGER_ERROR (fmt : string) (args : list log_arg) : LogCall :=
  mkLog plog.error fmt args.
Definition LOGGER_CRITICAL (fmt : string) (args : list log_arg) : LogCall :=
  mkLog plog.fatal fmt args.

(** What a component's trace needs to carry log calls. *)
Class LogEvent (Ev : Type) := ev_log : LogCall → Ev.
#[export] Instance LogCall_LogEvent : LogEvent LogCall := λ l, l.

Definition log {St Ev} `{LogEvent Ev} (l : LogCall) : eff St Ev () := emit (ev_log l).

(** ** printf *)

Module Printf.

(** A conversion specification: zero flag, width, length modifier. *)
Record spec := Spec { zero_flag : bool; width : nat; bits : Z }.

Definition hex_digit (d : Z) : ascii :=
  ascii_of_N (Z.to_N (if decide (d < 10) then 48 + d else 55 + d)).

Fixpoint hex_digits (fuel : nat) (z : Z) : string :=
  match fuel with
  | O => ""
  | S f =>
      if decide (z < 16) then String (hex_digit z) ""
      else (hex_digits f (z / 16) +:+ String (hex_digit (z mod 16)) "")
  end.

Fixpoint repeat_char (n : nat) (c : ascii) : string :=
  match n with O => "" | S n' => String c (repeat_char n' c) end.

Definition pad (sp : spec) (s : string) : string :=
  repeat_char (width sp - String.length s)
    (if zero_flag sp then "0"%char else " "%char) +:+ s.

(** [%d] and friends, zero padded: the sign precedes the padding. *)
Definition show_signed (sp : spec) (z : Z) : string :=
  if zero_flag sp && bool_decide (z < 0) then
    String "-" (pad (Spec true (width sp - 1) (bits sp)) (pretty (- z)))
  else pad sp (pretty z).

(** [unsigned] conversions reduce the argument to the width of their type. *)
Definition show_unsigned (sp : spec) (z : Z) : string := pad sp (pretty (z mod 2 ^ bits sp)).
Definition show_hex (sp : spec) (z : Z) : string :=
  pad sp (hex_digits 16 (z mod 2 ^ bits sp)).

Definition is_digit (c : ascii) : bool :=
  let n := N_of_ascii c in bool_decide (48 ≤ n ≤ 57)%N.

(** Renders [fmt]; a conversion without a matching argument is undefined
    behaviour in C, and so is a conversion outside the ones modelled here.
    [cur] is the conversion being read, [None] in ordinary text. *)
Fixpoint format (fmt : string) (args : list log_arg) (cur : option spec) : outcome string :=
  match fmt with
  | EmptyString => match cur with None => Done "" | Some _ => Stop Undefined end
  | String c rest =>
      match cur with
      | None =>
          if Ascii.eqb c "%"%char then format rest args (Some (Spec false 0 32))
          else r ← format rest args None; Done (String c r)
      | Some sp =>
          if Ascii.eqb c "%"%char then
            r ← format rest args None; Done (String c r)
          else if Ascii.eqb c "h"%char then
            format rest args (Some (Spec (zero_flag sp) (width sp) (bits sp / 2)))
          else if Ascii.eqb c "l"%char then
            format rest args (Some (Spec (zero_flag sp) (width sp) 64))
          else if Ascii.eqb c "z"%char then
            format rest args (Some (Spec (zero_flag sp) (width sp) 64))
          else if Ascii.eqb c "0"%char && Nat.eqb (width sp) 0 then
            format rest args (Some (Spec true 0 (bits sp)))
          else if is_digit c then
            format rest args
              (Some (Spec (zero_flag sp)
                       (width sp * 10 + (nat_of_ascii c - 48))%nat (bits sp)))
          else
            match args with
            | [] => Stop Undefined
            | a :: args' =>
                s ← (match a with
                     | AStr s => if Ascii.eqb c "s"%char then Done (pad sp s) else Stop Undefined
                     | AInt z =>
                         if Ascii.eqb c "d"%char then Done (show_signed sp z)
                         else if Ascii.eqb c "u"%char then Done (show_unsigned sp z)
                         else if Ascii.eqb c "X"%char then Done (show_hex sp z)
                         else if Ascii.eqb c "c"%char then
                           Done (String (ascii_of_N (Z.to_N (z mod 256))) "")
                         else Stop Undefined
                     end);
                r ← format rest args' None;
                Done (s +:+ r)
            end
      end
  end.

(** [std::snprintf(buf, size, fmt, ...)]: the text left in a buffer of [size]
    bytes (terminator excluded) and the length the full text would have. *)
Definition snprintf (size : nat) (fmt : string) (args : list log_arg) : outcome (string * nat) :=
  s ← format fmt args None;
  Done (String.substring 0 (size - 1) s, String.length s).

End Printf.

(** ** LogDispatch *)

Record source_location := SourceLocation {
  function_name : string;
  line : Z;
  file_name : string;
}.

Record LogDispatch := mkLogDispatch {
  severity : plog.Severity;
  loc : source_location;
}.

(** A [plog::Record] as the appender receives it. *)
Record plog_record := mkRecord {
  rec_severity : plog.Severity;
  rec_func : string;
  rec_line : Z;
  rec_file : string;
  rec_message : string;
}.

Definition k_log_buf_size : nat := 256.

(** [logger]: plog's default instance, if any, as its [checkSeverity]. *)
Definition LogDispatch_call (logger : option (plog.Severity → bool)) (d : LogDispatch)
    (fmt : string) (args : list log_arg) : outcome (list plog_record) :=
  match logger with
  | None => Done []
  | Some checkSeverity =>
      if negb (checkSeverity (severity d)) then Done []
      else
        buf ← (match args with
               | [] => Printf.snprintf k_log_buf_size "%s" [AStr fmt]
               | _ :: _ => Printf.snprintf k_log_buf_size fmt args
               end);
        Done [mkRecord (severity d) (function_name (loc d)) (line (loc d))
                (file_name (loc d)) buf.1]
  end.

(** The dispatch of a macro expansion at [l]. *)
Definition run_log (logger : option (plog.Severity → bool)) (l : source_location) (c : LogCall)
    : outcome (list plog_record) :=
  LogDispatch_call logger (mkLogDispatch (log_severity c) l) (log_fmt c) (log_args c).

Example format_addr :
  Printf.format "%02hhX:%02X %lu %zu%%"
    [AInt 10; AInt 255; AInt 4294967295; AInt 8] None = Done "0A:FF 4294967295 8%".
Proof. vm_compute. reflexivity. Qed.

Example format_temp :
  Printf.format "  Temp : %c%d.%02d" [AInt 45; AInt 5; AInt 7] None = Done "  Temp : -5.07".
Proof. vm_compute. reflexivity. Qed.

(** ** What a dispatch prints *)

Lemma substring_length n s : (String.length (String.substring 0 n s) ≤ n)%nat.
Proof.
  revert s. induction n as [|n IH]; intros [|c s]; cbn; try lia. specialize (IH s). lia.
Qed.

Lemma append_nil_r s : s +:+ "" = s.
Proof. induction s as [|c s IH]; [done|]. change (String c (s +:+ "") = String c s). by rewrite IH. Qed.

Lemma pad_0 b z s : Printf.pad (Printf.Spec b 0 z) s = s.
Proof. done. Qed.

Lemma snprintf_string size s :
  Printf.snprintf size "%s" [AStr s] =
    Done (String.substring 0 (size - 1) s, String.length s).
Proof. unfold Printf.snprintf. cbn. by rewrite append_nil_r. Qed.

(** The text a call formats: the format string itself when there are no
    arguments, so a stray [%] in it is harmless. *)
Definition log_text (c : LogCall) : outcome string :=
  match log_args c with
  | [] => Done (log_fmt c)
  | args => Printf.format (log_fmt c) args None
  end.

Lemma run_log_text chk l c s :
  log_text c = Done s → chk (log_severity c) = true →
  run_log (Some chk) l c =
    Done [mkRecord (log_severity c) (function_name l) (line l) (file_name l)
            (String.substring 0 255 s)].
Proof.
  intros Hs Hchk. unfold run_log, LogDispatch_call, log_text in *. cbn [severity loc].
  rewrite Hchk. cbn [negb]. destruct (log_args c) as [|a args].
  - injection Hs as <-. by rewrite snprintf_string.
  - unfold Printf.snprintf. by rewrite Hs.
Qed.

(** Whatever is logged, a dispatch prints at most one record, its message fits
    the buffer and is a prefix of the formatted text, and a record is printed
    exactly when there is a logger that wants this severity. *)
Theorem run_log_bounded logger l c rs :
  run_log logger l c = Done rs →
  (length rs ≤ 1)%nat ∧
  Forall (λ r, (String.length (rec_message r) < k_log_buf_size)%nat ∧
               rec_severity r = log_severity c ∧
               log_text c ≫= (λ s, Done (String.substring 0 255 s)) = Done (rec_message r)) rs ∧
  (rs ≠ [] ↔ ∃ chk, logger = Some chk ∧ chk (log_severity c) = true).
Proof.
  intros H. destruct logger as [chk|]; 
    [|injection H as <-; split_and!; [cbn; lia|constructor|split; [done|by intros (?&?&?)]]].
  destruct (chk (log_severity c)) eqn:Hchk.
  - destruct (log_text c) as [s|r] eqn:Hs.
    + rewrite (run_log_text _ _ _ s) in H by done. injection H as <-.
      split_and!; [done| |by split; eauto]. constructor; [|done]. cbn.
      split_and!; [|done..]. pose proof (substring_length 255 s). unfold k_log_buf_size. lia.
    + exfalso. unfold run_log, LogDispatch_call, log_text in *. cbn in H. rewrite Hchk in H.
      destruct (log_args c) as [|a args]; [done|].
      unfold Printf.snprintf in H. rewrite Hs in H. done.
  - unfold run_log, LogDispatch_call in H. cbn in H. rewrite Hchk in H. injection H as <-.
    split_and!; [cbn; lia|constructor|]. split; [done|]. intros (chk' & [= <-] & ?). congruence.
Qed.

Lemma run_log_bounded_witness :
  let c := LOGGER_ERROR "Error at %s: %s" [AStr "init"; AStr "Timeout"] in
  let r := mkRecord (log_severity c) "f" 7 "a.cpp" "Error at init: Timeout" in
  Forall (λ r, (String.length (rec_message r) < k_log_buf_size)%nat) [r].
Proof.
  intros c r. destruct (run_log_bounded (Some (λ _, true)) (SourceLocation "f" 7 "a.cpp") c [r])
    as (_ & Hr & _); [vm_compute; reflexivity|].
  eapply Forall_impl; [exact Hr|]. intros x Hx. apply Hx.
Defined.
