(* ===== verification/ErrorHandler.v ===== *)
(** * ErrorHandler (include/error_handler/ErrorHandler.hpp)

    [ErrorHandler<T, E>]: a value or an error code, whose error constructors
    log. The four reference-qualified overloads of each monadic operation are
    four definitions: on [&] and [&&] objects the callback receives a
    reference it may write through or move from, so it runs on the stored
    value as its state; on [const&] and [const&&] objects it cannot. *)

From stdpp Require Import prelude list strings.
From Stdlib Require Import ZArith Lia.
From S2P Require Import Prelude Logger.

(** [std::expected<T, E>]. *)
Inductive expected (T E : Type) :=
| Value (v : T)
| Unexpected (e : E).
Arguments Value {T E} _.
Arguments Unexpected {T E} _.

Record ErrorHandler (T E : Type) := mkErrorHandler { internal_result : expected T E }.
Arguments mkErrorHandler {T E} _.
Arguments internal_result {T E} _.

(** The specialisations of [ErrorTraits<E>]; the primary template answers
    "Unknown Error". *)
Class ErrorTraits (E : Type) := error_name : E → string.
Definition ErrorTraits_primary (E : Type) : ErrorTraits E := λ _, "Unknown Error".

(** ** Construction *)
Section Construct.
Context {T E St Ev : Type} `{ErrorTraits E} `{LogEvent Ev}.

Definition of_value (v : T) : eff St Ev (ErrorHandler T E) :=
  mret (mkErrorHandler (Value v)).

Definition of_error (e : E) (custom_msg loc : string) : eff St Ev (ErrorHandler T E) :=
  log (LOGGER_ERROR "Error at %s: %s - %s"
         [AStr loc; AStr (error_name e); AStr custom_msg]);;
  mret (mkErrorHandler (Unexpected e)).

Definition of_unexpected (e : E) (loc : string) : eff St Ev (ErrorHandler T E) :=
  log (LOGGER_ERROR "Error at %s: %s" [AStr loc; AStr (error_name e)]);;
  mret (mkErrorHandler (Unexpected e)).
End Construct.

(** ** Observers *)
Section Observe.
Context {T E : Type}.

Definition has_value (h : ErrorHandler T E) : bool :=
  match internal_result h with Value _ => true | Unexpected _ => false end.

Definition operator_bool (h : ErrorHandler T E) : bool := has_value h.

(** All four overloads throw [std::bad_expected_access] on an error. *)
Definition value (h : ErrorHandler T E) : outcome T :=
  match internal_result h with Value v => Done v | Unexpected _ => Stop Thrown end.

Definition error (h : ErrorHandler T E) : outcome E :=
  match internal_result h with Value _ => Stop Undefined | Unexpected e => Done e end.

Definition value_or_l (h : ErrorHandler T E) (default_value : T) : T :=
  match internal_result h with Value v => v | Unexpected _ => default_value end.

(** The [&&] overload moves the value out; [moved v] is what the move
    leaves behind in it. *)
Definition value_or_r {Ev} (moved : T → T) (default_value : T) : eff (ErrorHandler T E) Ev T :=
  h ← get;
  match internal_result h with
  | Value v => put (mkErrorHandler (Value (moved v)));; mret v
  | Unexpected _ => mret default_value
  end.
End Observe.

(** ** Monadic operations

    [here] is the name [std::source_location::current().function_name()] gives
    the enclosing instantiation. *)
Section Monadic.
Context {T E Ev : Type} `{ErrorTraits E} `{LogEvent Ev} (here : string).
Implicit Types h : ErrorHandler T E.

(** [*this], mutable: run [f] on the stored value, or on the stored error. *)
Definition on_value {X} (f : eff T Ev X) (v : T) : eff (ErrorHandler T E) Ev X :=
  zoom (λ _, v) (λ v' _, mkErrorHandler (Value v')) id f.
Definition on_error {X} (f : eff E Ev X) (e : E) : eff (ErrorHandler T E) Ev X :=
  zoom (λ _, e) (λ e' _, mkErrorHandler (Unexpected e')) id f.

Definition and_then_l {U} (f : eff T Ev (ErrorHandler U E))
    : eff (ErrorHandler T E) Ev (ErrorHandler U E) :=
  h ← get;
  match internal_result h with
  | Value v => on_value f v
  | Unexpected e => of_unexpected e here
  end.

Definition and_then_cl {U St} h (f : T → eff St Ev (ErrorHandler U E))
    : eff St Ev (ErrorHandler U E) :=
  match internal_result h with
  | Value v => f v
  | Unexpected e => of_unexpected e here
  end.

Definition and_then_r {U} (f : eff T Ev (ErrorHandler U E))
    : eff (ErrorHandler T E) Ev (ErrorHandler U E) :=
  h ← get;
  match internal_result h with
  | Value v => on_value f v
  | Unexpected e => of_unexpected e here
  end.

Definition and_then_cr {U St} h (f : T → eff St Ev (ErrorHandler U E))
    : eff St Ev (ErrorHandler U E) :=
  match internal_result h with
  | Value v => f v
  | Unexpected e => of_unexpected e here
  end.

Definition transform_l {U} (f : eff T Ev U) : eff (ErrorHandler T E) Ev (ErrorHandler U E) :=
  h ← get;
  match internal_result h with
  | Value v => u ← on_value f v; of_value u
  | Unexpected e => of_unexpected e here
  end.

Definition transform_cl {U St} h (f : T → eff St Ev U) : eff St Ev (ErrorHandler U E) :=
  match internal_result h with
  | Value v => u ← f v; of_value u
  | Unexpected e => of_unexpected e here
  end.

Definition transform_r {U} (f : eff T Ev U) : eff (ErrorHandler T E) Ev (ErrorHandler U E) :=
  h ← get;
  match internal_result h with
  | Value v => u ← on_value f v; of_value u
  | Unexpected e => of_unexpected e here
  end.

Definition transform_cr {U St} h (f : T → eff St Ev U) : eff St Ev (ErrorHandler U E) :=
  match internal_result h with
  | Value v => u ← f v; of_value u
  | Unexpected e => of_unexpected e here
  end.

Definition or_else_l {F} (f : eff E Ev (ErrorHandler T F))
    : eff (ErrorHandler T E) Ev (ErrorHandler T F) :=
  h ← get;
  match internal_result h with
  | Unexpected e => on_error f e
  | Value v => of_value v
  end.

Definition or_else_cl {F St} h (f : E → eff St Ev (ErrorHandler T F))
    : eff St Ev (ErrorHandler T F) :=
  match internal_result h with
  | Unexpected e => f e
  | Value v => of_value v
  end.

Definition or_else_r {F} (moved : T → T) (f : eff E Ev (ErrorHandler T F))
    : eff (ErrorHandler T E) Ev (ErrorHandler T F) :=
  h ← get;
  match internal_result h with
  | Unexpected e => on_error f e
  | Value v => put (mkErrorHandler (Value (moved v)));; of_value v
  end.

Definition or_else_cr {F St} h (f : E → eff St Ev (ErrorHandler T F))
    : eff St Ev (ErrorHandler T F) :=
  match internal_result h with
  | Unexpected e => f e
  | Value v => of_value v
  end.

Definition transform_error_l {G} `{ErrorTraits G} (f : eff E Ev G)
    : eff (ErrorHandler T E) Ev (ErrorHandler T G) :=
  h ← get;
  match internal_result h with
  | Value v => of_value v
  | Unexpected e => g ← on_error f e; of_error g "Error transformed" here
  end.

Definition transform_error_cl {G St} `{ErrorTraits G} h (f : E → eff St Ev G)
    : eff St Ev (ErrorHandler T G) :=
  match internal_result h with
  | Value v => of_value v
  | Unexpected e => g ← f e; of_error g "Error transformed" here
  end.

Definition transform_error_r {G} `{ErrorTraits G} (moved : T → T) (f : eff E Ev G)
    : eff (ErrorHandler T E) Ev (ErrorHandler T G) :=
  h ← get;
  match internal_result h with
  | Value v => put (mkErrorHandler (Value (moved v)));; of_value v
  | Unexpected e => g ← on_error f e; of_error g "Error transformed" here
  end.

Definition transform_error_cr {G St} `{ErrorTraits G} h (f : E → eff St Ev G)
    : eff St Ev (ErrorHandler T G) :=
  match internal_result h with
  | Value v => of_value v
  | Unexpected e => g ← f e; of_error g "Error transformed" here
  end.
End Monadic.

(** ** Behaviour *)
Section Laws.
Context {E St Ev : Type} `{ErrorTraits E} `{LogEvent Ev}.

Lemma of_value_run {T} (v : T) (s : St) :
  of_value (E := E) (Ev := Ev) v s = Done (mkErrorHandler (Value v), s, []).
Proof. reflexivity. Qed.

Lemma of_unexpected_run {T} (e : E) loc (s : St) :
  of_unexpected (T := T) (Ev := Ev) e loc s =
    Done (mkErrorHandler (Unexpected e), s,
          [ev_log (LOGGER_ERROR "Error at %s: %s" [AStr loc; AStr (error_name e)])]).
Proof. reflexivity. Qed.

Lemma of_error_run {T} (e : E) msg loc (s : St) :
  of_error (T := T) (Ev := Ev) e msg loc s =
    Done (mkErrorHandler (Unexpected e), s,
          [ev_log (LOGGER_ERROR "Error at %s: %s - %s"
                     [AStr loc; AStr (error_name e); AStr msg])]).
Proof. reflexivity. Qed.

(** The log line a propagated error leaves. *)
Definition propagation_log (here : string) (e : E) : Ev :=
  ev_log (LOGGER_ERROR "Error at %s: %s" [AStr here; AStr (error_name e)]).

(** [and_then] is the bind of a monad whose unit is the value constructor:
    left unit exactly, right unit and associativity up to the log. *)
Theorem and_then_monad {T U V} (here : string) (v : T) (h : ErrorHandler T E)
    (f : T → eff St Ev (ErrorHandler U E)) (g : U → eff St Ev (ErrorHandler V E)) :
  and_then_cl here (mkErrorHandler (Value v)) f = f v ∧
  eff_equiv (and_then_cl here h of_value) (mret (M := eff St Ev) h) ∧
  eff_equiv (h1 ← and_then_cl here h f; and_then_cl here h1 g)
            (and_then_cl here h (λ x, h1 ← f x; and_then_cl here h1 g)).
Proof.
  split_and!; [done| |]; intros s; destruct h as [[x|e]]; cbn; done.
Qed.

(** [chain here fs h] is [h.and_then(f1).and_then(f2)...]. *)
Fixpoint chain {T} (here : string) (fs : list (T → eff St Ev (ErrorHandler T E)))
    (h : ErrorHandler T E) : eff St Ev (ErrorHandler T E) :=
  match fs with
  | [] => mret h
  | f :: fs' => h' ← and_then_cl here h f; chain here fs' h'
  end.

(** An error passes through a pipeline unchanged, no stage runs, and it is
    logged again at every stage (not only where it was created). *)
Theorem chain_error_relogged {T} (here : string)
    (fs : list (T → eff St Ev (ErrorHandler T E))) (e : E) (s : St) :
  chain here fs (mkErrorHandler (Unexpected e)) s =
    Done (mkErrorHandler (Unexpected e), s, replicate (length fs) (propagation_log here e)).
Proof.
  revert s. induction fs as [|f fs IH]; intros s; [done|].
  cbn [chain]. rewrite bind_run. unfold and_then_cl. cbn [internal_result].
  rewrite of_unexpected_run, IH. reflexivity.
Qed.

(** A recovered pipeline: the error reaches the handler, whose answer is the
    result; a value never reaches it and nothing is logged. *)
Theorem or_else_recovers {T F} (h : ErrorHandler T E) (f : E → eff St Ev (ErrorHandler T F)) s :
  or_else_cl h f s =
    match internal_result h with
    | Value v => Done (mkErrorHandler (Value v), s, [])
    | Unexpected e => f e s
    end.
Proof. by destruct h as [[v|e]]. Qed.
End Laws.

(** A callback that only reads its argument, as the mutable overloads and as
    the const overloads call it. *)
Section Readers.
Context {X Ev R : Type} (g : X → outcome (R * list Ev)).

Definition as_ref : eff X Ev R :=
  λ x, match g x with Done (r, t) => Done (r, x, t) | Stop e => Stop e end.
Definition as_cref {St} (x : X) : eff St Ev R :=
  λ s, match g x with Done (r, t) => Done (r, s, t) | Stop e => Stop e end.
End Readers.

Section Overloads.
Context {T E U G Ev : Type} `{ErrorTraits E} `{ErrorTraits G} `{LogEvent Ev}.
Implicit Types h : ErrorHandler T E.

(** The four overloads of each operation answer the same, log the same and
    leave the object as it was, for callbacks that only read (and values
    whose move is a copy). *)
Theorem overloads_agree (here : string) h
    (fa : T → outcome (ErrorHandler U E * list Ev)) (ft : T → outcome (U * list Ev))
    (fo : E → outcome (ErrorHandler T G * list Ev)) (fe : E → outcome (G * list Ev)) :
  (and_then_l here (as_ref fa) h = and_then_cl here h (as_cref fa) h ∧
   and_then_r here (as_ref fa) h = and_then_cl here h (as_cref fa) h ∧
   and_then_cr here h (as_cref fa) h = and_then_cl here h (as_cref fa) h) ∧
  (transform_l here (as_ref ft) h = transform_cl here h (as_cref ft) h ∧
   transform_r here (as_ref ft) h = transform_cl here h (as_cref ft) h ∧
   transform_cr here h (as_cref ft) h = transform_cl here h (as_cref ft) h) ∧
  (or_else_l (as_ref fo) h = or_else_cl h (as_cref fo) h ∧
   or_else_r id (as_ref fo) h = or_else_cl h (as_cref fo) h ∧
   or_else_cr h (as_cref fo) h = or_else_cl h (as_cref fo) h) ∧
  (transform_error_l here (as_ref fe) h = transform_error_cl here h (as_cref fe) h ∧
   transform_error_r here id (as_ref fe) h = transform_error_cl here h (as_cref fe) h ∧
   transform_error_cr here h (as_cref fe) h = transform_error_cl here h (as_cref fe) h).
Proof.
  destruct h as [[v|e]]; split_and!;
    unfold and_then_l, and_then_cl, and_then_r, and_then_cr, transform_l, transform_cl,
      transform_r, transform_cr, or_else_l, or_else_cl, or_else_r, or_else_cr,
      transform_error_l, transform_error_cl, transform_error_r, transform_error_cr;
    try done; unfold on_value, on_error, zoom, as_ref, as_cref, of_value, of_error, log, emit,
      get, put, mbind, eff_bind, mret, eff_ret; cbn;
    repeat first [case_match | progress simplify_eq/=];
    by rewrite ?list_fmap_id, ?app_nil_r.
Qed.
End Overloads.
