(* ===== verification/ErrorCodes.v ===== *)
(** * Error codes

    The error enumerations of every component and their [ErrorTraits]
    specialisations, one Module per header, and the errno values the platform
    wrappers switch on. *)

From stdpp Require Import prelude list strings.
From Stdlib Require Import ZArith Lia.
From S2P Require Import Prelude Logger ErrorHandler.

Module EnoceanErrors.
Inductive EnoceanError :=
| InvalidParameter
| NotInitialised
| DeviceTableFull
| DeviceNotFound
| AuthenticationFailed
| ReplayDetected
| MalformedAdvertisement
| CryptoError
| Unknown.

#[export] Instance EnoceanError_eq_dec : EqDecision EnoceanError.
Proof. solve_decision. Defined.

Definition EnoceanError_name (e : EnoceanError) : string :=
  match e with
  | InvalidParameter => "InvalidParameter"
  | NotInitialised => "NotInitialised"
  | DeviceTableFull => "DeviceTableFull"
  | DeviceNotFound => "DeviceNotFound"
  | AuthenticationFailed => "AuthenticationFailed"
  | ReplayDetected => "ReplayDetected"
  | MalformedAdvertisement => "MalformedAdvertisement"
  | CryptoError => "CryptoError"
  | Unknown => "Unknown"
  end.

#[export] Instance EnoceanError_traits : ErrorTraits EnoceanError := EnoceanError_name.
End EnoceanErrors.
Export (hints) EnoceanErrors.
Abbreviation EnoceanError := EnoceanErrors.EnoceanError.

Module BleErrors.
Inductive BleError :=
| AlreadyInitialised
| NotInitialised
| AdapterNotFound
| PermissionDenied
| ScanStartFailed
| ScanStopFailed
| InvalidCallback
| SystemError.

#[export] Instance BleError_eq_dec : EqDecision BleError.
Proof. solve_decision. Defined.

Definition BleError_name (e : BleError) : string :=
  match e with
  | AlreadyInitialised => "AlreadyInitialised"
  | NotInitialised => "NotInitialised"
  | AdapterNotFound => "AdapterNotFound"
  | PermissionDenied => "PermissionDenied"
  | ScanStartFailed => "ScanStartFailed"
  | ScanStopFailed => "ScanStopFailed"
  | InvalidCallback => "InvalidCallback"
  | SystemError => "SystemError"
  end.

#[export] Instance BleError_traits : ErrorTraits BleError := BleError_name.
End BleErrors.
Export (hints) BleErrors.
Abbreviation BleError := BleErrors.BleError.

Module CryptoErrors.
Inductive CryptoError :=
| NotInitialised
| InvalidKey
| InvalidNonce
| InvalidTag
| AuthFailed
| SystemError.

#[export] Instance CryptoError_eq_dec : EqDecision CryptoError.
Proof. solve_decision. Defined.

Definition CryptoError_name (e : CryptoError) : string :=
  match e with
  | NotInitialised => "NotInitialised"
  | InvalidKey => "InvalidKey"
  | InvalidNonce => "InvalidNonce"
  | InvalidTag => "InvalidTag"
  | AuthFailed => "AuthFailed"
  | SystemError => "SystemError"
  end.

#[export] Instance CryptoError_traits : ErrorTraits CryptoError := CryptoError_name.
End CryptoErrors.
Export (hints) CryptoErrors.
Abbreviation CryptoError := CryptoErrors.CryptoError.

Module MutexErrors.
Inductive MutexError :=
| InvalidParameter
| InsufficientMemory
| ResourceLimitExceeded
| Timeout
| Interrupted
| NotInitialized
| AlreadyInitialized
| Deadlock
| InvalidMutex
| PermissionDenied
| Busy
| Deleted
| WaitAborted
| CallerError
| Unknown.

#[export] Instance MutexError_eq_dec : EqDecision MutexError.
Proof. solve_decision. Defined.

Definition MutexError_name (e : MutexError) : string :=
  match e with
  | InvalidParameter => "Invalid Parameter"
  | InsufficientMemory => "Insufficient Memory"
  | ResourceLimitExceeded => "Resource Limit Exceeded"
  | Timeout => "Operation Timeout"
  | Interrupted => "Operation Interrupted"
  | NotInitialized => "Mutex Not Initialized"
  | AlreadyInitialized => "Mutex Already Initialized"
  | Deadlock => "Deadlock Detected"
  | InvalidMutex => "Invalid Mutex"
  | PermissionDenied => "Permission Denied"
  | Busy => "Mutex Busy"
  | Deleted => "Mutex Deleted"
  | WaitAborted => "Wait Aborted"
  | CallerError => "Caller Error"
  | Unknown => "Unknown Error"
  end.

#[export] Instance MutexError_traits : ErrorTraits MutexError := MutexError_name.

(** [static_cast<int>]: the position in the enumeration. *)
Definition MutexError_code (e : MutexError) : Z :=
  match e with
  | InvalidParameter => 0
  | InsufficientMemory => 1
  | ResourceLimitExceeded => 2
  | Timeout => 3
  | Interrupted => 4
  | NotInitialized => 5
  | AlreadyInitialized => 6
  | Deadlock => 7
  | InvalidMutex => 8
  | PermissionDenied => 9
  | Busy => 10
  | Deleted => 11
  | WaitAborted => 12
  | CallerError => 13
  | Unknown => 14
  end.
End MutexErrors.
Export (hints) MutexErrors.
Abbreviation MutexError := MutexErrors.MutexError.
Abbreviation MutexError_code := MutexErrors.MutexError_code.

Module SemaphoreErrors.
Inductive SemaphoreError :=
| InvalidParameter
| InsufficientMemory
| ResourceLimitExceeded
| Timeout
| Interrupted
| NotInitialized
| AlreadyInitialized
| InvalidSemaphore
| PermissionDenied
| CountOverflow
| Deleted
| WaitAborted
| CallerError
| Unknown.

#[export] Instance SemaphoreError_eq_dec : EqDecision SemaphoreError.
Proof. solve_decision. Defined.

Definition SemaphoreError_name (e : SemaphoreError) : string :=
  match e with
  | InvalidParameter => "Invalid Parameter"
  | InsufficientMemory => "Insufficient Memory"
  | ResourceLimitExceeded => "Resource Limit Exceeded"
  | Timeout => "Operation Timeout"
  | Interrupted => "Operation Interrupted"
  | NotInitialized => "Semaphore Not Initialized"
  | AlreadyInitialized => "Semaphore Already Initialized"
  | InvalidSemaphore => "Invalid Semaphore"
  | PermissionDenied => "Permission Denied"
  | CountOverflow => "Count Overflow"
  | Deleted => "Semaphore Deleted"
  | WaitAborted => "Wait Aborted"
  | CallerError => "Caller Error"
  | Unknown => "Unknown Error"
  end.

#[export] Instance SemaphoreError_traits : ErrorTraits SemaphoreError := SemaphoreError_name.
End SemaphoreErrors.
Export (hints) SemaphoreErrors.
Abbreviation SemaphoreError := SemaphoreErrors.SemaphoreError.

Module MessageQueueErrors.
Inductive MessageQueueError :=
| InvalidParameter
| InsufficientMemory
| ResourceLimitExceeded
| Timeout
| Interrupted
| QueueFull
| QueueEmpty
| InvalidQueue
| AlreadyInitialized
| PermissionDenied
| AlreadyExists
| Unknown.

#[export] Instance MessageQueueError_eq_dec : EqDecision MessageQueueError.
Proof. solve_decision. Defined.

Definition MessageQueueError_name (e : MessageQueueError) : string :=
  match e with
  | InvalidParameter => "Invalid Parameter"
  | InsufficientMemory => "Insufficient Memory"
  | ResourceLimitExceeded => "Resource Limit Exceeded"
  | Timeout => "Operation Timeout"
  | Interrupted => "Operation Interrupted"
  | QueueFull => "Queue Full"
  | QueueEmpty => "Queue Empty"
  | InvalidQueue => "Invalid Queue"
  | AlreadyInitialized => "Already Initialized"
  | PermissionDenied => "Permission Denied"
  | AlreadyExists => "Already Exists"
  | Unknown => "Unknown Error"
  end.

#[export] Instance MessageQueueError_traits : ErrorTraits MessageQueueError := MessageQueueError_name.
End MessageQueueErrors.
Export (hints) MessageQueueErrors.
Abbreviation MessageQueueError := MessageQueueErrors.MessageQueueError.

Module ThreadErrors.
Inductive ThreadError :=
| InvalidParameter
| InsufficientMemory
| ResourceLimitExceeded
| PermissionDenied
| ThreadNotFound
| AlreadyCreated
| Deadlock
| InvalidThread
| Deleted
| CallerError
| InvalidStack
| InvalidPriority
| CreationFailed
| Unknown.

#[export] Instance ThreadError_eq_dec : EqDecision ThreadError.
Proof. solve_decision. Defined.

Definition ThreadError_name (e : ThreadError) : string :=
  match e with
  | InvalidParameter => "Invalid Parameter"
  | InsufficientMemory => "Insufficient Memory"
  | ResourceLimitExceeded => "Resource Limit Exceeded"
  | PermissionDenied => "Permission Denied"
  | ThreadNotFound => "Thread Not Found"
  | AlreadyCreated => "Thread Already Created"
  | Deadlock => "Deadlock Detected"
  | InvalidThread => "Invalid Thread"
  | Deleted => "Thread Deleted"
  | CallerError => "Caller Error"
  | InvalidStack => "Invalid Stack"
  | InvalidPriority => "Invalid Priority"
  | CreationFailed => "Thread Creation Failed"
  | Unknown => "Unknown Error"
  end.

#[export] Instance ThreadError_traits : ErrorTraits ThreadError := ThreadError_name.

(** [static_cast<int>]: the position in the enumeration. *)
Definition ThreadError_code (e : ThreadError) : Z :=
  match e with
  | InvalidParameter => 0
  | InsufficientMemory => 1
  | ResourceLimitExceeded => 2
  | PermissionDenied => 3
  | ThreadNotFound => 4
  | AlreadyCreated => 5
  | Deadlock => 6
  | InvalidThread => 7
  | Deleted => 8
  | CallerError => 9
  | InvalidStack => 10
  | InvalidPriority => 11
  | CreationFailed => 12
  | Unknown => 13
  end.
End ThreadErrors.
Export (hints) ThreadErrors.
Abbreviation ThreadError := ThreadErrors.ThreadError.
Abbreviation ThreadError_code := ThreadErrors.ThreadError_code.

Module GpioErrors.
Inductive GpioError :=
| InvalidParameter
| InvalidPin
| InvalidMode
| IOError
| DeviceNotAvailable
| InsufficientMemory
| Timeout
| PinInUse
| PermissionDenied
| Busy
| NotSupported
| HardwareFault
| Unknown.

#[export] Instance GpioError_eq_dec : EqDecision GpioError.
Proof. solve_decision. Defined.

Definition GpioError_name (e : GpioError) : string :=
  match e with
  | InvalidParameter => "Invalid Parameter"
  | InvalidPin => "Invalid Pin"
  | InvalidMode => "Invalid Mode"
  | IOError => "I/O Error"
  | DeviceNotAvailable => "Device Not Available"
  | InsufficientMemory => "Insufficient Memory"
  | Timeout => "Timeout"
  | PinInUse => "Pin In Use"
  | PermissionDenied => "Permission Denied"
  | Busy => "Busy"
  | NotSupported => "Not Supported"
  | HardwareFault => "Hardware Fault"
  | Unknown => "Unknown Error"
  end.

#[export] Instance GpioError_traits : ErrorTraits GpioError := GpioError_name.

(** [static_cast<int>]: the position in the enumeration. *)
Definition GpioError_code (e : GpioError) : Z :=
  match e with
  | InvalidParameter => 0
  | InvalidPin => 1
  | InvalidMode => 2
  | IOError => 3
  | DeviceNotAvailable => 4
  | InsufficientMemory => 5
  | Timeout => 6
  | PinInUse => 7
  | PermissionDenied => 8
  | Busy => 9
  | NotSupported => 10
  | HardwareFault => 11
  | Unknown => 12
  end.
End GpioErrors.
Export (hints) GpioErrors.
Abbreviation GpioError := GpioErrors.GpioError.
Abbreviation GpioError_code := GpioErrors.GpioError_code.

Module SerialErrors.
Inductive SerialError :=
| InvalidParameter
| InsufficientMemory
| DeviceNotFound
| IOError
| InvalidConfiguration
| Timeout
| DeviceBusy
| NotInitialized
| AlreadyInitialized
| InitializationFailed
| TransmitError
| ReceiveError
| OverrunError
| FramingError
| ParityError
| NoiseError
| BreakCondition
| DmaError
| HardwareFault.

#[export] Instance SerialError_eq_dec : EqDecision SerialError.
Proof. solve_decision. Defined.

Definition SerialError_name (e : SerialError) : string :=
  match e with
  | InvalidParameter => "Invalid Parameter"
  | InsufficientMemory => "Insufficient Memory"
  | DeviceNotFound => "Device Not Found"
  | IOError => "I/O Error"
  | InvalidConfiguration => "Invalid Configuration"
  | Timeout => "Timeout"
  | DeviceBusy => "Device Busy"
  | NotInitialized => "Not Initialized"
  | AlreadyInitialized => "Already Initialized"
  | InitializationFailed => "Initialization Failed"
  | TransmitError => "Transmit Error"
  | ReceiveError => "Receive Error"
  | OverrunError => "Overrun Error"
  | FramingError => "Framing Error"
  | ParityError => "Parity Error"
  | NoiseError => "Noise Error"
  | BreakCondition => "Break Condition"
  | DmaError => "DMA Error"
  | HardwareFault => "Hardware Fault"
  end.

#[export] Instance SerialError_traits : ErrorTraits SerialError := SerialError_name.
End SerialErrors.
Export (hints) SerialErrors.
Abbreviation SerialError := SerialErrors.SerialError.

Module WatchdogErrors.
Inductive WatchdogError :=
| InvalidParameter
| DeviceNotFound
| DeviceNotReady
| NotSupported
| HardwareError
| AlreadyInitialized
| ConfigurationError
| TimeoutOutOfRange
| PrescalerError
| ReloadError.

#[export] Instance WatchdogError_eq_dec : EqDecision WatchdogError.
Proof. solve_decision. Defined.

Definition WatchdogError_name (e : WatchdogError) : string :=
  match e with
  | InvalidParameter => "Invalid Parameter"
  | DeviceNotFound => "Device Not Found"
  | DeviceNotReady => "Device Not Ready"
  | NotSupported => "Not Supported"
  | HardwareError => "Hardware Error"
  | AlreadyInitialized => "Already Initialized"
  | ConfigurationError => "Configuration Error"
  | TimeoutOutOfRange => "Timeout Out Of Range"
  | PrescalerError => "Prescaler Error"
  | ReloadError => "Reload Error"
  end.

#[export] Instance WatchdogError_traits : ErrorTraits WatchdogError := WatchdogError_name.
End WatchdogErrors.
Export (hints) WatchdogErrors.
Abbreviation WatchdogError := WatchdogErrors.WatchdogError.

(** ** errno

    The error numbers the wrappers switch on are the platform's; POSIX and
    Zephyr document them as distinct positive integers. *)
Class Errno := {
  EINVAL : Z; ENOMEM : Z; EAGAIN : Z; ETIMEDOUT : Z; EINTR : Z; EDEADLK : Z; EBUSY : Z;
  EPERM : Z; EALREADY : Z; ENOSPC : Z; EACCES : Z; EOVERFLOW : Z; EBADF : Z; EMFILE : Z;
  ENFILE : Z; EEXIST : Z; ESRCH : Z; ENOTSUP : Z; ENODEV : Z; ENOMSG : Z; EIO : Z;
  errno_distinct : NoDup [EINVAL; ENOMEM; EAGAIN; ETIMEDOUT; EINTR; EDEADLK; EBUSY; EPERM;
    EALREADY; ENOSPC; EACCES; EOVERFLOW; EBADF; EMFILE; ENFILE; EEXIST; ESRCH; ENOTSUP; ENODEV;
    ENOMSG; EIO];
  errno_positive : Forall (λ e, 0 < e) [EINVAL; ENOMEM; EAGAIN; ETIMEDOUT; EINTR; EDEADLK; EBUSY;
    EPERM; EALREADY; ENOSPC; EACCES; EOVERFLOW; EBADF; EMFILE; ENFILE; EEXIST; ESRCH; ENOTSUP;
    ENODEV; ENOMSG; EIO];
}.

Lemma errno_pos `{Errno} : 0 < EAGAIN ∧ 0 < EINTR ∧ 0 < EPERM ∧ 0 < ENOTSUP ∧ 0 < EBUSY ∧ 0 < EINVAL ∧
  0 < ENOMSG.
Proof. pose proof errno_positive as Hp. rewrite !Forall_cons in Hp. tauto. Qed.

Lemma errno_ne_at `{Errno} i j x y :
  [EINVAL; ENOMEM; EAGAIN; ETIMEDOUT; EINTR; EDEADLK; EBUSY; EPERM; EALREADY;
   ENOSPC; EACCES; EOVERFLOW; EBADF; EMFILE; ENFILE; EEXIST; ESRCH; ENOTSUP; ENODEV; ENOMSG; EIO] !! i = Some x →
  [EINVAL; ENOMEM; EAGAIN; ETIMEDOUT; EINTR; EDEADLK; EBUSY; EPERM; EALREADY;
   ENOSPC; EACCES; EOVERFLOW; EBADF; EMFILE; ENFILE; EEXIST; ESRCH; ENOTSUP; ENODEV; ENOMSG; EIO] !! j = Some y →
  i ≠ j → x ≠ y.
Proof. intros Hx Hy Hne ->. by apply Hne, (proj1 (NoDup_alt _) errno_distinct i j y). Qed.

Ltac errno_index x :=
  lazymatch x with
  | EINVAL => constr:(0%nat)
  | ENOMEM => constr:(1%nat)
  | EAGAIN => constr:(2%nat)
  | ETIMEDOUT => constr:(3%nat)
  | EINTR => constr:(4%nat)
  | EDEADLK => constr:(5%nat)
  | EBUSY => constr:(6%nat)
  | EPERM => constr:(7%nat)
  | EALREADY => constr:(8%nat)
  | ENOSPC => constr:(9%nat)
  | EACCES => constr:(10%nat)
  | EOVERFLOW => constr:(11%nat)
  | EBADF => constr:(12%nat)
  | EMFILE => constr:(13%nat)
  | ENFILE => constr:(14%nat)
  | EEXIST => constr:(15%nat)
  | ESRCH => constr:(16%nat)
  | ENOTSUP => constr:(17%nat)
  | ENODEV => constr:(18%nat)
  | ENOMSG => constr:(19%nat)
  | EIO => constr:(20%nat)
  end.

Ltac errno_ne :=
  lazymatch goal with
  | |- ?x ≠ ?y =>
      let i := errno_index x in let j := errno_index y in
      exact (errno_ne_at i j x y eq_refl eq_refl ltac:(discriminate))
  | |- ?x = ?y → False => change (x ≠ y); errno_ne
  | |- ¬ (_ ∨ _) => let E := fresh in intros [E|E]; revert E; errno_ne
  end.

(** [errno_cases] decides every test of one error number against others. *)
Ltac errno_cases :=
  repeat first [rewrite decide_True by (first [reflexivity|left; reflexivity|right; reflexivity])
               |rewrite decide_False by errno_ne].

(** Linux's numbers. *)
Definition linux_errno : Errno.
Proof.
  refine (Build_Errno 22 12 11 110 4 35 16 1 114 28 13 75 9 24 23 17 3 95 19 42 5 _ _).
  - apply (bool_decide_unpack _). vm_compute. exact I.
  - apply (bool_decide_unpack _). vm_compute. exact I.
Defined.

(** Every code logs under a name of its own, so a log line identifies it. *)
Theorem error_names_distinct :
  Inj (=) (=) EnoceanErrors.EnoceanError_name ∧ Inj (=) (=) BleErrors.BleError_name ∧
  Inj (=) (=) CryptoErrors.CryptoError_name ∧ Inj (=) (=) MutexErrors.MutexError_name ∧
  Inj (=) (=) SemaphoreErrors.SemaphoreError_name ∧
  Inj (=) (=) MessageQueueErrors.MessageQueueError_name ∧
  Inj (=) (=) ThreadErrors.ThreadError_name ∧ Inj (=) (=) GpioErrors.GpioError_name ∧
  Inj (=) (=) SerialErrors.SerialError_name ∧ Inj (=) (=) WatchdogErrors.WatchdogError_name.
Proof. split_and!; intros [] []; done. Qed.
