(* ===== verification/Types.v ===== *)
(** * Shared EnOcean types (src/enocean/EnoceanTypes.hpp)

    Protocol constants, the device table entry, the sensor report, the callback
    table, and their C++ types as well-formedness predicates. *)

From stdpp Require Import prelude list strings.
From Stdlib Require Import ZArith Lia.
From S2P Require Import Prelude Logger.

Definition k_enocean_manufacturer_id : Z := 0x03DA.
Definition k_key_len : nat := 16.
Definition k_tag_len : nat := 4.
Definition k_nonce_len : nat := 13.
Definition k_addr_len : nat := 6.
Definition k_max_devices : nat := 8.

Definition k_switch_oa : Z := 0x01.
Definition k_switch_ia : Z := 0x02.
Definition k_switch_ob : Z := 0x04.
Definition k_switch_ib : Z := 0x08.
Definition k_switch_o : Z := k_switch_oa.
Definition k_switch_i : Z := k_switch_ia.

Inductive ButtonAction := Release | Press.
Inductive DeviceType := Switch | Sensor | UnknownType.

#[export] Instance ButtonAction_eq_dec : EqDecision ButtonAction.
Proof. solve_decision. Defined.
#[export] Instance DeviceType_eq_dec : EqDecision DeviceType.
Proof. solve_decision. Defined.

(** [struct BleAddr]: [addr] has [k_addr_len] bytes, the first is the least
    significant. *)
Record BleAddr := mkBleAddr {
  addr : bytes;
  addr_type : Z;
}.

(** [struct EnoceanDevice]. *)
Record EnoceanDevice := mkDevice {
  ble_addr : BleAddr;
  key : bytes;
  seq_num : Z;
  rssi : Z;
  type : DeviceType;
  active : bool;
}.

(** [EnoceanDevice{}]. *)
Definition default_device : EnoceanDevice :=
  mkDevice (mkBleAddr (replicate k_addr_len 0) 0) (replicate k_key_len 0) 0 0 UnknownType false.

#[export] Instance BleAddr_eq_dec : EqDecision BleAddr.
Proof. solve_decision. Defined.
#[export] Instance EnoceanDevice_eq_dec : EqDecision EnoceanDevice.
Proof. solve_decision. Defined.

#[export] Instance EnoceanDevice_inhabited : Inhabited EnoceanDevice := populate default_device.

(** Assignments to one member. *)
Definition set_seq_num (z : Z) (d : EnoceanDevice) : EnoceanDevice :=
  mkDevice (ble_addr d) (key d) z (rssi d) (type d) (active d).
Definition set_rssi (z : Z) (d : EnoceanDevice) : EnoceanDevice :=
  mkDevice (ble_addr d) (key d) (seq_num d) z (type d) (active d).
Definition set_key (k : bytes) (d : EnoceanDevice) : EnoceanDevice :=
  mkDevice (ble_addr d) k (seq_num d) (rssi d) (type d) (active d).
Definition set_type (t : DeviceType) (d : EnoceanDevice) : EnoceanDevice :=
  mkDevice (ble_addr d) (key d) (seq_num d) (rssi d) t (active d).
Definition set_active (b : bool) (d : EnoceanDevice) : EnoceanDevice :=
  mkDevice (ble_addr d) (key d) (seq_num d) (rssi d) (type d) b.
Definition set_addr_type (z : Z) (d : EnoceanDevice) : EnoceanDevice :=
  mkDevice (mkBleAddr (addr (ble_addr d)) z) (key d) (seq_num d) (rssi d) (type d) (active d).
Definition set_addr (a : bytes) (d : EnoceanDevice) : EnoceanDevice :=
  mkDevice (mkBleAddr a (addr_type (ble_addr d))) (key d) (seq_num d) (rssi d) (type d) (active d).

(** [struct SensorData]. *)
Record SensorData := mkSensorData {
  occupancy : option bool;
  light_sensor : option Z;
  battery_voltage : option Z;
  light_solar_cell : option Z;
  energy_lvl : option Z;
  temperature_cdeg : option Z;
  humidity : option Z;
  contact : option bool;
  accel_status : option Z;
  accel_x_cg : option Z;
  accel_y_cg : option Z;
  accel_z_cg : option Z;
}.

(** [SensorData{}]. *)
Definition empty_sensor_data : SensorData :=
  mkSensorData None None None None None None None None None None None None.

#[export] Instance SensorData_eq_dec : EqDecision SensorData.
Proof. solve_decision. Defined.

(** A C function pointer; [None] is [nullptr]. *)
Abbreviation fn_ptr := (option nat).

(** [struct EnoceanCallbacks]. *)
Record EnoceanCallbacks := mkCallbacks {
  cb_button : fn_ptr;
  cb_sensor : fn_ptr;
  cb_commissioned : fn_ptr;
  cb_decommissioned : fn_ptr;
  cb_loaded : fn_ptr;
}.

(** What the driver does to the outside: log lines and callback invocations
    with their arguments. [opt_data] is the memory the pointer argument points
    to, up to the end of the payload. *)
Inductive event :=
| EvLog (l : LogCall)
| EvButton (fn : nat) (device : EnoceanDevice) (action : ButtonAction) (changed : Z)
    (opt_data : option bytes) (opt_len : nat)
| EvSensor (fn : nat) (device : EnoceanDevice) (data : SensorData)
    (opt_data : option bytes) (opt_len : nat)
| EvCommissioned (fn : nat) (device : EnoceanDevice).

#[export] Instance event_LogEvent : LogEvent event := EvLog.

(** ** The C++ types as predicates *)

Definition wf_addr (a : bytes) : Prop := length a = k_addr_len ∧ is_bytes a.

Record wf_device (d : EnoceanDevice) : Prop := {
  wf_dev_addr : wf_addr (addr (ble_addr d));
  wf_dev_addr_type : is_u8 (addr_type (ble_addr d));
  wf_dev_key : length (key d) = k_key_len ∧ is_bytes (key d);
  wf_dev_seq : is_u32 (seq_num d);
  wf_dev_rssi : is_i8 (rssi d);
}.

(** [P] of the value, if there is one. *)
Definition opt_all {A} (P : A → Prop) (o : option A) : Prop :=
  match o with Some a => P a | None => True end.

Record wf_sensor_data (s : SensorData) : Prop := {
  wf_light : opt_all is_u16 (light_sensor s);
  wf_battery : opt_all is_u16 (battery_voltage s);
  wf_solar : opt_all is_u16 (light_solar_cell s);
  wf_energy : opt_all is_u8 (energy_lvl s);
  wf_temp : opt_all is_i16 (temperature_cdeg s);
  wf_humidity : opt_all is_u8 (humidity s);
  wf_status : opt_all is_u8 (accel_status s);
  wf_x : opt_all is_i16 (accel_x_cg s);
  wf_y : opt_all is_i16 (accel_y_cg s);
  wf_z : opt_all is_i16 (accel_z_cg s);
}.

Lemma wf_default_device : wf_device default_device.
Proof.
  split; cbn; unfold wf_addr, is_bytes, is_u8, is_u32, is_i8;
    repeat split; (done || lia || by repeat constructor).
Qed.

Lemma wf_empty_sensor_data : wf_sensor_data empty_sensor_data.
Proof. by split. Qed.
