(* ===== verification/AdParser.v ===== *)
(** * AD structure parsing (EnoceanDriver::extract_manufacturer_data)

    The walk over the length-type-value list of a BLE advertisement that finds
    the first manufacturer-specific structure of the EnOcean company, the AD
    format it parses, and when the walk reads outside the advertisement. *)

From stdpp Require Import prelude list.
From Stdlib Require Import ZArith Lia.
From S2P Require Import Prelude Logger Types.

Definition k_ad_type_manufacturer : Z := 0xFF.

(** One iteration of the [while] loop at position [i]: go on at a position, or
    return a payload (the empty span for every [break] and [return {}]). *)
Definition ad_step (adv_data : bytes) (i : nat) : outcome (nat + bytes) :=
  if decide (i < length adv_data)%nat then
    len ← span_get adv_data i;
    if decide (len = 0) then Done (inr [])
    else if decide (length adv_data < i + Z.to_nat len)%nat then Done (inr [])
    else
      let i := S i in
      type ← span_get adv_data i;
      if decide (type = k_ad_type_manufacturer) then
        rest ← size_sub (length adv_data) i;
        if decide (rest < 3)%nat then Done (inr [])
        else
          c0 ← span_get adv_data (i + 1);
          c1 ← span_get adv_data (i + 2);
          let company_id := u16 (Z.lor c0 (Z.shiftl c1 8)) in
          if decide (company_id = k_enocean_manufacturer_id) then
            if decide (Z.to_nat len < 3)%nat then Done (inr [])
            else
              payload_len ← size_sub (Z.to_nat len) 3;
              p ← subspan adv_data (i + 3) payload_len;
              Done (inr p)
          else Done (inl (i + Z.to_nat len)%nat)
      else Done (inl (i + Z.to_nat len)%nat)
  else Done (inr []).

Definition extract_manufacturer_data (adv_data : bytes) : outcome bytes :=
  loop (S (length adv_data)) (ad_step adv_data) 0%nat.

(** ** The AD format *)

Record ad_structure := mkAd { ad_type : Z; ad_data : bytes }.

Definition ad_bytes (a : ad_structure) : bytes :=
  Z.of_nat (S (length (ad_data a))) :: ad_type a :: ad_data a.

Definition encode_ads (ads : list ad_structure) : bytes := concat (ad_bytes <$> ads).

(** A structure fits its length byte; a manufacturer structure carries at
    least a company identifier. *)
Record wf_ad (a : ad_structure) : Prop := {
  wf_ad_type : is_u8 (ad_type a);
  wf_ad_data : is_bytes (ad_data a);
  wf_ad_len : (length (ad_data a) ≤ 254)%nat;
  wf_ad_mfr : ad_type a = k_ad_type_manufacturer → (2 ≤ length (ad_data a))%nat;
}.

Definition is_enocean (a : ad_structure) : bool :=
  bool_decide (ad_type a = k_ad_type_manufacturer ∧ take 2 (ad_data a) = [0xDA; 0x03]).

(** What the parser is for: the body of the first EnOcean structure. *)
Fixpoint first_enocean (ads : list ad_structure) : bytes :=
  match ads with
  | [] => []
  | a :: ads' => if is_enocean a then drop 2 (ad_data a) else first_enocean ads'
  end.

(** What may follow the last structure: nothing, or padding that starts with
    a zero length. *)
Definition ad_padding (pad : bytes) : Prop := pad = [] ∨ ∃ rest, pad = 0 :: rest.

(** ** Lemmas *)

Lemma company_id_eq c0 c1 :
  is_u8 c0 → is_u8 c1 →
  u16 (Z.lor c0 (Z.shiftl c1 8)) = k_enocean_manufacturer_id ↔ c0 = 0xDA ∧ c1 = 0x03.
Proof.
  unfold is_u8, k_enocean_manufacturer_id. intros H0 H1.
  rewrite lor_shiftl_add by lia. rewrite u16_small by (unfold is_u16; lia). lia.
Qed.

Lemma ad_step_advances data i j :
  ad_step data i = Done (inl j) → (i < j)%nat ∧ (i < length data)%nat.
Proof.
  unfold ad_step. intros H. out_inv; lia.
Qed.

(** Fuel beyond what is left of the advertisement changes nothing. *)
Lemma ad_loop_fuel data f1 f2 i :
  (length data - i < f1)%nat → (length data - i < f2)%nat →
  loop f1 (ad_step data) i = loop f2 (ad_step data) i.
Proof.
  intros H1 H2.
  apply (loop_fuel (ad_step data) (λ i, length data - i)%nat (λ _, True)); [|done..].
  intros s s' _ [? ?]%ad_step_advances. split; [done|lia].
Qed.

(** One iteration on a well-formed structure: return its body, or move to the
    next structure. *)
Lemma ad_step_struct pre a suf :
  wf_ad a →
  ad_step (pre ++ ad_bytes a ++ suf) (length pre) =
    if is_enocean a then Done (inr (drop 2 (ad_data a)))
    else Done (inl (length pre + length (ad_bytes a))%nat).
Proof.
  intros [Hty Hdata Hlen Hmfr]. destruct a as [ty dat]. cbn [ad_type ad_data] in *.
  unfold ad_step, is_enocean, ad_bytes. cbn [ad_type ad_data].
  remember (length dat) as n eqn:Hn.
  set (D := pre ++ _). set (R := Z.of_nat (S n) :: ty :: dat ++ suf).
  assert (length D = (length pre + (2 + n + length suf)))%nat as EL.
  { unfold D. rewrite !length_app. cbn. lia. }
  assert (∀ i k, i = (length pre + k)%nat → span_get D i = span_get R k) as EG.
  { intros i k ->. apply span_get_app. }
  assert (∀ i k m, i = (length pre + k)%nat → subspan D i m = subspan R k m) as ES.
  { intros i k m ->. apply subspan_app. }
  clearbody D. cbv zeta.
  rewrite (EG (length pre) 0%nat), (EG (S (length pre)) 1%nat),
    (EG (S (length pre) + 1)%nat 2%nat), (EG (S (length pre) + 2)%nat 3%nat), EL by lia.
  rewrite decide_True by lia. cbn -[Z.of_nat Nat.add].
  rewrite decide_False by lia. rewrite Nat2Z.id, decide_False by lia.
  case_decide as Ht; cycle 1.
  { rewrite bool_decide_eq_false_2 by tauto. do 2 f_equal. lia. }
  specialize (Hmfr Ht). rewrite (size_sub_in (length pre + _)) by lia. cbn -[Z.of_nat Nat.add].
  rewrite decide_False by lia.
  destruct dat as [|c0 [|c1 body]]; [cbn in *; lia..|]. cbn [length] in Hn.
  cbn -[Z.of_nat Nat.add].
  apply Forall_cons in Hdata as [Hc0 [Hc1 _]%Forall_cons].
  destruct (decide (u16 (Z.lor c0 (Z.shiftl c1 8)) = k_enocean_manufacturer_id)) as [Hc|Hc].
  - apply company_id_eq in Hc as [-> ->]; [|done..].
    rewrite bool_decide_eq_true_2 by done. rewrite decide_False by lia.
    rewrite size_sub_in by lia. cbn -[Z.of_nat Nat.add]. rewrite (ES _ 4%nat) by lia. rewrite subspan_in.
    2: { unfold R. cbn. rewrite length_app. lia. }
    unfold R. cbn -[Z.of_nat Nat.sub]. rewrite Hn. cbn.
    by rewrite Nat.sub_0_r, drop_0, take_app_length.
  - rewrite bool_decide_eq_false_2; [do 2 f_equal; lia|].
    intros [_ E]. apply Hc, company_id_eq; [done..|]. by injection E as -> ->.
Qed.

Lemma ad_step_pad pre pad :
  ad_padding pad → ad_step (pre ++ pad) (length pre) = Done (inr []).
Proof.
  unfold ad_step. intros [->|[rest ->]].
  - rewrite app_nil_r, decide_False by lia. done.
  - rewrite decide_True by (rewrite length_app; cbn; lia).
    pose proof (span_get_app pre (0 :: rest) 0) as E. rewrite Nat.add_0_r in E.
    by rewrite E.
Qed.

Lemma ad_loop_encode ads : ∀ pre pad fuel,
  Forall wf_ad ads → ad_padding pad → (length (encode_ads ads ++ pad) < fuel)%nat →
  loop fuel (ad_step (pre ++ encode_ads ads ++ pad)) (length pre) = Done (first_enocean ads).
Proof.
  induction ads as [|a ads IH]; intros pre pad [|fuel] Hwf Hpad Hfuel; [lia| |lia|].
  - cbn [encode_ads loop]. cbn [encode_ads concat fmap list_fmap app]. by rewrite ad_step_pad.
  - apply Forall_cons in Hwf as [Ha Hwf].
    replace (encode_ads (a :: ads) ++ pad) with (ad_bytes a ++ (encode_ads ads ++ pad)) in *
      by (unfold encode_ads; cbn; by rewrite <- app_assoc).
    cbn [loop]. rewrite ad_step_struct by done. cbn [first_enocean].
    destruct (is_enocean a); [done|].
    rewrite (app_assoc pre). rewrite <- length_app. apply IH; [done..|].
    rewrite length_app in Hfuel. unfold ad_bytes in Hfuel. cbn in Hfuel. lia.
Qed.

Lemma extract_ads ads pad :
  Forall wf_ad ads → ad_padding pad →
  extract_manufacturer_data (encode_ads ads ++ pad) = Done (first_enocean ads).
Proof. intros. apply (ad_loop_encode ads []); [done..|lia]. Qed.

(** C30. The parser applied to an encoded advertisement returns the body of the
    first EnOcean structure (or nothing), whatever surrounds it. *)
Theorem extract_encode ads pad :
  Forall wf_ad ads → ad_padding pad →
  extract_manufacturer_data (encode_ads ads ++ pad) = Done (first_enocean ads).
Proof. apply extract_ads. Qed.

(** An advertisement that carries payload [p] in its first EnOcean structure. *)
Definition enocean_ad (p : bytes) : ad_structure := mkAd k_ad_type_manufacturer (0xDA :: 0x03 :: p).

Definition carries (data p : bytes) : Prop :=
  ∃ ads rest pad, Forall wf_ad ads ∧ Forall wf_ad rest ∧ ad_padding pad ∧
    Forall (λ a, is_enocean a = false) ads ∧
    data = encode_ads (ads ++ enocean_ad p :: rest) ++ pad.

Lemma first_enocean_app ads p rest :
  Forall (λ a, is_enocean a = false) ads → first_enocean (ads ++ enocean_ad p :: rest) = p.
Proof. induction 1 as [|a ads Ha _ IH]; cbn [app first_enocean]; [done|]. by rewrite Ha. Qed.

Lemma enocean_ad_wf p : is_bytes p → (length p ≤ 252)%nat → wf_ad (enocean_ad p).
Proof.
  intros Hb Hp. split; cbn; [unfold is_u8, k_ad_type_manufacturer; lia| |lia|lia].
  repeat constructor; (done || unfold is_u8; lia).
Qed.

Lemma extract_carries data p :
  carries data p → is_bytes p → (length p ≤ 252)%nat → extract_manufacturer_data data = Done p.
Proof.
  intros (ads & rest & pad & Hads & Hrest & Hpad & Hfirst & ->) Hb Hp.
  rewrite extract_ads; [by rewrite first_enocean_app| |done].
  apply Forall_app. split; [done|]. constructor; [by apply enocean_ad_wf|done].
Qed.

(** ** What a returned payload is *)

Lemma ad_step_payload data i p :
  is_bytes data → ad_step data i = Done (inr p) →
  p = [] ∨ ∃ pre suf, data = pre ++ (Z.of_nat (length p + 3) :: 0xFF :: 0xDA :: 0x03 :: p) ++ suf.
Proof.
  intros Hb H. unfold ad_step in H.
  repeat first [by injection H as <-; left | out_inv1]; [].
  right. rename x into len, x0 into ty.
  repeat match goal with H : span_get _ _ = Done _ |- _ =>
    pose proof (is_bytes_get _ _ _ Hb H); apply span_get_Done in H end.
  match goal with H : u16 _ = _ |- _ => apply company_id_eq in H as [-> ->]; [|done..] end.
  repeat match goal with
    | H : size_sub _ _ = Done _ |- _ => unfold size_sub in H; case_decide; [injection H as <-|done]
    | H : subspan _ _ _ = Done _ |- _ => apply subspan_Done in H as [? ->] end.
  subst p. exists (take i data), (drop (Z.to_nat len - 3) (drop (S i + 3) data)).
  rewrite length_take, length_drop, Nat.min_l by lia. rewrite Nat.sub_add by lia.
  rewrite Z2Nat.id by (unfold is_u8 in *; lia). cbn [app]. rewrite take_drop. subst ty.
  rewrite <- (take_drop i data) at 1. f_equal.
  replace (S i + 3)%nat with (S (S (S (S i)))) by lia.
  replace (S i + 2)%nat with (S (S (S i))) in * by lia.
  replace (S i + 1)%nat with (S (S i)) in * by lia.
  do 4 (erewrite drop_S by eassumption). done.
Qed.

Lemma ad_loop_payload data p : is_bytes data → ∀ fuel i,
  loop fuel (ad_step data) i = Done p →
  p = [] ∨ ∃ pre suf, data = pre ++ (Z.of_nat (length p + 3) :: 0xFF :: 0xDA :: 0x03 :: p) ++ suf.
Proof.
  intros Hb fuel. induction fuel as [|fuel IH]; intros i H; [discriminate H|]. cbn in H.
  destruct (ad_step data i) as [[j|q]|] eqn:Hs; [|injection H as <-|discriminate H].
  - by apply (IH j).
  - by apply (ad_step_payload data i).
Qed.

Lemma extract_payload_cases data p :
  is_bytes data → extract_manufacturer_data data = Done p →
  p = [] ∨ ∃ pre suf, data = pre ++ (Z.of_nat (length p + 3) :: 0xFF :: 0xDA :: 0x03 :: p) ++ suf.
Proof. intros Hb. by apply ad_loop_payload. Qed.

Lemma extract_payload_bytes data p :
  is_bytes data → extract_manufacturer_data data = Done p → is_bytes p.
Proof.
  intros Hb H. destruct (extract_payload_cases _ _ Hb H) as [->|(pre & suf & ->)]; [constructor|].
  apply Forall_app in Hb as [_ Hb]. apply Forall_app in Hb as [Hb _].
  do 4 (apply Forall_cons in Hb as [_ Hb]). done.
Qed.

(** A non-empty payload is the body of a complete manufacturer structure of
    the EnOcean company inside the advertisement, exactly as long as the
    structure's length byte says, and it consists of bytes. *)
Theorem extract_payload_framed data p :
  is_bytes data → extract_manufacturer_data data = Done p → p ≠ [] →
  is_bytes p ∧
  ∃ pre suf, data = pre ++ (Z.of_nat (length p + 3) :: 0xFF :: 0xDA :: 0x03 :: p) ++ suf.
Proof.
  intros Hb H Hp. split; [by eapply extract_payload_bytes|].
  by destruct (extract_payload_cases _ _ Hb H).
Qed.

(** ** When the walk leaves the advertisement

    The length check [i + len > size] lets through a structure that claims
    exactly one byte more than there is. *)

Inductive ad_walk (data : bytes) : nat → Prop :=
| ad_walk_start : ad_walk data 0
| ad_walk_next i j : ad_walk data i → ad_step data i = Done (inl j) → ad_walk data j.

(** At position [i] stands a length byte that overruns by one, and what
    follows makes the code use the missing byte. *)
Definition overruns_at (data : bytes) (i : nat) : Prop :=
  ∃ len, data !! i = Some len ∧ (i + Z.to_nat len)%nat = length data ∧
    (len = 1 ∨ 4 ≤ len ∧ data !! (i + 1)%nat = Some 0xFF ∧
     data !! (i + 2)%nat = Some 0xDA ∧ data !! (i + 3)%nat = Some 0x03).

Lemma overruns_at_len data i len :
  data !! i = Some len →
  overruns_at data i ↔
    (i + Z.to_nat len)%nat = length data ∧
    (len = 1 ∨ 4 ≤ len ∧ data !! (i + 1)%nat = Some 0xFF ∧
     data !! (i + 2)%nat = Some 0xDA ∧ data !! (i + 3)%nat = Some 0x03).
Proof. unfold overruns_at. intros ->. naive_solver. Qed.

Lemma ad_step_undefined data i :
  is_bytes data → ad_step data i = Stop Undefined ↔ overruns_at data i.
Proof.
  intros Hb. unfold ad_step.
  destruct (decide (i < length data)%nat) as [Hi|Hi]; cycle 1.
  { split; [done|]. intros (len & ?%lookup_lt_Some & _). lia. }
  destruct (span_get_lt data i Hi) as (len & Hlen & Elen).
  rewrite Elen, (overruns_at_len _ _ _ Hlen). cbn -[Nat.add].
  assert (is_u8 len) as Hu by eauto with ints. unfold is_u8 in Hu.
  case_decide; [split; [done|lia]|]. case_decide; [split; [done|lia]|].
  destruct (decide (S i < length data)%nat) as [Hi1|Hi1]; cycle 1.
  { rewrite (span_get_ge data (S i)) by lia. split; [intros _; lia|done]. }
  destruct (span_get_lt data (S i) Hi1) as (ty & Hty & Ety). rewrite Ety. cbn -[Nat.add].
  replace (i + 1)%nat with (S i) by lia. rewrite Hty.
  case_decide as Ht; [subst ty|split; [done|]; intros [? [?|(_ & [= ->] & _)]]; [lia|done]].
  rewrite (size_sub_in (length data)) by lia. cbn -[Nat.add].
  case_decide; [split; [done|intros [? [?|?]]; lia]|].
  destruct (span_get_lt data (S i + 1)) as (c0 & Hc0 & Ec0); [lia|].
  destruct (span_get_lt data (S i + 2)) as (c1 & Hc1 & Ec1); [lia|].
  assert (is_u8 c0 ∧ is_u8 c1) as [] by eauto with ints.
  rewrite Ec0. cbn -[Nat.add]. rewrite Ec1. cbn -[Nat.add].
  replace (i + 2)%nat with (S i + 1)%nat by lia. rewrite Hc0.
  replace (i + 3)%nat with (S i + 2)%nat by lia. rewrite Hc1.
  destruct (decide (u16 _ = _)) as [Hc|Hc]; rewrite company_id_eq in Hc by done.
  - destruct Hc as [-> ->]. case_decide; [split; [done|lia]|].
    rewrite size_sub_in by lia. cbn -[Nat.add]. unfold subspan.
    case_decide; cbn; [split; [done|intros [? _]; lia]|].
    split; [intros _|done]. split; [lia|right; split_and!; (done || lia)].
  - split; [done|]. intros [? [?|(_ & _ & [= ->] & [= ->])]]; [lia|tauto].
Qed.

Lemma ad_loop_undefined data :
  is_bytes data → ∀ fuel i,
  (length data - i < fuel)%nat → ad_walk data i →
  loop fuel (ad_step data) i = Stop Undefined → ∃ j, ad_walk data j ∧ overruns_at data j.
Proof.
  intros Hb. induction fuel as [|fuel IH]; intros i Hf Hw H; [lia|]. cbn in H.
  destruct (ad_step data i) as [[j|q]|r] eqn:Hs; [|done|].
  - pose proof (ad_step_advances _ _ _ Hs).
    apply (IH j); [lia| |done]. by eapply ad_walk_next.
  - injection H as ->. exists i. by rewrite <- ad_step_undefined.
Qed.

Lemma ad_walk_loop data i :
  ad_walk data i →
  extract_manufacturer_data data = loop (S (length data - i)) (ad_step data) i.
Proof.
  induction 1 as [|i j _ IH Hs]; [unfold extract_manufacturer_data; by rewrite Nat.sub_0_r|].
  pose proof (ad_step_advances _ _ _ Hs). rewrite IH.
  transitivity (loop (length data - i) (ad_step data) j); [cbn [loop]; by rewrite Hs|].
  apply ad_loop_fuel; lia.
Qed.

Lemma ad_step_stop data i r : ad_step data i = Stop r → r = Undefined.
Proof.
  unfold ad_step, size_sub, subspan. intros H.
  repeat first [discriminate H | injection H as <-; done | case_decide
               | unfold span_get in H; case_match | progress cbn -[Nat.add] in H].
Qed.

Lemma extract_outcome data :
  is_bytes data →
  (∃ p, extract_manufacturer_data data = Done p) ∨
  extract_manufacturer_data data = Stop Undefined ∧ ∃ i, ad_walk data i ∧ overruns_at data i.
Proof.
  intros Hb. destruct (extract_manufacturer_data data) as [p|r] eqn:H; [by eauto|right].
  assert (r = Undefined) as ->.
  { revert H. unfold extract_manufacturer_data. generalize (Nat.lt_succ_diag_r (length data)).
    intros Hf. eapply (loop_rule (ad_step data) (λ i, length data - i)%nat (λ _, True)
      (λ o, o = Stop r → r = Undefined)); [|done|lia].
    intros i _. destruct (ad_step data i) as [[j|q]|r'] eqn:Hs; [|done|].
    - pose proof (ad_step_advances _ _ _ Hs). lia.
    - intros [= ->]. by apply ad_step_stop in Hs. }
  split; [done|]. eapply ad_loop_undefined; [done| |apply ad_walk_start|exact H]. lia.
Qed.

Lemma overruns_undefined data i :
  is_bytes data → ad_walk data i → overruns_at data i → extract_manufacturer_data data = Stop Undefined.
Proof.
  intros Hb Hw Ho%ad_step_undefined; [|done]. rewrite (ad_walk_loop _ _ Hw). cbn [loop]. by rewrite Ho.
Qed.

(** C31. The parser always finishes, and it reads outside the advertisement exactly
    when its walk meets a structure that overruns the end by one byte. *)
Theorem extract_undefined_iff data :
  is_bytes data →
  ((∃ p, extract_manufacturer_data data = Done p) ∨
   extract_manufacturer_data data = Stop Undefined) ∧
  (extract_manufacturer_data data = Stop Undefined ↔
   ∃ i, ad_walk data i ∧ overruns_at data i).
Proof.
  intros Hb. split; [by destruct (extract_outcome data) as [?|[? _]]; auto|]. split.
  - intros E. destruct (extract_outcome data Hb) as [[p Hp]|[_ ?]]; [congruence|done].
  - intros (i & Hw & Ho). by eapply overruns_undefined.
Qed.

(** A one-byte advertisement [01], and a manufacturer structure whose last
    byte is missing. *)
Lemma extract_undefined_iff_witness :
  is_bytes [0x01] ∧ is_bytes [0x02; 0x01; 0x06; 0x05; 0xFF; 0xDA; 0x03; 0xAA] ∧
  (∃ i, ad_walk [0x02; 0x01; 0x06; 0x05; 0xFF; 0xDA; 0x03; 0xAA] i ∧
        overruns_at [0x02; 0x01; 0x06; 0x05; 0xFF; 0xDA; 0x03; 0xAA] i) ∧
  (∃ i, ad_walk [0x01] i ∧ overruns_at [0x01] i).
Proof.
  assert (is_bytes [0x01]) as H1 by (apply is_bytes_dec; reflexivity).
  assert (is_bytes [0x02; 0x01; 0x06; 0x05; 0xFF; 0xDA; 0x03; 0xAA]) as H2
    by (apply is_bytes_dec; reflexivity).
  split; [exact H1|]. split; [exact H2|]. split.
  - apply (proj2 (extract_undefined_iff _ H2)). vm_compute. reflexivity.
  - apply (proj2 (extract_undefined_iff _ H1)). vm_compute. reflexivity.
Defined.

(** Flags, then an EnOcean structure of three bytes, then padding. *)
Definition sample_adv : bytes :=
  [0x02; 0x01; 0x06; 0x06; 0xFF; 0xDA; 0x03; 0xAA; 0xBB; 0xCC; 0x00; 0x00].

Lemma extract_payload_framed_witness :
  is_bytes [0xAA; 0xBB; 0xCC] ∧
  ∃ pre suf, sample_adv = pre ++ [0x06; 0xFF; 0xDA; 0x03; 0xAA; 0xBB; 0xCC] ++ suf.
Proof.
  apply (extract_payload_framed sample_adv [0xAA; 0xBB; 0xCC]);
    [apply is_bytes_dec; reflexivity|vm_compute; reflexivity|discriminate].
Defined.

Lemma extract_encode_witness :
  extract_manufacturer_data sample_adv = Done [0xAA; 0xBB; 0xCC].
Proof.
  apply (extract_encode [mkAd 0x01 [0x06]; mkAd 0xFF [0xDA; 0x03; 0xAA; 0xBB; 0xCC]] [0; 0]).
  - apply Forall_cons; split; [|apply Forall_singleton];
      (split; [split; cbn; lia|apply is_bytes_dec; reflexivity|cbn; lia|intros [=]; cbn; lia]).
  - right. by exists [0].
Defined.
