(* ===== verification/Crypto.v ===== *)
(** * AES-CCM backends (platform/common/icrypto, platform/*/crypto)

    The CRTP interface [ICrypto<Derived>] as a type class, its length guard,
    and the two backends: [PosixAesCcm] over OpenSSL's EVP interface and
    [ZephyrAesCcm] over Zephyr's [bt_ccm_decrypt]. Both libraries are
    parameters. *)

From stdpp Require Import prelude list strings.
From Stdlib Require Import ZArith Lia.
From S2P Require Import Prelude Logger Types AdParser.

(** ** ICrypto *)

(** [concept CryptoImplementation]: the one required member. The [plaintext]
    span is an in-out argument: contents before, contents after. *)
Class CryptoImplementation (D : Type) :=
  aes_ccm_decrypt_impl :
    ∀ (key nonce aad ciphertext tag plaintext : bytes), eff D LogCall (bool * bytes).

Definition aes_ccm_decrypt {D} `{CryptoImplementation D}
    (key nonce aad ciphertext tag plaintext : bytes) : eff D LogCall (bool * bytes) :=
  if decide (length key ≠ k_key_len) then mret (false, plaintext)
  else if decide (length nonce ≠ k_nonce_len) then mret (false, plaintext)
  else aes_ccm_decrypt_impl key nonce aad ciphertext tag plaintext.

(** What a backend promises to a caller that only checks a tag: it comes back
    with a verdict. *)
Class CryptoTotal (D : Type) `{CryptoImplementation D} :=
  crypto_total : ∀ key nonce aad tag d,
    length key = k_key_len → length nonce = k_nonce_len → length tag = k_tag_len →
    ∃ ok d' t, aes_ccm_decrypt_impl key nonce aad [] tag [] d = Done ((ok, []), d', t).

Lemma aes_ccm_decrypt_total {D} `{CryptoTotal D} key nonce aad tag d :
  length key = k_key_len → length nonce = k_nonce_len → length tag = k_tag_len →
  ∃ ok d' t, aes_ccm_decrypt key nonce aad [] tag [] d = Done ((ok, []), d', t).
Proof.
  intros Hk Hn Ht. unfold aes_ccm_decrypt.
  rewrite decide_False by tauto. rewrite decide_False by tauto. by apply crypto_total.
Qed.

(** ** POSIX: OpenSSL *)

Module PosixAesCcm.

(** The part of OpenSSL's libcrypto the backend calls; [W] is its state. A
    pointer argument is the bytes it points to, [None] for [nullptr];
    [EVP_DecryptUpdate] also returns the output buffer and [outl]. *)
Record OpenSSL (W : Type) := mkOpenSSL {
  EVP_CIPHER_CTX : Type;
  EVP_CIPHER : Type;
  EVP_aes_128_ccm : EVP_CIPHER;
  EVP_CTRL_CCM_SET_IVLEN : Z;
  EVP_CTRL_CCM_SET_TAG : Z;
  EVP_CIPHER_CTX_new : W → option EVP_CIPHER_CTX * W;
  EVP_CIPHER_CTX_free : EVP_CIPHER_CTX → W → W;
  EVP_DecryptInit_ex :
    EVP_CIPHER_CTX → option EVP_CIPHER → option bytes → option bytes → W → Z * W;
  EVP_CIPHER_CTX_ctrl : EVP_CIPHER_CTX → Z → Z → option bytes → W → Z * W;
  EVP_DecryptUpdate :
    EVP_CIPHER_CTX → option bytes → option bytes → Z → W → (Z * bytes * Z) * W;
}.
Arguments EVP_CIPHER_CTX {W} _.
Arguments EVP_CIPHER {W} _.
Arguments EVP_aes_128_ccm {W} _.
Arguments EVP_CTRL_CCM_SET_IVLEN {W} _.
Arguments EVP_CTRL_CCM_SET_TAG {W} _.
Arguments EVP_CIPHER_CTX_new {W} _ _.
Arguments EVP_CIPHER_CTX_free {W} _ _ _.
Arguments EVP_DecryptInit_ex {W} _ _ _ _ _ _.
Arguments EVP_CIPHER_CTX_ctrl {W} _ _ _ _ _ _.
Arguments EVP_DecryptUpdate {W} _ _ _ _ _ _.

Section Backend.
Context {W : Type} (ssl : OpenSSL W).

(** What the backend does besides computing: log, and the life of its
    cipher context. *)
Inductive evp_event :=
| EvpLog (l : LogCall)
| EvpNew (c : EVP_CIPHER_CTX ssl)
| EvpFree (c : EVP_CIPHER_CTX ssl).

#[local] Instance evp_event_LogEvent : LogEvent evp_event := EvpLog.

Abbreviation M := (eff W evp_event).

(** [class EvpCtxGuard]: constructor and destructor. *)
Definition EvpCtxGuard : M (option (EVP_CIPHER_CTX ssl)) :=
  c ← call (EVP_CIPHER_CTX_new ssl);
  match c with
  | Some ctx => emit (EvpNew ctx);; mret (Some ctx)
  | None => mret None
  end.

Definition EvpCtxGuard_dtor (guard : option (EVP_CIPHER_CTX ssl)) : M () :=
  match guard with
  | Some ctx => call (λ w, ((), EVP_CIPHER_CTX_free ssl ctx w));; emit (EvpFree ctx)
  | None => mret ()
  end.

(** The calls before the one that checks the tag; [false] is an early
    return. *)
Definition set_up (ctx : EVP_CIPHER_CTX ssl) (key nonce aad ciphertext tag : bytes)
    : M bool :=
  r ← call (EVP_DecryptInit_ex ssl ctx (Some (EVP_aes_128_ccm ssl)) None None);
  if decide (r ≠ 1) then mret false else
  r ← call (EVP_CIPHER_CTX_ctrl ssl ctx (EVP_CTRL_CCM_SET_IVLEN ssl)
              (Z.of_nat (length nonce)) None);
  if decide (r ≠ 1) then mret false else
  r ← call (EVP_CIPHER_CTX_ctrl ssl ctx (EVP_CTRL_CCM_SET_TAG ssl)
              (Z.of_nat k_tag_len) (Some tag));
  if decide (r ≠ 1) then mret false else
  r ← call (EVP_DecryptInit_ex ssl ctx None (Some key) (Some nonce));
  if decide (r ≠ 1) then mret false else
  r ← call (EVP_DecryptUpdate ssl ctx None None (Z.of_nat (length ciphertext)));
  if decide (r.1.1 ≠ 1) then mret false else
  if decide (aad ≠ []) then
    r ← call (EVP_DecryptUpdate ssl ctx None (Some aad) (Z.of_nat (length aad)));
    mret (bool_decide (r.1.1 = 1))
  else mret true.

Definition with_ctx (ctx : EVP_CIPHER_CTX ssl) (key nonce aad ciphertext tag plaintext : bytes)
    : M (bool * bytes) :=
  ok ← set_up ctx key nonce aad ciphertext tag;
  if negb ok then mret (false, plaintext) else
  let out_ptr := if decide (ciphertext = []) then [0] else plaintext in
  if decide (ciphertext ≠ [] ∧ (length plaintext < length ciphertext)%nat) then
    log (LOGGER_ERROR "AesCcm: plaintext buffer too small" []);;
    mret (false, plaintext)
  else
    r ← call (EVP_DecryptUpdate ssl ctx (Some out_ptr)
                (if decide (ciphertext = []) then None else Some ciphertext)
                (Z.of_nat (length ciphertext)));
    let '(ret, out, _) := r in
    mret (bool_decide (0 ≤ ret), if decide (ciphertext = []) then plaintext else out).

Definition aes_ccm_decrypt_guarded (key nonce aad ciphertext tag plaintext : bytes)
    : M (bool * bytes) :=
  guard ← EvpCtxGuard;
  r ← (match guard with
       | None =>
           log (LOGGER_ERROR "AesCcm: EVP_CIPHER_CTX_new failed" []);;
           mret (false, plaintext)
       | Some ctx => with_ctx ctx key nonce aad ciphertext tag plaintext
       end);
  EvpCtxGuard_dtor guard;;
  mret r.

(** Seen from the driver only the log lines are left. *)
Definition logs_of (t : list evp_event) : list LogCall :=
  omap (λ e, match e with EvpLog l => Some l | _ => None end) t.

#[export] Instance AesCcm : CryptoImplementation W :=
  λ key nonce aad ciphertext tag plaintext w,
    match aes_ccm_decrypt_guarded key nonce aad ciphertext tag plaintext w with
    | Done (r, w', t) => Done (r, w', logs_of t)
    | Stop e => Stop e
    end.

(** The events of a context's life. *)
Definition is_ctx_event (e : evp_event) : bool :=
  match e with EvpLog _ => false | _ => true end.
Definition ctx_events (t : list evp_event) : list evp_event := filter is_ctx_event t.

Lemma ctx_events_app t1 t2 : ctx_events (t1 ++ t2) = ctx_events t1 ++ ctx_events t2.
Proof. apply filter_app. Qed.

Lemma set_up_run ctx key nonce aad ct tag w :
  ∃ ok w', set_up ctx key nonce aad ct tag w = Done (ok, w', []).
Proof.
  unfold set_up. repeat (rewrite bind_run, call_run; case_decide; [by eauto|]).
  case_decide; [|by eauto]. rewrite bind_run, call_run. by eauto.
Qed.

Lemma with_ctx_run ctx key nonce aad ct tag pt w :
  ∃ r w' t, with_ctx ctx key nonce aad ct tag pt w = Done (r, w', t) ∧ ctx_events t = [].
Proof.
  unfold with_ctx. destruct (set_up_run ctx key nonce aad ct tag w) as (ok & w' & E).
  rewrite bind_run, E. destruct ok; cbn -[bool_decide]; [|by eauto 10].
  destruct (decide (ct ≠ [] ∧ _)); [by eauto 10|].
  rewrite bind_run, call_run. cbn -[bool_decide].
  destruct (EVP_DecryptUpdate _ _ _ _ _ _) as [[[ret out] outl] w'']. cbn. by eauto 10.
Qed.

Lemma EvpCtxGuard_run w :
  EvpCtxGuard w =
    match EVP_CIPHER_CTX_new ssl w with
    | (Some c, w') => Done (Some c, w', [EvpNew c])
    | (None, w') => Done (None, w', [])
    end.
Proof.
  unfold EvpCtxGuard. rewrite bind_run, call_run.
  by destruct (EVP_CIPHER_CTX_new ssl w) as [[c|] w'].
Qed.

Lemma EvpCtxGuard_dtor_run c w :
  EvpCtxGuard_dtor (Some c) w = Done ((), EVP_CIPHER_CTX_free ssl c w, [EvpFree c]).
Proof. done. Qed.

Lemma guarded_some key nonce aad ct tag pt w c w0 r w1 t :
  EVP_CIPHER_CTX_new ssl w = (Some c, w0) →
  with_ctx c key nonce aad ct tag pt w0 = Done (r, w1, t) →
  aes_ccm_decrypt_guarded key nonce aad ct tag pt w =
    Done (r, EVP_CIPHER_CTX_free ssl c w1, [EvpNew c] ++ t ++ [EvpFree c]).
Proof.
  intros Hnew Hr. unfold aes_ccm_decrypt_guarded.
  rewrite bind_run, EvpCtxGuard_run, Hnew. rewrite bind_run, Hr. reflexivity.
Qed.

Lemma guarded_run key nonce aad ct tag pt w :
  ∃ r w' t, aes_ccm_decrypt_guarded key nonce aad ct tag pt w = Done (r, w', t) ∧
    (ctx_events t = [] ∧ r = (false, pt) ∨ ∃ c, ctx_events t = [EvpNew c; EvpFree c]).
Proof.
  destruct (EVP_CIPHER_CTX_new ssl w) as [[c|] w0] eqn:Hnew.
  - destruct (with_ctx_run c key nonce aad ct tag pt w0) as (r & w1 & t1 & E & Ht).
    rewrite (guarded_some _ _ _ _ _ _ _ _ _ _ _ _ Hnew E). do 3 eexists. split; [done|right].
    exists c. rewrite (ctx_events_app [EvpNew c]), ctx_events_app, Ht. done.
  - do 3 eexists. split; [|left].
    + unfold aes_ccm_decrypt_guarded. rewrite bind_run, EvpCtxGuard_run, Hnew. reflexivity.
    + done.
Qed.

(** Every call comes back, and on every path - early returns included - the
    cipher context it created is freed exactly once, as its last use. *)
Theorem posix_ctx_freed key nonce aad ct tag pt w :
  ∃ r w' t, aes_ccm_decrypt_guarded key nonce aad ct tag pt w = Done (r, w', t) ∧
    (ctx_events t = [] ∧ r = (false, pt) ∨
     ∃ c, ctx_events t = [EvpNew c; EvpFree c]).
Proof. apply guarded_run. Qed.

(** [EVP_DecryptInit_ex], [EVP_CIPHER_CTX_ctrl] and [EVP_DecryptUpdate] are
    documented to return 1 for success and 0 for failure. *)
Definition update_returns_0_1 : Prop :=
  ∀ ctx out inp n w, let r := (EVP_DecryptUpdate ssl ctx out inp n w).1.1.1 in r = 0 ∨ r = 1.

(** Every set-up step works: the context is created, the calls before the
    last [EVP_DecryptUpdate] return 1. *)
Definition set_up_succeeds (key nonce aad tag : bytes) (w : W) : Prop :=
  ∃ c w0, EVP_CIPHER_CTX_new ssl w = (Some c, w0) ∧
  ∃ w', set_up c key nonce aad [] tag w0 = Done (true, w', []).

(** The final test [ret >= 0] cannot fail: whatever the last
    [EVP_DecryptUpdate] says about the tag, the backend reports success. *)
Theorem posix_accepts_any_tag key nonce aad tag w :
  update_returns_0_1 → set_up_succeeds key nonce aad tag w →
  length key = k_key_len → length nonce = k_nonce_len →
  ∃ w' t, aes_ccm_decrypt (D := W) key nonce aad [] tag [] w = Done ((true, []), w', t).
Proof.
  intros H01 (c & w0 & Hnew & w1 & Hset) Hk Hn.
  unfold aes_ccm_decrypt. rewrite !decide_False by tauto.
  assert (∃ w2, with_ctx c key nonce aad [] tag [] w0 = Done ((true, []), w2, [])) as [w2 E].
  { unfold with_ctx. rewrite bind_run, Hset. cbn -[bool_decide].
    rewrite (decide_False (P := [] ≠ [] ∧ _)) by tauto.
    rewrite !(decide_True (P := [] = [])) by done. rewrite bind_run, call_run. cbn -[bool_decide].
    pose proof (H01 c (Some [0]) None 0 w1) as H. cbn in H.
    destruct (EVP_DecryptUpdate _ _ _ _ _ _) as [[[ret out] outl] w'']. cbn in *.
    rewrite bool_decide_eq_true_2 by lia. by eauto. }
  unfold aes_ccm_decrypt_impl, AesCcm.
  rewrite (guarded_some _ _ _ _ _ _ _ _ _ _ _ _ Hnew E). by eauto.
Qed.

End Backend.

#[export] Instance AesCcm_total {W} (ssl : OpenSSL W) :
  @CryptoTotal W (AesCcm ssl).
Proof.
  intros key nonce aad tag w _ _ _. unfold aes_ccm_decrypt_impl, AesCcm.
  destruct (guarded_run ssl key nonce aad [] tag [] w) as ([ok pt] & w' & t & E & _).
  assert (pt = []) as ->.
  { revert E. unfold aes_ccm_decrypt_guarded, with_ctx, EvpCtxGuard_dtor. intros E. eff_inv.
    repeat first [case_match; eff_inv | case_decide; eff_inv]; by simplify_eq. }
  rewrite E. by eauto.
Qed.

(** A library whose last call compares the tag with [0; 0; 0; 0] and answers 0
    on a mismatch; its state is the tag it was given. *)
Definition toy_ssl : OpenSSL (list Z) :=
  mkOpenSSL (list Z) () () () 9 17 (λ w, (Some (), w)) (λ _ w, w)
    (λ _ _ _ _ w, (1, w))
    (λ _ _ _ tag w, (1, default w tag))
    (λ _ out _ _ w,
       match out with
       | None => ((1, [], 0), w)
       | Some o => ((if decide (w = [0; 0; 0; 0]) then 1 else 0, o, 0), w)
       end).

(** The library rejects the tag [1; 2; 3; 4], the backend accepts it. *)
Lemma posix_accepts_any_tag_witness :
  (EVP_DecryptUpdate toy_ssl () (Some [0]) None 0 [1; 2; 3; 4]).1.1.1 = 0 ∧
  ∃ w' t, @aes_ccm_decrypt _ (AesCcm toy_ssl) (replicate 16 7) (replicate 13 5) [1; 2; 3] []
            [1; 2; 3; 4] [] [] = Done ((true, []), w', t).
Proof.
  split; [reflexivity|].
  apply (posix_accepts_any_tag toy_ssl); [| |reflexivity|reflexivity].
  - intros [] out inp n w. cbn. destruct out; [|by right]. cbn. case_decide; auto.
  - eexists (), []. split; [reflexivity|]. eexists. vm_compute. reflexivity.
Defined.
End PosixAesCcm.

(** ** Zephyr: bt_ccm_decrypt *)

Module ZephyrAesCcm.

Definition k_ad_hdr : nat := 4.
Definition k_max_aad : nat := 32.
Definition k_max_ct : nat := 64.

(** [bt_ccm_decrypt(key, nonce, enc, len, aad, aad_len, plaintext, mic_size)]
    of Zephyr's Bluetooth crypto: the error code and the plaintext buffer. *)
Definition bt_ccm_decrypt_t : Type :=
  bytes → bytes → bytes → nat → bytes → nat → option bytes → Z → Z * bytes.

Section Backend.
Context (bt_ccm_decrypt : bt_ccm_decrypt_t).

(** Lines 47-59: the AD record's header and [aad] in a 36-byte buffer. *)
Definition build_full_aad (aad : bytes) (ct_len : nat) : outcome (bytes * nat) :=
  let len_val := (1 + 2 + length aad + ct_len + k_tag_len)%nat in
  let full_aad := replicate (k_ad_hdr + k_max_aad) 0 in
  full_aad ← span_set full_aad 0 (u8 (Z.of_nat len_val));
  full_aad ← span_set full_aad 1 0xFF;
  full_aad ← span_set full_aad 2 0xDA;
  full_aad ← span_set full_aad 3 0x03;
  full_aad ← (if decide (aad = []) then Done full_aad else copy_at aad full_aad k_ad_hdr);
  Done (full_aad, (k_ad_hdr + length aad)%nat).

(** Lines 65-70: ciphertext and tag in a 68-byte buffer. *)
Definition build_cipher_buf (ciphertext tag : bytes) : outcome bytes :=
  let cipher_buf := replicate (k_max_ct + k_tag_len) 0 in
  cipher_buf ← (if decide (0 < length ciphertext)%nat then copy_at ciphertext cipher_buf 0
                else Done cipher_buf);
  copy_at tag cipher_buf (length ciphertext).

(** Lines 79-90. *)
Definition decrypt_failed_log (err : Z) (ct_len aad_len : nat)
    (full_aad nonce_buf tag key : bytes) : outcome LogCall :=
  aad0 ← span_get full_aad 0;
  n ← subspan nonce_buf 0 13;
  t ← subspan tag 0 4;
  k ← subspan key 0 4;
  Done (LOGGER_WARNING
          ("AesCcm: bt_ccm_decrypt failed: %d ct=%zu aad=%zu len=0x%02X " +:+
           "n=%02X%02X%02X%02X%02X%02X%02X%02X%02X%02X%02X%02X%02X " +:+
           "t=%02X%02X%02X%02X k=%02X%02X%02X%02X")
          ([AInt err; AInt (Z.of_nat ct_len); AInt (Z.of_nat aad_len); AInt aad0] ++
           (AInt <$> n) ++ (AInt <$> t) ++ (AInt <$> k))).

Definition aes_ccm_decrypt_impl (key nonce aad ciphertext tag plaintext : bytes)
    : eff () LogCall (bool * bytes) :=
  nonce_buf ← liftO (copy_at nonce (replicate k_nonce_len 0) 0);
  let ct_len := length ciphertext in
  if decide (k_max_aad < length aad)%nat then
    log (LOGGER_ERROR "AesCcm: aad too large (%zu)" [AInt (Z.of_nat (length aad))]);;
    mret (false, plaintext)
  else
    fa ← liftO (build_full_aad aad ct_len);
    let '(full_aad, full_aad_len) := fa in
    if decide (k_max_ct < ct_len)%nat then
      log (LOGGER_ERROR "AesCcm: ciphertext too large (%zu)" [AInt (Z.of_nat ct_len)]);;
      mret (false, plaintext)
    else
      cipher_buf ← liftO (build_cipher_buf ciphertext tag);
      let '(err, out) :=
        bt_ccm_decrypt key nonce_buf cipher_buf ct_len full_aad full_aad_len
          (if decide (plaintext = []) then None else Some plaintext) (Z.of_nat k_tag_len) in
      let plaintext := if decide (plaintext = []) then plaintext else out in
      if decide (err ≠ 0) then
        l ← liftO (decrypt_failed_log err ct_len (length aad) full_aad nonce_buf tag key);
        log l;;
        mret (false, plaintext)
      else mret (true, plaintext).

#[export] Instance AesCcm : CryptoImplementation () := aes_ccm_decrypt_impl.

(** The AD record a data payload [aad ++ tag] travels in, from its length
    byte up to the tag. *)
Definition record_header (aad : bytes) : bytes :=
  Z.of_nat (length aad + 7) :: 0xFF :: 0xDA :: 0x03 :: aad.

(** The call the tag-only check makes. *)
Definition verify (key nonce aad tag : bytes) : Z :=
  (bt_ccm_decrypt key nonce (tag ++ replicate k_max_ct 0) 0%nat
     (record_header aad ++ replicate (k_max_aad - length aad) 0)
     (length (record_header aad)) None (Z.of_nat k_tag_len)).1.

Lemma build_full_aad_run (aad : bytes) :
  (length aad ≤ k_max_aad)%nat →
  build_full_aad aad 0 =
    Done (record_header aad ++ replicate (k_max_aad - length aad) 0,
          length (record_header aad)).
Proof.
  intros H. unfold build_full_aad, k_max_aad in *.
  rewrite u8_small by (unfold is_u8, k_tag_len; lia).
  replace (1 + 2 + length aad + 0 + k_tag_len)%nat with (length aad + 7)%nat
    by (unfold k_tag_len; lia).
  transitivity (
    full_aad ← (if decide (aad = []) then Done (record_header [] ++ replicate 32 0)
                else copy_at aad (Z.of_nat (length aad + 7) :: 0xFF :: 0xDA :: 0x03 ::
                                  replicate 32 0) k_ad_hdr);
    Done (full_aad, (k_ad_hdr + length aad)%nat));
    [by case_decide as E; [rewrite E|]|].
  case_decide as E; [by rewrite E|]. unfold copy_at, k_ad_hdr.
  rewrite decide_True by (cbn [length]; rewrite length_replicate; lia).
  cbn -[Z.of_nat replicate]. by rewrite drop_replicate.
Qed.

Lemma build_cipher_buf_run tag :
  length tag = k_tag_len → build_cipher_buf [] tag = Done (tag ++ replicate k_max_ct 0).
Proof.
  intros H. transitivity (copy_at tag (replicate (k_max_ct + k_tag_len) 0) 0); [done|].
  unfold copy_at. rewrite H, length_replicate, decide_True by (unfold k_max_ct; lia).
  by rewrite drop_replicate, Nat.add_sub.
Qed.

(** What is logged of a refused tag. *)
Definition refusal_line (err : Z) (key nonce aad tag : bytes) : LogCall :=
  LOGGER_WARNING
    ("AesCcm: bt_ccm_decrypt failed: %d ct=%zu aad=%zu len=0x%02X " +:+
     "n=%02X%02X%02X%02X%02X%02X%02X%02X%02X%02X%02X%02X%02X " +:+
     "t=%02X%02X%02X%02X k=%02X%02X%02X%02X")
    ([AInt err; AInt 0; AInt (Z.of_nat (length aad)); AInt (Z.of_nat (length aad + 7))] ++
     (AInt <$> nonce) ++ (AInt <$> tag) ++ (AInt <$> take 4 key)).

Lemma impl_run key nonce aad tag d :
  length key = k_key_len → length nonce = k_nonce_len → length tag = k_tag_len →
  (length aad ≤ k_max_aad)%nat →
  aes_ccm_decrypt_impl key nonce aad [] tag [] d =
    Done ((bool_decide (verify key nonce aad tag = 0), []), d,
      if decide (verify key nonce aad tag = 0) then []
      else [refusal_line (verify key nonce aad tag) key nonce aad tag]).
Proof.
  intros Hk Hn Ht Ha. unfold aes_ccm_decrypt_impl.
  rewrite bind_run, (copy_at_0 nonce) by by rewrite length_replicate.
  cbn [liftO length]. rewrite decide_False by lia.
  rewrite bind_run, build_full_aad_run by lia. cbn [liftO].
  rewrite decide_False by lia. rewrite bind_run, build_cipher_buf_run by done. cbn [liftO].
  rewrite (decide_True (P := [] = [])) by done. unfold verify.
  destruct (bt_ccm_decrypt _ _ _ _ _ _ _ _) as [err out]. cbn [fst].
  destruct (decide (err = 0)) as [He|He].
  - rewrite decide_False by tauto. by rewrite bool_decide_eq_true_2.
  - rewrite decide_True, bool_decide_eq_false_2 by done. rewrite bind_run.
    unfold decrypt_failed_log, record_header. cbn [app span_get lookup list_lookup mbind outcome_bind].
    rewrite !subspan_in by (rewrite ?Hn, ?Ht, ?Hk; unfold k_nonce_len, k_tag_len, k_key_len; lia).
    cbn [mbind outcome_bind liftO]. rewrite !drop_0, (take_ge nonce), (take_ge tag)
      by (rewrite ?Hn, ?Ht; unfold k_nonce_len, k_tag_len; lia). done.
Qed.

Lemma impl_auth key nonce aad tag d :
  length key = k_key_len → length nonce = k_nonce_len → length tag = k_tag_len →
  ∃ t, aes_ccm_decrypt_impl key nonce aad [] tag [] d =
         Done ((bool_decide ((length aad ≤ k_max_aad)%nat ∧ verify key nonce aad tag = 0), []),
               d, t).
Proof.
  intros Hk Hn Ht. destruct (decide (length aad ≤ k_max_aad)%nat) as [Ha|Ha].
  - rewrite impl_run by done. eexists. do 3 f_equal. f_equal. apply bool_decide_ext. tauto.
  - rewrite bool_decide_eq_false_2 by tauto. unfold aes_ccm_decrypt_impl.
    rewrite bind_run, (copy_at_0 nonce) by by rewrite length_replicate.
    cbn [liftO length]. rewrite decide_True by lia. by eexists.
Qed.

#[export] Instance AesCcm_total : CryptoTotal ().
Proof.
  intros key nonce aad tag d Hk Hn Ht.
  destruct (impl_auth key nonce aad tag d Hk Hn Ht) as [t E]. by eauto.
Qed.

(** For a payload [aad ++ tag] the parser found in an advertisement, the
    backend asks [bt_ccm_decrypt] to authenticate exactly the bytes the radio
    received - the AD record from its length byte up to the tag - and its
    answer is the library's; records with more than 32 bytes before the tag
    are refused. *)
Theorem zephyr_authenticates_record data aad tag key nonce d :
  is_bytes data → extract_manufacturer_data data = Done (aad ++ tag) →
  length tag = k_tag_len → length key = k_key_len → length nonce = k_nonce_len →
  (∃ pre suf, data = pre ++ record_header aad ++ tag ++ suf) ∧
  ∃ t, aes_ccm_decrypt key nonce aad [] tag [] d =
         Done ((bool_decide ((length aad ≤ k_max_aad)%nat ∧ verify key nonce aad tag = 0), []),
               d, t).
Proof.
  intros Hb Hx Ht Hk Hn. split.
  - destruct (extract_payload_cases _ _ Hb Hx) as [E|(pre & suf & ->)].
    { apply app_eq_nil in E as [_ ->]. done. }
    exists pre, suf. unfold record_header. rewrite length_app, Ht, <- Nat.add_assoc.
    cbn [app]. by rewrite <- app_assoc.
  - unfold aes_ccm_decrypt. rewrite !decide_False by tauto. by apply impl_auth.
Qed.

End Backend.

(** A library that accepts the tag [1; 2; 3; 4] of a 12-byte record only. *)
Definition toy_ccm : bt_ccm_decrypt_t :=
  λ _ _ enc _ _ n _ _, (if decide (take 4 enc = [1; 2; 3; 4] ∧ n = 12%nat) then 0 else -22, []).

Lemma zephyr_authenticates_record_witness :
  (∃ pre suf, [0x0F; 0xFF; 0xDA; 0x03; 1; 0; 0; 0; 5; 6; 7; 8; 1; 2; 3; 4] =
     pre ++ record_header [1; 0; 0; 0; 5; 6; 7; 8] ++ [1; 2; 3; 4] ++ suf) ∧
  ∃ t, @aes_ccm_decrypt _ (AesCcm toy_ccm) (replicate 16 7) (replicate 13 5)
         [1; 0; 0; 0; 5; 6; 7; 8] [] [1; 2; 3; 4] [] () = Done ((true, []), (), t).
Proof.
  apply (zephyr_authenticates_record toy_ccm
    [0x0F; 0xFF; 0xDA; 0x03; 1; 0; 0; 0; 5; 6; 7; 8; 1; 2; 3; 4]);
    [apply is_bytes_dec; reflexivity|vm_compute; reflexivity|reflexivity..].
Defined.
End ZephyrAesCcm.
