(* ===== verification/Tlv.v ===== *)
(** * Sensor report decoding (EnoceanDriver::handle_sensor, the TLV loop)

    The type-length-value items of a sensor data payload: the loop as written,
    the item format it parses, the proof that it decodes every byte string to
    the fold of its items, and the round trip of a sensor report. *)

From stdpp Require Import prelude list.
From Stdlib Require Import ZArith Lia.
From S2P Require Import Prelude Logger Types.

Definition k_tlv_type_mask : Z := 0x3F.
Definition k_tlv_size_shift : Z := 6.
Definition k_tlv_size_var : Z := 0x03.
Definition k_tlv_type_optional : Z := 0x3C.
Definition k_tlv_type_commissioning : Z := 0x3E.
Definition k_tlv_commissioning_block : nat := 22.

(** [for (b = 0; b < val_len; ++b) value |= uint32(sensor_bytes[j + b]) << (8 * b)],
    with [n] iterations left. *)
Fixpoint read_value (sensor_bytes : bytes) (j b n : nat) (value : Z) : outcome Z :=
  match n with
  | O => Done value
  | S n' =>
      x ← span_get sensor_bytes (j + b);
      read_value sensor_bytes j (S b) n' (Z.lor value (shl32 x (8 * Z.of_nat b)))
  end.

(** [static_cast<std::int16_t>(static_cast<int>((v >> k) & 0x3FF) - 512)]. *)
Definition accel_axis (le_value k : Z) : Z :=
  i16 (Z.land (Z.shiftr le_value k) 0x3FF - 512).

(** The [switch (type_id)]. *)
Definition apply_field (type_id : Z) (val_len : nat) (value : Z) (s : SensorData) : SensorData :=
  let '(mkSensorData oc li ba so en te hu co st ax ay az) := s in
  if decide (type_id = 0x00) then
    mkSensorData oc li ba so en (Some (i16 (Z.land value 0xFFFF))) hu co st ax ay az
  else if decide (type_id = 0x01) then
    mkSensorData oc li (Some (u16 (value / 2))) so en te hu co st ax ay az
  else if decide (type_id = 0x02) then
    mkSensorData oc li ba so (Some (u8 (value / 2))) te hu co st ax ay az
  else if decide (type_id = 0x04) then
    mkSensorData oc li ba (Some (u16 value)) en te hu co st ax ay az
  else if decide (type_id = 0x05) then
    mkSensorData oc (Some (u16 value)) ba so en te hu co st ax ay az
  else if decide (type_id = 0x06) then
    mkSensorData oc li ba so en te (Some (u8 (Z.land value 0xFF / 2))) co st ax ay az
  else if decide (type_id = 0x0A) then
    if decide (val_len = 4%nat) then
      mkSensorData oc li ba so en te hu co (Some (u8 (Z.shiftr value 30)))
        (Some (accel_axis value 20)) (Some (accel_axis value 10)) (Some (accel_axis value 0))
    else s
  else if decide (type_id = 0x20) then
    mkSensorData (Some (bool_decide (value = 0x02))) li ba so en te hu co st ax ay az
  else if decide (type_id = 0x23) then
    mkSensorData oc li ba so en te hu (Some (bool_decide (u8 (Z.land value 0xFF) = 0x02)))
      st ax ay az
  else s.

(** One iteration of [while (j < sensor_bytes.size())]; [inr] leaves it. *)
Definition tlv_step (sensor_bytes : bytes) (st : nat * SensorData)
    : outcome (nat * SensorData + SensorData) :=
  let '(j, sensor_data) := st in
  if decide (j < length sensor_bytes)%nat then
    header ← span_get sensor_bytes j;
    let j := S j in
    let type_id := u8 (Z.land header k_tlv_type_mask) in
    let size_bits := u8 (Z.shiftr header k_tlv_size_shift) in
    if decide (type_id = k_tlv_type_commissioning) then
      Done (inl (if decide (j + k_tlv_commissioning_block ≤ length sensor_bytes)%nat
                 then (j + k_tlv_commissioning_block)%nat
                 else length sensor_bytes, sensor_data))
    else if decide (size_bits = k_tlv_size_var ∨ type_id = k_tlv_type_optional) then
      if decide (length sensor_bytes ≤ j)%nat then Done (inr sensor_data)
      else
        vlen ← span_get sensor_bytes j;
        let j := S j in
        rest ← size_sub (length sensor_bytes) j;
        if decide (rest < Z.to_nat vlen)%nat then Done (inr sensor_data)
        else Done (inl ((j + Z.to_nat vlen)%nat, sensor_data))
    else
      let val_len := Z.to_nat (Z.shiftl 1 size_bits) in
      if decide (length sensor_bytes < j + val_len)%nat then Done (inr sensor_data)
      else
        value ← read_value sensor_bytes j 0 val_len 0;
        Done (inl ((j + val_len)%nat, apply_field type_id val_len value sensor_data))
  else Done (inr sensor_data).

Definition decode_tlv (sensor_bytes : bytes) : outcome SensorData :=
  loop (S (length sensor_bytes)) (tlv_step sensor_bytes) (0%nat, empty_sensor_data).

(** ** The item format *)

Inductive item :=
| IValue (type_id size_bits : Z) (val : bytes)     (* 1, 2 or 4 value bytes *)
| IVar (type_id size_bits : Z) (val : bytes)       (* a length byte, then that many *)
| IComm (size_bits : Z) (block : bytes).           (* an embedded commissioning block *)

Definition item_header (type_id size_bits : Z) : Z := type_id + 64 * size_bits.

Definition item_bytes (it : item) : bytes :=
  match it with
  | IValue t n val => item_header t n :: val
  | IVar t n val => item_header t n :: Z.of_nat (length val) :: val
  | IComm n block => item_header k_tlv_type_commissioning n :: block
  end.

Definition wf_item (it : item) : Prop :=
  match it with
  | IValue t n val =>
      0 ≤ t < 64 ∧ 0 ≤ n < 3 ∧ t ≠ k_tlv_type_commissioning ∧ t ≠ k_tlv_type_optional ∧
      Z.of_nat (length val) = 2 ^ n ∧ is_bytes val
  | IVar t n val =>
      0 ≤ t < 64 ∧ 0 ≤ n < 4 ∧ t ≠ k_tlv_type_commissioning ∧
      (n = k_tlv_size_var ∨ t = k_tlv_type_optional) ∧ (length val < 256)%nat
  | IComm n block => 0 ≤ n < 4 ∧ length block = k_tlv_commissioning_block
  end.

(** Little-endian value of up to four bytes. *)
Fixpoint le_value (bs : bytes) : Z :=
  match bs with [] => 0 | b :: bs' => b + 2 ^ 8 * le_value bs' end.

Definition apply_item (s : SensorData) (it : item) : SensorData :=
  match it with
  | IValue t _ val => apply_field t (length val) (le_value val) s
  | IVar _ _ _ | IComm _ _ => s
  end.

Definition encode_items (its : list item) : bytes := concat (item_bytes <$> its).

(** A tail too short for the item its header announces. *)
Inductive incomplete : bytes → Prop :=
| inc_nil : incomplete []
| inc_value t n val :
    0 ≤ t < 64 → 0 ≤ n < 3 → t ≠ k_tlv_type_commissioning → t ≠ k_tlv_type_optional →
    Z.of_nat (length val) < 2 ^ n → incomplete (item_header t n :: val)
| inc_var_len t n :
    0 ≤ t < 64 → 0 ≤ n < 4 → t ≠ k_tlv_type_commissioning →
    n = k_tlv_size_var ∨ t = k_tlv_type_optional → incomplete [item_header t n]
| inc_var t n vlen val :
    0 ≤ t < 64 → 0 ≤ n < 4 → t ≠ k_tlv_type_commissioning →
    n = k_tlv_size_var ∨ t = k_tlv_type_optional →
    is_u8 vlen → Z.of_nat (length val) < vlen → incomplete (item_header t n :: vlen :: val)
| inc_comm n block :
    0 ≤ n < 4 → (length block < k_tlv_commissioning_block)%nat →
    incomplete (item_header k_tlv_type_commissioning n :: block).

(** ** Headers *)

Lemma header_type t n :
  0 ≤ t < 64 → 0 ≤ n < 4 → u8 (Z.land (item_header t n) k_tlv_type_mask) = t.
Proof.
  intros Ht Hn. unfold item_header, k_tlv_type_mask. change 0x3F with (Z.ones 6).
  rewrite Z.land_ones by lia. change (2 ^ 6) with 64.
  replace (t + 64 * n) with (t + n * 64) by lia.
  rewrite Z.mod_add, Z.mod_small by lia. apply u8_small. unfold is_u8. lia.
Qed.

Lemma header_size t n :
  0 ≤ t < 64 → 0 ≤ n < 4 → u8 (Z.shiftr (item_header t n) k_tlv_size_shift) = n.
Proof.
  intros Ht Hn. unfold item_header, k_tlv_size_shift.
  rewrite Z.shiftr_div_pow2 by lia. change (2 ^ 6) with 64.
  replace (t + 64 * n) with (t + n * 64) by lia.
  rewrite Z.div_add, Z.div_small by lia. apply u8_small. unfold is_u8. lia.
Qed.

(** Every byte is a header. *)
Lemma header_split h : is_u8 h → ∃ t n, 0 ≤ t < 64 ∧ 0 ≤ n < 4 ∧ h = item_header t n.
Proof.
  unfold is_u8, item_header. intros H. exists (h mod 64), (h / 64).
  Z.div_mod_to_equations. lia.
Qed.

(** ** Values *)

Lemma le_value_range val :
  is_bytes val → 0 ≤ le_value val < 2 ^ (8 * Z.of_nat (length val)).
Proof.
  induction 1 as [|x val Hx _ IH]; [done|]. cbn [le_value length].
  replace (8 * Z.of_nat (S (length val))) with (8 + 8 * Z.of_nat (length val)) by lia.
  rewrite Z.pow_add_r by lia. unfold is_u8 in Hx. nia.
Qed.

Lemma read_value_run val : ∀ pre suf j b acc,
  is_bytes val → length pre = (j + b)%nat → (b + length val ≤ 4)%nat →
  0 ≤ acc < 2 ^ (8 * Z.of_nat b) →
  read_value (pre ++ val ++ suf) j b (length val) acc =
    Done (acc + 2 ^ (8 * Z.of_nat b) * le_value val).
Proof.
  induction val as [|x val IH]; intros pre suf j b acc Hb Hpre Hlen Hacc; cbn [length read_value].
  { cbn [le_value]. f_equal. lia. }
  apply Forall_cons in Hb as [Hx Hb]. cbn [length] in Hlen.
  rewrite <- Hpre. rewrite <- (Nat.add_0_r (length pre)), span_get_app. cbn -[Z.of_nat Z.mul Z.pow].
  rewrite shl32_byte by (done || lia). rewrite lor_shiftl_add by lia.
  change (x :: val ++ suf) with ([x] ++ val ++ suf). rewrite (app_assoc pre [x]).
  assert (8 * Z.of_nat (S b) = 8 * Z.of_nat b + 8) as E by lia.
  assert (0 < 2 ^ (8 * Z.of_nat b)) by (apply Z.pow_pos_nonneg; lia).
  unfold is_u8 in Hx. rewrite IH; rewrite ?E, ?Z.pow_add_r by lia;
    [f_equal; nia|done|rewrite length_app; cbn; lia|lia|nia].
Qed.

(** ** Steps *)

Lemma pow2_size n : 0 ≤ n < 3 → Z.shiftl 1 n = 2 ^ n ∧ (Z.to_nat (2 ^ n) ≤ 4)%nat.
Proof.
  intros H. rewrite Z.shiftl_1_l. split; [done|].
  assert (n = 0 ∨ n = 1 ∨ n = 2) as [->|[->| ->]] by lia; cbn; lia.
Qed.

(** A step at the end of [pre] reads the header [t, n] and continues with the
    rest [body]. *)
Lemma tlv_step_header pre t n body s :
  0 ≤ t < 64 → 0 ≤ n < 4 →
  tlv_step (pre ++ item_header t n :: body) (length pre, s) =
    if decide (t = k_tlv_type_commissioning) then
      Done (inl (if decide (22 ≤ length body)%nat then (length pre + 23)%nat
                 else (length pre + S (length body))%nat, s))
    else if decide (n = k_tlv_size_var ∨ t = k_tlv_type_optional) then
      match body with
      | [] => Done (inr s)
      | vlen :: val =>
          if decide (length val < Z.to_nat vlen)%nat then Done (inr s)
          else Done (inl ((length pre + 2 + Z.to_nat vlen)%nat, s))
      end
    else
      let val_len := Z.to_nat (2 ^ n) in
      if decide (length body < val_len)%nat then Done (inr s)
      else
        value ← read_value (pre ++ item_header t n :: body) (S (length pre)) 0 val_len 0;
        Done (inl ((length pre + 1 + val_len)%nat, apply_field t val_len value s)).
Proof.
  intros Ht Hn. unfold tlv_step. set (D := pre ++ _).
  assert (length D = (length pre + S (length body)))%nat as EL by (unfold D; by rewrite length_app).
  assert (∀ i k, i = (length pre + k)%nat →
    span_get D i = span_get (item_header t n :: body) k) as EG.
  { intros i k ->. apply span_get_app. }
  rewrite decide_True by lia. rewrite (EG (length pre) 0%nat) by lia.
  cbn -[u8 Z.land Z.shiftr item_header Nat.add Z.pow].
  rewrite header_type, header_size by done.
  case_decide; [do 3 f_equal; unfold k_tlv_commissioning_block; repeat case_decide; lia|].
  case_decide as Hv.
  - rewrite (EG (S (length pre)) 1%nat) by lia. destruct body as [|vlen val]; cbn [length] in EL.
    + by rewrite decide_True by lia.
    + rewrite decide_False by lia. cbn -[size_sub Nat.add]. rewrite size_sub_in by lia.
      cbn -[Nat.add]. repeat case_decide; (do 3 f_equal; lia) || lia.
  - rewrite (proj1 (pow2_size n ltac:(unfold k_tlv_size_var in *; lia))).
    repeat case_decide; [done|lia..|].
    by replace (length pre + 1 + Z.to_nat (2 ^ n))%nat
      with (S (length pre) + Z.to_nat (2 ^ n))%nat by lia.
Qed.

(** A step on a complete item consumes it and applies it. *)
Lemma tlv_step_item pre it suf s :
  wf_item it →
  tlv_step (pre ++ item_bytes it ++ suf) (length pre, s) =
    Done (inl ((length pre + length (item_bytes it))%nat, apply_item s it)).
Proof.
  destruct it as [t n val|t n val|n block]; cbn [wf_item item_bytes apply_item app length].
  - intros (Ht & Hn & Hc & Ho & Hlen & Hb).
    rewrite tlv_step_header by lia. rewrite decide_False by done.
    rewrite decide_False by (unfold k_tlv_size_var; lia || tauto).
    rewrite <- Hlen, Nat2Z.id. cbv zeta. rewrite decide_False by (rewrite length_app; lia).
    change (item_header t n :: val ++ suf) with ([item_header t n] ++ val ++ suf).
    rewrite app_assoc, read_value_run; [|done|rewrite length_app; cbn; lia| |cbn; lia].
    + cbn -[Nat.add le_value apply_field]. rewrite Z.mul_1_l, Z.add_0_l. do 3 f_equal; lia.
    + pose proof (proj2 (pow2_size n Hn)). lia.
  - intros (Ht & Hn & Hc & Ho & Hlen).
    rewrite tlv_step_header by done. rewrite decide_False by done. rewrite decide_True by done.
    rewrite Nat2Z.id, decide_False by (rewrite length_app; lia). do 3 f_equal. lia.
  - intros (Hn & Hlen). rewrite tlv_step_header by (done || unfold k_tlv_type_commissioning; lia).
    rewrite decide_True by done. unfold k_tlv_commissioning_block in Hlen.
    rewrite decide_True by (rewrite length_app; lia). do 3 f_equal. lia.
Qed.

Lemma tlv_step_end pre s : tlv_step pre (length pre, s) = Done (inr s).
Proof. unfold tlv_step. by rewrite decide_False by lia. Qed.

(** A step on an incomplete tail stops, or skips to the end. *)
Lemma tlv_step_incomplete pre rest s :
  incomplete rest →
  tlv_step (pre ++ rest) (length pre, s) = Done (inr s) ∨
  rest ≠ [] ∧ tlv_step (pre ++ rest) (length pre, s) = Done (inl (length (pre ++ rest), s)).
Proof.
  intros [|t n val Ht Hn Hc Ho Hlen|t n Ht Hn Hc Ho|t n vlen val Ht Hn Hc Ho Hv Hlen|n block Hn Hlen].
  - left. rewrite app_nil_r. apply tlv_step_end.
  - left. rewrite tlv_step_header by lia. rewrite decide_False by done.
    rewrite decide_False by (unfold k_tlv_size_var; intros [?|?]; [lia|done]).
    cbv zeta. by rewrite decide_True by lia.
  - left. rewrite tlv_step_header by done. rewrite decide_False by done. by rewrite decide_True.
  - left. rewrite tlv_step_header by done. rewrite decide_False by done. rewrite decide_True by done.
    by rewrite decide_True by lia.
  - right. split; [done|]. rewrite tlv_step_header by (done || unfold k_tlv_type_commissioning; lia).
    unfold k_tlv_commissioning_block in Hlen.
    rewrite decide_True by done. rewrite decide_False by lia. by rewrite length_app.
Qed.

Lemma item_bytes_nonempty it : (0 < length (item_bytes it))%nat.
Proof. destruct it; cbn; lia. Qed.

Lemma encode_items_cons it its : encode_items (it :: its) = item_bytes it ++ encode_items its.
Proof. done. Qed.

Lemma tlv_loop_run its : ∀ pre rest s fuel,
  Forall wf_item its → incomplete rest → (length (encode_items its ++ rest) < fuel)%nat →
  loop fuel (tlv_step (pre ++ encode_items its ++ rest)) (length pre, s) =
    Done (foldl apply_item s its).
Proof.
  induction its as [|it its IH]; intros pre rest s [|fuel] Hwf Hinc Hf; [lia| |lia|].
  - cbn [encode_items fmap list_fmap concat app loop foldl] in *.
    destruct (tlv_step_incomplete pre rest s Hinc) as [->|[Hne ->]]; [done|].
    destruct fuel as [|fuel]; [destruct rest; cbn in *; lia || done|].
    cbn [loop]. by rewrite tlv_step_end.
  - apply Forall_cons in Hwf as [Hit Hwf]. rewrite encode_items_cons in *.
    rewrite <- app_assoc in *. cbn [loop foldl]. rewrite tlv_step_item by done.
    rewrite (app_assoc pre), <- length_app. apply IH; [done..|].
    rewrite length_app in Hf. pose proof (item_bytes_nonempty it). lia.
Qed.

Lemma decode_tlv_items its rest :
  Forall wf_item its → incomplete rest →
  decode_tlv (encode_items its ++ rest) = Done (foldl apply_item empty_sensor_data its).
Proof. intros. apply (tlv_loop_run its []); [done..|lia]. Qed.

(** ** Every byte string is items and an incomplete tail *)

Lemma first_item s :
  is_bytes s → incomplete s ∨ ∃ it s', wf_item it ∧ s = item_bytes it ++ s'.
Proof.
  intros [|h body Hh Hb]; [left; constructor|].
  destruct (header_split h Hh) as (t & n & Ht & Hn & ->).
  destruct (decide (t = k_tlv_type_commissioning)) as [->|Hc].
  { destruct (decide (22 ≤ length body)%nat) as [Hl|Hl]; [right|left; constructor; done || unfold k_tlv_commissioning_block; lia].
    exists (IComm n (take 22 body)), (drop 22 body). cbn [wf_item item_bytes app].
    by rewrite take_drop, length_take, Nat.min_l by done. }
  destruct (decide (n = k_tlv_size_var ∨ t = k_tlv_type_optional)) as [Hv|Hv].
  - destruct Hb as [|vlen val Hvl Hval]; [left; by constructor|]. unfold is_u8 in *.
    destruct (decide (Z.of_nat (length val) < vlen)) as [Hl|Hl]; [left; by constructor|right].
    exists (IVar t n (take (Z.to_nat vlen) val)), (drop (Z.to_nat vlen) val).
    cbn [wf_item item_bytes app]. rewrite take_drop, length_take, Nat.min_l by lia.
    rewrite Z2Nat.id by lia. split; [|done]. split_and!; (done || lia).
  - unfold k_tlv_size_var in Hv. assert (0 ≤ n < 3) as Hn3 by lia.
    destruct (decide (Z.of_nat (length body) < 2 ^ n)) as [Hl|Hl];
      [left; constructor; tauto || lia|right].
    assert (0 < 2 ^ n) by (apply Z.pow_pos_nonneg; lia).
    exists (IValue t n (take (Z.to_nat (2 ^ n)) body)), (drop (Z.to_nat (2 ^ n)) body).
    cbn [wf_item item_bytes app]. rewrite take_drop, length_take, Nat.min_l by lia.
    split; [|done]. split_and!; try (tauto || lia). by apply Forall_take.
Qed.

Lemma parse_items s :
  is_bytes s →
  ∃ its rest, s = encode_items its ++ rest ∧ Forall wf_item its ∧ incomplete rest.
Proof.
  remember (length s) as n eqn:Hn. revert s Hn.
  induction n as [n IH] using lt_wf_ind. intros s -> Hb.
  destruct (first_item s Hb) as [Hi|(it & s' & Hit & ->)]; [by exists [], s|].
  apply Forall_app in Hb as [_ Hb]. pose proof (item_bytes_nonempty it).
  assert (length s' < length (item_bytes it ++ s'))%nat as Hlt by (rewrite length_app; lia).
  destruct (IH _ Hlt s' eq_refl Hb) as (its & rest & -> & Hwf & Hinc).
  exists (it :: its), rest. rewrite encode_items_cons, <- app_assoc. eauto.
Qed.

(** C19. The decoder finishes on every byte string without reading outside it, and
    its result is the fold, in order, of the complete items the string starts
    with; what follows them is too short to be an item and is ignored. *)
Theorem decode_tlv_spec s :
  is_bytes s →
  ∃ its rest, s = encode_items its ++ rest ∧ Forall wf_item its ∧ incomplete rest ∧
    decode_tlv s = Done (foldl apply_item empty_sensor_data its).
Proof.
  intros (its & rest & -> & Hwf & Hinc)%parse_items. exists its, rest.
  split_and!; [done..|]. by apply decode_tlv_items.
Qed.

Lemma decode_tlv_done s : is_bytes s → ∃ d, decode_tlv s = Done d.
Proof.
  intros (its & rest & -> & Hwf & Hinc)%parse_items. rewrite decode_tlv_items by done. by eauto.
Qed.

(** ** Ranges of the decoded report *)

(** The physical ranges the encodings allow, inside those of the C++ types. *)
Record report_ranges (s : SensorData) : Prop := {
  rr_wf : wf_sensor_data s;
  rr_humidity : opt_all (λ h, 0 ≤ h ≤ 127) (humidity s);
  rr_status : opt_all (λ z, 0 ≤ z ≤ 3) (accel_status s);
  rr_x : opt_all (λ z, -512 ≤ z ≤ 511) (accel_x_cg s);
  rr_y : opt_all (λ z, -512 ≤ z ≤ 511) (accel_y_cg s);
  rr_z : opt_all (λ z, -512 ≤ z ≤ 511) (accel_z_cg s);
}.

Lemma accel_axis_eq v k :
  0 ≤ k → 0 ≤ v → accel_axis v k = (v / 2 ^ k) mod 1024 - 512.
Proof.
  intros Hk Hv. unfold accel_axis. change 0x3FF with (Z.ones 10).
  rewrite Z.land_ones, Z.shiftr_div_pow2 by lia. change (2 ^ 10) with 1024.
  apply i16_small. unfold is_i16.
  pose proof (Z.mod_pos_bound (v / 2 ^ k) 1024). lia.
Qed.

Lemma accel_axis_range v k : 0 ≤ k → 0 ≤ v → -512 ≤ accel_axis v k ≤ 511.
Proof.
  intros Hk Hv. rewrite accel_axis_eq by done.
  pose proof (Z.mod_pos_bound (v / 2 ^ k) 1024). lia.
Qed.

Lemma status_range v : is_u32 v → 0 ≤ u8 (Z.shiftr v 30) ≤ 3.
Proof.
  intros Hv. pose proof (shiftr_range v 30 32 ltac:(lia) Hv).
  rewrite u8_small; unfold is_u8; cbn in *; lia.
Qed.

Lemma humidity_range v : 0 ≤ u8 (Z.land v 0xFF / 2) ≤ 127.
Proof.
  change 0xFF with (Z.ones 8). rewrite Z.land_ones by lia.
  pose proof (Z.mod_pos_bound v (2 ^ 8)).
  assert (0 ≤ v mod 2 ^ 8 / 2 ≤ 127) by (Z.div_mod_to_equations; lia).
  rewrite u8_small; unfold is_u8; lia.
Qed.

Lemma apply_field_ranges t n v s :
  is_u32 v → report_ranges s → report_ranges (apply_field t n v s).
Proof.
  intros Hv [[] ? ? ? ? ?]. destruct s. unfold is_u32 in Hv.
  pose proof (humidity_range v). pose proof (status_range v Hv).
  pose proof (accel_axis_range v 20 ltac:(lia) ltac:(lia)).
  pose proof (accel_axis_range v 10 ltac:(lia) ltac:(lia)).
  pose proof (accel_axis_range v 0 ltac:(lia) ltac:(lia)).
  unfold apply_field. repeat case_decide; split; try split; cbn in *;
    eauto with ints; unfold is_u8, is_i16 in *; lia.
Qed.

Lemma apply_item_ranges s it : wf_item it → report_ranges s → report_ranges (apply_item s it).
Proof.
  destruct it as [t n val| |]; cbn; [|done..]. intros (Ht & Hn & _ & _ & Hlen & Hb).
  apply apply_field_ranges. pose proof (le_value_range val Hb).
  pose proof (proj2 (pow2_size n Hn)).
  assert (2 ^ (8 * Z.of_nat (length val)) ≤ 2 ^ 32) by (apply Z.pow_le_mono_r; lia).
  unfold is_u32. lia.
Qed.

Lemma foldl_ranges its s :
  Forall wf_item its → report_ranges s → report_ranges (foldl apply_item s its).
Proof.
  intros Hwf. revert s. induction Hwf as [|it its Hit _ IH]; intros s Hs; [done|].
  by apply IH, apply_item_ranges.
Qed.

Lemma decode_tlv_ranges s d : is_bytes s → decode_tlv s = Done d → report_ranges d.
Proof.
  intros (its & rest & -> & Hwf & Hinc)%parse_items H.
  rewrite decode_tlv_items in H by done. injection H as <-.
  apply foldl_ranges; [done|]. split; (done || apply wf_empty_sensor_data).
Qed.

(** Where there is a status, the three axes are there too. *)
Definition accel_complete (d : SensorData) : Prop :=
  accel_status d = None ∨
  ∃ x y z, accel_x_cg d = Some x ∧ accel_y_cg d = Some y ∧ accel_z_cg d = Some z.

Lemma apply_field_accel type_id val_len value s :
  accel_complete s → accel_complete (apply_field type_id val_len value s).
Proof.
  unfold apply_field. destruct s. intros Hs.
  repeat case_decide; (exact Hs || (right; cbn; by do 3 eexists)).
Qed.

Lemma decoded_accel s d : is_bytes s → decode_tlv s = Done d → accel_complete d.
Proof.
  intros (its & rest & -> & Hwf & Hinc)%parse_items. rewrite decode_tlv_items by done.
  intros [= <-]. clear. assert (accel_complete empty_sensor_data) as Hs by by left.
  revert Hs. generalize empty_sensor_data. induction its as [|it its IH]; intros s Hs; [done|].
  cbn [foldl]. apply IH. destruct it; [by apply apply_field_accel|done..].
Qed.

(** Whatever bytes are decoded, every reported quantity fits its C++ type and
    its physical range: humidity at most 127, acceleration -512..511 with a
    2-bit status. *)
Theorem decode_tlv_bounds s d : is_bytes s → decode_tlv s = Done d → report_ranges d.
Proof. apply decode_tlv_ranges. Qed.

(** ** Round trip of a report *)

(** The low [n] bytes of a value. *)
Fixpoint to_le (n : nat) (z : Z) : bytes :=
  match n with O => [] | S n' => z mod 2 ^ 8 :: to_le n' (z / 2 ^ 8) end.

Lemma to_le_length n z : length (to_le n z) = n.
Proof. revert z. induction n as [|n IH]; intros z; cbn; [done|]. by rewrite IH. Qed.

Lemma to_le_bytes n z : is_bytes (to_le n z).
Proof.
  revert z. induction n as [|n IH]; intros z; constructor; [|apply IH].
  apply Z.mod_pos_bound. lia.
Qed.

Lemma le_value_to_le n z : le_value (to_le n z) = z mod 2 ^ (8 * Z.of_nat n).
Proof.
  revert z. induction n as [|n IH]; intros z; [by rewrite Z.mod_1_r|].
  cbn [to_le le_value]. rewrite IH.
  replace (8 * Z.of_nat (S n)) with (8 + 8 * Z.of_nat n) by lia.
  rewrite Z.pow_add_r by lia. assert (0 < 2 ^ (8 * Z.of_nat n)) by (apply Z.pow_pos_nonneg; lia).
  rewrite Z.rem_mul_r by lia. done.
Qed.

(** The item a device sends for a quantity, in the encoding of the STM-550B. *)
Definition opt_item {A} (f : A → item) (o : option A) : list item :=
  match o with Some a => [f a] | None => [] end.

Definition accel_word (status x y z : Z) : Z :=
  status * 2 ^ 30 + (x + 512) * 2 ^ 20 + (y + 512) * 2 ^ 10 + (z + 512).

Definition accel_item (s : SensorData) : list item :=
  match accel_status s, accel_x_cg s, accel_y_cg s, accel_z_cg s with
  | Some st, Some x, Some y, Some z => [IValue 0x0A 2 (to_le 4 (accel_word st x y z))]
  | _, _, _, _ => []
  end.

Definition closed_code (b : bool) : Z := if b then 2 else 1.

Definition report_items (s : SensorData) : list item :=
  opt_item (λ t, IValue 0x00 1 (to_le 2 t)) (temperature_cdeg s) ++
  opt_item (λ b, IValue 0x01 1 (to_le 2 (2 * b))) (battery_voltage s) ++
  opt_item (λ e, IValue 0x02 0 (to_le 1 (2 * e))) (energy_lvl s) ++
  opt_item (λ l, IValue 0x04 1 (to_le 2 l)) (light_solar_cell s) ++
  opt_item (λ l, IValue 0x05 1 (to_le 2 l)) (light_sensor s) ++
  opt_item (λ h, IValue 0x06 0 (to_le 1 (2 * h))) (humidity s) ++
  accel_item s ++
  opt_item (λ o, IValue 0x20 0 [closed_code o]) (occupancy s) ++
  opt_item (λ c, IValue 0x23 0 [closed_code c]) (contact s).

(** Reports the encodings can carry: ranges, and acceleration as a whole or
    not at all. *)
Record encodable (s : SensorData) : Prop := {
  enc_ranges : report_ranges s;
  enc_battery : opt_all (λ b, 2 * b < 2 ^ 16) (battery_voltage s);
  enc_energy : opt_all (λ e, 2 * e < 2 ^ 8) (energy_lvl s);
  enc_accel :
    match accel_status s, accel_x_cg s, accel_y_cg s, accel_z_cg s with
    | Some _, Some _, Some _, Some _ | None, None, None, None => True
    | _, _, _, _ => False
    end;
}.

Lemma report_items_wf s : Forall wf_item (report_items s).
Proof.
  unfold report_items, accel_item, opt_item. repeat (apply Forall_app; split);
    repeat case_match; constructor; try constructor; cbn [wf_item];
    unfold k_tlv_type_commissioning, k_tlv_type_optional;
    rewrite ?to_le_length; split_and!; try apply to_le_bytes; try done;
    destruct b; (apply is_bytes_dec; reflexivity).
Qed.

Lemma signed_mod w z : 0 < w → signed w (z mod 2 ^ w) = signed w z.
Proof.
  intros Hw. unfold signed. assert (0 < 2 ^ w) by (apply Z.pow_pos_nonneg; lia).
  by rewrite Z.add_mod_idemp_l by lia.
Qed.

Lemma field_temperature t : is_i16 t → i16 (Z.land (le_value (to_le 2 t)) 0xFFFF) = t.
Proof.
  intros Ht. rewrite le_value_to_le. change 0xFFFF with (Z.ones 16). rewrite Z.land_ones by lia.
  change (8 * Z.of_nat 2) with 16. rewrite Z.mod_mod by lia.
  unfold i16. rewrite signed_mod by lia. by apply i16_small.
Qed.

Lemma field_accel st x y z :
  0 ≤ st ≤ 3 → -512 ≤ x ≤ 511 → -512 ≤ y ≤ 511 → -512 ≤ z ≤ 511 →
  let v := le_value (to_le 4 (accel_word st x y z)) in
  u8 (Z.shiftr v 30) = st ∧ accel_axis v 20 = x ∧ accel_axis v 10 = y ∧ accel_axis v 0 = z.
Proof.
  intros. subst v. rewrite le_value_to_le. unfold accel_word. change (8 * Z.of_nat 4) with 32.
  rewrite Z.mod_small by lia. rewrite !accel_axis_eq by lia.
  rewrite Z.shiftr_div_pow2 by lia.
  change (2 ^ 30) with 1073741824. change (2 ^ 20) with 1048576. change (2 ^ 10) with 1024.
  change (2 ^ 0) with 1.
  split_and!; [rewrite u8_small|..]; unfold is_u8; Z.div_mod_to_equations; lia.
Qed.

Lemma field_u16 v : 0 ≤ v < 2 ^ 16 → le_value (to_le 2 v) = v.
Proof. intros. rewrite le_value_to_le. by apply Z.mod_small. Qed.
Lemma field_u8 v : 0 ≤ v < 2 ^ 8 → le_value (to_le 1 v) = v.
Proof. intros. rewrite le_value_to_le. by apply Z.mod_small. Qed.

Lemma field_humidity h :
  0 ≤ h ≤ 127 → u8 (Z.land (le_value (to_le 1 (2 * h))) 0xFF / 2) = h.
Proof.
  intros H. rewrite field_u8 by lia. change 0xFF with (Z.ones 8). rewrite Z.land_ones by lia.
  rewrite Z.mod_small by lia. rewrite Z.mul_comm, Z.div_mul by lia.
  apply u8_small. unfold is_u8. lia.
Qed.

(** [foldl] over the item of one quantity fills its field. *)
Ltac fill_field o :=
  intros; destruct o; [|reflexivity]; cbn [opt_item foldl apply_item opt_all] in *;
  rewrite ?to_le_length; cbn -[le_value to_le i16 u16 u8 Z.land Z.div Z.mul]; do 2 f_equal.

Section Fill.
Context (oc co : option bool) (li ba so en te hu st ax ay az : option Z).

Lemma fill_temperature t :
  opt_all is_i16 t →
  foldl apply_item (mkSensorData oc li ba so en None hu co st ax ay az)
    (opt_item (λ t, IValue 0x00 1 (to_le 2 t)) t) =
  mkSensorData oc li ba so en t hu co st ax ay az.
Proof. fill_field t. by apply field_temperature. Qed.

Lemma fill_battery b :
  opt_all is_u16 b → opt_all (λ b, 2 * b < 2 ^ 16) b →
  foldl apply_item (mkSensorData oc li None so en te hu co st ax ay az)
    (opt_item (λ b, IValue 0x01 1 (to_le 2 (2 * b))) b) =
  mkSensorData oc li b so en te hu co st ax ay az.
Proof.
  fill_field b. unfold is_u16 in *. rewrite field_u16 by lia.
  rewrite Z.mul_comm, Z.div_mul by lia. by apply u16_small.
Qed.

Lemma fill_energy e :
  opt_all is_u8 e → opt_all (λ e, 2 * e < 2 ^ 8) e →
  foldl apply_item (mkSensorData oc li ba so None te hu co st ax ay az)
    (opt_item (λ e, IValue 0x02 0 (to_le 1 (2 * e))) e) =
  mkSensorData oc li ba so e te hu co st ax ay az.
Proof.
  fill_field e. unfold is_u8 in *. rewrite field_u8 by lia.
  rewrite Z.mul_comm, Z.div_mul by lia. by apply u8_small.
Qed.

Lemma fill_solar l :
  opt_all is_u16 l →
  foldl apply_item (mkSensorData oc li ba None en te hu co st ax ay az)
    (opt_item (λ l, IValue 0x04 1 (to_le 2 l)) l) =
  mkSensorData oc li ba l en te hu co st ax ay az.
Proof. fill_field l. rewrite field_u16 by done. by apply u16_small. Qed.

Lemma fill_light l :
  opt_all is_u16 l →
  foldl apply_item (mkSensorData oc None ba so en te hu co st ax ay az)
    (opt_item (λ l, IValue 0x05 1 (to_le 2 l)) l) =
  mkSensorData oc l ba so en te hu co st ax ay az.
Proof. fill_field l. rewrite field_u16 by done. by apply u16_small. Qed.

Lemma fill_humidity h :
  opt_all (λ h, 0 ≤ h ≤ 127) h →
  foldl apply_item (mkSensorData oc li ba so en te None co st ax ay az)
    (opt_item (λ h, IValue 0x06 0 (to_le 1 (2 * h))) h) =
  mkSensorData oc li ba so en te h co st ax ay az.
Proof. fill_field h. by apply field_humidity. Qed.

Lemma fill_accel s :
  report_ranges s → encodable s →
  foldl apply_item (mkSensorData oc li ba so en te hu co None None None None) (accel_item s) =
  mkSensorData oc li ba so en te hu co
    (accel_status s) (accel_x_cg s) (accel_y_cg s) (accel_z_cg s).
Proof.
  intros [_ _ Hst Hx Hy Hz] [_ _ _ Hacc]. unfold accel_item.
  destruct (accel_status s) as [vs|], (accel_x_cg s) as [vx|], (accel_y_cg s) as [vy|],
    (accel_z_cg s) as [vz|]; try contradiction; [|reflexivity]. cbn [opt_all] in *.
  destruct (field_accel vs vx vy vz Hst Hx Hy Hz) as (E1 & E2 & E3 & E4).
  cbn -[le_value to_le accel_axis u8 Z.shiftr accel_word]. by rewrite E1, E2, E3, E4.
Qed.

Lemma fill_contacts :
  foldl apply_item
    (foldl apply_item (mkSensorData None li ba so en te hu None st ax ay az)
      (opt_item (λ o, IValue 0x20 0 [closed_code o]) oc))
    (opt_item (λ c, IValue 0x23 0 [closed_code c]) co) =
  mkSensorData oc li ba so en te hu co st ax ay az.
Proof. destruct oc as [[]|], co as [[]|]; reflexivity. Qed.
End Fill.

Lemma report_decodes s :
  encodable s → decode_tlv (encode_items (report_items s)) = Done s.
Proof.
  intros Henc. pose proof Henc as [Hr Hbat Hen _]. pose proof Hr as [[] Hh _ _ _ _].
  rewrite <- (app_nil_r (encode_items _)).
  rewrite decode_tlv_items by (apply report_items_wf || constructor). f_equal.
  unfold report_items, empty_sensor_data. rewrite !foldl_app.
  rewrite fill_temperature, fill_battery, fill_energy, fill_solar, fill_light,
    fill_humidity, fill_accel, fill_contacts by done.
  by destruct s.
Qed.

(** C18. Sending a report as items and decoding them gives the report back. *)
Theorem report_round_trip s :
  encodable s → decode_tlv (encode_items (report_items s)) = Done s.
Proof. apply report_decodes. Qed.

Lemma item_bytes_bytes it :
  match it with IValue _ _ _ => wf_item it | _ => False end → is_bytes (item_bytes it).
Proof.
  destruct it as [t n val| |]; cbn; [|done..]. intros (Ht & Hn & _ & _ & _ & Hb).
  constructor; [|done]. unfold is_u8, item_header. lia.
Qed.

Lemma report_items_bytes s : is_bytes (encode_items (report_items s)).
Proof.
  pose proof (report_items_wf s) as Hwf. unfold encode_items.
  assert (Forall (λ it, match it with IValue _ _ _ => True | _ => False end) (report_items s)) as Hv.
  { unfold report_items, accel_item, opt_item. repeat (apply Forall_app; split);
      repeat case_match; repeat constructor. }
  induction Hwf as [|it its Hit _ IH]; [constructor|]. apply Forall_cons in Hv as [Hi Hv].
  apply Forall_app; split; [apply item_bytes_bytes; by destruct it|by apply IH].
Qed.

(** A sample report of an STM-550B: -5.07 degrees, 3000 mV, 42 % humidity,
    acceleration, contact closed, occupied. *)
Definition sample_report : SensorData :=
  mkSensorData (Some true) None (Some 3000) None None (Some (-507)) (Some 42) (Some true)
    (Some 1) (Some (-100)) (Some 0) (Some 98).

Lemma sample_report_ranges : report_ranges sample_report.
Proof. split; try split; cbn; unfold is_u16, is_i16, is_u8; (done || lia). Qed.

Lemma report_round_trip_witness :
  encodable sample_report ∧
  decode_tlv (encode_items (report_items sample_report)) = Done sample_report.
Proof.
  assert (encodable sample_report) as H.
  { split; [apply sample_report_ranges|cbn; lia|done|done]. }
  split; [exact H|]. apply report_round_trip. exact H.
Defined.

(** An optional-data item is skipped, a truncated temperature is ignored. *)
Lemma decode_tlv_spec_witness :
  is_bytes [0xFC; 0x02; 0xAA; 0xBB; 0x20; 0x02; 0x40; 0x05] ∧
  ∃ its rest, [0xFC; 0x02; 0xAA; 0xBB; 0x20; 0x02; 0x40; 0x05] = encode_items its ++ rest ∧
    Forall wf_item its ∧ incomplete rest ∧
    Done (mkSensorData (Some true) None None None None None None None None None None None) =
    Done (A := SensorData) (foldl apply_item empty_sensor_data its).
Proof.
  assert (is_bytes [0xFC; 0x02; 0xAA; 0xBB; 0x20; 0x02; 0x40; 0x05]) as H
    by (apply is_bytes_dec; reflexivity).
  split; [exact H|]. destruct (decode_tlv_spec _ H) as (its & rest & E1 & E2 & E3 & E4).
  exists its, rest. rewrite <- E4. split_and!; [exact E1|exact E2|exact E3|].
  vm_compute. reflexivity.
Defined.

Lemma decode_tlv_bounds_witness :
  is_bytes [0x8A; 0xFF; 0xFF; 0xFF; 0xFF; 0x06; 0xFF] ∧
  report_ranges (mkSensorData None None None None None None (Some 127) None
                   (Some 3) (Some 511) (Some 511) (Some 511)).
Proof.
  assert (is_bytes [0x8A; 0xFF; 0xFF; 0xFF; 0xFF; 0x06; 0xFF]) as H
    by (apply is_bytes_dec; reflexivity).
  split; [exact H|]. apply (decode_tlv_bounds _ _ H). vm_compute. reflexivity.
Defined.
