(* ===== verification/Driver.v ===== *)
(** * The EnOcean driver (src/enocean/EnoceanDriver.hpp, EnoceanDriver.ipp)

    [EnoceanDriver<CryptoBackend>] as a record and its member functions as
    effectful computations over it, every log line and callback invocation in
    the trace. A device pointer into the table is its slot number. *)

From stdpp Require Import prelude list strings.
From Stdlib Require Import ZArith Lia.
From S2P Require Import Prelude Logger ErrorHandler ErrorCodes Types AdParser Crypto Tlv.

(** ** Constants (namespace detail) *)

Definition k_commissioning_payload_min : nat := 22.
Definition k_data_payload_min : nat := 9.
Definition k_seq_offset : nat := 0.
Definition k_key_offset : nat := 4.
Definition k_switch_state_offset : nat := 4.
Definition k_sensor_data_offset : nat := 4.
Definition k_switch_addr5 : Z := 0x03.
Definition k_switch_addr4 : Z := 0xDA.
Definition k_switch_ptm216b_addr5 : Z := 0xE2.
Definition k_switch_ptm216b_addr4 : Z := 0x15.
Definition k_sensor_addr5 : Z := 0xE5.
Definition k_stm_commissioning_marker : Z := 0x3E.
Definition k_stm_commissioning_payload_len : nat := 27.
Definition k_adv_nonconn_ind : Z := 0x03.
Definition k_addr_random : Z := 0x01.
Definition k_switch_payload_max : nat := 13.
Definition k_status_reserved_mask : Z := 0xE0.

(** ** State *)

Record EnoceanDriver (C : Type) := mkDriver {
  crypto_ : C;
  callbacks_ : EnoceanCallbacks;
  initialised_ : bool;
  commissioning_enabled_ : bool;
  devices_ : list EnoceanDevice;
}.
Arguments mkDriver {C} _ _ _ _ _.
Arguments crypto_ {C} _.
Arguments callbacks_ {C} _.
Arguments initialised_ {C} _.
Arguments commissioning_enabled_ {C} _.
Arguments devices_ {C} _.

(** ** Static member functions *)

(** [std::equal(first, last, other)]: reads as many elements of [other] as the
    first range has, up to the first difference. *)
Fixpoint std_equal (a b : bytes) : outcome bool :=
  match a, b with
  | [], _ => Done true
  | x :: a', y :: b' => if decide (x = y) then std_equal a' b' else Done false
  | _ :: _, [] => Stop Undefined
  end.

Definition detect_device_type (a : bytes) : outcome DeviceType :=
  if decide (length a < k_addr_len)%nat then Done UnknownType
  else
    a5 ← span_get a 5;
    a4 ← span_get a 4;
    if decide ((a5 = k_switch_addr5 ∧ a4 = k_switch_addr4) ∨
               (a5 = k_switch_ptm216b_addr5 ∧ a4 = k_switch_ptm216b_addr4))
    then Done Switch
    else if decide (a5 = k_sensor_addr5) then Done Sensor
    else Done UnknownType.

(** [for (i = 0; i < k_addr_len; ++i) nonce[i] = addr[i]], [n] rounds left. *)
Fixpoint copy_addr (a : bytes) (i n : nat) (nonce : bytes) : outcome bytes :=
  match n with
  | O => Done nonce
  | S n' => x ← span_get a i; nonce ← span_set nonce i x; copy_addr a (S i) n' nonce
  end.

Definition build_nonce (a : bytes) (seq : Z) (nonce : bytes) : outcome bytes :=
  nonce ← copy_addr a 0 k_addr_len nonce;
  nonce ← span_set nonce 6 (byte_of 0 seq);
  nonce ← span_set nonce 7 (byte_of 1 seq);
  nonce ← span_set nonce 8 (byte_of 2 seq);
  nonce ← span_set nonce 9 (byte_of 3 seq);
  nonce ← span_set nonce 10 0;
  nonce ← span_set nonce 11 0;
  span_set nonce 12 0.

Definition check_sequence (stored new_seq : Z) : bool := stored <? new_seq.

Fixpoint find_from (a : bytes) (i : nat) (devs : list EnoceanDevice) : outcome (option nat) :=
  match devs with
  | [] => Done None
  | dev :: devs' =>
      if negb (active dev) then find_from a (S i) devs'
      else
        eq ← std_equal a (addr (ble_addr dev));
        if (eq : bool) then Done (Some i) else find_from a (S i) devs'
  end.

Fixpoint allocate_from (i : nat) (devs : list EnoceanDevice) : option nat :=
  match devs with
  | [] => None
  | dev :: devs' => if negb (active dev) then Some i else allocate_from (S i) devs'
  end.

Fixpoint count_active (devs : list EnoceanDevice) (count : nat) : nat :=
  match devs with
  | [] => count
  | dev :: devs' => count_active devs' (if active dev then S count else count)
  end.

(** [std::uint32_t seq{...}], the little-endian load at the payload's start. *)
Definition read_seq (mfr_payload : bytes) : outcome Z := read_le32 mfr_payload k_seq_offset.

Section Driver.
Context {C : Type} `{CryptoImplementation C}.

Abbreviation driver := (EnoceanDriver C).
Abbreviation M := (eff driver event).

Definition set_devices (devs : list EnoceanDevice) (d : driver) : driver :=
  mkDriver (crypto_ d) (callbacks_ d) (initialised_ d) (commissioning_enabled_ d) devs.
Definition set_crypto (c : C) (d : driver) : driver :=
  mkDriver c (callbacks_ d) (initialised_ d) (commissioning_enabled_ d) (devices_ d).
Definition set_commissioning (b : bool) (d : driver) : driver :=
  mkDriver (crypto_ d) (callbacks_ d) (initialised_ d) b (devices_ d).

(** [*device] for the slot [i]. *)
Definition deref (i : nat) : M EnoceanDevice := d ← get; liftO (span_get (devices_ d) i).

(** An assignment through the device pointer. *)
Definition assign (i : nat) (f : EnoceanDevice → EnoceanDevice) : M () :=
  dev ← deref i;
  modify (λ d, set_devices (<[i := f dev]> (devices_ d)) d).

(** ** Lifecycle and queries *)

Definition construct (crypto : C) (callbacks : EnoceanCallbacks) : driver :=
  mkDriver crypto callbacks false false (replicate k_max_devices default_device).

Definition init : M (ErrorHandler () EnoceanError) :=
  modify (λ d, mkDriver (crypto_ d) (callbacks_ d) true false
                 ((λ _, default_device) <$> devices_ d));;
  log (LOGGER_NOTICE "EnoceanDriver initialised (max %zu devices)"
         [AInt (Z.of_nat k_max_devices)]);;
  of_value ().

Definition enable_commissioning : M () :=
  modify (set_commissioning true);;
  log (LOGGER_NOTICE "EnOcean commissioning enabled" []).

Definition disable_commissioning : M () :=
  modify (set_commissioning false);;
  log (LOGGER_NOTICE "EnOcean commissioning disabled" []).

Definition commissioning_enabled (d : driver) : bool := commissioning_enabled_ d.

Definition device_count (d : driver) : nat := count_active (devices_ d) 0.

Definition find_device (a : bytes) : M (option nat) :=
  d ← get; liftO (find_from a 0 (devices_ d)).

Definition allocate_device : M (option nat) :=
  d ← get; mret (allocate_from 0 (devices_ d)).

(** ** Authentication

    [tag_span], [payload_span], [nonce], [tag_arr] and the call to the
    backend: the same block in [handle_switch] and [handle_sensor]. *)
Definition authenticate (device : EnoceanDevice) (mfr_payload : bytes) (tag_offset : nat)
    (seq : Z) : M bool :=
  tag_span ← liftO (subspan mfr_payload tag_offset k_tag_len);
  payload_span ← liftO (subspan mfr_payload 0 tag_offset);
  nonce ← liftO (build_nonce (addr (ble_addr device)) seq (replicate k_nonce_len 0));
  tag_arr ← liftO (copy_at tag_span (replicate k_tag_len 0) 0);
  r ← zoom crypto_ set_crypto EvLog
        (aes_ccm_decrypt (key device) nonce payload_span [] tag_arr []);
  mret r.1.

(** ** Switch events *)

(** From [device.seq_num = seq] on: decode the state byte, check the
    optional data, call back. *)
Definition dispatch_switch (i : nat) (mfr_payload : bytes) (tag_offset : nat) : M bool :=
  state_byte ← liftO (span_get mfr_payload k_switch_state_offset);
  let pressed := bool_decide (Z.land state_byte 0x01 ≠ 0) in
  let buttons := u8 (Z.land (Z.shiftr state_byte 1) 0x0F) in
  let action := if pressed then Press else Release in
  let opt_offset := (k_switch_state_offset + 1)%nat in
  opt_len ← liftO (if decide (opt_offset < tag_offset)%nat
                   then size_sub tag_offset opt_offset else Done 0%nat);
  if decide ((opt_offset < tag_offset)%nat ∧
             opt_len ≠ 1%nat ∧ opt_len ≠ 2%nat ∧ opt_len ≠ 4%nat)
  then mret false
  else
    let opt_ptr := if decide (opt_offset < tag_offset)%nat
                   then Some (drop opt_offset mfr_payload) else None in
    d ← get;
    device ← deref i;
    (match cb_button (callbacks_ d) with
     | Some fn => emit (EvButton fn device action buttons opt_ptr opt_len)
     | None => mret ()
     end);;
    mret true.

Definition handle_switch (i : nat) (mfr_payload : bytes) : M bool :=
  if decide (length mfr_payload < k_data_payload_min)%nat then mret false
  else
    seq ← liftO (read_seq mfr_payload);
    device ← deref i;
    if negb (check_sequence (seq_num device) seq) then
      log (LOGGER_WARNING "EnoceanDriver: replay detected (switch)" []);;
      mret false
    else if decide (k_switch_payload_max < length mfr_payload)%nat then mret false
    else
      state_byte_pre ← liftO (span_get mfr_payload k_switch_state_offset);
      if decide (Z.land state_byte_pre k_status_reserved_mask ≠ 0) then mret false
      else
        tag_offset ← liftO (size_sub (length mfr_payload) k_tag_len);
        auth_ok ← authenticate device mfr_payload tag_offset seq;
        if negb auth_ok then
          log (LOGGER_WARNING "EnoceanDriver: switch auth failed" []);;
          mret false
        else
          assign i (set_seq_num seq);;
          dispatch_switch i mfr_payload tag_offset.

(** ** Sensor reports *)

Definition sensor_pkt_log (device : EnoceanDevice) (size : nat) (seq : Z) : outcome LogCall :=
  let a := addr (ble_addr device) in
  a5 ← span_get a 5; a4 ← span_get a 4; a3 ← span_get a 3;
  a2 ← span_get a 2; a1 ← span_get a 1; a0 ← span_get a 0;
  Done (LOGGER_NOTICE
          ("EnoceanDriver: sensor pkt %02hhX:%02hhX:%02hhX:%02hhX:%02hhX:%02hhX " +:+
           "payload[%zu] seq=%lu")
          [AInt a5; AInt a4; AInt a3; AInt a2; AInt a1; AInt a0;
           AInt (Z.of_nat size); AInt seq]).

Definition handle_sensor (i : nat) (mfr_payload : bytes) : M bool :=
  if decide (length mfr_payload < k_data_payload_min)%nat then mret false
  else
    seq ← liftO (read_seq mfr_payload);
    device ← deref i;
    l ← liftO (sensor_pkt_log device (length mfr_payload) seq);
    log l;;
    if negb (check_sequence (seq_num device) seq) then
      log (LOGGER_WARNING "EnoceanDriver: replay detected (sensor)" []);;
      mret false
    else
      tag_offset ← liftO (size_sub (length mfr_payload) k_tag_len);
      auth_ok ← authenticate device mfr_payload tag_offset seq;
      if negb auth_ok then
        log (LOGGER_WARNING "EnoceanDriver: sensor auth failed" []);;
        mret false
      else
        assign i (set_seq_num seq);;
        sensor_data ← liftO (
          if decide (k_sensor_data_offset < length mfr_payload)%nat then
            n ← size_sub tag_offset k_sensor_data_offset;
            sensor_bytes ← subspan mfr_payload k_sensor_data_offset n;
            decode_tlv sensor_bytes
          else Done empty_sensor_data);
        d ← get;
        device ← deref i;
        (match cb_sensor (callbacks_ d) with
         | Some fn => emit (EvSensor fn device sensor_data None 0)
         | None => mret ()
         end);;
        mret true.

(** ** Commissioning *)

Definition commissioned_log (a : bytes) : outcome LogCall :=
  a5 ← span_get a 5; a4 ← span_get a 4; a3 ← span_get a 3;
  a2 ← span_get a 2; a1 ← span_get a 1; a0 ← span_get a 0;
  Done (LOGGER_NOTICE
          ("EnoceanDriver: device commissioned " +:+
           "%02hhX:%02hhX:%02hhX:%02hhX:%02hhX:%02hhX")
          [AInt a5; AInt a4; AInt a3; AInt a2; AInt a1; AInt a0]).

(** [std::copy(mfr_payload.begin() + key_offset, ..., device->key.begin())]. *)
Definition copy_key (i : nat) (mfr_payload : bytes) (key_offset : nat) : M () :=
  device ← deref i;
  k ← liftO (subspan mfr_payload key_offset k_key_len);
  k ← liftO (copy_at k (key device) 0);
  assign i (set_key k).

(** The known-device branch. *)
Definition recommission (i : nat) (rssi seq : Z) (mfr_payload : bytes) (key_offset : nat)
    : M bool :=
  device ← deref i;
  (if negb (check_sequence (seq_num device) seq) then
     log (LOGGER_WARNING
            ("EnoceanDriver: re-commissioning with non-increasing seq " +:+
             "(stored=%lu new=%lu) — device may have reset")
            [AInt (seq_num device); AInt seq])
   else mret ());;
  assign i (set_seq_num seq);;
  assign i (set_rssi rssi);;
  copy_key i mfr_payload key_offset;;
  mret true.

(** Filling a free slot. *)
Definition commission (i : nat) (a : bytes) (addr_type rssi seq : Z) (dev_type : DeviceType)
    (mfr_payload : bytes) (key_offset : nat) : M bool :=
  assign i (set_active true);;
  assign i (set_seq_num seq);;
  assign i (set_rssi rssi);;
  assign i (set_type dev_type);;
  assign i (set_addr_type addr_type);;
  device ← deref i;
  a' ← liftO (copy_at a (addr (ble_addr device)) 0);
  assign i (set_addr a');;
  copy_key i mfr_payload key_offset;;
  l ← liftO (commissioned_log a);
  log l;;
  d ← get;
  device ← deref i;
  (match cb_commissioned (callbacks_ d) with
   | Some fn => emit (EvCommissioned fn device)
   | None => mret ()
   end);;
  mret true.

Definition handle_commissioning (a : bytes) (addr_type rssi : Z) (mfr_payload : bytes)
    : M bool :=
  if decide (length mfr_payload < k_commissioning_payload_min)%nat then mret false
  else
    seq ← liftO (read_seq mfr_payload);
    dev_type ← liftO (detect_device_type a);
    stm_format ← liftO (
      if decide (length mfr_payload = k_stm_commissioning_payload_len) then
        marker ← span_get mfr_payload k_key_offset;
        Done (bool_decide (marker = k_stm_commissioning_marker))
      else Done false);
    let key_offset := if stm_format : bool then (k_key_offset + 1)%nat else k_key_offset in
    if bool_decide (dev_type = Sensor) && negb stm_format then mret false
    else if decide (length mfr_payload < key_offset + k_key_len)%nat then mret false
    else
      device ← find_device a;
      match device with
      | Some i => recommission i rssi seq mfr_payload key_offset
      | None =>
          device ← allocate_device;
          match device with
          | None =>
              log (LOGGER_ERROR "EnoceanDriver: device table full, cannot commission" []);;
              mret false
          | Some i => commission i a addr_type rssi seq dev_type mfr_payload key_offset
          end
      end.

(** ** Advertisements *)

Definition process_advertisement (a : bytes) (addr_type adv_type rssi : Z) (data : bytes)
    : M () :=
  d ← get;
  if negb (initialised_ d) then mret ()
  else if decide (length a ≠ k_addr_len) then mret ()
  else if decide (adv_type ≠ k_adv_nonconn_ind ∨ addr_type ≠ k_addr_random) then mret ()
  else
    mfr_payload ← liftO (extract_manufacturer_data data);
    if decide (mfr_payload = []) then mret ()
    else if decide (length mfr_payload < k_data_payload_min)%nat then mret ()
    else
      device ← find_device a;
      match device with
      | Some i =>
          assign i (set_rssi rssi);;
          device ← deref i;
          if decide (type device = Switch) then
            handle_switch i mfr_payload;; mret ()
          else
            handle_sensor i mfr_payload;; mret ()
      | None =>
          d ← get;
          if bool_decide (k_commissioning_payload_min ≤ length mfr_payload)%nat
             && commissioning_enabled_ d then
            handle_commissioning a addr_type rssi mfr_payload;; mret ()
          else mret ()
      end.

(** [ctx]: whether the opaque pointer is non-null (it is this driver). *)
Definition advertisement_cb (ctx : bool) (a : bytes) (addr_type adv_type rssi : Z)
    (data : bytes) : M () :=
  if negb ctx then mret () else process_advertisement a addr_type adv_type rssi data.
End Driver.
