(* ===== verification/DriverRun.v ===== *)
(** * What the driver's handlers compute

    The fields of a data payload, and run lemmas that compute each handler of
    [Driver] on a well-formed table: the decision table of its branches. *)

From stdpp Require Import prelude list strings.
From Stdlib Require Import ZArith Lia.
From S2P Require Import Prelude Logger ErrorHandler ErrorCodes Types AdParser Crypto Tlv Driver.

(** ** Payload fields *)

Definition p_seq (p : bytes) : Z := match read_seq p with Done z => z | Stop _ => 0 end.
Definition p_state (p : bytes) : Z := p !!! 4%nat.
Definition p_tag (p : bytes) : bytes := drop (length p - k_tag_len) p.
Definition p_aad (p : bytes) : bytes := take (length p - k_tag_len) p.
(** The bytes between the sequence number and the tag. *)
Definition p_fields (p : bytes) : bytes := take (length p - 8) (drop 4 p).
Definition p_report (p : bytes) : SensorData :=
  match decode_tlv (p_fields p) with Done s => s | Stop _ => empty_sensor_data end.

Definition nonce_of (a : bytes) (seq : Z) : bytes :=
  a ++ [byte_of 0 seq; byte_of 1 seq; byte_of 2 seq; byte_of 3 seq; 0; 0; 0].

Lemma read_seq_run p : (4 ≤ length p)%nat → read_seq p = Done (p_seq p).
Proof.
  intros Hp. unfold p_seq, read_seq.
  destruct (read_le32_in p k_seq_offset) as (? & ? & ? & ? & _ & _ & _ & _ & E); [done|].
  by rewrite E.
Qed.

Lemma p_seq_short p : (length p < 4)%nat → p_seq p = 0.
Proof. by do 4 (destruct p as [|? p]; [reflexivity|]); cbn; lia. Qed.

Lemma p_seq_range p : is_bytes p → is_u32 (p_seq p).
Proof.
  intros Hp. unfold p_seq. destruct (read_seq p) as [z|] eqn:E; [|unfold is_u32; lia].
  by eapply read_le32_range.
Qed.

Lemma span_get_total (p : bytes) i : (i < length p)%nat → span_get p i = Done (p !!! i).
Proof.
  intros Hi. destruct (span_get_lt p i Hi) as (b & Hb & ->).
  f_equal. symmetry. by apply list_lookup_total_correct.
Qed.

Lemma aad_tag p : (4 ≤ length p)%nat → p_aad p ++ p_tag p = p ∧ length (p_tag p) = k_tag_len.
Proof.
  intros Hp. unfold p_aad, p_tag, k_tag_len. rewrite take_drop, length_drop. split; [done|lia].
Qed.

Lemma p_fields_bytes p : is_bytes p → is_bytes (p_fields p).
Proof. intros. by apply Forall_take, Forall_drop. Qed.

Lemma p_report_run p : is_bytes p → decode_tlv (p_fields p) = Done (p_report p).
Proof.
  intros Hp. unfold p_report.
  destruct (decode_tlv_done (p_fields p)) as [sd ->]; [by apply p_fields_bytes|done].
Qed.

(** ** Nonces *)

Lemma span_set_app {A} (pre suf : list A) y x n :
  length pre = n → span_set (pre ++ y :: suf) n x = Done (pre ++ x :: suf).
Proof.
  intros <-. unfold span_set. rewrite decide_True by (rewrite length_app; cbn; lia).
  by rewrite insert_app_r_alt, Nat.sub_diag by lia.
Qed.

Lemma build_nonce_run a seq :
  length a = k_addr_len → build_nonce a seq (replicate k_nonce_len 0) = Done (nonce_of a seq).
Proof.
  intros Ha. do 7 (destruct a as [|? a]; try discriminate Ha). reflexivity.
Qed.

Lemma nonce_of_length a seq : length a = k_addr_len → length (nonce_of a seq) = k_nonce_len.
Proof. intros Ha. unfold nonce_of. rewrite length_app, Ha. done. Qed.

(** The nonce determines device and counter. *)
Lemma nonce_of_inj a1 a2 s1 s2 :
  length a1 = k_addr_len → length a2 = k_addr_len → is_u32 s1 → is_u32 s2 →
  nonce_of a1 s1 = nonce_of a2 s2 → a1 = a2 ∧ s1 = s2.
Proof.
  intros H1 H2 Hs1 Hs2 [-> E]%app_inj_1; [|by rewrite H1, H2].
  split; [done|]. injection E as E0 E1 E2 E3.
  rewrite <- (le32_byte_of s1), <- (le32_byte_of s2) by done. congruence.
Qed.

(** ** Table searches *)

Lemma std_equal_run a b : length a = length b → std_equal a b = Done (bool_decide (a = b)).
Proof.
  revert b. induction a as [|x a IH]; intros [|y b] Hl; try discriminate Hl; [done|].
  cbn in *. case_decide as E.
  - rewrite IH by lia. f_equal. apply bool_decide_ext. subst. split; congruence.
  - rewrite bool_decide_eq_false_2; [done|]. congruence.
Qed.

Definition is_device (a : bytes) (dev : EnoceanDevice) : Prop :=
  active dev = true ∧ addr (ble_addr dev) = a.
#[export] Instance is_device_dec a dev : Decision (is_device a dev).
Proof. unfold is_device. apply _. Defined.

Definition find_slot (a : bytes) (devs : list EnoceanDevice) : option nat :=
  fst <$> list_find (is_device a) devs.
Definition free_slot (devs : list EnoceanDevice) : option nat :=
  fst <$> list_find (λ dev, active dev = false) devs.

Lemma find_from_run a devs i :
  length a = k_addr_len → Forall wf_device devs →
  find_from a i devs = Done (Nat.add i <$> find_slot a devs).
Proof.
  intros Ha Hwf. unfold find_slot. revert i.
  induction Hwf as [|dev devs [Hd _ _ _ _] _ IH]; intros i; [done|].
  assert (length (addr (ble_addr dev)) = k_addr_len) as Hl by apply Hd.
  cbn [find_from list_find]. destruct (decide (is_device a dev)) as [[Hact Hadr]|Hnd].
  - rewrite Hact. cbn. rewrite std_equal_run, bool_decide_eq_true_2 by congruence.
    cbn. do 2 f_equal. lia.
  - assert (find_from a (S i) devs =
      Done (Nat.add i <$> (fst <$> (prod_map S id <$> list_find (is_device a) devs)))) as E.
    { rewrite IH. destruct (list_find _ devs) as [[j x]|]; cbn; [|done]. do 2 f_equal. lia. }
    destruct (active dev) eqn:Hact; cbn; [|done].
    rewrite std_equal_run by congruence. cbn. rewrite bool_decide_eq_false_2; [done|].
    intros ->. by apply Hnd.
Qed.

Lemma allocate_from_run devs i : allocate_from i devs = Nat.add i <$> free_slot devs.
Proof.
  unfold free_slot. revert i. induction devs as [|dev devs IH]; intros i; [done|].
  cbn [allocate_from list_find]. destruct (decide (active dev = false)) as [E|E].
  - rewrite E. cbn. f_equal. lia.
  - destruct (active dev); [|done]. cbn. rewrite IH.
    destruct (list_find _ devs) as [[j x]|]; cbn; [|done]. f_equal. lia.
Qed.

Lemma find_slot_Some a devs i :
  find_slot a devs = Some i ↔
  (∃ dev, devs !! i = Some dev ∧ is_device a dev) ∧
  ∀ j dev, (j < i)%nat → devs !! j = Some dev → ¬ is_device a dev.
Proof.
  unfold find_slot. rewrite fmap_Some. split.
  - intros ([j x] & (Hx & Hd & Hj)%list_find_Some & ->). cbn. eauto 10.
  - intros [(dev & Hi & Hd) Hj]. exists (i, dev). split; [|done]. apply list_find_Some. eauto.
Qed.

Lemma find_slot_addr a devs i dev :
  find_slot a devs = Some i → devs !! i = Some dev → addr (ble_addr dev) = a.
Proof. intros [(dev' & Hi & [_ Ha]) _]%find_slot_Some Hi'. by simplify_eq. Qed.

Lemma find_slot_None a devs :
  find_slot a devs = None ↔ Forall (λ dev, ¬ is_device a dev) devs.
Proof. unfold find_slot. rewrite fmap_None. apply list_find_None. Qed.

Lemma free_slot_Some devs i :
  free_slot devs = Some i →
  (∃ dev, devs !! i = Some dev ∧ active dev = false) ∧
  ∀ j dev, (j < i)%nat → devs !! j = Some dev → active dev = true.
Proof.
  unfold free_slot. rewrite fmap_Some. intros ([j x] & (Hx & Hd & Hj)%list_find_Some & ->).
  cbn. split; [by eauto|]. intros k dev Hk Hdev. specialize (Hj k dev Hdev Hk).
  by destruct (active dev).
Qed.

Lemma free_slot_None devs : free_slot devs = None ↔ Forall (λ dev, active dev = true) devs.
Proof.
  unfold free_slot. rewrite fmap_None, list_find_None.
  apply Forall_iff. intros dev. destruct (active dev); naive_solver.
Qed.

(** ** Handlers *)

Lemma reserved_bits z : is_u8 z → Z.land z k_status_reserved_mask ≠ 0 ↔ 32 ≤ z.
Proof.
  intros Hz. assert (Z.land z 0xE0 = Z.shiftl (Z.shiftr z 5) 5) as E.
  { apply Z.bits_inj'. intros i Hi. rewrite Z.land_spec, Z.shiftl_spec by done.
    destruct (decide (i < 5)) as [Hlt|Hge].
    - rewrite (Z.testbit_neg_r (Z.shiftr z 5)) by lia.
      assert (i = 0 ∨ i = 1 ∨ i = 2 ∨ i = 3 ∨ i = 4) as Hc by lia.
      repeat destruct Hc as [->|Hc]; subst; by rewrite andb_false_r.
    - rewrite Z.shiftr_spec by lia. replace (i - 5 + 5) with i by lia.
      destruct (decide (i < 8)) as [Hlt8|Hge8].
      + assert (i = 5 ∨ i = 6 ∨ i = 7) as Hc by lia.
        repeat destruct Hc as [->|Hc]; subst; by rewrite andb_true_r.
      + unfold is_u8 in Hz. rewrite <- (Z.mod_small z (2 ^ 8)) by lia.
        by rewrite Z.mod_pow2_bits_high by lia. }
  unfold k_status_reserved_mask. rewrite E, Z.shiftl_mul_pow2, Z.shiftr_div_pow2 by lia.
  unfold is_u8 in Hz. change (2 ^ 5) with 32. Z.div_mod_to_equations. lia.
Qed.

Lemma state_buttons z : 0 ≤ z < 32 → u8 (Z.land (Z.shiftr z 1) 0x0F) = z / 2.
Proof.
  intros Hz. change 0x0F with (Z.ones 4). rewrite Z.land_ones, Z.shiftr_div_pow2 by lia.
  change (2 ^ 1) with 2. rewrite Z.mod_small by (Z.div_mod_to_equations; lia).
  apply u8_small. unfold is_u8. Z.div_mod_to_equations; lia.
Qed.

Lemma state_pressed z : bool_decide (Z.land z 0x01 ≠ 0) = Z.odd z.
Proof.
  change 0x01 with (Z.ones 1). rewrite Z.land_ones by lia. change (2 ^ 1) with 2.
  rewrite Zmod_odd. by destruct (Z.odd z).
Qed.

Section Run.
Context {C : Type} `{CryptoImplementation C}.
Implicit Types d : EnoceanDriver C.

(** [*device = dev] for slot [i]. *)
Definition set_slot (i : nat) (dev : EnoceanDevice) d : EnoceanDriver C :=
  set_devices (<[i := dev]> (devices_ d)) d.

(** The backend's verdict on a payload from [dev]. *)
Definition check_tag (c : C) (dev : EnoceanDevice) (p : bytes)
    : outcome (bool * C * list LogCall) :=
  match aes_ccm_decrypt (key dev) (nonce_of (addr (ble_addr dev)) (p_seq p))
          (p_aad p) [] (p_tag p) [] c with
  | Done (r, c', t) => Done (r.1, c', t)
  | Stop r => Stop r
  end.

Lemma deref_run i d dev : devices_ d !! i = Some dev → deref i d = Done (dev, d, []).
Proof.
  intros Hi. unfold deref. rewrite bind_run. cbn. unfold liftO. by rewrite (proj2 (span_get_Done _ _ _) Hi).
Qed.

Lemma assign_run i f d dev :
  devices_ d !! i = Some dev → assign i f d = Done ((), set_slot i (f dev) d, []).
Proof. intros Hi. unfold assign. by rewrite bind_run, (deref_run _ _ _ Hi). Qed.

Lemma set_slot_lookup i dev d :
  (i < length (devices_ d))%nat → devices_ (set_slot i dev d) !! i = Some dev.
Proof. intros. by apply list_lookup_insert_eq. Qed.

Lemma set_slot_twice i dev dev' d : set_slot i dev' (set_slot i dev d) = set_slot i dev' d.
Proof. unfold set_slot, set_devices. cbn. by rewrite list_insert_insert_eq. Qed.

Lemma authenticate_run dev p d :
  length (addr (ble_addr dev)) = k_addr_len → (4 ≤ length p)%nat →
  authenticate dev p (length p - k_tag_len) (p_seq p) d =
    match check_tag (crypto_ d) dev p with
    | Done (ok, c', t) => Done (ok, set_crypto c' d, EvLog <$> t)
    | Stop r => Stop r
    end.
Proof.
  intros Ha Hp. destruct (aad_tag p Hp) as [_ Ht]. unfold authenticate.
  rewrite bind_run. rewrite (subspan_in p (length p - k_tag_len)) by (unfold k_tag_len; lia).
  cbn [liftO]. fold (p_tag p). rewrite (take_ge (p_tag p)) by (by rewrite Ht).
  rewrite bind_run, (subspan_in p 0) by lia. cbn [liftO]. rewrite drop_0. fold (p_aad p).
  rewrite bind_run, build_nonce_run by done. cbn [liftO].
  rewrite bind_run, copy_at_0 by (by rewrite Ht). cbn [liftO].
  rewrite bind_run. unfold zoom, check_tag.
  destruct (aes_ccm_decrypt _ _ _ _ _ _ _) as [[[[ok pt] c'] t]|r]; [|done].
  cbn. by rewrite app_nil_r.
Qed.

(** What the application's button callback receives. *)
Definition button_events (cb : EnoceanCallbacks) (dev : EnoceanDevice) (p : bytes) : list event :=
  match cb_button cb with
  | Some fn =>
      [EvButton fn dev (if Z.odd (p_state p) then Press else Release) (p_state p / 2)
         (if decide (9 < length p)%nat then Some (drop 5 p) else None) (length p - 9)]
  | None => []
  end.

Lemma dispatch_switch_run i p d dev :
  devices_ d !! i = Some dev → (9 ≤ length p ≤ 13)%nat → 0 ≤ p_state p < 32 →
  dispatch_switch i p (length p - k_tag_len) d =
    if decide (length p = 12%nat) then Done (false, d, [])
    else Done (true, d, button_events (callbacks_ d) dev p).
Proof.
  intros Hi Hp Hst. unfold dispatch_switch.
  rewrite bind_run, span_get_total by (unfold k_switch_state_offset; lia). cbn [liftO].
  change (p !!! k_switch_state_offset) with (p_state p).
  rewrite state_buttons, state_pressed by done.
  unfold k_switch_state_offset, k_tag_len. cbn [Nat.add]. rewrite bind_run.
  assert ((if decide (5 < length p - 4)%nat then size_sub (length p - 4) 5 else Done 0%nat)
    = Done (length p - 9)%nat) as ->.
  { case_decide; [rewrite size_sub_in by lia|]; f_equal; lia. }
  cbn [liftO]. destruct (decide (length p = 12%nat)) as [E|E].
  { rewrite decide_True by lia. done. }
  rewrite decide_False by lia. rewrite bind_run. cbn [get].
  rewrite bind_run, (deref_run _ _ _ Hi), bind_run. unfold button_events.
  destruct (cb_button (callbacks_ d)) as [fn|]; [|done]. cbn. do 6 f_equal.
  repeat case_decide; (done || lia).
Qed.

(** A device accepted at sequence number [p_seq p]. *)
Definition accept (i : nat) (dev : EnoceanDevice) (p : bytes) (c' : C) d : EnoceanDriver C :=
  set_slot i (set_seq_num (p_seq p) dev) (set_crypto c' d).

Definition warn (msg : string) : event := EvLog (LOGGER_WARNING msg []).

Lemma handle_switch_eq i p d dev :
  devices_ d !! i = Some dev → length (addr (ble_addr dev)) = k_addr_len →
  is_bytes p → (9 ≤ length p)%nat →
  handle_switch i p d =
    if decide (p_seq p ≤ seq_num dev) then
      Done (false, d, [warn "EnoceanDriver: replay detected (switch)"])
    else if decide (13 < length p)%nat then Done (false, d, [])
    else if decide (32 ≤ p_state p) then Done (false, d, [])
    else
      match check_tag (crypto_ d) dev p with
      | Stop r => Stop r
      | Done (false, c', t) =>
          Done (false, set_crypto c' d,
                (EvLog <$> t) ++ [warn "EnoceanDriver: switch auth failed"])
      | Done (true, c', t) =>
          if decide (length p = 12%nat) then Done (false, accept i dev p c' d, EvLog <$> t)
          else Done (true, accept i dev p c' d,
                     (EvLog <$> t) ++
                     button_events (callbacks_ d) (set_seq_num (p_seq p) dev) p)
      end.
Proof.
  intros Hi Ha Hb Hp. unfold handle_switch.
  rewrite decide_False by (unfold k_data_payload_min; lia).
  rewrite bind_run, read_seq_run by lia. cbn [liftO].
  rewrite bind_run, (deref_run _ _ _ Hi). unfold check_sequence.
  destruct (Z.ltb_spec (seq_num dev) (p_seq p)) as [Hs|Hs]; cbn [negb];
    [rewrite (decide_False (P := p_seq p ≤ _)) by lia
    |by rewrite (decide_True (P := p_seq p ≤ _)) by lia].
  unfold k_switch_payload_max. case_decide as Hl; [done|].
  assert (span_get p k_switch_state_offset = Done (p_state p)) as Est
    by (apply span_get_total; unfold k_switch_state_offset; lia).
  pose proof (is_bytes_get _ _ _ Hb Est) as Hst.
  rewrite bind_run, Est. cbn [liftO].
  destruct (decide (32 ≤ p_state p)) as [Hr|Hr];
    [by rewrite decide_True by (by apply reserved_bits)|].
  rewrite decide_False by (by rewrite reserved_bits). unfold is_u8 in Hst.
  rewrite bind_run, size_sub_in by (unfold k_tag_len; lia). cbn [liftO].
  rewrite bind_run, authenticate_run by (done || lia).
  destruct (check_tag _ _ _) as [[[ok c'] t]|r]; [|done]. destruct ok; cbn [negb]; [|done].
  rewrite bind_run, (assign_run _ _ _ dev) by done.
  rewrite dispatch_switch_run with (dev := set_seq_num (p_seq p) dev);
    [|apply set_slot_lookup; by eapply lookup_lt_Some|lia|lia].
  case_decide; cbn; by rewrite ?app_nil_r.
Qed.

Definition sensor_log (dev : EnoceanDevice) (p : bytes) : LogCall :=
  match sensor_pkt_log dev (length p) (p_seq p) with
  | Done l => l | Stop _ => LOGGER_NOTICE "" []
  end.

Definition sensor_events (cb : EnoceanCallbacks) (dev : EnoceanDevice) (p : bytes) : list event :=
  match cb_sensor cb with
  | Some fn => [EvSensor fn dev (p_report p) None 0]
  | None => []
  end.

Lemma sensor_pkt_log_run dev n seq :
  length (addr (ble_addr dev)) = k_addr_len → ∃ l, sensor_pkt_log dev n seq = Done l.
Proof.
  intros Ha. unfold sensor_pkt_log. destruct (addr (ble_addr dev)) as [|a0 a]; [done|].
  do 5 (destruct a as [|? a]; [done|]). by eexists.
Qed.

Lemma handle_sensor_eq i p d dev :
  devices_ d !! i = Some dev → length (addr (ble_addr dev)) = k_addr_len →
  is_bytes p → (9 ≤ length p)%nat →
  handle_sensor i p d =
    if decide (p_seq p ≤ seq_num dev) then
      Done (false, d, [EvLog (sensor_log dev p);
                       warn "EnoceanDriver: replay detected (sensor)"])
    else
      match check_tag (crypto_ d) dev p with
      | Stop r => Stop r
      | Done (false, c', t) =>
          Done (false, set_crypto c' d,
                EvLog (sensor_log dev p) :: (EvLog <$> t) ++
                [warn "EnoceanDriver: sensor auth failed"])
      | Done (true, c', t) =>
          Done (true, accept i dev p c' d,
                EvLog (sensor_log dev p) :: (EvLog <$> t) ++
                sensor_events (callbacks_ d) (set_seq_num (p_seq p) dev) p)
      end.
Proof.
  intros Hi Ha Hb Hp. unfold handle_sensor.
  rewrite decide_False by (unfold k_data_payload_min; lia).
  rewrite bind_run, read_seq_run by lia. cbn [liftO].
  rewrite bind_run, (deref_run _ _ _ Hi).
  unfold sensor_log. destruct (sensor_pkt_log_run dev (length p) (p_seq p) Ha) as [l El].
  rewrite bind_run, El. cbn [liftO]. rewrite bind_run. cbn [log emit]. unfold check_sequence.
  destruct (Z.ltb_spec (seq_num dev) (p_seq p)) as [Hs|Hs]; cbn [negb];
    [rewrite (decide_False (P := p_seq p ≤ _)) by lia
    |by rewrite (decide_True (P := p_seq p ≤ _)) by lia].
  rewrite bind_run, size_sub_in by (unfold k_tag_len; lia). cbn [liftO].
  rewrite bind_run, authenticate_run by (done || lia).
  destruct (check_tag _ _ _) as [[[ok c'] t]|r]; [|done]. destruct ok; cbn [negb]; [|done].
  rewrite bind_run, (assign_run _ _ _ dev) by done.
  rewrite bind_run, decide_True by (unfold k_sensor_data_offset; lia).
  rewrite size_sub_in by (unfold k_tag_len, k_sensor_data_offset; lia).
  unfold k_tag_len, k_sensor_data_offset. cbn [mbind outcome_bind].
  rewrite subspan_in by lia. cbn [mbind outcome_bind].
  replace (length p - 4 - 4)%nat with (length p - 8)%nat by lia. fold (p_fields p).
  rewrite p_report_run by done. cbn [liftO]. rewrite bind_run. cbn [get].
  rewrite bind_run, (deref_run _ _ (set_seq_num (p_seq p) dev));
    [|apply set_slot_lookup; by eapply lookup_lt_Some].
  rewrite bind_run. unfold sensor_events. destruct (cb_sensor (callbacks_ d)) as [fn|] eqn:E;
    unfold accept; cbn; rewrite E; cbn; by rewrite ?app_nil_r.
Qed.

(** ** Commissioning *)

Lemma deref_set_slot i dev d :
  (i < length (devices_ d))%nat →
  deref i (set_slot i dev d) = Done (dev, set_slot i dev d, []).
Proof. intros. by apply deref_run, set_slot_lookup. Qed.

Lemma assign_set_slot i f dev d :
  (i < length (devices_ d))%nat →
  assign i f (set_slot i dev d) = Done ((), set_slot i (f dev) d, []).
Proof.
  intros Hi. rewrite (assign_run _ _ _ dev) by by apply set_slot_lookup.
  by rewrite set_slot_twice.
Qed.

Definition p_stm (p : bytes) : bool :=
  bool_decide (length p = 27%nat) && bool_decide (p !!! 4%nat = 0x3E).
(** The AES key of a commissioning payload. *)
Definition p_key (p : bytes) : bytes := take k_key_len (drop (if p_stm p then 5 else 4) p).
Definition device_type (a : bytes) : DeviceType :=
  match detect_device_type a with Done t => t | Stop _ => UnknownType end.

Definition new_device (a : bytes) (at_ rssi : Z) (p : bytes) : EnoceanDevice :=
  mkDevice (mkBleAddr a at_) (p_key p) (p_seq p) rssi (device_type a) true.

Definition commissioned_line (a : bytes) : event :=
  EvLog (match commissioned_log a with Done l => l | Stop _ => LOGGER_NOTICE "" [] end).

Definition commissioned_events (cb : EnoceanCallbacks) (dev : EnoceanDevice) : list event :=
  match cb_commissioned cb with Some fn => [EvCommissioned fn dev] | None => [] end.

Lemma addr_destruct (a : bytes) : length a = k_addr_len → ∃ a0 a1 a2 a3 a4 a5, a = [a0; a1; a2; a3; a4; a5].
Proof.
  intros Ha. do 6 (destruct a as [|? a]; [done|]). destruct a; [|done]. by eauto 10.
Qed.

Lemma detect_run a : length a = k_addr_len → detect_device_type a = Done (device_type a).
Proof.
  intros Ha. unfold device_type. destruct (addr_destruct a Ha) as (?&?&?&?&?&?&->).
  unfold detect_device_type. cbn. by repeat case_decide.
Qed.

Lemma copy_key_run i p off dev d :
  (i < length (devices_ d))%nat → length (key dev) = k_key_len →
  (off + k_key_len ≤ length p)%nat →
  copy_key i p off (set_slot i dev d) =
    Done ((), set_slot i (set_key (take k_key_len (drop off p)) dev) d, []).
Proof.
  intros Hi Hk Hp. unfold copy_key. rewrite bind_run, deref_set_slot by done.
  rewrite bind_run, subspan_in by done. cbn [liftO].
  rewrite bind_run, copy_at_0 by (rewrite length_take, length_drop; lia). cbn [liftO].
  by rewrite assign_set_slot.
Qed.

Lemma p_stm_offset p :
  (22 ≤ length p)%nat → ((if p_stm p then 5 else 4) + k_key_len ≤ length p)%nat.
Proof.
  intros Hp. unfold p_stm, k_key_len. case_bool_decide; cbn; [case_bool_decide|]; lia.
Qed.

Lemma commission_run i a at_ rssi p dev d :
  devices_ d !! i = Some dev → length (addr (ble_addr dev)) = k_addr_len →
  length (key dev) = k_key_len → length a = k_addr_len → (22 ≤ length p)%nat →
  commission i a at_ rssi (p_seq p) (device_type a) p (if p_stm p then 5 else 4)%nat d =
    Done (true, set_slot i (new_device a at_ rssi p) d,
          commissioned_line a ::
          commissioned_events (callbacks_ d) (new_device a at_ rssi p)).
Proof.
  intros Hi Hda Hk Ha Hp. pose proof (lookup_lt_Some _ _ _ Hi) as Hlt. unfold commission.
  rewrite bind_run, (assign_run _ _ _ dev) by done.
  do 4 rewrite bind_run, assign_set_slot by done.
  rewrite bind_run, deref_set_slot by done.
  rewrite bind_run, copy_at_0 by (cbn; congruence). cbn [liftO].
  rewrite bind_run, assign_set_slot by done.
  rewrite bind_run, copy_key_run by (done || by apply p_stm_offset).
  assert (∃ l, commissioned_log a = Done l) as [l El].
  { destruct (addr_destruct a Ha) as (?&?&?&?&?&?&->). by eexists. }
  unfold commissioned_line. rewrite bind_run, El. cbn [liftO].
  rewrite bind_run. cbn [log emit]. rewrite bind_run. cbn [get].
  rewrite bind_run, deref_set_slot by done. rewrite bind_run.
  change (callbacks_ (set_slot i _ d)) with (callbacks_ d).
  unfold commissioned_events. destruct (cb_commissioned (callbacks_ d)); reflexivity.
Qed.

Lemma recommission_run i rssi p dev d :
  devices_ d !! i = Some dev → length (key dev) = k_key_len → (22 ≤ length p)%nat →
  ∃ t, recommission i rssi (p_seq p) p (if p_stm p then 5 else 4)%nat d =
    Done (true, set_slot i (set_key (p_key p) (set_rssi rssi (set_seq_num (p_seq p) dev))) d, t).
Proof.
  intros Hi Hk Hp. pose proof (lookup_lt_Some _ _ _ Hi) as Hlt. unfold recommission.
  rewrite bind_run, (deref_run _ _ _ Hi), bind_run.
  destruct (check_sequence _ _); cbn [negb log emit mret eff_ret];
    (rewrite bind_run, (assign_run _ _ _ dev) by done;
     rewrite bind_run, assign_set_slot by done;
     rewrite bind_run, copy_key_run by (done || by apply p_stm_offset); by eexists).
Qed.

Lemma handle_commissioning_eq a at_ rssi p d :
  Forall wf_device (devices_ d) → length a = k_addr_len → (22 ≤ length p)%nat →
  handle_commissioning a at_ rssi p d =
    if bool_decide (device_type a = Sensor) && negb (p_stm p) then Done (false, d, [])
    else
      match find_slot a (devices_ d) with
      | Some i => recommission i rssi (p_seq p) p (if p_stm p then 5 else 4)%nat d
      | None =>
          match free_slot (devices_ d) with
          | None =>
              Done (false, d,
                [EvLog (LOGGER_ERROR "EnoceanDriver: device table full, cannot commission" [])])
          | Some i =>
              Done (true, set_slot i (new_device a at_ rssi p) d,
                    commissioned_line a ::
                    commissioned_events (callbacks_ d) (new_device a at_ rssi p))
          end
      end.
Proof.
  intros Hwf Ha Hp. unfold handle_commissioning.
  rewrite decide_False by (unfold k_commissioning_payload_min; lia).
  rewrite bind_run, read_seq_run by lia. cbn [liftO].
  rewrite bind_run, detect_run by done. cbn [liftO].
  rewrite span_get_total by (unfold k_key_offset; lia). cbn [mbind outcome_bind].
  rewrite bind_run. replace (if decide (length p = _) then _ else _) with (Done (p_stm p))
    by (unfold p_stm; case_decide as E; [by rewrite (bool_decide_eq_true_2 _ E)
                                        |by rewrite (bool_decide_eq_false_2 _ E)]).
  cbn [liftO]. cbv zeta. destruct (_ && negb _); [done|].
  change (if p_stm p then (k_key_offset + 1)%nat else k_key_offset)
    with (if p_stm p then 5 else 4)%nat.
  rewrite decide_False by (pose proof (p_stm_offset p Hp); lia).
  rewrite bind_run. unfold find_device. rewrite bind_run. cbn [get].
  rewrite find_from_run by done. cbn [liftO].
  destruct (find_slot a (devices_ d)) as [i|] eqn:Hf; cbn [fmap option_fmap option_map Nat.add].
  { cbn [app]. by destruct (recommission _ _ _ _ _ _) as [[[? ?] ?]|]. }
  rewrite bind_run. unfold allocate_device. rewrite bind_run. cbn [get mret eff_ret].
  rewrite allocate_from_run.
  destruct (free_slot (devices_ d)) as [i|] eqn:Hfree; [|done].
  cbn [fmap option_fmap option_map Nat.add].
  destruct (free_slot_Some _ _ Hfree) as [(dev & Hi & _) _].
  pose proof (Forall_lookup_1 _ _ _ _ Hwf Hi) as [[Hda _] _ [Hk _] _ _].
  by rewrite (commission_run _ _ _ _ _ dev) by done.
Qed.
End Run.

(** ** A whole advertisement *)

Section Process.
Context {C : Type} `{CryptoImplementation C}.
Implicit Types d : EnoceanDriver C.

(** The filters before the device table: the EnOcean payload of an
    advertisement the driver looks at. *)
Definition incoming d (a : bytes) (addr_type adv_type : Z) (data : bytes)
    : outcome (option bytes) :=
  if initialised_ d && bool_decide (length a = k_addr_len) &&
     bool_decide (adv_type = k_adv_nonconn_ind) && bool_decide (addr_type = k_addr_random)
  then
    p ← extract_manufacturer_data data;
    Done (if decide (9 ≤ length p)%nat then Some p else None)
  else Done None.

Definition discard {A} (r : outcome (A * EnoceanDriver C * list event))
    : outcome (() * EnoceanDriver C * list event) :=
  match r with Done (_, d', t) => Done ((), d', t) | Stop e => Stop e end.

Lemma incoming_Some d a at_ adv data p :
  incoming d a at_ adv data = Done (Some p) →
  initialised_ d = true ∧ length a = k_addr_len ∧ adv = k_adv_nonconn_ind ∧
  at_ = k_addr_random ∧ extract_manufacturer_data data = Done p ∧ (9 ≤ length p)%nat.
Proof.
  unfold incoming. destruct (initialised_ d); [|done].
  case_bool_decide; [|done]. case_bool_decide; [|done]. case_bool_decide; [|done].
  cbn [andb]. destruct (extract_manufacturer_data data) as [q|]; cbn; [|done].
  case_decide; [|done]. by intros [= <-].
Qed.

Lemma process_advertisement_eq a at_ adv rssi data d :
  Forall wf_device (devices_ d) →
  process_advertisement a at_ adv rssi data d =
    match incoming d a at_ adv data with
    | Stop r => Stop r
    | Done None => Done ((), d, [])
    | Done (Some p) =>
        match find_slot a (devices_ d) with
        | Some i =>
            let dev := devices_ d !!! i in
            let d1 := set_slot i (set_rssi rssi dev) d in
            discard (if decide (type dev = Switch) then handle_switch i p d1
                     else handle_sensor i p d1)
        | None =>
            if bool_decide (22 ≤ length p)%nat && commissioning_enabled_ d
            then discard (handle_commissioning a at_ rssi p d)
            else Done ((), d, [])
        end
    end.
Proof.
  intros Hwf. unfold process_advertisement, incoming. rewrite bind_run. cbn [get].
  destruct (initialised_ d); cbn [negb andb]; [|done].
  destruct (decide (length a = k_addr_len)) as [Ha|Ha];
    [rewrite bool_decide_eq_true_2, decide_False by tauto
    |by rewrite bool_decide_eq_false_2, decide_True by tauto]. cbn [andb].
  destruct (decide (adv = k_adv_nonconn_ind)) as [Hv|Hv];
    [rewrite (bool_decide_eq_true_2 _ Hv)
    |by rewrite (bool_decide_eq_false_2 _ Hv), decide_True by tauto]. cbn [andb].
  destruct (decide (at_ = k_addr_random)) as [Ht|Ht];
    [rewrite (bool_decide_eq_true_2 _ Ht), decide_False by tauto
    |by rewrite (bool_decide_eq_false_2 _ Ht), decide_True by tauto].
  rewrite bind_run. unfold liftO at 1.
  destruct (extract_manufacturer_data data) as [p|]; [|done]. cbn [mbind outcome_bind].
  destruct (decide (9 ≤ length p)%nat) as [Hp|Hp]; cycle 1.
  { case_decide; [done|]. by rewrite decide_True by (unfold k_data_payload_min; lia). }
  rewrite decide_False by (destruct p; [cbn in Hp; lia|done]).
  rewrite decide_False by (unfold k_data_payload_min; lia).
  rewrite bind_run. unfold find_device. rewrite bind_run. cbn [get].
  rewrite find_from_run by done. cbn [liftO].
  destruct (find_slot a (devices_ d)) as [i|] eqn:Hf; cbn [fmap option_fmap option_map Nat.add].
  - apply find_slot_Some in Hf as [(dev & Hi & _) _].
    rewrite (list_lookup_total_correct _ _ _ Hi).
    rewrite bind_run, (assign_run _ _ _ dev) by done.
    rewrite bind_run, deref_set_slot by by eapply lookup_lt_Some.
    cbn [type set_rssi]. cbv zeta. case_decide; rewrite bind_run.
    + by destruct (handle_switch _ _ _) as [[[? ?] ?]|]; cbn; rewrite ?app_nil_r.
    + by destruct (handle_sensor _ _ _) as [[[? ?] ?]|]; cbn; rewrite ?app_nil_r.
  - rewrite bind_run. cbn [get]. unfold k_commissioning_payload_min.
    destruct (_ && _); [|done]. rewrite bind_run.
    by destruct (handle_commissioning _ _ _ _ _) as [[[? ?] ?]|]; cbn; rewrite ?app_nil_r.
Qed.
End Process.
