(* ===== verification/DriverSafety.v ===== *)
(** * Safety of the EnOcean driver

    The possible effects of one advertisement, runs of the driver as sequences
    of operations, and the table invariant with its preservation. *)

From stdpp Require Import prelude list strings.
From Stdlib Require Import ZArith Lia.
From S2P Require Import Prelude Logger ErrorHandler ErrorCodes Types AdParser Crypto Tlv.
From S2P Require Import Driver DriverRun.

Definition is_log (e : event) : bool := match e with EvLog _ => true | _ => false end.

(** A trace with nothing but log lines. *)
Definition only_logs (t : list event) : Prop := Forall (λ e, is_log e = true) t.

Lemma only_logs_app t1 t2 : only_logs (t1 ++ t2) ↔ only_logs t1 ∧ only_logs t2.
Proof. apply Forall_app. Qed.

Lemma only_logs_fmap l : only_logs (EvLog <$> l).
Proof. induction l; by constructor. Qed.

(** The callback events of a trace. *)
Definition callbacks (t : list event) : list event := filter (λ e, is_log e = false) t.

Lemma callbacks_app t1 t2 : callbacks (t1 ++ t2) = callbacks t1 ++ callbacks t2.
Proof. apply filter_app. Qed.

Lemma callbacks_logs t : only_logs t → callbacks t = [].
Proof.
  induction 1 as [|e t He _ IH]; [done|]. unfold callbacks in *.
  by rewrite filter_cons_False by congruence.
Qed.

Section Effects.
Context {C : Type} `{CryptoImplementation C}.
Implicit Types d : EnoceanDriver C.

(** What an accepted packet from [dev] tells the application. *)
Definition report_events (cb : EnoceanCallbacks) (dev : EnoceanDevice) (p : bytes) : list event :=
  if decide (type dev = Switch) then button_events cb dev p else sensor_events cb dev p.

(** The effects one advertisement from [a] can have. *)
Inductive effect d (a : bytes) (at_ rssi : Z) (data : bytes) : EnoceanDriver C → list event → Prop :=
| eff_nothing t : only_logs t → effect d a at_ rssi data d t
| eff_heard i dev c t :
    devices_ d !! i = Some dev → is_device a dev → only_logs t →
    effect d a at_ rssi data (set_slot i (set_rssi rssi dev) (set_crypto c d)) t
| eff_accepted i dev p c l ev t :
    devices_ d !! i = Some dev → is_device a dev →
    extract_manufacturer_data data = Done p → is_bytes p → (9 ≤ length p)%nat →
    seq_num dev < p_seq p →
    check_tag (crypto_ d) dev p = Done (true, c, l) →
    ev = [] ∨ ev = report_events (callbacks_ d) (set_seq_num (p_seq p) (set_rssi rssi dev)) p →
    callbacks t = ev →
    effect d a at_ rssi data
      (set_slot i (set_seq_num (p_seq p) (set_rssi rssi dev)) (set_crypto c d)) t
| eff_commissioned i dev p t :
    commissioning_enabled_ d = true → at_ = k_addr_random →
    length a = k_addr_len → find_slot a (devices_ d) = None →
    free_slot (devices_ d) = Some i → devices_ d !! i = Some dev →
    extract_manufacturer_data data = Done p → is_bytes p → (22 ≤ length p)%nat →
    callbacks t = commissioned_events (callbacks_ d) (new_device a at_ rssi p) →
    effect d a at_ rssi data (set_slot i (new_device a at_ rssi p) d) t.

Lemma set_slot_crypto i dev c d :
  set_crypto c (set_slot i dev d) = set_slot i dev (set_crypto c d).
Proof. done. Qed.

Lemma set_crypto_same d : set_crypto (crypto_ d) d = d.
Proof. by destruct d. Qed.

Lemma accept_set_slot i dev dev1 p c d :
  accept i dev p c (set_slot i dev1 d) = set_slot i (set_seq_num (p_seq p) dev) (set_crypto c d).
Proof. unfold accept. by rewrite set_slot_crypto, set_slot_twice. Qed.

Lemma callbacks_report cb dev p l1 l2 :
  callbacks (l1 :: (EvLog <$> l2) ++ sensor_events cb dev p) =
    callbacks [l1] ++ sensor_events cb dev p.
Proof.
  change (l1 :: ?x ++ ?y) with ([l1] ++ x ++ y). rewrite !callbacks_app.
  rewrite (callbacks_logs (EvLog <$> l2)) by apply only_logs_fmap. f_equal.
  unfold sensor_events. by destruct (cb_sensor cb).
Qed.

Lemma callbacks_button cb dev p l :
  callbacks ((EvLog <$> l) ++ button_events cb dev p) = button_events cb dev p.
Proof.
  rewrite callbacks_app, (callbacks_logs (EvLog <$> l)) by apply only_logs_fmap.
  unfold button_events. by destruct (cb_button cb).
Qed.

Lemma wf_dev_addr_length dev : wf_device dev → length (addr (ble_addr dev)) = k_addr_len.
Proof. by intros [[? _] _ _ _ _]. Qed.

(** A packet that only updates the signal strength of its sender. *)
Lemma heard_effect d a at_ rssi data i dev c t :
  devices_ d !! i = Some dev → is_device a dev → only_logs t →
  effect d a at_ rssi data (set_crypto c (set_slot i (set_rssi rssi dev) d)) t.
Proof. intros. by apply (eff_heard d a at_ rssi data i dev). Qed.

Lemma heard_effect_same d a at_ rssi data i dev t :
  devices_ d !! i = Some dev → is_device a dev → only_logs t →
  effect d a at_ rssi data (set_slot i (set_rssi rssi dev) d) t.
Proof.
  intros Hi Hdev Ht. pose proof (eff_heard d a at_ rssi data i dev (crypto_ d) t Hi Hdev Ht) as E.
  by rewrite set_crypto_same in E.
Qed.

Section Known.
Context (d : EnoceanDriver C) (a : bytes) (at_ rssi : Z) (data p : bytes) (i : nat) (dev : EnoceanDevice).
Context (Hx : extract_manufacturer_data data = Done p) (Hpb : is_bytes p) (Hp : (9 ≤ length p)%nat).
Context (Hi : devices_ d !! i = Some dev) (Hdev : is_device a dev) (Hwd : length (addr (ble_addr dev)) = k_addr_len).
Abbreviation heard := (set_slot i (set_rssi rssi dev) d).

Lemma heard_lookup : devices_ heard !! i = Some (set_rssi rssi dev).
Proof. apply set_slot_lookup. by eapply lookup_lt_Some. Qed.

Lemma accepted_effect c l ev t :
  seq_num dev < p_seq p → check_tag (crypto_ d) dev p = Done (true, c, l) →
  ev = [] ∨ ev = report_events (callbacks_ d) (set_seq_num (p_seq p) (set_rssi rssi dev)) p →
  callbacks t = ev →
  effect d a at_ rssi data (accept i (set_rssi rssi dev) p c heard) t.
Proof. intros. rewrite accept_set_slot. by apply (eff_accepted d a at_ rssi data i dev p c l ev). Qed.

Lemma switch_effect r d' t :
  type dev = Switch → handle_switch i p heard = Done (r, d', t) → effect d a at_ rssi data d' t.
Proof.
  intros Hty. rewrite (handle_switch_eq _ _ _ _ heard_lookup) by done. cbn [seq_num set_rssi].
  destruct (decide (p_seq p ≤ seq_num dev));
    [intros [= <- <- <-]; apply heard_effect_same; [done..|by repeat constructor]|].
  case_decide; [intros [= <- <- <-]; apply heard_effect_same; [done..|constructor]|].
  case_decide; [intros [= <- <- <-]; apply heard_effect_same; [done..|constructor]|].
  destruct (check_tag _ _ _) as [[[[] c'] l]|] eqn:Htag; [| |done].
  - pose proof (accepted_effect c' l) as Hacc. unfold report_events in Hacc.
    rewrite decide_True in Hacc by done.
    case_decide; intros [= <- <- <-].
    + eapply Hacc; [lia|done|by left|]. apply callbacks_logs, only_logs_fmap.
    + eapply Hacc; [lia|done|by right|]. apply callbacks_button.
  - intros [= <- <- <-]. apply heard_effect; [done..|].
    apply only_logs_app; split; [apply only_logs_fmap|by repeat constructor].
Qed.

Lemma sensor_effect r d' t :
  type dev ≠ Switch → handle_sensor i p heard = Done (r, d', t) → effect d a at_ rssi data d' t.
Proof.
  intros Hty. rewrite (handle_sensor_eq _ _ _ _ heard_lookup) by done. cbn [seq_num set_rssi].
  destruct (decide (p_seq p ≤ seq_num dev));
    [intros [= <- <- <-]; apply heard_effect_same; [done..|by repeat constructor]|].
  destruct (check_tag _ _ _) as [[[[] c'] l]|] eqn:Htag; [| |done]; intros [= <- <- <-].
  - pose proof (accepted_effect c' l) as Hacc. unfold report_events in Hacc.
    rewrite decide_False in Hacc by done.
    eapply Hacc; [lia|done|by right|]. by rewrite callbacks_report.
  - apply heard_effect; [done..|]. constructor; [done|].
    apply only_logs_app; split; [apply only_logs_fmap|by repeat constructor].
Qed.
End Known.

Lemma commissioning_effect d a at_ rssi data p r d' t :
  Forall wf_device (devices_ d) → length a = k_addr_len → at_ = k_addr_random →
  commissioning_enabled_ d = true → find_slot a (devices_ d) = None →
  extract_manufacturer_data data = Done p → is_bytes p → (22 ≤ length p)%nat →
  handle_commissioning a at_ rssi p d = Done (r, d', t) → effect d a at_ rssi data d' t.
Proof.
  intros Hwf Ha Hat Hce Hf Hx Hpb Hl. rewrite handle_commissioning_eq by done. rewrite Hf.
  destruct (_ && _); [intros [= <- <- <-]; apply eff_nothing; constructor|].
  destruct (free_slot (devices_ d)) as [i|] eqn:Hfree; intros [= <- <- <-];
    [|apply eff_nothing; by repeat constructor].
  destruct (free_slot_Some _ _ Hfree) as [(dev & Hi & _) _].
  apply (eff_commissioned d a at_ rssi data i dev p); try done.
  unfold commissioned_line, commissioned_events. by destruct (cb_commissioned (callbacks_ d)).
Qed.

Lemma discard_Done {A} (m : outcome (A * EnoceanDriver C * list event)) u d' t :
  discard m = Done (u, d', t) → ∃ r, m = Done (r, d', t).
Proof. destruct m as [[[r d1] t1]|]; [|done]. intros [= _ <- <-]. by exists r. Qed.

(** Every advertisement that is processed has one of these effects. *)
Lemma process_effect a at_ adv rssi data d u d' t :
  Forall wf_device (devices_ d) → is_bytes data →
  process_advertisement a at_ adv rssi data d = Done (u, d', t) →
  effect d a at_ rssi data d' t.
Proof.
  intros Hwf Hb. rewrite process_advertisement_eq by done.
  destruct (incoming d a at_ adv data) as [[p|]|] eqn:Hin; [| |done]; cycle 1.
  { intros [= <- <- <-]. apply eff_nothing. constructor. }
  apply incoming_Some in Hin as (_ & Ha & _ & Hat & Hx & Hp).
  assert (is_bytes p) as Hpb by by eapply extract_payload_bytes.
  destruct (find_slot a (devices_ d)) as [i|] eqn:Hf.
  - apply find_slot_Some in Hf as [(dev & Hi & Hdev) _].
    rewrite (list_lookup_total_correct _ _ _ Hi). cbv zeta.
    pose proof (wf_dev_addr_length _ (Forall_lookup_1 _ _ _ _ Hwf Hi)) as Hwd.
    intros [r Hr]%discard_Done.
    case_decide; [by eapply switch_effect|by eapply sensor_effect].
  - destruct (_ && _) eqn:Hc; [|intros [= <- <- <-]; apply eff_nothing; constructor].
    apply andb_true_iff in Hc as [Hl%bool_decide_eq_true Hce].
    intros [r Hr]%discard_Done. by eapply commissioning_effect.
Qed.
End Effects.

(** ** Runs *)

(** The calls an application and its BLE backend make to a driver. *)
Inductive op :=
| OInit
| OEnable
| ODisable
| OAdv (ctx : bool) (a : bytes) (addr_type adv_type rssi : Z) (data : bytes).

Definition wf_op (o : op) : Prop :=
  match o with
  | OAdv _ a at_ adv rssi data => is_bytes a ∧ is_u8 at_ ∧ is_i8 rssi ∧ is_bytes data
  | _ => True
  end.

Definition is_init (o : op) : bool := match o with OInit => true | _ => false end.

Section Runs.
Context {C : Type} `{CryptoImplementation C}.
Implicit Types d : EnoceanDriver C.

Definition run_op (o : op) : eff (EnoceanDriver C) event () :=
  match o with
  | OInit => init;; mret ()
  | OEnable => enable_commissioning
  | ODisable => disable_commissioning
  | OAdv ctx a at_ adv rssi data => advertisement_cb ctx a at_ adv rssi data
  end.

Fixpoint exec (ops : list op) : eff (EnoceanDriver C) event () :=
  match ops with
  | [] => mret ()
  | o :: ops' => run_op o;; exec ops'
  end.

(** Induction over a run: an invariant each step preserves, given what the
    step's trace adds. *)
Lemma exec_cons o ops d u d' t :
  exec (o :: ops) d = Done (u, d', t) →
  ∃ u1 d1 t1 t2, run_op o d = Done (u1, d1, t1) ∧ exec ops d1 = Done (u, d', t2) ∧ t = t1 ++ t2.
Proof. cbn [exec]. intros Hx. eff_inv. by eauto 10. Qed.

Lemma run_op_cases o d u d' t :
  Forall wf_device (devices_ d) → wf_op o → run_op o d = Done (u, d', t) →
  match o with
  | OInit => devices_ d' = (λ _, default_device) <$> devices_ d ∧ callbacks_ d' = callbacks_ d ∧
             initialised_ d' = true ∧ commissioning_enabled_ d' = false ∧ only_logs t
  | OEnable => d' = set_commissioning true d ∧ only_logs t
  | ODisable => d' = set_commissioning false d ∧ only_logs t
  | OAdv _ a at_ _ rssi data => effect d a at_ rssi data d' t
  end.
Proof.
  intros Hwf Ho. destruct o as [| | |ctx a at_ adv rssi data]; cbn [run_op].
  - unfold init, log, of_value. intros Hx. eff_inv. split_and!; try done. by repeat constructor.
  - unfold enable_commissioning, log. intros Hx. eff_inv. by repeat constructor.
  - unfold disable_commissioning, log. intros Hx. eff_inv. by repeat constructor.
  - unfold advertisement_cb. destruct ctx; cbn [negb].
    + destruct Ho as (_ & _ & _ & Hb). by apply process_effect.
    + intros Hx. eff_inv. apply eff_nothing. constructor.
Qed.

(** ** The table invariant *)

Record driver_inv d : Prop := {
  inv_len : length (devices_ d) = k_max_devices;
  inv_wf : Forall wf_device (devices_ d);
  inv_uniq : ∀ i j x y, devices_ d !! i = Some x → devices_ d !! j = Some y →
    active x = true → active y = true → addr (ble_addr x) = addr (ble_addr y) → i = j;
  inv_kind : Forall (λ dev, active dev = true →
    type dev = device_type (addr (ble_addr dev)) ∧ addr_type (ble_addr dev) = k_addr_random)
    (devices_ d);
}.

Lemma construct_inv c cb : driver_inv (construct c cb).
Proof.
  split; cbn -[k_max_devices replicate].
  - apply length_replicate.
  - apply Forall_replicate, wf_default_device.
  - intros i j x y Hx Hy Hax. apply lookup_replicate_1 in Hx as [-> _]. done.
  - by apply Forall_replicate.
Qed.

(** Rewriting a device without touching what identifies it. *)
Definition same_identity (x y : EnoceanDevice) : Prop :=
  active x = active y ∧ ble_addr x = ble_addr y ∧ type x = type y ∧ key x = key y.

Lemma set_slot_inv i dev dev' d d1 :
  devices_ d1 = devices_ d → devices_ d !! i = Some dev → same_identity dev dev' →
  wf_device dev' → driver_inv d → driver_inv (set_slot i dev' d1).
Proof.
  intros Hd1 Hi (Eact & Eaddr & Ety & _) Hwf' [Hlen Hwf Huniq Hkind].
  assert (∀ j x, <[i := dev']> (devices_ d) !! j = Some x →
    ∃ x0, devices_ d !! j = Some x0 ∧ active x = active x0 ∧ ble_addr x = ble_addr x0 ∧
          type x = type x0) as Hold.
  { intros j x [(-> & -> & ?)|[_ ?]]%list_lookup_insert_Some; [|by eauto 10].
    exists dev. by repeat split. }
  unfold set_slot, set_devices. split; cbn; rewrite Hd1.
  - by rewrite length_insert.
  - by apply Forall_insert.
  - intros j1 j2 x y (x0 & Hx & Eax & Ebx & _)%Hold (y0 & Hy & Eay & Eby & _)%Hold Hax Hay Ead.
    apply (Huniq j1 j2 x0 y0); congruence.
  - apply Forall_lookup_2. intros j x (x0 & Hx & Ea & Eb & Et)%Hold Hact.
    rewrite Et, Eb. apply (Forall_lookup_1 _ _ _ _ Hkind Hx). congruence.
Qed.

Lemma p_key_ok p : is_bytes p → (22 ≤ length p)%nat → length (p_key p) = k_key_len ∧ is_bytes (p_key p).
Proof.
  intros Hb Hp. pose proof (p_stm_offset p Hp). unfold p_key. split.
  - rewrite length_take, length_drop. lia.
  - by apply Forall_take, Forall_drop.
Qed.

Lemma new_device_wf a at_ rssi p :
  length a = k_addr_len → is_bytes a → is_u8 at_ → is_i8 rssi → is_bytes p → (22 ≤ length p)%nat →
  wf_device (new_device a at_ rssi p).
Proof.
  intros. split; cbn; [done|done|by apply p_key_ok|by apply p_seq_range|done].
Qed.

Lemma new_slot_inv i a rssi p d :
  find_slot a (devices_ d) = None → free_slot (devices_ d) = Some i →
  wf_device (new_device a k_addr_random rssi p) →
  driver_inv d → driver_inv (set_slot i (new_device a k_addr_random rssi p) d).
Proof.
  intros Hf Hfree Hwf' [Hlen Hwf Huniq Hkind].
  rewrite find_slot_None, Forall_lookup in Hf.
  unfold set_slot, set_devices. split; cbn.
  - by rewrite length_insert.
  - by apply Forall_insert.
  - intros j1 j2 x y Hx Hy Hax Hay Ead.
    apply list_lookup_insert_Some in Hx as [(-> & <- & _)|[Hne1 Hx]];
    apply list_lookup_insert_Some in Hy as [(-> & <- & _)|[Hne2 Hy]]; try done.
    + exfalso. apply (Hf _ _ Hy). by split.
    + exfalso. apply (Hf _ _ Hx). by split.
    + by eapply Huniq.
  - by apply Forall_insert.
Qed.

Lemma wf_set_rssi dev r : wf_device dev → is_i8 r → wf_device (set_rssi r dev).
Proof. by intros [] ?. Qed.
Lemma wf_set_seq dev s : wf_device dev → is_u32 s → wf_device (set_seq_num s dev).
Proof. by intros [] ?. Qed.

Lemma effect_inv d a at_ rssi data d' t :
  is_bytes a → is_u8 at_ → is_i8 rssi →
  effect d a at_ rssi data d' t → driver_inv d → driver_inv d'.
Proof.
  intros Ha Hat Hr Heff Hinv. pose proof (inv_wf _ Hinv) as Hwf.
  destruct Heff as [t0 _|i dev c t0 Hi _ _|i dev p c l ev t0 Hi _ _ Hpb _ _ _ _ _
    |i dev p t0 _ -> Hal Hf Hfree Hi _ Hpb Hp _]; [done|..].
  - pose proof (Forall_lookup_1 _ _ _ _ Hwf Hi).
    by apply (set_slot_inv i dev _ d); [..|apply wf_set_rssi|].
  - pose proof (Forall_lookup_1 _ _ _ _ Hwf Hi).
    apply (set_slot_inv i dev _ d); try done.
    apply wf_set_seq; [by apply wf_set_rssi|by apply p_seq_range].
  - apply new_slot_inv; [done..| |done]. by apply new_device_wf.
Qed.

Lemma run_op_inv o d u d' t :
  wf_op o → run_op o d = Done (u, d', t) → driver_inv d → driver_inv d'.
Proof.
  intros Ho Hrun Hinv. pose proof (run_op_cases _ _ _ _ _ (inv_wf _ Hinv) Ho Hrun) as Hc.
  destruct o as [| | |ctx a at_ adv rssi data].
  - destruct Hc as (Ed & _). destruct Hinv as [Hlen _ _ _].
    assert (∀ j x, devices_ d' !! j = Some x → x = default_device) as Hx.
    { intros j x. rewrite Ed, list_lookup_fmap, fmap_Some. naive_solver. }
    split.
    + by rewrite Ed, length_fmap.
    + apply Forall_lookup_2. intros j x ->%Hx. apply wf_default_device.
    + intros i j x y ->%Hx _ Hact. done.
    + apply Forall_lookup_2. by intros j x ->%Hx.
  - destruct Hc as [-> _]. destruct Hinv. by split.
  - destruct Hc as [-> _]. destruct Hinv. by split.
  - destruct Ho as (? & ? & ? & ?). by apply (effect_inv d a at_ rssi data d' t).
Qed.

Lemma exec_inv ops d u d' t :
  Forall wf_op ops → exec ops d = Done (u, d', t) → driver_inv d → driver_inv d'.
Proof.
  intros Hops. revert d t. induction Hops as [|o ops Ho _ IH]; intros d t Hrun Hinv.
  - cbn in Hrun. eff_inv. done.
  - apply exec_cons in Hrun as (u1 & d1 & t1 & t2 & H1 & H2 & _).
    eapply IH; [done|]. by eapply run_op_inv.
Qed.
End Runs.
