(* ===== verification/DriverProps.v ===== *)
(** * Properties of the EnOcean driver

    What holds of one advertisement and along every run: the table invariant,
    authentication, replay protection, immutability of commissioned devices,
    commissioning and capacity, and progress. *)

From stdpp Require Import prelude list strings.
From Stdlib Require Import ZArith Lia Sorted.
From S2P Require Import Prelude Logger ErrorHandler ErrorCodes Types AdParser Crypto Tlv.
From S2P Require Import Driver DriverRun DriverSafety.

(** The device a callback reports, and its accepted counter. *)
Definition reported (e : event) : option (bytes * Z) :=
  match e with
  | EvButton _ dev _ _ _ _ | EvSensor _ dev _ _ _ => Some (addr (ble_addr dev), seq_num dev)
  | _ => None
  end.

Definition accepted (t : list event) : list (bytes * Z) := omap reported t.

Lemma accepted_app t1 t2 : accepted (t1 ++ t2) = accepted t1 ++ accepted t2.
Proof. apply omap_app. Qed.

Lemma accepted_callbacks t : accepted (callbacks t) = accepted t.
Proof.
  unfold accepted, callbacks. induction t as [|e t IH]; [done|].
  destruct e; cbn [is_log]; [rewrite filter_cons_False by done; exact IH|..];
    rewrite filter_cons_True by done; cbn; by rewrite IH.
Qed.

Lemma accepted_logs t : only_logs t → accepted t = [].
Proof. intros Ht. by rewrite <- accepted_callbacks, callbacks_logs. Qed.

Section Slots.
Context {C : Type} `{CryptoImplementation C}.
Implicit Types d : EnoceanDriver C.

(** A commissioned device with address [a] whose last counter is [n]. *)
Definition has_seq d (a : bytes) (n : Z) : Prop :=
  ∃ i dev, devices_ d !! i = Some dev ∧ is_device a dev ∧ seq_num dev = n.

Lemma has_seq_inj d a n1 n2 : driver_inv d → has_seq d a n1 → has_seq d a n2 → n1 = n2.
Proof.
  intros [_ _ Hu _] (i & x & Hi & [Hax Hx] & <-) (j & y & Hj & [Hay Hy] & <-).
  assert (i = j) as -> by (eapply Hu; eauto; congruence). congruence.
Qed.

(** One advertisement keeps every commissioned device in its slot, its
    identity and key untouched, its counter not decreased. *)
Lemma effect_slots d a at_ rssi data d' t i x :
  effect d a at_ rssi data d' t → devices_ d !! i = Some x → active x = true →
  ∃ x', devices_ d' !! i = Some x' ∧ same_identity x x' ∧ seq_num x ≤ seq_num x'.
Proof.
  intros Heff Hi Hact.
  assert (∀ j y d1, devices_ d1 = devices_ d → i ≠ j → devices_ (set_slot j y d1) !! i = Some x)
    as Hne.
  { intros j y d1 Ed Hij. cbn. by rewrite Ed, list_lookup_insert_ne. }
  assert (∀ y, same_identity y y) as Hrefl by (intros; by repeat split).
  destruct Heff as [t0 _|j dev c t0 Hj _ _|j dev p c l ev t0 Hj _ _ _ _ Hs _ _ _
    |j dev p t0 _ _ _ _ Hfree Hj _ _ _ _]; [exists x; split_and!; [done|apply Hrefl|lia]|..];
    (destruct (decide (i = j)) as [->|Hij];
     [|exists x; rewrite Hne by done; split_and!; [done|apply Hrefl|lia]]).
  - assert (dev = x) as -> by congruence. exists (set_rssi rssi x). cbn.
    rewrite list_lookup_insert_eq by by eapply lookup_lt_Some. by repeat split.
  - assert (dev = x) as -> by congruence. exists (set_seq_num (p_seq p) (set_rssi rssi x)). cbn.
    rewrite list_lookup_insert_eq by by eapply lookup_lt_Some. repeat split. cbn. lia.
  - destruct (free_slot_Some _ _ Hfree) as [(y & Hy & Hfalse) _]. congruence.
Qed.

Lemma run_op_slots o d u d' t i x :
  driver_inv d → wf_op o → is_init o = false → run_op o d = Done (u, d', t) →
  devices_ d !! i = Some x → active x = true →
  ∃ x', devices_ d' !! i = Some x' ∧ same_identity x x' ∧ seq_num x ≤ seq_num x'.
Proof.
  intros Hinv Ho Hni Hrun Hi Hact.
  pose proof (run_op_cases _ _ _ _ _ (inv_wf _ Hinv) Ho Hrun) as Hc.
  destruct o as [| | |ctx a at_ adv rssi data]; [done|..].
  - destruct Hc as [-> _]. exists x. split_and!; [done|by repeat split|lia].
  - destruct Hc as [-> _]. exists x. split_and!; [done|by repeat split|lia].
  - by eapply effect_slots.
Qed.

Lemma exec_slots ops d u d' t i x :
  driver_inv d → Forall wf_op ops → Forall (λ o, is_init o = false) ops →
  exec ops d = Done (u, d', t) → devices_ d !! i = Some x → active x = true →
  ∃ x', devices_ d' !! i = Some x' ∧ same_identity x x' ∧ seq_num x ≤ seq_num x'.
Proof.
  intros Hinv Hops Hni. revert d t x Hinv. induction Hops as [|o ops Ho Hops IH];
    intros d t x Hinv Hrun Hi Hact.
  { cbn in Hrun. eff_inv. exists x. split_and!; [done|by repeat split|lia]. }
  apply Forall_cons in Hni as [Hni1 Hni].
  apply exec_cons in Hrun as (u1 & d1 & t1 & t2 & H1 & H2 & _).
  destruct (run_op_slots _ _ _ _ _ _ _ Hinv Ho Hni1 H1 Hi Hact) as (y & Hy & Hid & Hle).
  destruct (IH Hni d1 t2 y) as (z & Hz & Hid' & Hle'); [by eapply run_op_inv|done|done| |].
  { destruct Hid as (<- & _). done. }
  exists z. unfold same_identity in *. split_and!; [done|intuition congruence..|lia].
Qed.

(** What one operation reports: at most one event, from a commissioned
    device, with a counter above the stored one, which it becomes. *)
Lemma run_op_accepted o d u d' t a s :
  driver_inv d → wf_op o → is_init o = false → run_op o d = Done (u, d', t) →
  (a, s) ∈ accepted t →
  accepted t = [(a, s)] ∧ is_u32 s ∧ (∃ n, has_seq d a n ∧ n < s) ∧ has_seq d' a s.
Proof.
  intros Hinv Ho Hni Hrun Hin.
  pose proof (run_op_cases _ _ _ _ _ (inv_wf _ Hinv) Ho Hrun) as Hc.
  destruct o as [| | |ctx a' at_ adv rssi data]; [done|..].
  - destruct Hc as [_ Hl]. rewrite accepted_logs in Hin by done. inversion Hin.
  - destruct Hc as [_ Hl]. rewrite accepted_logs in Hin by done. inversion Hin.
  - rewrite <- accepted_callbacks in Hin. rewrite <- accepted_callbacks.
    destruct Hc as [t0 Hl|j dev c t0 Hj _ Hl|j dev p c l ev t0 Hj [Hact Had] _ Hpb _ Hs _ Hev Ht
      |j dev p t0 _ _ _ _ _ _ _ _ _ Ht].
    + rewrite (callbacks_logs _ Hl) in Hin. inversion Hin.
    + rewrite (callbacks_logs _ Hl) in Hin. inversion Hin.
    + rewrite Ht in *. destruct Hev as [->|Hev]; [inversion Hin|].
      assert (accepted ev = [] ∨ accepted ev = [(a', p_seq p)]) as Hacc.
      { rewrite Hev. unfold report_events, button_events, sensor_events.
        rewrite <- Had. repeat case_match; auto. }
      destruct Hacc as [Hacc|Hacc]; rewrite Hacc in *; [inversion Hin|].
      apply list_elem_of_singleton in Hin as [= -> ->]. split_and!; [done|by apply p_seq_range|..].
      * exists (seq_num dev). split; [|done]. by exists j, dev.
      * exists j, (set_seq_num (p_seq p) (set_rssi rssi dev)).
        split; [|done]. apply list_lookup_insert_eq. by eapply lookup_lt_Some.
    + rewrite Ht in Hin. unfold commissioned_events in Hin.
      destruct (cb_commissioned _); inversion Hin.
Qed.
End Slots.

Section Properties.
Context {C : Type} `{CryptoImplementation C}.
Implicit Types d : EnoceanDriver C.

(** C3. From construction on, whatever calls are made, the table keeps eight
    slots of well-typed entries, no address is commissioned twice, and a
    commissioned device has the type its address says and a random address. *)
Theorem table_invariant c cb ops u d' t :
  Forall wf_op ops → exec ops (construct c cb) = Done (u, d', t) → driver_inv d'.
Proof. intros Hops Hrun. eapply exec_inv; [done|done|apply construct_inv]. Qed.

(** What stands behind an event. *)
Lemma events_authentic a at_ adv rssi data d u d' t e :
  driver_inv d → is_bytes data →
  process_advertisement a at_ adv rssi data d = Done (u, d', t) →
  e ∈ t → is_log e = false →
  ∃ p, extract_manufacturer_data data = Done p ∧
    ((∃ fn, commissioning_enabled_ d = true ∧ cb_commissioned (callbacks_ d) = Some fn ∧
        find_slot a (devices_ d) = None ∧ e = EvCommissioned fn (new_device a at_ rssi p)) ∨
     (∃ i dev c l pt, devices_ d !! i = Some dev ∧ is_device a dev ∧
        seq_num dev < p_seq p ∧
        aes_ccm_decrypt (key dev) (nonce_of a (p_seq p)) (p_aad p) [] (p_tag p) [] (crypto_ d)
          = Done ((true, pt), c, l) ∧
        let dev' := set_seq_num (p_seq p) (set_rssi rssi dev) in
        devices_ d' !! i = Some dev' ∧
        e ∈ report_events (callbacks_ d) dev' p)).
Proof.
  intros Hinv Hb Hrun Hin He.
  apply process_effect in Hrun; [|by apply Hinv|done].
  assert (e ∈ callbacks t) as Hcb by (apply list_elem_of_filter; done).
  destruct Hrun as [t0 Hl|j dev c t0 Hj _ Hl|j dev p c l ev t0 Hj [Hact Had] Hx Hpb _ Hs Htag Hev Ht
      |j dev p t0 Hce _ _ Hf _ _ Hx _ _ Ht]; try rewrite (callbacks_logs _ Hl) in Hcb;
      try (by inversion Hcb).
  - exists p. split; [done|right]. unfold check_tag in Htag. rewrite Had in Htag.
    destruct (aes_ccm_decrypt _ _ _ _ _ _ _) as [[[[ok pt] c'] l']|] eqn:Hdec; [|done].
    cbn in Htag. simplify_eq. exists j, dev, c, l, pt. cbv zeta. split_and!; try done.
    + apply list_lookup_insert_eq. by eapply lookup_lt_Some.
    + destruct Hev as [Hev|Hev]; rewrite Hev in Hcb; [inversion Hcb|done].
  - exists p. split; [done|left]. rewrite Ht in Hcb. unfold commissioned_events in Hcb.
    destruct (cb_commissioned (callbacks_ d)) as [fn|]; [|inversion Hcb].
    apply list_elem_of_singleton in Hcb as ->. by exists fn.
Qed.

(** C5. Every event the application receives while an advertisement is processed
    is either the commissioning of a new device, in commissioning mode, or
    the report of a commissioned device whose payload in this advertisement
    the backend verified: under the device's own key, with the nonce made of
    the device's address and the payload's counter, over everything before
    the tag; and the counter is above the stored one. *)
Theorem callbacks_authentic a at_ adv rssi data d u d' t e :
  driver_inv d → is_bytes data →
  process_advertisement a at_ adv rssi data d = Done (u, d', t) →
  e ∈ t → is_log e = false →
  ∃ p, extract_manufacturer_data data = Done p ∧
    ((∃ fn, commissioning_enabled_ d = true ∧ cb_commissioned (callbacks_ d) = Some fn ∧
        find_slot a (devices_ d) = None ∧ e = EvCommissioned fn (new_device a at_ rssi p)) ∨
     (∃ i dev c l pt, devices_ d !! i = Some dev ∧ is_device a dev ∧
        seq_num dev < p_seq p ∧
        aes_ccm_decrypt (key dev) (nonce_of a (p_seq p)) (p_aad p) [] (p_tag p) [] (crypto_ d)
          = Done ((true, pt), c, l) ∧
        let dev' := set_seq_num (p_seq p) (set_rssi rssi dev) in
        devices_ d' !! i = Some dev' ∧
        e ∈ report_events (callbacks_ d) dev' p)).
Proof. apply events_authentic. Qed.

(** C4. Along a run in which the driver is not initialised again - which forgets
    all devices and their counters -, the counters a device's reports carry to
    the application strictly increase, and are above the counter stored when
    the run begins: no payload, recorded or not, is reported twice. *)
Theorem replay_protection ops d u d' t :
  driver_inv d → Forall wf_op ops → Forall (λ o, is_init o = false) ops →
  exec ops d = Done (u, d', t) →
  ForallOrdPairs (λ r1 r2, r1.1 = r2.1 → r1.2 < r2.2) (accepted t) ∧
  Forall (λ r, ∀ n, has_seq d r.1 n → n < r.2) (accepted t).
Proof.
  intros Hinv Hops Hni. revert d t Hinv. induction Hops as [|o ops Ho Hops IH]; intros d t Hinv Hrun.
  { cbn in Hrun. eff_inv. repeat constructor. }
  apply Forall_cons in Hni as [Hni1 Hni].
  apply exec_cons in Hrun as (u1 & d1 & t1 & t2 & H1 & H2 & ->).
  assert (driver_inv d1) as Hinv1 by by eapply run_op_inv.
  destruct (IH Hni d1 t2 Hinv1 H2) as [IHp IHf]. rewrite accepted_app.
  assert (Forall (λ r, ∀ n, has_seq d r.1 n → n < r.2) (accepted t2)) as Hf2.
  { eapply Forall_impl; [exact IHf|]. cbn. intros [a s] Hr n (i & x & Hi & [Hax Hx] & <-).
    destruct (run_op_slots _ _ _ _ _ _ _ Hinv Ho Hni1 H1 Hi Hax) as (y & Hy & (Ea & Eb & _) & Hle).
    cbn in *. enough (seq_num y < s) by lia. apply Hr. exists i, y.
    unfold is_device. rewrite <- Ea, <- Eb. done. }
  destruct (accepted t1) as [|[a s] t1'] eqn:Hacc; [done|].
  destruct (run_op_accepted _ _ _ _ _ a s Hinv Ho Hni1 H1) as (E & _ & (n & Hn & Hlt) & Hs);
    [rewrite Hacc; left|]. rewrite Hacc in E. injection E as ->. split.
  - constructor; [|done]. eapply Forall_impl; [exact IHf|]. cbn. intros [a' s'] Hr ->.
    by apply Hr.
  - constructor; [|done]. cbn. intros n' Hn'. by rewrite (has_seq_inj _ _ _ _ Hinv Hn' Hn).
Qed.

(** An exhausted counter stays where it is. *)
Lemma exhausted_stays ops d u d' t a :
  driver_inv d → Forall wf_op ops → Forall (λ o, is_init o = false) ops →
  exec ops d = Done (u, d', t) → has_seq d a (2 ^ 32 - 1) → has_seq d' a (2 ^ 32 - 1).
Proof.
  intros Hinv Hops Hni Hrun (i & x & Hi & [Hax Hx] & Hs).
  destruct (exec_slots _ _ _ _ _ _ _ Hinv Hops Hni Hrun Hi Hax) as (y & Hy & (Ea & Eb & _) & Hle).
  exists i, y. unfold is_device. rewrite <- Ea, <- Eb. split_and!; [done..|].
  assert (driver_inv d') as Hinv' by by eapply exec_inv.
  pose proof (wf_dev_seq _ (Forall_lookup_1 _ _ _ _ (inv_wf _ Hinv') Hy)) as Hu.
  unfold is_u32 in Hu. lia.
Qed.

Lemma exhausted_silent ops d u d' t a :
  driver_inv d → Forall wf_op ops → Forall (λ o, is_init o = false) ops →
  exec ops d = Done (u, d', t) → has_seq d a (2 ^ 32 - 1) →
  Forall (λ r, r.1 ≠ a) (accepted t).
Proof.
  intros Hinv Hops Hni. revert d t Hinv. induction Hops as [|o ops Ho Hops IH];
    intros d t Hinv Hrun Hmax.
  { cbn in Hrun. eff_inv. constructor. }
  apply Forall_cons in Hni as [Hni1 Hni].
  apply exec_cons in Hrun as (u1 & d1 & t1 & t2 & H1 & H2 & ->).
  assert (driver_inv d1) as Hinv1 by by eapply run_op_inv.
  rewrite accepted_app. apply Forall_app. split.
  - apply Forall_forall. intros [a' s] Hin E. cbn in E. subst a'.
    destruct (run_op_accepted _ _ _ _ _ a s Hinv Ho Hni1 H1 Hin) as (_ & Hu & (n & Hn & Hlt) & _).
    rewrite (has_seq_inj _ _ _ _ Hinv Hn Hmax) in Hlt. unfold is_u32 in Hu. lia.
  - apply (IH Hni d1 t2 Hinv1 H2). apply (exhausted_stays [o] d () d1 t1); try done;
      [by constructor..|]. cbn [exec]. rewrite bind_run, H1. cbn. by rewrite app_nil_r.
Qed.

(** A device whose counter is at its maximum is never heard again before the
    driver is re-initialised. *)
Theorem exhausted_counter_silent ops d u d' t a :
  driver_inv d → Forall wf_op ops → Forall (λ o, is_init o = false) ops →
  exec ops d = Done (u, d', t) → has_seq d a (2 ^ 32 - 1) →
  Forall (λ r, r.1 ≠ a) (accepted t).
Proof. apply exhausted_silent. Qed.

(** Once commissioned, a device keeps its slot, address, type and key
    through every run without re-initialisation - advertisements that
    re-commission it included - and its counter never decreases. *)
Theorem commissioned_immutable ops d u d' t i x :
  driver_inv d → Forall wf_op ops → Forall (λ o, is_init o = false) ops →
  exec ops d = Done (u, d', t) → devices_ d !! i = Some x → active x = true →
  ∃ x', devices_ d' !! i = Some x' ∧ active x' = true ∧ ble_addr x' = ble_addr x ∧
    type x' = type x ∧ key x' = key x ∧ seq_num x ≤ seq_num x'.
Proof.
  intros Hinv Hops Hni Hrun Hi Hact.
  destruct (exec_slots _ _ _ _ _ _ _ Hinv Hops Hni Hrun Hi Hact) as (x' & Hx' & Hid & Hle).
  exists x'. destruct Hid as (? & ? & ? & ?). split_and!; congruence || done.
Qed.

(** The backend rejects every payload from the device at [a]. *)
Definition rejects d (a : bytes) : Prop :=
  ∀ dev p c l, dev ∈ devices_ d → is_device a dev → check_tag (crypto_ d) dev p ≠ Done (true, c, l).

(** An advertisement whose payload does not verify, outside commissioning
    mode, reaches no callback and changes nothing of the table but a signal
    strength. *)
Theorem forged_harmless a at_ adv rssi data d u d' t :
  driver_inv d → is_bytes data → rejects d a → commissioning_enabled_ d = false →
  process_advertisement a at_ adv rssi data d = Done (u, d', t) →
  only_logs t ∧
  Forall2 (λ x x', x' = x ∨ x' = set_rssi rssi x ∧ is_device a x) (devices_ d) (devices_ d').
Proof.
  intros Hinv Hb Hrej Hce Hrun. apply process_effect in Hrun; [|by apply Hinv|done].
  assert (∀ ds : list EnoceanDevice,
    Forall2 (λ x x', x' = x ∨ x' = set_rssi rssi x ∧ is_device a x) ds ds) as Hrefl
    by (induction ds; constructor; auto).
  destruct Hrun as [t0 Hl|j dev c t0 Hj Hdev Hl|j dev p c l ev t0 Hj Hdev _ _ _ _ Htag _ _
      |j dev p t0 Hce' _ _ _ _ _ _ _ _ _].
  - by split.
  - split; [done|]. cbn. apply Forall2_same_length_lookup. rewrite length_insert. split; [done|].
    intros k x x' Hx Hx'. apply list_lookup_insert_Some in Hx' as [(-> & <- & _)|[_ Hx']]; [|left; congruence].
    right. by simplify_eq.
  - destruct (Hrej dev p c l); [|done..]. by eapply list_elem_of_lookup_2.
  - congruence.
Qed.

(** ** Progress *)

Lemma check_tag_total `{!CryptoTotal C} c dev p :
  wf_device dev → (4 ≤ length p)%nat → ∃ ok c' l, check_tag c dev p = Done (ok, c', l).
Proof.
  intros [[Ha _] _ [Hk _] _ _] Hp. unfold check_tag.
  destruct (aes_ccm_decrypt_total (key dev) (nonce_of (addr (ble_addr dev)) (p_seq p))
    (p_aad p) (p_tag p) c) as (ok & c' & l & ->);
    [done|by apply nonce_of_length|by apply aad_tag|by eauto].
Qed.

Lemma handle_known_done `{!CryptoTotal C} i p d dev :
  devices_ d !! i = Some dev → wf_device dev → is_bytes p → (9 ≤ length p)%nat →
  ∃ r, discard (if decide (type dev = Switch) then handle_switch i p d
                else handle_sensor i p d) = Done r.
Proof.
  intros Hi Hwf Hb Hp. pose proof (wf_dev_addr_length _ Hwf) as Ha.
  destruct (check_tag_total (crypto_ d) dev p Hwf) as (ok & c' & l & E); [lia|].
  rewrite (handle_switch_eq _ _ _ dev), (handle_sensor_eq _ _ _ dev) by done. rewrite E.
  repeat case_decide; destruct ok; cbn; by eauto.
Qed.

Lemma handle_commissioning_done a at_ rssi p d :
  driver_inv d → length a = k_addr_len → (22 ≤ length p)%nat →
  ∃ r, discard (handle_commissioning a at_ rssi p d) = Done r.
Proof.
  intros Hinv Ha Hp. rewrite handle_commissioning_eq by (done || apply Hinv).
  destruct (_ && _); [by eexists|].
  destruct (find_slot a (devices_ d)) as [i|] eqn:Hf.
  - apply find_slot_Some in Hf as [(dev & Hi & _) _].
    pose proof (Forall_lookup_1 _ _ _ _ (inv_wf _ Hinv) Hi) as Hwf.
    destruct (recommission_run i rssi p dev d Hi) as [t ->]; [apply Hwf|done|by eexists].
  - destruct (free_slot (devices_ d)); by eexists.
Qed.

(** With a backend that always comes back, processing an advertisement
    finishes, whatever the bytes, except in one case: the driver is
    initialised, the frame passes the filters, and the walk over its AD
    structures meets one that overruns the end by exactly one byte; then it
    reads outside the advertisement. *)
Theorem process_progress `{!CryptoTotal C} a at_ adv rssi data d :
  driver_inv d → is_bytes data → is_i8 rssi →
  (∃ d' t, process_advertisement a at_ adv rssi data d = Done ((), d', t)) ∨
  process_advertisement a at_ adv rssi data d = Stop Undefined ∧
    initialised_ d = true ∧ length a = k_addr_len ∧ adv = k_adv_nonconn_ind ∧
    at_ = k_addr_random ∧ ∃ i, ad_walk data i ∧ overruns_at data i.
Proof.
  intros Hinv Hb Hr. rewrite process_advertisement_eq by apply Hinv.
  destruct (incoming d a at_ adv data) as [[p|]|r] eqn:Hin; [|by eauto|].
  - apply incoming_Some in Hin as (_ & Ha & _ & _ & Hx & Hp). left.
    assert (is_bytes p) as Hpb by by eapply extract_payload_bytes.
    enough (∃ r, match find_slot a (devices_ d) with
      | Some i => let dev := devices_ d !!! i in let d1 := set_slot i (set_rssi rssi dev) d in
          discard (if decide (type dev = Switch) then handle_switch i p d1 else handle_sensor i p d1)
      | None => if bool_decide (22 ≤ length p)%nat && commissioning_enabled_ d
          then discard (handle_commissioning a at_ rssi p d) else Done ((), d, []) end = Done r)
      as [[[[] d'] t] E] by by exists d', t.
    destruct (find_slot a (devices_ d)) as [i|] eqn:Hf.
    + apply find_slot_Some in Hf as [(dev & Hi & _) _].
      rewrite (list_lookup_total_correct _ _ _ Hi). cbv zeta.
      pose proof (Forall_lookup_1 _ _ _ _ (inv_wf _ Hinv) Hi) as Hwf.
      apply (handle_known_done i p _ (set_rssi rssi dev)); [|by apply wf_set_rssi|done..].
      apply set_slot_lookup. by eapply lookup_lt_Some.
    + destruct (_ && _) eqn:Hc; [|by eexists].
      apply andb_true_iff in Hc as [Hl%bool_decide_eq_true _].
      by apply handle_commissioning_done.
  - right. unfold incoming in Hin. destruct (initialised_ d); [|done].
    repeat (case_bool_decide; [|done]). cbn [andb] in Hin.
    destruct (extract_outcome data Hb) as [[p Hp]|[E Hov]]; [by rewrite Hp in Hin|].
    rewrite E in Hin. cbn in Hin. injection Hin as <-. by split_and!.
Qed.

(** ** Delivery *)

(** The payload of a data advertisement. *)
Definition data_payload (seq : Z) (body tag : bytes) : bytes :=
  to_le 4 seq ++ body ++ tag.

Lemma data_payload_fields seq body tag :
  is_u32 seq → length tag = k_tag_len →
  p_seq (data_payload seq body tag) = seq ∧ p_tag (data_payload seq body tag) = tag ∧
  p_aad (data_payload seq body tag) = to_le 4 seq ++ body ∧
  p_fields (data_payload seq body tag) = body ∧
  length (data_payload seq body tag) = (8 + length body)%nat.
Proof.
  intros Hs Ht. unfold data_payload, p_tag, p_aad, p_fields.
  assert (length (to_le 4 seq ++ body ++ tag) = 8 + length body)%nat as Hl
    by (rewrite !length_app, to_le_length, Ht; unfold k_tag_len; lia).
  rewrite Hl. unfold k_tag_len in *. split_and!.
  - unfold p_seq, read_seq, read_le32. cbn -[Z.div Z.modulo].
    rewrite <- (le32_byte_of seq) at 5 by done. rewrite !byte_of_div by lia.
    rewrite !Z.div_div by lia. rewrite Z.div_1_r. done.
  - rewrite app_assoc, drop_app_length'; [done|]. rewrite length_app, to_le_length. lia.
  - rewrite app_assoc, take_app_length'; [done|]. rewrite length_app, to_le_length. lia.
  - rewrite drop_app_length' by by rewrite to_le_length.
    replace (8 + length body - 8)%nat with (length body) by lia. by rewrite take_app_length.
  - done.
Qed.

Lemma incoming_carries d a data p :
  initialised_ d = true → length a = k_addr_len → carries data p → is_bytes p →
  (9 ≤ length p ≤ 252)%nat →
  incoming d a k_addr_random k_adv_nonconn_ind data = Done (Some p).
Proof.
  intros Hi Ha Hc Hb Hp. unfold incoming. rewrite Hi, !bool_decide_eq_true_2 by done. cbn [andb].
  rewrite (extract_carries _ _ Hc) by (done || lia). cbn. by rewrite decide_True by lia.
Qed.

Lemma process_known a rssi data p d i dev :
  driver_inv d → initialised_ d = true → find_slot a (devices_ d) = Some i →
  devices_ d !! i = Some dev → carries data p → is_bytes p → (9 ≤ length p ≤ 252)%nat →
  let d1 := set_slot i (set_rssi rssi dev) d in
  process_advertisement a k_addr_random k_adv_nonconn_ind rssi data d =
    discard (if decide (type dev = Switch) then handle_switch i p d1 else handle_sensor i p d1) ∧
  devices_ d1 !! i = Some (set_rssi rssi dev) ∧
  length (addr (ble_addr (set_rssi rssi dev))) = k_addr_len.
Proof.
  intros Hinv Hinit Hf Hi Hc Hb Hp. cbv zeta.
  assert (length (addr (ble_addr dev)) = k_addr_len) as Hl
    by by apply wf_dev_addr_length, (Forall_lookup_1 _ _ _ _ (inv_wf _ Hinv) Hi).
  assert (length a = k_addr_len) as Ha.
  { apply find_slot_Some in Hf as [(dev' & Hi' & [_ <-]) _]. by simplify_eq. }
  split_and!; [|apply set_slot_lookup; by eapply lookup_lt_Some|done].
  rewrite process_advertisement_eq by apply Hinv.
  rewrite (incoming_carries d a data p) by done. rewrite Hf.
  by rewrite (list_lookup_total_correct _ _ _ Hi).
Qed.

(** A verified, fresh sensor packet, computed. *)
Lemma sensor_report_run a rssi data seq s tag d i dev c l fn :
  driver_inv d → initialised_ d = true → cb_sensor (callbacks_ d) = Some fn →
  find_slot a (devices_ d) = Some i → devices_ d !! i = Some dev → type dev ≠ Switch →
  is_u32 seq → seq_num dev < seq → encodable s → report_items s ≠ [] →
  is_bytes tag → length tag = k_tag_len →
  let p := data_payload seq (encode_items (report_items s)) tag in
  carries data p → (length p ≤ 252)%nat → check_tag (crypto_ d) dev p = Done (true, c, l) →
  let dev' := set_seq_num seq (set_rssi rssi dev) in
  process_advertisement a k_addr_random k_adv_nonconn_ind rssi data d =
    Done ((), set_slot i dev' (set_crypto c d),
          EvLog (sensor_log dev p) :: (EvLog <$> l) ++ [EvSensor fn dev' s None 0]).
Proof.
  intros Hinv Hinit Hfn Hf Hi Hty Hs Hlt Henc Hne Htb Ht p Hc Hp Htag dev'.
  set (body := encode_items (report_items s)) in *.
  destruct (data_payload_fields seq body tag Hs Ht) as (Eseq & _ & _ & Ef & El). fold p in Eseq, Ef, El.
  assert (1 ≤ length body)%nat as Hbody.
  { subst body. destruct (report_items s) as [|it its]; [done|]. rewrite encode_items_cons, length_app.
    pose proof (item_bytes_nonempty it). lia. }
  assert (is_bytes p) as Hpb.
  { apply Forall_app; split; [apply to_le_bytes|]. apply Forall_app; split; [|done].
    apply report_items_bytes. }
  assert (p_report p = s) as Erep.
  { unfold p_report. rewrite Ef. subst body. by rewrite report_decodes. }
  destruct (process_known a rssi data p d i dev Hinv Hinit Hf Hi Hc Hpb) as (-> & Hi1 & Ha1); [lia|].
  rewrite decide_False by done. rewrite (handle_sensor_eq _ _ _ _ Hi1 Ha1 Hpb) by lia.
  cbn [seq_num set_rssi]. rewrite Eseq, decide_False by lia.
  change (check_tag (crypto_ _) (set_rssi rssi dev) p) with (check_tag (crypto_ d) dev p).
  rewrite Htag. cbn [discard]. rewrite accept_set_slot, Eseq. unfold sensor_events.
  rewrite Erep. cbn [callbacks_ set_slot set_devices]. by rewrite Hfn.
Qed.

(** A sensor report that was encoded, tagged and put into an advertisement
    the way the protocol says reaches the sensor callback as exactly that
    report, with the device's updated entry; nothing else is called. *)
Theorem sensor_report_delivered a rssi data seq s tag d i dev c l fn :
  driver_inv d → initialised_ d = true → cb_sensor (callbacks_ d) = Some fn →
  find_slot a (devices_ d) = Some i → devices_ d !! i = Some dev → type dev ≠ Switch →
  is_u32 seq → seq_num dev < seq → encodable s → report_items s ≠ [] →
  is_bytes tag → length tag = k_tag_len →
  let p := data_payload seq (encode_items (report_items s)) tag in
  carries data p → (length p ≤ 252)%nat → check_tag (crypto_ d) dev p = Done (true, c, l) →
  let dev' := set_seq_num seq (set_rssi rssi dev) in
  ∃ t, process_advertisement a k_addr_random k_adv_nonconn_ind rssi data d =
         Done ((), set_slot i dev' (set_crypto c d), t) ∧
       callbacks t = [EvSensor fn dev' s None 0].
Proof.
  intros. eexists. split; [by eapply sensor_report_run|].
  change (?x :: ?y ++ ?z) with ([x] ++ y ++ z).
  by rewrite !callbacks_app, (callbacks_logs (EvLog <$> l)) by apply only_logs_fmap.
Qed.

(** A verified, fresh switch packet, computed. *)
Lemma switch_event_run a rssi data seq st opt tag d i dev c l fn :
  driver_inv d → initialised_ d = true → cb_button (callbacks_ d) = Some fn →
  find_slot a (devices_ d) = Some i → devices_ d !! i = Some dev → type dev = Switch →
  is_u32 seq → seq_num dev < seq → is_u8 st → is_bytes opt →
  is_bytes tag → length tag = k_tag_len →
  let p := data_payload seq (st :: opt) tag in
  carries data p → (length p ≤ 252)%nat → check_tag (crypto_ d) dev p = Done (true, c, l) →
  let dev' := set_seq_num seq (set_rssi rssi dev) in
  let valid := bool_decide (st < 32) && bool_decide (length opt ≤ 4)%nat in
  process_advertisement a k_addr_random k_adv_nonconn_ind rssi data d =
    Done ((), if valid then set_slot i dev' (set_crypto c d) else set_slot i (set_rssi rssi dev) d,
      (if valid then EvLog <$> l else []) ++
      if valid && negb (bool_decide (length opt = 3%nat)) then
        [EvButton fn dev' (if Z.odd st then Press else Release) (st / 2)
           (if decide (opt = []) then None else Some (opt ++ tag)) (length opt)]
      else []).
Proof.
  intros Hinv Hinit Hfn Hf Hi Hty Hs Hlt Hst Hob Htb Ht p Hc Hp Htag dev' valid.
  destruct (data_payload_fields seq (st :: opt) tag Hs Ht) as (Eseq & _ & _ & _ & El). fold p in Eseq, El.
  cbn [length] in El.
  assert (is_bytes p) as Hpb.
  { apply Forall_app; split; [apply to_le_bytes|]. apply Forall_app; split; [|done].
    by constructor. }
  assert (p_state p = st) as Est.
  { unfold p_state, p, data_payload. rewrite list_lookup_total_alt, lookup_app_r, to_le_length
      by by rewrite to_le_length. done. }
  destruct (process_known a rssi data p d i dev Hinv Hinit Hf Hi Hc Hpb) as (-> & Hi1 & Ha1); [lia|].
  rewrite decide_True by done. rewrite (handle_switch_eq _ _ _ _ Hi1 Ha1 Hpb) by lia.
  cbn [seq_num set_rssi]. rewrite Eseq, Est, decide_False by lia.
  change (check_tag (crypto_ _) (set_rssi rssi dev) p) with (check_tag (crypto_ d) dev p).
  rewrite Htag. subst valid.
  destruct (decide (13 < length p)%nat) as [H13|H13].
  { rewrite (bool_decide_eq_false_2 (length opt ≤ 4)%nat) by lia. rewrite andb_false_r. done. }
  rewrite (bool_decide_eq_true_2 (length opt ≤ 4)%nat) by lia. rewrite andb_true_r.
  destruct (decide (32 ≤ st)) as [H32|H32].
  { by rewrite bool_decide_eq_false_2 by lia. }
  rewrite bool_decide_eq_true_2 by lia. cbn [andb]. rewrite accept_set_slot, Eseq.
  destruct (decide (length p = 12%nat)) as [H12|H12].
  { rewrite bool_decide_eq_true_2 by lia. cbn [negb discard]. by rewrite app_nil_r. }
  rewrite bool_decide_eq_false_2 by lia. cbn [negb discard].
  unfold button_events. cbn [callbacks_ set_slot set_devices].
  rewrite Hfn, Est, El. replace (8 + S (length opt) - 9)%nat with (length opt) by lia.
  do 5 f_equal. destruct opt as [|o opt']; [done|].
  rewrite decide_True by (cbn; lia). by rewrite decide_False by done.
Qed.

(** A fresh switch packet whose tag the backend refuses, computed. *)
Lemma switch_refused_run a rssi data seq st tag d i dev c l :
  driver_inv d → initialised_ d = true →
  find_slot a (devices_ d) = Some i → devices_ d !! i = Some dev → type dev = Switch →
  is_u32 seq → seq_num dev < seq → is_u8 st → st < 32 → is_bytes tag → length tag = k_tag_len →
  let p := data_payload seq [st] tag in
  carries data p → check_tag (crypto_ d) dev p = Done (false, c, l) →
  process_advertisement a k_addr_random k_adv_nonconn_ind rssi data d =
    Done ((), set_crypto c (set_slot i (set_rssi rssi dev) d),
          (EvLog <$> l) ++ [warn "EnoceanDriver: switch auth failed"]).
Proof.
  intros Hinv Hinit Hf Hi Hty Hs Hlt Hst Hst' Htb Ht p Hc Htag.
  destruct (data_payload_fields seq [st] tag Hs Ht) as (Eseq & _ & _ & _ & El). fold p in Eseq, El.
  cbn [length] in El.
  assert (is_bytes p) as Hpb.
  { apply Forall_app; split; [apply to_le_bytes|]. apply Forall_app; split; [|done]. by constructor. }
  assert (p_state p = st) as Est.
  { unfold p_state, p, data_payload. rewrite list_lookup_total_alt, lookup_app_r, to_le_length
      by by rewrite to_le_length. done. }
  destruct (process_known a rssi data p d i dev Hinv Hinit Hf Hi Hc Hpb) as (-> & Hi1 & Ha1); [lia|].
  rewrite decide_True by done. rewrite (handle_switch_eq _ _ _ _ Hi1 Ha1 Hpb) by lia.
  cbn [seq_num set_rssi]. rewrite Eseq, Est, !decide_False by lia.
  change (check_tag (crypto_ _) (set_rssi rssi dev) p) with (check_tag (crypto_ d) dev p).
  by rewrite Htag.
Qed.

(** A verified, fresh switch packet: bit 0 of the status byte is the action,
    bits 4..1 are the buttons, and 0, 1, 2 or 4 bytes of user data follow.
    With 3 bytes of user data, or reserved status bits set, or a payload over
    13 bytes, no button is reported; the 3-byte packet alone still advances
    the counter. *)
Theorem switch_event_delivered a rssi data seq st opt tag d i dev c l fn :
  driver_inv d → initialised_ d = true → cb_button (callbacks_ d) = Some fn →
  find_slot a (devices_ d) = Some i → devices_ d !! i = Some dev → type dev = Switch →
  is_u32 seq → seq_num dev < seq → is_u8 st → is_bytes opt →
  is_bytes tag → length tag = k_tag_len →
  let p := data_payload seq (st :: opt) tag in
  carries data p → (length p ≤ 252)%nat → check_tag (crypto_ d) dev p = Done (true, c, l) →
  let dev' := set_seq_num seq (set_rssi rssi dev) in
  let valid := bool_decide (st < 32) && bool_decide (length opt ≤ 4)%nat in
  ∃ t, process_advertisement a k_addr_random k_adv_nonconn_ind rssi data d =
         Done ((), if valid then set_slot i dev' (set_crypto c d)
                   else set_slot i (set_rssi rssi dev) d, t) ∧
       callbacks t =
         if valid && negb (bool_decide (length opt = 3%nat)) then
           [EvButton fn dev' (if Z.odd st then Press else Release) (st / 2)
              (if decide (opt = []) then None else Some (opt ++ tag)) (length opt)]
         else [].
Proof.
  intros. eexists. split; [by eapply switch_event_run|].
  rewrite callbacks_app. destruct (_ && _)%bool eqn:E; subst valid.
  - rewrite (callbacks_logs (EvLog <$> l)) by apply only_logs_fmap. by case_match.
  - by case_match.
Qed.

(** ** Commissioning *)

(** A payload from an unknown address, computed. *)
Lemma commissioning_run a rssi data p d :
  driver_inv d → initialised_ d = true → length a = k_addr_len →
  find_slot a (devices_ d) = None → carries data p → is_bytes p → (9 ≤ length p ≤ 252)%nat →
  let admitted := commissioning_enabled_ d && bool_decide (22 ≤ length p)%nat &&
    (bool_decide (device_type a ≠ Sensor) || p_stm p) in
  ∃ t, process_advertisement a k_addr_random k_adv_nonconn_ind rssi data d =
    Done ((), match free_slot (devices_ d) with
              | Some i => if admitted then set_slot i (new_device a k_addr_random rssi p) d else d
              | None => d
              end, t) ∧
    callbacks t = match free_slot (devices_ d) with
                  | Some _ => if admitted then commissioned_events (callbacks_ d)
                                (new_device a k_addr_random rssi p) else []
                  | None => []
                  end.
Proof.
  intros Hinv Hinit Ha Hf Hc Hb Hp admitted. rewrite process_advertisement_eq by apply Hinv.
  rewrite (incoming_carries d a data p) by done. rewrite Hf. subst admitted.
  rewrite (andb_comm (commissioning_enabled_ d)).
  destruct (bool_decide (22 ≤ length p)%nat && commissioning_enabled_ d) eqn:Hce; cbn [andb];
    [|by destruct (free_slot (devices_ d)); eexists].
  apply andb_true_iff in Hce as [Hl%bool_decide_eq_true _].
  rewrite handle_commissioning_eq by (done || apply Hinv). rewrite Hf.
  rewrite bool_decide_not.
  destruct (bool_decide (device_type a = Sensor)), (p_stm p); cbn [negb andb orb discard];
    (destruct (free_slot (devices_ d)); eexists; (split; [done|]));
    try (apply callbacks_logs; by repeat constructor);
    unfold commissioned_line, commissioned_events; by destruct (cb_commissioned (callbacks_ d)).
Qed.

(** Outside commissioning mode no advertisement commissions a device; in it,
    an advertisement from an unknown address with at least 22 payload bytes
    (for a sensor: the 27-byte format with its marker) fills the first free
    slot with the address, key, counter and type it carries, and is reported;
    with all eight slots taken it changes nothing and reports nothing. *)
Theorem commissioning_step a rssi data p d :
  driver_inv d → initialised_ d = true → length a = k_addr_len →
  find_slot a (devices_ d) = None → carries data p → is_bytes p → (9 ≤ length p ≤ 252)%nat →
  let admitted := commissioning_enabled_ d && bool_decide (22 ≤ length p)%nat &&
    (bool_decide (device_type a ≠ Sensor) || p_stm p) in
  ∃ t, process_advertisement a k_addr_random k_adv_nonconn_ind rssi data d =
    Done ((), match free_slot (devices_ d) with
              | Some i => if admitted then set_slot i (new_device a k_addr_random rssi p) d else d
              | None => d
              end, t) ∧
    callbacks t = match free_slot (devices_ d) with
                  | Some _ => if admitted then commissioned_events (callbacks_ d)
                                (new_device a k_addr_random rssi p) else []
                  | None => []
                  end.
Proof. apply commissioning_run. Qed.

(** ** The commissioning flag *)

(** An advertisement the flag decides about: from an unknown address, with a
    payload long enough for commissioning. *)
Definition candidate d (a : bytes) (at_ adv : Z) (data : bytes) : Prop :=
  ∃ p, incoming d a at_ adv data = Done (Some p) ∧ find_slot a (devices_ d) = None ∧
    (22 ≤ length p)%nat.

(** The result of a call with the flag set to [b] afterwards. *)
Definition flagged {A} (b : bool) (r : outcome (A * EnoceanDriver C * list event))
    : outcome (A * EnoceanDriver C * list event) :=
  match r with Done (x, d, t) => Done (x, set_commissioning b d, t) | Stop e => Stop e end.

Lemma handle_known_flag b i p d dev :
  devices_ d !! i = Some dev → length (addr (ble_addr dev)) = k_addr_len → is_bytes p →
  (9 ≤ length p)%nat →
  handle_switch i p (set_commissioning b d) = flagged b (handle_switch i p d) ∧
  handle_sensor i p (set_commissioning b d) = flagged b (handle_sensor i p d).
Proof.
  intros Hi Ha Hb Hp. rewrite !(handle_switch_eq _ _ _ dev), !(handle_sensor_eq _ _ _ dev) by done.
  cbn [crypto_ callbacks_ set_commissioning].
  destruct (check_tag (crypto_ d) dev p) as [[[[] c'] l]|]; repeat case_decide; by split.
Qed.

(** Every other advertisement is processed the same whatever the flag says. *)
Lemma process_flag b a at_ adv rssi data d :
  Forall wf_device (devices_ d) → is_bytes data → ¬ candidate d a at_ adv data →
  process_advertisement a at_ adv rssi data (set_commissioning b d) =
    flagged b (process_advertisement a at_ adv rssi data d).
Proof.
  intros Hwf Hb Hnc. rewrite !process_advertisement_eq by done.
  change (incoming (set_commissioning b d) a at_ adv data) with (incoming d a at_ adv data).
  destruct (incoming d a at_ adv data) as [[p|]|r] eqn:Hin; [|done..].
  change (devices_ (set_commissioning b d)) with (devices_ d).
  destruct (find_slot a (devices_ d)) as [i|] eqn:Hf.
  - apply find_slot_Some in Hf as [(dev & Hi & _) _].
    rewrite (list_lookup_total_correct _ _ _ Hi). cbv zeta.
    apply incoming_Some in Hin as (_ & _ & _ & _ & Hx & Hp).
    destruct (handle_known_flag b i p (set_slot i (set_rssi rssi dev) d) (set_rssi rssi dev))
      as [Es En]; [apply set_slot_lookup; by eapply lookup_lt_Some| |by eapply extract_payload_bytes|done|].
    { exact (wf_dev_addr_length dev (Forall_lookup_1 _ _ _ _ Hwf Hi)). }
    change (set_slot i (set_rssi rssi dev) (set_commissioning b d))
      with (set_commissioning b (set_slot i (set_rssi rssi dev) d)).
    rewrite Es, En. clear Es En. case_decide.
    + by destruct (handle_switch _ _ _) as [[[? ?] ?]|].
    + by destruct (handle_sensor _ _ _) as [[[? ?] ?]|].
  - rewrite bool_decide_eq_false_2; [done|]. intros Hl. apply Hnc. by exists p.
Qed.

(** ** Capacity *)

Lemma count_active_acc devs n :
  count_active devs n = (n + length (filter (λ x, active x = true) devs))%nat.
Proof.
  revert n. induction devs as [|x devs IH]; intros n; cbn [count_active]; [cbn; lia|].
  rewrite IH. destruct (active x) eqn:E.
  - rewrite filter_cons_True by done. cbn. lia.
  - rewrite filter_cons_False by congruence. lia.
Qed.

Lemma device_count_filter d :
  device_count d = length (filter (λ x, active x = true) (devices_ d)).
Proof. unfold device_count. by rewrite count_active_acc. Qed.

Lemma filter_insert (devs : list EnoceanDevice) i x y :
  devs !! i = Some x →
  (length (filter (λ x, active x = true) (<[i := y]> devs)) + (if active x then 1 else 0) =
   length (filter (λ x, active x = true) devs) + (if active y then 1 else 0))%nat.
Proof.
  revert i. induction devs as [|z devs IH]; intros [|i] Hi; try discriminate Hi.
  - injection Hi as ->. change (<[0%nat:=y]> (x :: devs)) with (y :: devs).
    rewrite !filter_cons. destruct (active x), (active y); repeat case_decide; cbn; done || lia.
  - change (<[S i:=y]> (z :: devs)) with (z :: <[i:=y]> devs). specialize (IH i Hi).
    rewrite !filter_cons. case_decide; cbn; lia.
Qed.

(** The number of commissioned devices never exceeds eight, never falls
    except at initialisation, and grows by at most one per advertisement,
    in commissioning mode only. *)
Theorem table_capacity o d u d' t :
  driver_inv d → wf_op o → run_op o d = Done (u, d', t) →
  (device_count d' ≤ k_max_devices)%nat ∧
  (if is_init o then device_count d' = 0%nat
   else (device_count d ≤ device_count d' ≤
           device_count d + (if commissioning_enabled_ d then 1 else 0))%nat).
Proof.
  intros Hinv Ho Hrun. rewrite !device_count_filter. split.
  { rewrite <- (inv_len _ (run_op_inv _ _ _ _ _ Ho Hrun Hinv)). apply length_filter. }
  pose proof (run_op_cases _ _ _ _ _ (inv_wf _ Hinv) Ho Hrun) as Hc.
  destruct o as [| | |ctx a at_ adv rssi data]; cbn [is_init].
  - destruct Hc as (-> & _). by induction (devices_ d).
  - destruct Hc as [-> _]. cbn. lia.
  - destruct Hc as [-> _]. cbn. lia.
  - destruct Hc as [t0 _|j dev c t0 Hj _ _|j dev p c l ev t0 Hj _ _ _ _ _ _ _ _
      |j dev p t0 -> _ _ _ Hfree Hj _ _ _ _]; [lia|..]; cbn [devices_ set_slot set_devices set_crypto].
    + pose proof (filter_insert _ _ _ (set_rssi rssi dev) Hj). cbn in *. lia.
    + pose proof (filter_insert _ _ _ (set_seq_num (p_seq p) (set_rssi rssi dev)) Hj). cbn in *. lia.
    + pose proof (filter_insert _ _ _ (new_device a at_ rssi p) Hj) as E.
      destruct (free_slot_Some _ _ Hfree) as [(y & Hy & Hfalse) _].
      assert (y = dev) as -> by congruence. rewrite Hfalse in E. cbn in E. lia.
Qed.

(** No two packets with different counters, or from different devices, are
    ever checked under the same nonce. *)
Theorem nonce_unique a1 a2 s1 s2 :
  length a1 = k_addr_len → length a2 = k_addr_len → is_u32 s1 → is_u32 s2 →
  ∃ n1 n2, build_nonce a1 s1 (replicate k_nonce_len 0) = Done n1 ∧
    build_nonce a2 s2 (replicate k_nonce_len 0) = Done n2 ∧
    length n1 = k_nonce_len ∧ (n1 = n2 ↔ a1 = a2 ∧ s1 = s2).
Proof.
  intros H1 H2 Hs1 Hs2. exists (nonce_of a1 s1), (nonce_of a2 s2).
  split_and!; [by apply build_nonce_run..|by apply nonce_of_length|].
  split; [by apply nonce_of_inj|by intros [-> ->]].
Qed.
End Properties.
