(* ===== verification/DriverWitness.v ===== *)
(** * A concrete run of the driver

    A toy backend, one commissioned switch and one commissioned sensor, and
    the driver's properties applied to them. *)

From stdpp Require Import prelude list strings.
From Stdlib Require Import ZArith Lia Sorted.
From S2P Require Import Prelude Logger ErrorHandler ErrorCodes Types AdParser Crypto Tlv.
From S2P Require Import Driver DriverRun DriverSafety DriverProps.

(** A backend that accepts the tag [1; 2; 3; 4] and nothing else. *)
#[export] Instance toy_backend : CryptoImplementation () :=
  λ key nonce aad ct tag pt c, Done ((bool_decide (tag = [1; 2; 3; 4]), pt), c, []).

#[export] Instance toy_backend_total : CryptoTotal ().
Proof. intros key nonce aad tag c _ _ _. by eexists _, _, _. Qed.

Definition toy_callbacks : EnoceanCallbacks := mkCallbacks (Some 1%nat) (Some 2%nat) (Some 3%nat) None None.

Definition toy_tag : bytes := [1; 2; 3; 4].
Definition switch_addr : bytes := [0x11; 0x22; 0x33; 0x44; 0xDA; 0x03].
Definition sensor_addr : bytes := [0x55; 0x66; 0x77; 0x88; 0x99; 0xE5].

Definition adv_of (p : bytes) : bytes := ad_bytes (mkAd 0x01 [0x06]) ++ ad_bytes (enocean_ad p).

(** Commissioning payloads: 22 bytes, and the sensor's 27-byte format. *)
Definition switch_comm : bytes := [5; 0; 0; 0] ++ replicate 16 0xA1 ++ [0; 0].
Definition sensor_comm : bytes := [9; 0; 0; 0] ++ [0x3E] ++ replicate 16 0xB2 ++ sensor_addr.

Definition adv (a p : bytes) : op := OAdv true a 1 3 (-60) (adv_of p).

(** Commission both devices. *)
Definition set_up_ops : list op :=
  [OInit; OEnable; adv switch_addr switch_comm; adv sensor_addr sensor_comm; ODisable].

Definition switch_entry : EnoceanDevice :=
  mkDevice (mkBleAddr switch_addr 1) (replicate 16 0xA1) 5 (-60) Switch true.
Definition sensor_entry : EnoceanDevice :=
  mkDevice (mkBleAddr sensor_addr 1) (replicate 16 0xB2) 9 (-60) Sensor true.

Definition sample : EnoceanDriver () :=
  mkDriver () toy_callbacks true false
    (switch_entry :: sensor_entry :: replicate 6 default_device).

(** The same in commissioning mode, with the switch only. *)
Definition sample_open : EnoceanDriver () :=
  mkDriver () toy_callbacks true true (switch_entry :: replicate 7 default_device).

(** Well-formedness of concrete operations. *)
Ltac wf_ops :=
  repeat (apply Forall_cons; split;
    [first [exact I | split_and!; first [apply is_bytes_dec; reflexivity
                                        | unfold is_u8, is_i8; lia]]|]);
  apply Forall_nil; exact I.

Lemma wf_set_up : Forall wf_op set_up_ops.
Proof.
  wf_ops.
Qed.

Lemma wf_set_up_run : ∃ t, exec set_up_ops (construct () toy_callbacks) = Done ((), sample, t).
Proof. eexists. vm_compute. reflexivity. Qed.

Lemma sample_inv : driver_inv sample.
Proof. destruct wf_set_up_run as [t E]. eapply exec_inv; [apply wf_set_up|exact E|apply construct_inv]. Qed.

Lemma sample_open_inv : driver_inv sample_open.
Proof.
  assert (∃ t, exec [OInit; OEnable; adv switch_addr switch_comm] (construct () toy_callbacks)
    = Done ((), sample_open, t)) as [t E] by (eexists; vm_compute; reflexivity).
  eapply exec_inv; [|exact E|apply construct_inv].
  wf_ops.
Qed.

(** A switch packet: counter 6, buttons A0 pressed; and a replay of it. *)
Definition press_payload : bytes := data_payload 6 [0x03] toy_tag.
Definition run_ops : list op :=
  [adv switch_addr press_payload; adv switch_addr press_payload; adv switch_addr switch_comm;
   adv switch_addr (data_payload 7 [0x02] toy_tag)].

Lemma wf_run_ops : Forall wf_op run_ops.
Proof. wf_ops. Qed.

Lemma run_ops_no_init : Forall (λ o, is_init o = false) run_ops.
Proof. repeat constructor. Qed.

Lemma table_invariant_witness : driver_inv sample.
Proof.
  destruct (exec set_up_ops (construct () toy_callbacks)) as [[[u d'] t]|r] eqn:E;
    [|vm_compute in E; discriminate E].
  pose proof (table_invariant _ _ _ _ _ _ wf_set_up E) as Hinv.
  vm_compute in E. injection E as _ <- _. exact Hinv.
Defined.

Lemma callbacks_authentic_witness :
  ∃ p, extract_manufacturer_data (adv_of press_payload) = Done p ∧
      ((∃ fn, commissioning_enabled_ sample = true ∧ cb_commissioned (callbacks_ sample) = Some fn ∧
          find_slot switch_addr (devices_ sample) = None ∧
          EvButton 1 (set_seq_num 6 switch_entry) Press 1 None 0 =
            EvCommissioned fn (new_device switch_addr 1 (-60) p)) ∨
       (∃ i dev c l pt, devices_ sample !! i = Some dev ∧ is_device switch_addr dev ∧
          seq_num dev < p_seq p ∧
          aes_ccm_decrypt (key dev) (nonce_of switch_addr (p_seq p)) (p_aad p) [] (p_tag p) [] ()
            = Done ((true, pt), c, l) ∧
          let dev' := set_seq_num (p_seq p) (set_rssi (-60) dev) in
          (set_seq_num 6 switch_entry :: sensor_entry :: replicate 6 default_device) !! i
            = Some dev' ∧
          EvButton 1 (set_seq_num 6 switch_entry) Press 1 None 0
            ∈ report_events (callbacks_ sample) dev' p)).
Proof.
  eapply (callbacks_authentic switch_addr 1 3 (-60) (adv_of press_payload) sample () (mkDriver () toy_callbacks true false
    (set_seq_num 6 switch_entry :: sensor_entry :: replicate 6 default_device))).
  - apply sample_inv.
  - apply is_bytes_dec. reflexivity.
  - vm_compute. reflexivity.
  - left.
  - reflexivity.
Defined.

Lemma replay_protection_witness :
  ∃ t, exec run_ops sample = Done ((), (mkDriver () toy_callbacks true false
    (set_seq_num 7 switch_entry :: sensor_entry :: replicate 6 default_device)), t) ∧
    accepted t = [(switch_addr, 6); (switch_addr, 7)] ∧
    ForallOrdPairs (λ r1 r2, r1.1 = r2.1 → r1.2 < r2.2) (accepted t) ∧
    Forall (λ r, ∀ n, has_seq sample r.1 n → n < r.2) (accepted t).
Proof.
  eexists. split; [vm_compute; reflexivity|]. split; [reflexivity|].
  eapply (replay_protection run_ops sample).
  - apply sample_inv.
  - apply wf_run_ops.
  - apply run_ops_no_init.
  - vm_compute. reflexivity.
Defined.

(** The switch at the end of its counter. *)
Definition sample_max : EnoceanDriver () :=
  set_slot 0 (set_seq_num (2 ^ 32 - 1) switch_entry) sample.

Lemma sample_max_inv : driver_inv sample_max.
Proof.
  apply (set_slot_inv 0 switch_entry _ sample); [done|done|by repeat split| |apply sample_inv].
  apply wf_set_seq; [|unfold is_u32; lia].
  apply (Forall_lookup_1 _ _ 0 _ (inv_wf _ sample_inv)). reflexivity.
Qed.

Lemma exhausted_counter_silent_witness :
  ∃ d' t, exec run_ops sample_max = Done ((), d', t) ∧ Forall (λ r, r.1 ≠ switch_addr) (accepted t).
Proof.
  destruct (exec run_ops sample_max) as [[[[] d'] t]|r] eqn:E; [|vm_compute in E; discriminate E].
  exists d', t. split; [reflexivity|].
  eapply (exhausted_counter_silent run_ops sample_max).
  - apply sample_max_inv.
  - apply wf_run_ops.
  - apply run_ops_no_init.
  - exact E.
  - exists 0%nat, (set_seq_num (2 ^ 32 - 1) switch_entry). split; [reflexivity|].
    split; [split; reflexivity|reflexivity].
Defined.

(** The run contains a commissioning packet of the known switch. *)
Lemma commissioned_immutable_witness :
  ∃ d' t x', exec run_ops sample = Done ((), d', t) ∧
    devices_ d' !! 0%nat = Some x' ∧ active x' = true ∧ ble_addr x' = ble_addr switch_entry ∧
    type x' = Switch ∧ key x' = replicate 16 0xA1 ∧ 5 ≤ seq_num x'.
Proof.
  destruct (exec run_ops sample) as [[[[] d'] t]|r] eqn:E; [|vm_compute in E; discriminate E].
  destruct (commissioned_immutable run_ops sample () d' t 0 switch_entry sample_inv wf_run_ops
    run_ops_no_init E eq_refl eq_refl) as (x' & H).
  exists d', t, x'. split; [reflexivity|exact H].
Defined.

Definition forged_payload : bytes := data_payload 8 [0x03] [9; 9; 9; 9].

(** A backend that rejects everything. *)
Definition deny_backend : CryptoImplementation () :=
  λ key nonce aad ct tag pt c, Done ((false, pt), c, []).

Lemma forged_harmless_witness :
  ∃ d' t, @process_advertisement () deny_backend switch_addr 1 3 (-77) (adv_of forged_payload) sample
      = Done ((), d', t) ∧ only_logs t ∧
    Forall2 (λ x x', x' = x ∨ x' = set_rssi (-77) x ∧ is_device switch_addr x)
      (devices_ sample) (devices_ d').
Proof.
  destruct (@process_advertisement () deny_backend switch_addr 1 3 (-77) (adv_of forged_payload) sample)
    as [[[[] d'] t]|r] eqn:E; [|vm_compute in E; discriminate E].
  exists d', t. split; [reflexivity|].
  eapply (@forged_harmless () deny_backend switch_addr 1 3 (-77) (adv_of forged_payload) sample).
  - apply sample_inv.
  - apply is_bytes_dec. reflexivity.
  - intros dev p c l _ _. unfold check_tag, aes_ccm_decrypt. repeat case_decide; discriminate.
  - reflexivity.
  - exact E.
Defined.

(** The one-byte advertisement [01] makes the driver read past it. *)
Lemma process_progress_witness :
  process_advertisement switch_addr 1 3 (-60) [0x01] sample = Stop Undefined ∧
  ∃ i, ad_walk [0x01] i ∧ overruns_at [0x01] i.
Proof.
  destruct (process_progress switch_addr 1 3 (-60) [0x01] sample sample_inv) as [(d' & t & E)|H].
  - apply is_bytes_dec. reflexivity.
  - unfold is_i8. lia.
  - vm_compute in E. discriminate E.
  - destruct H as (E & _ & _ & _ & _ & Hov). split; [exact E|exact Hov].
Defined.

Lemma adv_of_carries p : carries (adv_of p) p.
Proof.
  exists [mkAd 0x01 [0x06]], [], []. split_and!; [| |by left|by repeat constructor|].
  - apply Forall_singleton. split; [split; cbn; lia|apply is_bytes_dec; reflexivity|cbn; lia|].
    intros [=].
  - constructor.
  - unfold adv_of, encode_ads. cbn. by rewrite !app_nil_r.
Qed.

Definition report_payload : bytes := data_payload 10 (encode_items (report_items sample_report)) toy_tag.

Lemma sensor_report_delivered_witness :
  let dev' := set_seq_num 10 (set_rssi (-70) sensor_entry) in
  ∃ t, process_advertisement sensor_addr 1 3 (-70) (adv_of report_payload) sample =
         Done ((), set_slot 1 dev' sample, t) ∧
       callbacks t = [EvSensor 2 dev' sample_report None 0].
Proof.
  apply (sensor_report_delivered sensor_addr (-70) (adv_of report_payload) 10 sample_report toy_tag
    sample 1 sensor_entry () [] 2).
  - apply sample_inv.
  - reflexivity.
  - reflexivity.
  - vm_compute. reflexivity.
  - reflexivity.
  - discriminate.
  - unfold is_u32. lia.
  - cbn. lia.
  - split; [apply sample_report_ranges|cbn; lia|exact I|exact I].
  - discriminate.
  - apply is_bytes_dec. reflexivity.
  - reflexivity.
  - apply adv_of_carries.
  - apply Nat.leb_le. vm_compute. reflexivity.
  - vm_compute. reflexivity.
Defined.

(** Three bytes of user data: the counter moves, the button is lost. *)
Lemma switch_event_delivered_witness :
  let dev' := set_seq_num 6 (set_rssi (-70) switch_entry) in
  ∃ t, process_advertisement switch_addr 1 3 (-70)
         (adv_of (data_payload 6 [0x03; 7; 7; 7] toy_tag)) sample =
         Done ((), set_slot 0 dev' sample, t) ∧ callbacks t = [].
Proof.
  apply (switch_event_delivered switch_addr (-70) (adv_of (data_payload 6 [0x03; 7; 7; 7] toy_tag))
    6 0x03 [7; 7; 7] toy_tag sample 0 switch_entry () [] 1).
  - apply sample_inv.
  - reflexivity.
  - reflexivity.
  - vm_compute. reflexivity.
  - reflexivity.
  - reflexivity.
  - unfold is_u32. lia.
  - cbn. lia.
  - unfold is_u8. lia.
  - apply is_bytes_dec. reflexivity.
  - apply is_bytes_dec. reflexivity.
  - reflexivity.
  - apply adv_of_carries.
  - apply Nat.leb_le. vm_compute. reflexivity.
  - vm_compute. reflexivity.
Defined.

Lemma commissioning_step_witness :
  ∃ t, process_advertisement sensor_addr 1 3 (-60) (adv_of sensor_comm) sample_open =
    Done ((), set_slot 1 sensor_entry sample_open, t) ∧
    callbacks t = [EvCommissioned 3 sensor_entry].
Proof.
  apply (commissioning_step sensor_addr (-60) (adv_of sensor_comm) sensor_comm sample_open).
  - apply sample_open_inv.
  - reflexivity.
  - reflexivity.
  - vm_compute. reflexivity.
  - apply adv_of_carries.
  - apply is_bytes_dec. reflexivity.
  - split; apply Nat.leb_le; vm_compute; reflexivity.
Defined.

Lemma table_capacity_witness :
  ∃ d' t, run_op (adv sensor_addr sensor_comm) sample_open = Done ((), d', t) ∧
    (device_count d' ≤ 8)%nat ∧ (device_count sample_open ≤ device_count d' ≤ device_count sample_open + 1)%nat.
Proof.
  destruct (run_op (adv sensor_addr sensor_comm) sample_open) as [[[[] d'] t]|r] eqn:E;
    [|vm_compute in E; discriminate E].
  exists d', t. split; [reflexivity|].
  apply (table_capacity (adv sensor_addr sensor_comm) sample_open () d' t).
  - apply sample_open_inv.
  - split_and!; first [apply is_bytes_dec; reflexivity | unfold is_u8, is_i8; lia].
  - exact E.
Defined.

Lemma nonce_unique_witness :
  ∃ n1 n2, build_nonce switch_addr 1 (replicate k_nonce_len 0) = Done n1 ∧
    build_nonce sensor_addr 1 (replicate k_nonce_len 0) = Done n2 ∧ length n1 = k_nonce_len ∧
    (n1 = n2 ↔ switch_addr = sensor_addr ∧ 1 = 1).
Proof.
  apply (nonce_unique switch_addr sensor_addr 1 1); [reflexivity|reflexivity|unfold is_u32; lia..].
Defined.
