(* ===== verification/DriverTyping.v ===== *)
(** * The types of what the driver reports

    The driver's callbacks have C++ signatures; the model's events carry plain
    integers and lists. This file shows that every event is well typed. *)

From stdpp Require Import prelude list strings.
From Stdlib Require Import ZArith Lia.
From S2P Require Import Prelude Logger ErrorHandler ErrorCodes Types AdParser Crypto Tlv.
From S2P Require Import Driver DriverRun DriverSafety DriverProps DriverWitness.

(** The pointer and length a button callback gets: nothing, or one, two or four
    bytes inside the advertisement. *)
Definition typed_optional (opt : option bytes) (len : nat) : Prop :=
  match opt with
  | None => len = 0%nat
  | Some bs => is_bytes bs ∧ (len = 1 ∨ len = 2 ∨ len = 4)%nat ∧ (len ≤ length bs)%nat
  end.

(** A callback of the type the driver declares for it. *)
Definition typed_event (e : event) : Prop :=
  match e with
  | EvLog _ => True
  | EvButton _ dev _ changed opt len =>
      wf_device dev ∧ active dev = true ∧ type dev = Switch ∧ 0 ≤ changed < 16 ∧ typed_optional opt len
  | EvSensor _ dev data opt len =>
      wf_device dev ∧ active dev = true ∧ type dev ≠ Switch ∧
      report_ranges data ∧ accel_complete data ∧ typed_optional opt len
  | EvCommissioned _ dev => wf_device dev ∧ active dev = true
  end.

Lemma typed_logs t e : only_logs t → e ∈ t → typed_event e.
Proof. intros Ht He. eapply Forall_forall in Ht; [|exact He]. by destruct e. Qed.

Section Typing.
Context {C : Type} `{CryptoImplementation C}.
Implicit Types d : EnoceanDriver C.

Lemma button_events_typed cb dev p e :
  wf_device dev → active dev = true → type dev = Switch → is_bytes p →
  (9 ≤ length p ≤ 13)%nat → length p ≠ 12%nat → 0 ≤ p_state p < 32 →
  e ∈ button_events cb dev p → typed_event e.
Proof.
  intros Hwf Hact Hty Hb Hp Hp' Hst. unfold button_events.
  destruct (cb_button cb); [|by intros ?%not_elem_of_nil].
  intros ->%list_elem_of_singleton. split_and!; [done..|Z.div_mod_to_equations; lia|Z.div_mod_to_equations; lia|]. unfold typed_optional.
  case_decide; [|lia]. rewrite length_drop. split_and!; [by apply Forall_drop|lia..].
Qed.

Lemma sensor_events_typed cb dev p e :
  wf_device dev → active dev = true → type dev ≠ Switch → is_bytes p →
  e ∈ sensor_events cb dev p → typed_event e.
Proof.
  intros Hwf Hact Hty Hb. unfold sensor_events. destruct (cb_sensor cb); [|by intros ?%not_elem_of_nil].
  intros ->%list_elem_of_singleton. pose proof (p_report_run p Hb) as Hr.
  pose proof (p_fields_bytes p Hb) as Hf.
  split_and!; [done..|by eapply decode_tlv_ranges|by eapply decoded_accel|done].
Qed.

Lemma switch_typed i p d dev r d' t e :
  devices_ d !! i = Some dev → wf_device dev → active dev = true → type dev = Switch →
  is_bytes p → (9 ≤ length p)%nat → handle_switch i p d = Done (r, d', t) → e ∈ t → typed_event e.
Proof.
  intros Hi Hwf Hact Hty Hb Hp. pose proof (wf_dev_addr_length _ Hwf) as Ha.
  rewrite (handle_switch_eq _ _ _ dev) by done.
  assert (0 ≤ p_state p) as Hst.
  { pose proof (is_bytes_get p 4 _ Hb (span_get_total p 4 ltac:(lia))) as Hst. unfold p_state, is_u8 in *. lia. }
  case_decide; [intros [= _ _ <-]; by apply typed_logs, Forall_singleton|].
  case_decide; [intros [= _ _ <-] ?%not_elem_of_nil; done|].
  case_decide; [intros [= _ _ <-] ?%not_elem_of_nil; done|].
  destruct (check_tag _ _ _) as [[[[] c'] l]|]; [| |done].
  - case_decide; intros [= _ _ <-]; [apply typed_logs, only_logs_fmap|].
    intros [He|He]%elem_of_app; [by eapply typed_logs; [apply only_logs_fmap|]|].
    eapply button_events_typed; [| | | | | | |exact He]; try done; [|lia|lia].
    apply wf_set_seq; [done|by apply p_seq_range].
  - intros [= _ _ <-]. apply typed_logs, only_logs_app. split; [apply only_logs_fmap|by apply Forall_singleton].
Qed.

Lemma sensor_typed i p d dev r d' t e :
  devices_ d !! i = Some dev → wf_device dev → active dev = true → type dev ≠ Switch →
  is_bytes p → (9 ≤ length p)%nat → handle_sensor i p d = Done (r, d', t) → e ∈ t → typed_event e.
Proof.
  intros Hi Hwf Hact Hty Hb Hp. pose proof (wf_dev_addr_length _ Hwf) as Ha.
  rewrite (handle_sensor_eq _ _ _ dev) by done.
  case_decide; [intros [= _ _ <-]; apply typed_logs; by repeat constructor|].
  destruct (check_tag _ _ _) as [[[[] c'] l]|]; [| |done]; intros [= _ _ <-].
  - intros [->|[He|He]%elem_of_app]%elem_of_cons; [done|by eapply typed_logs; [apply only_logs_fmap|]|].
    eapply sensor_events_typed; [| | | |exact He]; try done.
    apply wf_set_seq; [done|by apply p_seq_range].
  - intros [->|He]%elem_of_cons; [done|]. revert He. apply typed_logs, only_logs_app.
    split; [apply only_logs_fmap|by apply Forall_singleton].
Qed.

(** C29. Whatever advertisement is processed, every callback gets arguments of its
    C++ types and more: a commissioned device whose fields fit theirs, of the
    class the callback is for; a button code of four bits, with no optional
    data or one, two or four bytes inside the advertisement; a report whose
    quantities are in their physical ranges, its acceleration complete. *)
Theorem callbacks_typed a at_ adv rssi data d u d' t e :
  driver_inv d → is_bytes a → is_u8 at_ → is_i8 rssi → is_bytes data →
  process_advertisement a at_ adv rssi data d = Done (u, d', t) → e ∈ t → typed_event e.
Proof.
  intros Hinv Hab Hat Hr Hb. rewrite process_advertisement_eq by apply Hinv.
  destruct (incoming d a at_ adv data) as [[p|]|] eqn:Hin; [|by intros [= _ _ <-] ?%not_elem_of_nil|done].
  apply incoming_Some in Hin as (_ & Ha & _ & _ & Hx & Hp).
  assert (is_bytes p) as Hpb by by eapply extract_payload_bytes.
  destruct (find_slot a (devices_ d)) as [i|] eqn:Hf.
  - apply find_slot_Some in Hf as [(dev & Hi & [Hact _]) _].
    rewrite (list_lookup_total_correct _ _ _ Hi). cbv zeta.
    pose proof (wf_set_rssi dev rssi (Forall_lookup_1 _ _ _ _ (inv_wf _ Hinv) Hi) Hr) as Hwf.
    assert (devices_ (set_slot i (set_rssi rssi dev) d) !! i = Some (set_rssi rssi dev)) as Hi1
      by (apply set_slot_lookup; by eapply lookup_lt_Some).
    intros [r Hrun]%discard_Done. case_decide; [by eapply switch_typed|by eapply sensor_typed].
  - destruct (_ && _) eqn:Hc; [|by intros [= _ _ <-] ?%not_elem_of_nil].
    apply andb_true_iff in Hc as [Hl%bool_decide_eq_true _].
    intros [r Hrun]%discard_Done. rewrite handle_commissioning_eq, Hf in Hrun by (done || apply Hinv).
    destruct (_ && _); [injection Hrun as _ _ <-; by intros ?%not_elem_of_nil|].
    destruct (free_slot (devices_ d)); injection Hrun as _ _ <-;
      [|by apply typed_logs, Forall_singleton].
    intros [->|He]%elem_of_cons; [done|]. revert He. unfold commissioned_events.
    destruct (cb_commissioned _); [|by intros ?%not_elem_of_nil].
    intros ->%list_elem_of_singleton. split; [by apply new_device_wf|done].
Qed.
End Typing.

Lemma callbacks_typed_witness :
  typed_event (EvButton 1 (set_seq_num 6 switch_entry) Press 1 None 0).
Proof.
  destruct (process_advertisement switch_addr 1 3 (-60) (adv_of press_payload) sample)
    as [[[u d'] t]|r] eqn:E; [|vm_compute in E; discriminate E].
  apply (callbacks_typed switch_addr 1 3 (-60) (adv_of press_payload) sample u d' t).
  - apply sample_inv.
  - apply is_bytes_dec. reflexivity.
  - unfold is_u8. lia.
  - unfold is_i8. lia.
  - apply is_bytes_dec. reflexivity.
  - exact E.
  - vm_compute in E. injection E as _ _ <-. by left.
Defined.
