(* ===== verification/DriverSpec.v ===== *)
(** * Abstract specification of the EnOcean driver

    The driver as a finite map from addresses to keys, types, counters and
    signal strengths, with a pure step per call, and the refinement theorem:
    every run of [Driver] over a verifying backend is a run of this machine
    with the same visible outputs. *)

From stdpp Require Import prelude list gmap strings.
From Stdlib Require Import ZArith Lia.
From S2P Require Import Prelude Logger ErrorHandler ErrorCodes Types AdParser Crypto Tlv.
From S2P Require Import Driver DriverRun DriverSafety DriverProps DriverWitness.

(** ** The interface the driver needs: tag verification as a function *)

Class CryptoVerifier (C : Type) `{CryptoImplementation C} := {
  verify : bytes → bytes → bytes → bytes → bool;
  verify_spec : ∀ key nonce aad tag c,
    length key = k_key_len → length nonce = k_nonce_len → length tag = k_tag_len →
    ∃ c' l, aes_ccm_decrypt_impl key nonce aad [] tag [] c =
      Done ((verify key nonce aad tag, []), c', l);
}.

(** The Zephyr backend is one, whatever [bt_ccm_decrypt] computes. *)
#[export] Instance zephyr_verifier (bt : ZephyrAesCcm.bt_ccm_decrypt_t) :
  @CryptoVerifier () (ZephyrAesCcm.AesCcm bt).
Proof.
  refine {| verify := λ key nonce aad tag,
    bool_decide ((length aad ≤ ZephyrAesCcm.k_max_aad)%nat ∧
                 ZephyrAesCcm.verify bt key nonce aad tag = 0) |}.
  intros key nonce aad tag c Hk Hn Ht.
  destruct (ZephyrAesCcm.impl_auth bt key nonce aad tag c Hk Hn Ht) as [t E]. by exists c, t.
Defined.

(** ** The abstract machine *)

Record entry := Entry { e_key : bytes; e_type : DeviceType; e_counter : Z; e_rssi : Z }.

Inductive output :=
| OutButton (a : bytes) (e : entry) (action : ButtonAction) (buttons : Z) (opt : bytes)
| OutSensor (a : bytes) (e : entry) (s : SensorData)
| OutCommissioned (a : bytes) (e : entry).

Record spec_state := SpecState { s_open : bool; s_table : gmap bytes entry }.

Section Spec.
Context (ver : bytes → bytes → bytes → bytes → bool).

(** A data payload [p] from the known address [a]. *)
Definition spec_known (a : bytes) (rssi : Z) (p : bytes) (e : entry) : entry * list output :=
  let heard := Entry (e_key e) (e_type e) (e_counter e) rssi in
  let sw := bool_decide (e_type e = Switch) in
  if bool_decide (e_counter e < p_seq p) &&
     (negb sw || bool_decide (length p ≤ 13)%nat && bool_decide (p_state p < 32)) &&
     ver (e_key e) (nonce_of a (p_seq p)) (p_aad p) (p_tag p)
  then
    let e' := Entry (e_key e) (e_type e) (p_seq p) rssi in
    (e', if sw then
           if bool_decide (length p = 12%nat) then []
           else [OutButton a e' (if Z.odd (p_state p) then Press else Release) (p_state p / 2)
                   (take (length p - 9) (drop 5 p))]
         else [OutSensor a e' (p_report p)])
  else (heard, []).

(** A payload from an unknown address. *)
Definition spec_unknown (a : bytes) (rssi : Z) (p : bytes) (st : spec_state)
    : spec_state * list output :=
  if s_open st && bool_decide (22 ≤ length p)%nat &&
     (bool_decide (device_type a ≠ Sensor) || p_stm p) &&
     bool_decide (size (s_table st) < k_max_devices)%nat
  then
    let e := Entry (p_key p) (device_type a) (p_seq p) rssi in
    (SpecState (s_open st) (<[a := e]> (s_table st)), [OutCommissioned a e])
  else (st, []).

Definition spec_payload (a : bytes) (rssi : Z) (p : bytes) (st : spec_state)
    : spec_state * list output :=
  match s_table st !! a with
  | Some e => let '(e', out) := spec_known a rssi p e in
              (SpecState (s_open st) (<[a := e']> (s_table st)), out)
  | None => spec_unknown a rssi p st
  end.

Definition spec_op (o : op) (st : spec_state) : spec_state * list output :=
  match o with
  | OInit => (SpecState false ∅, [])
  | OEnable => (SpecState true (s_table st), [])
  | ODisable => (SpecState false (s_table st), [])
  | OAdv ctx a at_ adv rssi data =>
      if ctx && bool_decide (length a = k_addr_len) && bool_decide (adv = k_adv_nonconn_ind) &&
         bool_decide (at_ = k_addr_random)
      then
        match extract_manufacturer_data data with
        | Done p => if bool_decide (9 ≤ length p)%nat then spec_payload a rssi p st else (st, [])
        | Stop _ => (st, [])
        end
      else (st, [])
  end.

Fixpoint spec_exec (ops : list op) (st : spec_state) : spec_state * list output :=
  match ops with
  | [] => (st, [])
  | o :: ops' => let '(st1, out1) := spec_op o st in
                 let '(st2, out2) := spec_exec ops' st1 in (st2, out1 ++ out2)
  end.
End Spec.

(** ** Abstraction *)

Definition entry_of (dev : EnoceanDevice) : entry :=
  Entry (key dev) (type dev) (seq_num dev) (rssi dev).

Definition abs_list (devs : list EnoceanDevice) : list (bytes * entry) :=
  omap (λ dev, if active dev then Some (addr (ble_addr dev), entry_of dev) else None) devs.

Definition abs_table (devs : list EnoceanDevice) : gmap bytes entry := list_to_map (abs_list devs).

Definition abs {C} (d : EnoceanDriver C) : spec_state :=
  SpecState (commissioning_enabled_ d) (abs_table (devices_ d)).

(** What the application sees of an event. *)
Definition visible (e : event) : option output :=
  match e with
  | EvLog _ => None
  | EvButton _ dev action buttons opt n =>
      Some (OutButton (addr (ble_addr dev)) (entry_of dev) action buttons (take n (default [] opt)))
  | EvSensor _ dev s _ _ => Some (OutSensor (addr (ble_addr dev)) (entry_of dev) s)
  | EvCommissioned _ dev => Some (OutCommissioned (addr (ble_addr dev)) (entry_of dev))
  end.

Definition outputs (t : list event) : list output := omap visible t.

Lemma outputs_app t1 t2 : outputs (t1 ++ t2) = outputs t1 ++ outputs t2.
Proof. apply omap_app. Qed.

Lemma outputs_logs t : only_logs t → outputs t = [].
Proof. induction 1 as [|[]]; done. Qed.

Lemma abs_list_In devs a e :
  (a, e) ∈ abs_list devs ↔ ∃ dev, dev ∈ devs ∧ is_device a dev ∧ e = entry_of dev.
Proof.
  unfold abs_list. rewrite list_elem_of_omap. split.
  - intros (dev & Hin & Hd). exists dev. unfold is_device. destruct (active dev); naive_solver.
  - intros (dev & Hin & [Hact <-] & ->). exists dev. by rewrite Hact.
Qed.

(** Distinct active addresses. *)
Definition uniq (devs : list EnoceanDevice) : Prop :=
  ∀ i j x y, devs !! i = Some x → devs !! j = Some y →
    active x = true → active y = true → addr (ble_addr x) = addr (ble_addr y) → i = j.

Lemma uniq_cons x devs : uniq (x :: devs) → uniq devs.
Proof. intros Hu i j y z Hi Hj Hy Hz E. specialize (Hu (S i) (S j) y z Hi Hj Hy Hz E). lia. Qed.

Lemma abs_list_NoDup devs : uniq devs → NoDup (abs_list devs).*1.
Proof.
  induction devs as [|x devs IH]; intros Hu; [constructor|].
  pose proof (IH (uniq_cons _ _ Hu)) as IH'. unfold abs_list in *. cbn.
  destruct (active x) eqn:Hact; [|done]. cbn. constructor; [|done].
  intros Hin. apply list_elem_of_fmap in Hin as ([a e] & Ea & Hin). cbn in Ea. subst a.
  apply (abs_list_In devs) in Hin as (y & Hy & [Hya Hyad] & _).
  apply list_elem_of_lookup in Hy as [j Hj].
  specialize (Hu 0%nat (S j) x y eq_refl Hj Hact Hya). naive_solver.
Qed.

Lemma abs_table_lookup devs a e :
  uniq devs →
  abs_table devs !! a = Some e ↔ ∃ dev, dev ∈ devs ∧ is_device a dev ∧ e = entry_of dev.
Proof.
  intros Hu. unfold abs_table. rewrite <- elem_of_list_to_map by by apply abs_list_NoDup.
  apply abs_list_In.
Qed.

Lemma abs_table_size devs : uniq devs → size (abs_table devs) = count_active devs 0.
Proof.
  intros Hu. unfold abs_table. rewrite map_size_list_to_map by by apply abs_list_NoDup.
  rewrite count_active_acc. unfold abs_list. cbn. clear Hu.
  induction devs as [|x devs IH]; [done|]. rewrite filter_cons. cbn.
  destruct (active x); cbn; [by rewrite IH|done].
Qed.

Lemma abs_table_insert devs i dev dev' :
  uniq devs → uniq (<[i := dev']> devs) → devs !! i = Some dev → active dev' = true →
  active dev = false ∨ addr (ble_addr dev) = addr (ble_addr dev') →
  abs_table (<[i := dev']> devs) = <[addr (ble_addr dev') := entry_of dev']> (abs_table devs).
Proof.
  intros Hu Hu' Hi Hact Hold. pose proof (lookup_lt_Some _ _ _ Hi) as Hlt.
  assert (<[i := dev']> devs !! i = Some dev') as Hi' by by apply list_lookup_insert_eq.
  apply map_eq. intros b. apply option_eq. intros e.
  rewrite abs_table_lookup, lookup_insert_Some, abs_table_lookup by done. split.
  - intros (x & Hx & [Hax Had] & ->). apply list_elem_of_lookup in Hx as [k Hk].
    destruct (decide (addr (ble_addr dev') = b)) as [E|E].
    + left. split; [done|]. assert (k = i) as -> by (apply (Hu' k i x dev'); congruence). congruence.
    + right. split; [done|]. exists x. split_and!; [|done|done].
      apply list_lookup_insert_Some in Hk as [(-> & -> & _)|[_ Hk]]; [done|].
      by eapply list_elem_of_lookup_2.
  - intros [[<- <-]|[Hne (x & Hx & [Hax Had] & ->)]].
    + exists dev'. split_and!; [by eapply list_elem_of_lookup_2|done|done].
    + apply list_elem_of_lookup in Hx as [k Hk]. exists x. split_and!; [|done|done].
      assert (k ≠ i) as Hki by (intros ->; destruct Hold; congruence).
      apply (list_elem_of_lookup_2 _ k). by rewrite list_lookup_insert_ne by done.
Qed.

Lemma abs_table_find devs a i dev :
  uniq devs → find_slot a devs = Some i → devs !! i = Some dev →
  abs_table devs !! a = Some (entry_of dev).
Proof.
  intros Hu Hf Hi. apply find_slot_Some in Hf as [(dev' & Hi' & Hd) _]. simplify_eq.
  apply abs_table_lookup; [done|]. exists dev'. split_and!; [by eapply list_elem_of_lookup_2|done|done].
Qed.

Lemma abs_table_unknown devs a : uniq devs → find_slot a devs = None → abs_table devs !! a = None.
Proof.
  intros Hu Hf%find_slot_None. apply eq_None_not_Some. intros [e He].
  apply abs_table_lookup in He as (dev & Hin & Hd & _); [|done].
  by eapply Forall_forall in Hin as Hnd; [|exact Hf].
Qed.

Lemma count_active_full devs :
  (count_active devs 0 < length devs)%nat ↔ free_slot devs ≠ None.
Proof.
  rewrite free_slot_None, count_active_acc. cbn. induction devs as [|x devs IH].
  - cbn. split; [lia|]. intros []. constructor.
  - rewrite filter_cons, Forall_cons. case_decide as Hact; cbn [length].
    + rewrite <- Nat.succ_lt_mono, IH. naive_solver.
    + split; [naive_solver|]. intros _. pose proof (length_filter (λ x, active x = true) devs). lia.
Qed.

(** ** Refinement *)

Section Refinement.
Context {C : Type} `{CryptoVerifier C}.
Implicit Types d : EnoceanDriver C.

(** All callbacks are registered, the driver is initialised. *)
Record observed d : Prop := {
  obs_init : initialised_ d = true;
  obs_button : cb_button (callbacks_ d) ≠ None;
  obs_sensor : cb_sensor (callbacks_ d) ≠ None;
  obs_comm : cb_commissioned (callbacks_ d) ≠ None;
}.

Lemma check_tag_verify c dev p :
  wf_device dev → (4 ≤ length p)%nat →
  ∃ c' l, check_tag c dev p =
    Done (verify (key dev) (nonce_of (addr (ble_addr dev)) (p_seq p)) (p_aad p) (p_tag p), c', l).
Proof.
  intros [[Ha _] _ [Hk _] _ _] Hp. unfold check_tag, aes_ccm_decrypt.
  pose proof (nonce_of_length _ (p_seq p) Ha) as Hn.
  rewrite !decide_False by tauto.
  destruct (verify_spec (key dev) (nonce_of (addr (ble_addr dev)) (p_seq p)) (p_aad p) (p_tag p) c
    Hk Hn (proj2 (aad_tag p Hp))) as (c' & l & ->). by exists c', l.
Qed.

Lemma outputs_fmap (l : list LogCall) : outputs (EvLog <$> l) = [].
Proof. apply outputs_logs, only_logs_fmap. Qed.

(** A handler's result [r] on slot [i] implements [spec]: a new entry with
    the same identity, and outputs. *)
Definition implements (i : nat) d (dev : EnoceanDevice) (spec : entry * list output)
    (r : outcome (() * EnoceanDriver C * list event)) : Prop :=
  ∃ dev' c' t, r = Done ((), set_slot i dev' (set_crypto c' d), t) ∧
    same_identity dev dev' ∧ wf_device dev' ∧ spec = (entry_of dev', outputs t).

(** Nothing but the backend's state and log lines. *)
Lemma implements_rejected i d dev c' t :
  devices_ d !! i = Some dev → wf_device dev → outputs t = [] →
  implements i d dev (entry_of dev, []) (Done ((), set_crypto c' d, t)).
Proof.
  intros Hi Hwf Ht. exists dev, c', t. split_and!; [|by repeat split|done|by rewrite Ht].
  unfold set_slot, set_devices, set_crypto. cbn. by rewrite list_insert_id.
Qed.

Lemma implements_ignored i d dev t :
  devices_ d !! i = Some dev → wf_device dev → outputs t = [] →
  implements i d dev (entry_of dev, []) (Done ((), d, t)).
Proof. intros. rewrite <- (set_crypto_same d) at 2. by apply implements_rejected. Qed.

Lemma implements_accepted i d dev c' p t out :
  wf_device dev → is_bytes p → outputs t = out →
  implements i d dev (entry_of (set_seq_num (p_seq p) dev), out)
    (Done ((), accept i dev p c' d, t)).
Proof.
  intros Hwf Hp <-. exists (set_seq_num (p_seq p) dev), c', t.
  split_and!; [done|by repeat split|by apply wf_set_seq, p_seq_range|done].
Qed.

Lemma switch_refines i p d dev :
  observed d → devices_ d !! i = Some dev → wf_device dev → is_bytes p → (9 ≤ length p)%nat →
  type dev = Switch →
  implements i d dev (spec_known verify (addr (ble_addr dev)) (rssi dev) p (entry_of dev))
    (discard (handle_switch i p d)).
Proof.
  intros [_ Hb _ _] Hi Hwf Hpb Hp Hty. pose proof (wf_dev_addr_length _ Hwf) as Ha.
  destruct (check_tag_verify (crypto_ d) dev p Hwf) as (c' & l & Htag); [lia|].
  rewrite (handle_switch_eq _ _ _ dev) by done. rewrite Htag. unfold spec_known.
  cbn [e_key e_type e_counter e_rssi entry_of]. rewrite (bool_decide_eq_true_2 (type dev = _)) by done.
  set (ok := verify _ _ _ _). cbn [negb orb].
  destruct (decide (p_seq p ≤ seq_num dev)) as [Hle|Hgt].
  { rewrite (bool_decide_eq_false_2 (_ < _)) by lia. by apply implements_ignored. }
  rewrite (bool_decide_eq_true_2 (_ < _)) by lia. cbn [andb].
  destruct (decide (13 < length p)%nat) as [H13|H13].
  { rewrite (bool_decide_eq_false_2 (length p ≤ 13)%nat) by lia. by apply implements_ignored. }
  rewrite (bool_decide_eq_true_2 (length p ≤ 13)%nat) by lia. cbn [andb].
  destruct (decide (32 ≤ p_state p)) as [H32|H32].
  { rewrite (bool_decide_eq_false_2 (p_state p < 32)) by lia. by apply implements_ignored. }
  rewrite (bool_decide_eq_true_2 (p_state p < 32)) by lia. cbn [andb].
  destruct ok; [|apply implements_rejected; [done..|by rewrite outputs_app, outputs_fmap]].
  destruct (decide (length p = 12%nat)) as [H12|H12].
  { rewrite bool_decide_eq_true_2 by done. by apply implements_accepted, outputs_fmap. }
  rewrite bool_decide_eq_false_2 by done. apply implements_accepted; [done..|].
  rewrite outputs_app, outputs_fmap. unfold button_events.
  destruct (cb_button (callbacks_ d)); [|done]. cbn. do 2 f_equal. case_decide; [done|].
  by replace (length p) with 9%nat by lia.
Qed.

Lemma sensor_refines i p d dev :
  observed d → devices_ d !! i = Some dev → wf_device dev → is_bytes p → (9 ≤ length p)%nat →
  type dev ≠ Switch →
  implements i d dev (spec_known verify (addr (ble_addr dev)) (rssi dev) p (entry_of dev))
    (discard (handle_sensor i p d)).
Proof.
  intros [_ _ Hs _] Hi Hwf Hpb Hp Hty. pose proof (wf_dev_addr_length _ Hwf) as Ha.
  destruct (check_tag_verify (crypto_ d) dev p Hwf) as (c' & l & Htag); [lia|].
  rewrite (handle_sensor_eq _ _ _ dev) by done. rewrite Htag. unfold spec_known.
  cbn [e_key e_type e_counter e_rssi entry_of]. rewrite (bool_decide_eq_false_2 (type dev = _)) by done.
  set (ok := verify _ _ _ _). cbn [negb orb].
  assert (∀ e t, outputs (EvLog e :: (EvLog <$> l) ++ t) = outputs t) as Hout.
  { intros e t. change (EvLog e :: ?y ++ ?z) with ([EvLog e] ++ y ++ z).
    by rewrite !outputs_app, outputs_fmap. }
  destruct (decide (p_seq p ≤ seq_num dev)) as [Hle|Hgt].
  { rewrite (bool_decide_eq_false_2 (_ < _)) by lia. by apply implements_ignored. }
  rewrite (bool_decide_eq_true_2 (_ < _)) by lia. cbn [andb].
  destruct ok; [|apply implements_rejected; [done..|by rewrite Hout]].
  apply implements_accepted; [done..|]. rewrite Hout. unfold sensor_events.
  by destruct (cb_sensor (callbacks_ d)).
Qed.

Lemma spec_known_rssi a r r' p e :
  spec_known verify a r p (Entry (e_key e) (e_type e) (e_counter e) r') = spec_known verify a r p e.
Proof. done. Qed.

Lemma driver_inv_uniq d : driver_inv d → uniq (devices_ d).
Proof. by intros [_ _ Hu _]. Qed.

(** One payload from a known address. *)
Lemma known_payload_refines a r p d i dev :
  observed d → driver_inv d → find_slot a (devices_ d) = Some i → devices_ d !! i = Some dev →
  is_i8 r → is_bytes p → (9 ≤ length p)%nat →
  let d1 := set_slot i (set_rssi r dev) d in
  ∃ d' t, discard (if decide (type dev = Switch) then handle_switch i p d1 else handle_sensor i p d1)
      = Done ((), d', t) ∧ observed d' ∧ driver_inv d' ∧
    spec_payload verify a r p (abs d) = (abs d', outputs t).
Proof.
  intros Hobs Hinv Hf Hi Hr Hpb Hp d1.
  pose proof (lookup_lt_Some _ _ _ Hi) as Hlt.
  pose proof (Forall_lookup_1 _ _ _ _ (inv_wf _ Hinv) Hi) as Hwf.
  pose proof (abs_table_find _ _ _ _ (driver_inv_uniq _ Hinv) Hf Hi) as Habs.
  assert (is_device a dev) as [Hact Had]
    by (apply find_slot_Some in Hf as [(? & ? & ?) _]; by simplify_eq).
  assert (implements i d1 (set_rssi r dev)
    (spec_known verify a r p (entry_of dev))
    (discard (if decide (type dev = Switch) then handle_switch i p d1 else handle_sensor i p d1)))
    as (dev' & c' & t & -> & Hid & Hwf' & Hspec).
  { rewrite <- Had. rewrite <- (spec_known_rssi _ r r).
    assert (observed d1) by by destruct Hobs.
    assert (devices_ d1 !! i = Some (set_rssi r dev)) by by apply set_slot_lookup.
    case_decide; [apply switch_refines|apply sensor_refines]; try done; by apply wf_set_rssi. }
  subst d1. rewrite set_slot_crypto, set_slot_twice.
  assert (same_identity dev dev') as Hid' by done.
  assert (driver_inv (set_slot i dev' (set_crypto c' d))) as Hinv'
    by by apply (set_slot_inv i dev _ d).
  do 2 eexists. split_and!; [done|by destruct Hobs|done|].
  unfold spec_payload, abs. cbn [s_table s_open]. rewrite Habs, Hspec. do 2 f_equal.
  cbn [devices_ set_slot set_devices set_crypto].
  destruct Hid' as (Ea & Eb & _). rewrite (abs_table_insert _ _ dev).
  - by rewrite <- Eb, Had.
  - by apply driver_inv_uniq.
  - apply (driver_inv_uniq _ Hinv').
  - done.
  - congruence.
  - right. by rewrite Eb.
Qed.

(** Filling the first free slot. *)
Lemma commission_refines a r p d i :
  observed d → driver_inv d → length a = k_addr_len → is_bytes a → is_i8 r → is_bytes p →
  (22 ≤ length p)%nat → find_slot a (devices_ d) = None → free_slot (devices_ d) = Some i →
  let dev := new_device a k_addr_random r p in
  ∃ d' t, Done ((), set_slot i dev d, commissioned_line a :: commissioned_events (callbacks_ d) dev)
      = Done ((), d', t) ∧ observed d' ∧ driver_inv d' ∧
    (SpecState (commissioning_enabled_ d)
       (<[a := Entry (p_key p) (device_type a) (p_seq p) r]> (abs_table (devices_ d))),
     [OutCommissioned a (Entry (p_key p) (device_type a) (p_seq p) r)]) = (abs d', outputs t).
Proof.
  intros [Hob1 Hob2 Hob3 Hob4] Hinv Ha Hab Hr Hpb Hl Hf Hfree dev.
  destruct (free_slot_Some _ _ Hfree) as [(dev0 & Hi & Hfalse) _].
  assert (driver_inv (set_slot i dev d)) as Hinv'.
  { apply new_slot_inv; [done..| |done]. by apply new_device_wf. }
  do 2 eexists. split_and!; [done|done|done|]. f_equal.
  - unfold abs. f_equal. cbn [devices_ set_slot set_devices].
    rewrite (abs_table_insert _ _ dev0); [done|by apply driver_inv_uniq| |done|done|by left].
    apply (driver_inv_uniq _ Hinv').
  - unfold commissioned_line, commissioned_events. by destruct (cb_commissioned (callbacks_ d)).
Qed.

Lemma unknown_payload_refines a r p d :
  observed d → driver_inv d → length a = k_addr_len → is_bytes a → is_i8 r →
  find_slot a (devices_ d) = None → is_bytes p → (9 ≤ length p)%nat →
  ∃ d' t, (if bool_decide (22 ≤ length p)%nat && commissioning_enabled_ d
           then discard (handle_commissioning a k_addr_random r p d) else Done ((), d, []))
      = Done ((), d', t) ∧ observed d' ∧ driver_inv d' ∧
    spec_payload verify a r p (abs d) = (abs d', outputs t).
Proof.
  intros Hobs Hinv Ha Hab Hr Hf Hpb Hp. pose proof (driver_inv_uniq _ Hinv) as Hu.
  unfold spec_payload. cbn [s_table abs]. rewrite (abs_table_unknown _ _ Hu Hf).
  unfold spec_unknown. cbn [s_open s_table abs]. rewrite (andb_comm (commissioning_enabled_ d)).
  destruct (bool_decide (22 ≤ length p)%nat && _) eqn:Hce; cbn [andb]; [|by eauto 10].
  apply andb_true_iff in Hce as [Hl%bool_decide_eq_true _].
  rewrite handle_commissioning_eq by (done || apply Hinv). rewrite Hf, bool_decide_not.
  rewrite abs_table_size, <- (inv_len _ Hinv) by done.
  pose proof (count_active_full (devices_ d)) as Hfull.
  destruct (bool_decide (device_type a = Sensor)), (p_stm p); cbn [negb andb orb discard];
    try (by eauto 10);
    (destruct (free_slot (devices_ d)) as [i|] eqn:Hfree;
     [rewrite bool_decide_eq_true_2 by (by apply Hfull)
     |rewrite bool_decide_eq_false_2 by (intros ?%Hfull; done); by eauto 10]);
    by apply (commission_refines a r p d i).
Qed.

(** The advertisement's AD structures do not overrun it. *)
Definition safe_op (o : op) : Prop :=
  match o with OAdv _ _ _ _ _ data => ∃ p, extract_manufacturer_data data = Done p | _ => True end.

(** [d'] and [t] are what the specification says. *)
Definition matches d (m : outcome (() * EnoceanDriver C * list event)) (s : spec_state * list output)
    : Prop :=
  ∃ d' t, m = Done ((), d', t) ∧ observed d' ∧ driver_inv d' ∧ s = (abs d', outputs t).

Lemma matches_nothing d : observed d → driver_inv d → matches d (Done ((), d, [])) (abs d, []).
Proof. intros. by exists d, []. Qed.

Lemma adv_refines a at_ adv r data d :
  observed d → driver_inv d → is_bytes a → is_i8 r → is_bytes data →
  (∃ p, extract_manufacturer_data data = Done p) →
  matches d (process_advertisement a at_ adv r data d)
    (spec_op verify (OAdv true a at_ adv r data) (abs d)).
Proof.
  intros Hobs Hinv Ha Hr Hb [p Hx].
  rewrite process_advertisement_eq by apply Hinv. unfold incoming. rewrite (obs_init _ Hobs).
  cbn [spec_op andb].
  destruct (bool_decide (length a = k_addr_len)) eqn:El; cbn [andb]; [|by apply matches_nothing].
  destruct (bool_decide (adv = k_adv_nonconn_ind)); cbn [andb]; [|by apply matches_nothing].
  destruct (bool_decide (at_ = k_addr_random)) eqn:Et; [|by apply matches_nothing].
  apply bool_decide_eq_true in El, Et. subst at_. rewrite Hx. cbn [mbind outcome_bind].
  destruct (decide (9 ≤ length p)%nat) as [Hp|Hp];
    [rewrite (bool_decide_eq_true_2 (9 ≤ length p)%nat) by done
    |rewrite (bool_decide_eq_false_2 (9 ≤ length p)%nat) by done; by apply matches_nothing].
  assert (is_bytes p) as Hpb by by eapply extract_payload_bytes.
  destruct (find_slot a (devices_ d)) as [i|] eqn:Hf; [|by apply unknown_payload_refines].
  pose proof Hf as [(dev & Hi & _) _]%find_slot_Some.
  rewrite (list_lookup_total_correct _ _ _ Hi). by apply known_payload_refines.
Qed.

Lemma abs_table_default (devs : list EnoceanDevice) : abs_table ((λ _, default_device) <$> devs) = ∅.
Proof.
  unfold abs_table. assert (abs_list ((λ _, default_device) <$> devs) = []) as ->; [|done].
  induction devs as [|x devs IH]; [done|]. exact IH.
Qed.

Lemma op_refines o d :
  observed d → driver_inv d → wf_op o → safe_op o →
  matches d (run_op o d) (spec_op verify o (abs d)).
Proof.
  intros Hobs Hinv Ho Hsafe.
  assert (∀ u d' t, run_op o d = Done (u, d', t) → driver_inv d') as Hinv'
    by (intros u d' t E; by apply (run_op_inv o d u d' t)).
  destruct o as [| | |[] a at_ adv r data].
  - do 2 eexists. split_and!; [reflexivity|by destruct Hobs|by eapply Hinv'|].
    unfold abs. cbn [devices_ spec_op commissioning_enabled_]. by rewrite abs_table_default.
  - do 2 eexists. split_and!; [reflexivity|by destruct Hobs|by eapply Hinv'|done].
  - do 2 eexists. split_and!; [reflexivity|by destruct Hobs|by eapply Hinv'|done].
  - destruct Ho as (? & ? & ? & ?). by apply adv_refines.
  - by apply matches_nothing.
Qed.

(** Every run, by induction. *)
Lemma exec_refines ops d :
  observed d → driver_inv d → Forall wf_op ops → Forall safe_op ops →
  ∃ d' t, exec ops d = Done ((), d', t) ∧ observed d' ∧ driver_inv d' ∧
    spec_exec verify ops (abs d) = (abs d', outputs t).
Proof.
  intros Hobs Hinv Hops Hsafe. revert d Hobs Hinv.
  induction Hops as [|o ops Ho Hops IH]; intros d Hobs Hinv; [by exists d, []|].
  apply Forall_cons in Hsafe as [Hs Hsafe].
  destruct (op_refines o d Hobs Hinv Ho Hs) as (d1 & t1 & E1 & Hobs1 & Hinv1 & S1).
  destruct (IH Hsafe d1 Hobs1 Hinv1) as (d2 & t2 & E2 & Hobs2 & Hinv2 & S2).
  exists d2, (t1 ++ t2). cbn [exec spec_exec]. rewrite bind_run, E1, E2, S1, S2.
  split_and!; [done..|by rewrite outputs_app].
Qed.

(** C1. Refinement: over a verifying backend, a run of the driver on
    advertisements that do not overrun finishes, and its table and its
    outputs are those of the abstract machine. *)
Theorem driver_refines_spec ops d :
  observed d → driver_inv d → Forall wf_op ops → Forall safe_op ops →
  ∃ d' t, exec ops d = Done ((), d', t) ∧ driver_inv d' ∧
    spec_exec verify ops (abs d) = (abs d', outputs t).
Proof.
  intros Hobs Hinv Hops Hsafe.
  destruct (exec_refines ops d Hobs Hinv Hops Hsafe) as (d' & t & E & _ & Hinv' & S).
  by exists d', t.
Qed.
End Refinement.

(** The toy backend is a verifier. *)
#[export] Instance toy_verifier : CryptoVerifier ().
Proof.
  refine {| verify := λ _ _ _ tag, bool_decide (tag = [1; 2; 3; 4]) |}.
  intros key nonce aad tag c _ _ _. by exists c, [].
Defined.

Lemma driver_refines_spec_witness :
  ∃ d' t, exec run_ops sample = Done ((), d', t) ∧ driver_inv d' ∧
    spec_exec (verify (C := ())) run_ops (abs sample) = (abs d', outputs t).
Proof.
  apply (driver_refines_spec run_ops sample).
  - split; discriminate || reflexivity.
  - apply sample_inv.
  - apply wf_run_ops.
  - repeat (apply Forall_cons; split;
      [eexists; apply extract_carries;
         [apply adv_of_carries|apply is_bytes_dec; reflexivity
         |apply Nat.leb_le; vm_compute; reflexivity]|]).
    apply Forall_nil; exact I.
Defined.
