(* ===== verification/DriverIsolation.v ===== *)
(** * One device among others (src/enocean/EnoceanDriver.ipp)

    The table has eight entries and one advertisement changes at most one of
    them, but the entries share the driver, its commissioning flag and the
    signal strengths, which anyone can change. Shown here: what the
    application hears of a commissioned device is a function of the telegrams
    made with its key alone - the driver is a product of one-device machines
    - and so nobody without the key can keep a press from being delivered.

    The argument is on the machine of [DriverSpec], where entries are compared
    up to the signal strength ([≡], with its [Proper] instances), and is
    carried over to the driver by the refinement. *)

From stdpp Require Import prelude list gmap strings.
From Stdlib Require Import ZArith Lia.
From S2P Require Import Prelude Logger ErrorHandler ErrorCodes Types AdParser Crypto Tlv.
From S2P Require Import Driver DriverRun DriverSafety DriverProps DriverWitness DriverSpec.

(** ** Telegrams of a device *)

(** The signal strength and payload of an advertisement from [a] that gets as
    far as the table. *)
Definition telegram (a : bytes) (o : op) : option (Z * bytes) :=
  match o with
  | OAdv ctx b at_ adv rssi data =>
      if ctx && bool_decide (b = a) && bool_decide (length b = k_addr_len) &&
         bool_decide (adv = k_adv_nonconn_ind) && bool_decide (at_ = k_addr_random)
      then match extract_manufacturer_data data with
           | Done p => if bool_decide (9 ≤ length p)%nat then Some (rssi, p) else None
           | Stop _ => None
           end
      else None
  | _ => None
  end.

Definition output_addr (o : output) : bytes :=
  match o with OutButton a _ _ _ _ | OutSensor a _ _ | OutCommissioned a _ => a end.

(** What is said of the device at [a]. *)
Definition about (a : bytes) : list output → list output := filter (λ o, output_addr o = a).

Lemma about_app a l1 l2 : about a (l1 ++ l2) = about a l1 ++ about a l2.
Proof. apply filter_app. Qed.

Lemma about_all a l : Forall (λ o, output_addr o = a) l → about a l = l.
Proof. induction 1 as [|o l Ho _ IH]; [done|]. unfold about in *. by rewrite filter_cons_True, IH. Qed.

Lemma about_none a b l : b ≠ a → Forall (λ o, output_addr o = b) l → about a l = [].
Proof.
  intros Hne. induction 1 as [|o l Ho _ IH]; [done|]. unfold about in *.
  by rewrite filter_cons_False by congruence.
Qed.

(** ** Entries up to the signal strength *)

#[export] Instance entry_equiv : Equiv entry := λ e1 e2,
  e_key e1 = e_key e2 ∧ e_type e1 = e_type e2 ∧ e_counter e1 = e_counter e2.
#[export] Instance entry_equivalence : Equivalence (≡@{entry}).
Proof.
  split.
  - by intros e.
  - intros e1 e2 (? & ? & ?). by split_and!.
  - intros e1 e2 e3 (? & ? & ?) (? & ? & ?). split_and!; congruence.
Qed.

Section Machine.
Context (ver : bytes → bytes → bytes → bytes → bool).

#[export] Instance spec_known_proper a r p : Proper ((≡) ==> eq) (spec_known ver a r p).
Proof.
  intros [k1 t1 n1 r1] [k2 t2 n2 r2] (Hk & Ht & Hn). cbn in Hk, Ht, Hn. by subst.
Qed.

(** The machine of a single device. *)
Fixpoint device_run (a : bytes) (e : entry) (ps : list (Z * bytes)) : entry * list output :=
  match ps with
  | [] => (e, [])
  | (r, p) :: ps' => let '(e1, out1) := spec_known ver a r p e in
                     let '(e2, out2) := device_run a e1 ps' in (e2, out1 ++ out2)
  end.

Lemma device_run_cons a e r p ps :
  device_run a e ((r, p) :: ps) =
    ((device_run a (spec_known ver a r p e).1 ps).1,
     (spec_known ver a r p e).2 ++ (device_run a (spec_known ver a r p e).1 ps).2).
Proof. cbn. by destruct (spec_known ver a r p e), (device_run _ _ _). Qed.

(** The payload was made with the key. *)
Definition genuine (k a : bytes) (rp : Z * bytes) : Prop :=
  ver k (nonce_of a (p_seq rp.2)) (p_aad rp.2) (p_tag rp.2) = true.
#[export] Instance genuine_dec k a rp : Decision (genuine k a rp).
Proof. unfold genuine. apply _. Defined.

#[export] Instance device_run_proper a ps : Proper ((≡) ==> eq) (λ e, (device_run a e ps).2).
Proof.
  destruct ps as [|[r p] ps]; intros e1 e2 He; [done|]. by rewrite !device_run_cons, He.
Qed.

Lemma spec_known_key a r p e : e_key (spec_known ver a r p e).1 = e_key e.
Proof. unfold spec_known. by destruct (_ && _). Qed.

Lemma spec_known_addr a r p e : Forall (λ o, output_addr o = a) (spec_known ver a r p e).2.
Proof.
  unfold spec_known. destruct (_ && _); [|constructor]. cbn [snd].
  repeat case_bool_decide; by repeat constructor.
Qed.

(** A payload that is not genuine leaves the entry as it is and says nothing. *)
Lemma spec_known_forged a r p e :
  ¬ genuine (e_key e) a (r, p) → (spec_known ver a r p e).1 ≡ e ∧ (spec_known ver a r p e).2 = [].
Proof.
  unfold genuine. cbn [snd]. intros Hf%not_true_is_false. unfold spec_known. by rewrite Hf, andb_false_r.
Qed.

Lemma device_run_genuine a e ps :
  (device_run a e ps).2 = (device_run a e (filter (genuine (e_key e) a) ps)).2.
Proof.
  revert e. induction ps as [|[r p] ps IH]; intros e; [done|]. rewrite device_run_cons, filter_cons.
  pose proof (IH (spec_known ver a r p e).1) as IH1. rewrite spec_known_key in IH1.
  case_decide as Hg; cbn [snd]; rewrite IH1; [by rewrite device_run_cons|].
  destruct (spec_known_forged a r p e Hg) as [He ->]. cbn [app].
  apply (device_run_proper a _ _ _ He).
Qed.

(** A genuine payload carries a counter the entry has afterwards, unless the
    entry had it already. *)
Lemma device_run_counter a e ps n :
  e_counter e < n → Forall (λ rp, genuine (e_key e) a rp → p_seq rp.2 < n) ps →
  e_counter (device_run a e ps).1 < n.
Proof.
  revert e. induction ps as [|[r p] ps IH]; intros e He Hps; [done|].
  apply Forall_cons in Hps as [Hp Hps]. rewrite device_run_cons. cbn [fst]. apply IH.
  - unfold spec_known. destruct (_ && _) eqn:Hc; [|done]. cbn. apply Hp.
    by apply andb_true_iff in Hc as [_ Hv].
  - by rewrite spec_known_key.
Qed.

(** ** The machine as a product *)

(** One call, seen from the device at [a]. *)
Lemma spec_op_device a e o st :
  is_init o = false → s_table st !! a = Some e →
  match telegram a o with
  | Some (r, p) => s_table (spec_op ver o st).1 !! a = Some (spec_known ver a r p e).1 ∧
                   about a (spec_op ver o st).2 = (spec_known ver a r p e).2
  | None => s_table (spec_op ver o st).1 !! a = Some e ∧ about a (spec_op ver o st).2 = []
  end.
Proof.
  intros Hi He. destruct o as [| | |[] b at_ adv r data]; try done. cbn [telegram spec_op andb].
  destruct (bool_decide (length b = k_addr_len)); [|by rewrite andb_false_r].
  destruct (bool_decide (adv = _)); [|by rewrite andb_false_r].
  destruct (bool_decide (at_ = _)); [|by rewrite andb_false_r]. rewrite !andb_true_r. cbn [andb].
  destruct (extract_manufacturer_data data) as [p|]; [|by case_bool_decide].
  destruct (bool_decide (9 ≤ length p)%nat); [|by case_bool_decide].
  unfold spec_payload. case_bool_decide as Hb.
  - subst b. rewrite He. destruct (spec_known ver a r p e) as [e' out] eqn:E. cbn [fst snd s_table].
    split; [apply lookup_insert_eq|]. apply about_all.
    pose proof (spec_known_addr a r p e) as Ho. by rewrite E in Ho.
  - destruct (s_table st !! b) as [eb|].
    + destruct (spec_known ver b r p eb) as [e' out] eqn:E. cbn [fst snd s_table].
      split; [by rewrite lookup_insert_ne|]. apply (about_none a b); [done|].
      pose proof (spec_known_addr b r p eb) as Ho. by rewrite E in Ho.
    + unfold spec_unknown. destruct (_ && _); cbn [fst snd s_table]; [|done].
      split; [by rewrite lookup_insert_ne|]. apply (about_none a b); [done|]. by repeat constructor.
Qed.

(** A run, seen from the device at [a]. *)
Lemma spec_exec_device a e ops st :
  Forall (λ o, is_init o = false) ops → s_table st !! a = Some e →
  s_table (spec_exec ver ops st).1 !! a = Some (device_run a e (omap (telegram a) ops)).1 ∧
  about a (spec_exec ver ops st).2 = (device_run a e (omap (telegram a) ops)).2.
Proof.
  intros Hni. revert e st. induction Hni as [|o ops Hi _ IH]; intros e st He; [done|].
  pose proof (spec_op_device a e o st Hi He) as Hstep. cbn [spec_exec omap list_omap].
  destruct (spec_op ver o st) as [st1 out1]. cbn [fst snd] in Hstep.
  destruct (telegram a o) as [[r p]|]; destruct Hstep as [He1 Ho1]; specialize (IH _ _ He1);
    destruct (spec_exec ver ops st1) as [st2 out2]; destruct IH as [IH1 IH2];
    cbn [fst snd] in *; rewrite about_app, Ho1, IH2.
  - by rewrite device_run_cons.
  - done.
Qed.

(** A call that carries a genuine telegram of the device. *)
Definition from_device (k a : bytes) (o : op) : Prop :=
  match telegram a o with Some rp => genuine k a rp | None => False end.
#[export] Instance from_device_dec k a o : Decision (from_device k a o).
Proof. unfold from_device. destruct (telegram a o); apply _. Defined.

Lemma telegram_filter k a (ops : list op) :
  omap (telegram a) (filter (from_device k a) ops) = filter (genuine k a) (omap (telegram a) ops).
Proof.
  induction ops as [|o ops IH]; [done|]. cbn [omap list_omap].
  assert (from_device k a o ↔ match telegram a o with Some rp => genuine k a rp | None => False end)
    as Hd by done.
  destruct (telegram a o) as [rp|] eqn:E; [|rewrite filter_cons_False by tauto; exact IH].
  destruct (decide (genuine k a rp)) as [Hg|Hg].
  - rewrite !filter_cons_True by tauto. cbn [omap list_omap]. by rewrite E, <- IH.
  - rewrite !filter_cons_False by tauto. exact IH.
Qed.

(** The calls that do not belong to the device, and all flag changes, may be
    left out. *)
Lemma spec_exec_isolated a e ops st :
  Forall (λ o, is_init o = false) ops → s_table st !! a = Some e →
  about a (spec_exec ver ops st).2 =
  about a (spec_exec ver (filter (from_device (e_key e) a) ops) st).2.
Proof.
  intros Hni He. destruct (spec_exec_device a e ops st Hni He) as [_ ->].
  destruct (spec_exec_device a e (filter (from_device (e_key e) a) ops) st) as [_ ->].
  - apply Forall_forall. intros o [_ Ho]%list_elem_of_filter. rewrite Forall_forall in Hni. by apply Hni.
  - done.
  - by rewrite telegram_filter, <- device_run_genuine.
Qed.
End Machine.

(** ** The driver *)

Section Driver.
Context {C : Type} `{CryptoVerifier C}.
Implicit Types d : EnoceanDriver C.
Abbreviation run_of dev := (device_run verify (addr (ble_addr dev)) (entry_of dev)).

(** What has been processed has not overrun, or not been looked at. *)
Lemma op_refines_done o d u d' t :
  observed d → driver_inv d → wf_op o → run_op o d = Done (u, d', t) →
  observed d' ∧ driver_inv d' ∧ spec_op verify o (abs d) = (abs d', outputs t).
Proof.
  intros Hobs Hinv Ho Hrun.
  assert (safe_op o → observed d' ∧ driver_inv d' ∧ spec_op verify o (abs d) = (abs d', outputs t)) as Hok.
  { intros Hsafe. destruct (op_refines o d Hobs Hinv Ho Hsafe) as (d1 & t1 & E & Hobs1 & Hinv1 & S).
    rewrite Hrun in E. injection E as _ -> ->. done. }
  destruct o as [| | |ctx a at_ adv rssi data]; [by apply Hok..|].
  destruct (extract_manufacturer_data data) as [p|r] eqn:Ex; [apply Hok; by exists p|].
  cbn [run_op spec_op] in *. unfold advertisement_cb in Hrun. rewrite Ex.
  destruct ctx; cbn [negb] in Hrun; [|by injection Hrun as _ <- <-].
  rewrite process_advertisement_eq in Hrun by apply Hinv.
  unfold incoming in Hrun. rewrite (obs_init _ Hobs), Ex in Hrun. cbn [andb] in *.
  destruct (_ && _ && _) in Hrun; cbn in Hrun; [done|]. injection Hrun as _ <- <-.
  split_and!; [done..|]. by destruct (_ && _).
Qed.

Lemma exec_refines_done ops d u d' t :
  observed d → driver_inv d → Forall wf_op ops → exec ops d = Done (u, d', t) →
  observed d' ∧ driver_inv d' ∧ spec_exec verify ops (abs d) = (abs d', outputs t).
Proof.
  intros Hobs Hinv Hops. revert d t Hobs Hinv.
  induction Hops as [|o ops Ho _ IH]; intros d t Hobs Hinv Hrun; [by injection Hrun as _ <- <-|].
  apply exec_cons in Hrun as (u1 & d1 & t1 & t2 & H1 & H2 & ->).
  destruct (op_refines_done _ _ _ _ _ Hobs Hinv Ho H1) as (Hobs1 & Hinv1 & S1).
  destruct (IH d1 t2 Hobs1 Hinv1 H2) as (Hobs2 & Hinv2 & S2).
  split_and!; [done..|]. cbn [spec_exec]. by rewrite S1, S2, outputs_app.
Qed.

(** A device is found where it is. *)
Lemma find_slot_own d1 j x :
  driver_inv d1 → devices_ d1 !! j = Some x → active x = true →
  find_slot (addr (ble_addr x)) (devices_ d1) = Some j.
Proof.
  intros Hinv1 Hj Hx. apply find_slot_Some. split; [by exists x|].
  intros k y Hk Hy [Hay Ead]. pose proof (inv_uniq _ Hinv1 k j y x Hy Hj Hay Hx Ead). lia.
Qed.

(** A commissioned device and a run that does not re-initialise the driver. *)
Context (d : EnoceanDriver C) (i : nat) (dev : EnoceanDevice) (ops : list op).
Context (Hobs : observed d) (Hinv : driver_inv d).
Context (Hi : devices_ d !! i = Some dev) (Hact : active dev = true).
Context (Hwf : Forall wf_op ops) (Hni : Forall (λ o, is_init o = false) ops).
Abbreviation a := (addr (ble_addr dev)).

Lemma abs_lookup : s_table (abs d) !! a = Some (entry_of dev).
Proof using Hinv Hi Hact.
  apply abs_table_lookup; [by apply driver_inv_uniq|]. exists dev.
  split_and!; [by eapply list_elem_of_lookup_2|done|done].
Qed.

(** The table is a product of one-device machines: what the application hears
    of a device is computed from the device's entry and its telegrams. *)
Lemma device_after u d' t :
  exec ops d = Done (u, d', t) →
  observed d' ∧ driver_inv d' ∧
  s_table (abs d') !! a = Some (run_of dev (omap (telegram a) ops)).1 ∧
  about a (outputs t) = (run_of dev (omap (telegram a) ops)).2.
Proof using All.
  intros Hrun. destruct (exec_refines_done _ _ _ _ _ Hobs Hinv Hwf Hrun) as (Hobs' & Hinv' & S).
  destruct (spec_exec_device verify a (entry_of dev) ops (abs d) Hni abs_lookup) as [E1 E2].
  by rewrite S in E1, E2.
Qed.

Lemma Forall_omap_telegram (P : Z * bytes → Prop) :
  Forall (λ o, ∀ rp, telegram a o = Some rp → P rp) ops → Forall P (omap (telegram a) ops).
Proof using.
  intros Ho. apply Forall_forall. intros rp (o & Hin & E)%list_elem_of_omap.
  rewrite Forall_forall in Ho. by apply (Ho o).
Qed.

(** A press after the run, computed. *)
Lemma press_after u d' t' seq st tag rssi data fn :
  exec ops d = Done (u, d', t') → cb_button (callbacks_ d') = Some fn →
  type dev = Switch → seq_num dev < seq → is_u32 seq → is_u8 st → st < 32 →
  is_bytes tag → length tag = k_tag_len →
  Forall (λ o, ∀ rp, telegram a o = Some rp → genuine verify (key dev) a rp → p_seq rp.2 < seq) ops →
  let p := data_payload seq [st] tag in
  carries data p → genuine verify (key dev) a (rssi, p) →
  ∃ d'' t, process_advertisement a k_addr_random k_adv_nonconn_ind rssi data d' = Done ((), d'', t) ∧
    callbacks t = [EvButton fn (set_seq_num seq (set_rssi rssi dev))
                     (if Z.odd st then Press else Release) (st / 2) None 0].
Proof using All.
  intros E Hfn Hty Hlt Hs Hst Hst' Htb Htl Hbelow p Hc Hg.
  destruct (device_after _ _ _ E) as (Hobs' & Hinv' & Habs & _).
  destruct (exec_slots ops d u d' t' i dev Hinv Hwf Hni E Hi Hact) as (x & Hx & (Ea & Eb & Et & Ek) & _).
  assert (seq_num x < seq) as Hseq.
  { apply abs_table_lookup in Habs as (y & [j Hj]%list_elem_of_lookup & Hy & Ey); [|by apply driver_inv_uniq].
    rewrite (has_seq_inj d' a (seq_num x) (seq_num y) Hinv'); [|exists i, x|by exists j, y];
      [|split_and!; [done|split; congruence|done]].
    change (seq_num y) with (e_counter (entry_of y)). rewrite <- Ey.
    apply device_run_counter; [done|]. apply Forall_omap_telegram. exact Hbelow. }
  assert (active x = true) as Hax by congruence.
  pose proof (find_slot_own d' i x Hinv' Hx Hax) as Hf. rewrite <- Eb in Hf.
  pose proof (Forall_lookup_1 _ _ _ _ (inv_wf _ Hinv') Hx) as Hwx.
  destruct (data_payload_fields seq [st] tag Hs Htl) as (_ & _ & _ & _ & El). fold p in El. cbn [length] in El.
  destruct (check_tag_verify (crypto_ d') x p Hwx) as (c & l & Htag); [lia|].
  rewrite <- Eb, <- Ek, Hg in Htag.
  pose proof (switch_event_run a rssi data seq st [] tag d' i x c l fn) as Hrun.
  eexists _, _. split; [apply Hrun; rewrite ?Hfn, <- ?Et;
    (done || by apply obs_init || by apply Forall_nil || (fold p; lia))|].
  rewrite bool_decide_eq_true_2 by done. cbn.
  rewrite callbacks_app, callbacks_logs by apply only_logs_fmap. cbn.
  destruct x, dev; cbn in *. by subst.
Qed.

Context (Hsafe : Forall safe_op ops).

(** C2. Isolation, over a back end whose verdict on a tag is a function of key,
    nonce, data and tag, in runs without re-initialisation in which no
    advertisement has an AD structure that overruns it. Whatever else happens
    in such a run - forged and replayed telegrams, other devices,
    commissioning telegrams, changes of the flag - the application hears of a
    commissioned device exactly what it hears when nothing is received but the
    telegrams made with that device's key. *)
Theorem devices_isolated :
  ∃ d1 t1 d2 t2,
    exec ops d = Done ((), d1, t1) ∧
    exec (filter (from_device verify (key dev) a) ops) d = Done ((), d2, t2) ∧
    about a (outputs t1) = about a (outputs t2).
Proof using All.
  assert (∀ P : op → Prop, Forall P ops → Forall P (filter (from_device verify (key dev) a) ops)) as Hsub.
  { intros P HP. apply Forall_forall. intros o [_ Ho]%list_elem_of_filter.
    rewrite Forall_forall in HP. by apply HP. }
  destruct (exec_refines ops d) as (d1 & t1 & E1 & _ & _ & S1); [done..|].
  destruct (exec_refines (filter (from_device verify (key dev) a) ops) d)
    as (d2 & t2 & E2 & _ & _ & S2); [by auto..|].
  exists d1, t1, d2, t2. split_and!; [done|done|].
  pose proof (spec_exec_isolated verify a (entry_of dev) ops (abs d) Hni abs_lookup) as Hiso.
  cbn [e_key entry_of] in Hiso. by rewrite S1, S2 in Hiso.
Qed.

(** C6. Availability, under the same conditions on the back end and the run. As
    long as no telegram made with the key of a commissioned switch carries a
    counter of [seq] or more, a press with the counter [seq] is delivered,
    whatever else the run holds. *)
Theorem press_gets_through seq st tag rssi data :
  type dev = Switch → seq_num dev < seq → is_u32 seq → is_u8 st → st < 32 →
  is_bytes tag → length tag = k_tag_len →
  Forall (λ o, ∀ rp, telegram a o = Some rp → genuine verify (key dev) a rp → p_seq rp.2 < seq) ops →
  let p := data_payload seq [st] tag in
  carries data p → genuine verify (key dev) a (rssi, p) →
  ∃ d' t', exec ops d = Done ((), d', t') ∧
    ∃ u d'' t fn, process_advertisement a k_addr_random k_adv_nonconn_ind rssi data d' = Done (u, d'', t) ∧
      callbacks t = [EvButton fn (set_seq_num seq (set_rssi rssi dev))
                       (if Z.odd st then Press else Release) (st / 2) None 0].
Proof using All.
  intros Hty Hlt Hs Hst Hst' Htb Htl Hbelow p Hc Hg.
  destruct (exec_refines ops d Hobs Hinv Hwf Hsafe) as (d' & t' & E & Hobs' & _ & _).
  exists d', t'. split; [done|].
  destruct (cb_button (callbacks_ d')) as [fn|] eqn:Hfn; [|by destruct Hobs'].
  destruct (press_after () d' t' seq st tag rssi data fn) as (d'' & t & Hrun & Hev); try done.
  by exists (), d'', t, fn.
Qed.
End Driver.

(** ** A switch among forgeries, another device and flag changes *)

(** A forged press with a high counter, the sensor, a genuine press and its
    replay, and a commissioning telegram for the switch's address. *)
Definition noise : list op :=
  [adv switch_addr (data_payload 100 [0x03] [9; 9; 9; 9]); OEnable;
   adv sensor_addr (data_payload 10 [0x03] toy_tag);
   adv switch_addr press_payload; adv switch_addr press_payload;
   adv switch_addr switch_comm; ODisable].

Lemma wf_noise : Forall wf_op noise.
Proof. wf_ops. Qed.

Lemma noise_no_init : Forall (λ o, is_init o = false) noise.
Proof. repeat constructor. Qed.

Lemma noise_safe : Forall safe_op noise.
Proof.
  repeat (apply Forall_cons; split;
    [first [exact I
           |eexists; apply extract_carries;
              [apply adv_of_carries|apply is_bytes_dec; reflexivity
              |apply Nat.leb_le; vm_compute; reflexivity]]|]).
  apply Forall_nil; exact I.
Qed.

Lemma sample_observed : observed sample.
Proof. split; discriminate || reflexivity. Qed.

Lemma devices_isolated_witness :
  ∃ d1 t1 d2 t2, exec noise sample = Done ((), d1, t1) ∧
    exec (filter (from_device (verify (C := ())) (key switch_entry) switch_addr) noise) sample =
      Done ((), d2, t2) ∧
    about switch_addr (outputs t1) = about switch_addr (outputs t2).
Proof.
  apply (devices_isolated sample 0 switch_entry noise sample_observed sample_inv eq_refl eq_refl
    wf_noise noise_no_init noise_safe).
Defined.

(** The forged counter 100 does not keep the press with counter 7 back. *)
Lemma press_gets_through_witness :
  ∃ d' t', exec noise sample = Done ((), d', t') ∧
    ∃ u d'' t fn, process_advertisement switch_addr 1 3 (-50)
        (adv_of (data_payload 7 [0x03] toy_tag)) d' = Done (u, d'', t) ∧
      callbacks t = [EvButton fn (set_seq_num 7 (set_rssi (-50) switch_entry)) Press 1 None 0].
Proof.
  apply (press_gets_through sample 0 switch_entry noise sample_observed sample_inv eq_refl eq_refl
    wf_noise noise_no_init noise_safe 7 0x03 toy_tag (-50) (adv_of (data_payload 7 [0x03] toy_tag)));
    try reflexivity; try (unfold is_u32, is_u8; lia).
  - apply is_bytes_dec. reflexivity.
  - repeat (apply Forall_cons; split; [intros rp E Hg; vm_compute in E; try discriminate E|]).
    all: try (apply Forall_nil; exact I).
    all: injection E as <-; vm_compute in Hg; first [discriminate Hg|reflexivity].
  - apply adv_of_carries.
Defined.
