(* ===== verification/Sync.v ===== *)
(** * Mutexes (platform/common/imutex; the POSIX and Zephyr backends)

    The CRTP base [IMutex] as operations over a type class, the RAII
    [IMutexLocker], and the backends over the OS calls they make. The OS is a
    parameter: a state [W] (which includes the handle and the thread the object
    is used from) and the calls as functions on it. The object names shared by
    all OS wrappers are here too. *)

From stdpp Require Import prelude list strings.
From Stdlib Require Import ZArith Lia Ascii.
From S2P Require Import Prelude Logger ErrorHandler ErrorCodes.

(** [std::source_location::current().function_name()] in the function whose
    name is the argument; the compiler chooses the text. *)
Class SourceLocation := here : string → string.

Section Results.
Context {St Ev : Type} `{LogEvent Ev} `{SourceLocation} {E : Type} `{ErrorTraits E}.

(** [ErrorHandler<std::monostate, E>(std::monostate{})] *)
Definition ok : eff St Ev (ErrorHandler () E) := of_value ().
(** [ErrorHandler<std::monostate, E>(e, msg)] in function [fn]. *)
Definition fail (fn : string) (e : E) (msg : string) : eff St Ev (ErrorHandler () E) :=
  of_error e msg (here fn).
End Results.

(** The result of a call, ignoring the log. *)
Definition is_ok {E} : ErrorHandler () E := mkErrorHandler (Value ()).
Definition is_err {E} (e : E) : ErrorHandler () E := mkErrorHandler (Unexpected e).

Lemma fail_Done {St Ev} `{LogEvent Ev} `{SourceLocation} {E} `{ErrorTraits E} fn (e : E) msg (s : St) r s' t :
  fail (Ev := Ev) fn e msg s = Done (r, s', t) → s' = s ∧ r = is_err e.
Proof. unfold fail, of_error, log. intros Hr. by eff_inv. Qed.

Lemma ok_Done {St Ev E} (r : ErrorHandler () E) (s s' : St) (t : list Ev) :
  ok s = Done (r, s', t) → s' = s ∧ r = is_ok.
Proof. unfold ok, of_value. intros Hr. by eff_inv. Qed.

(** ** Object names

    All four interfaces keep a name in a zero-initialised [std::array<char, 32>]. *)
Module Names.

Definition name_size : nat := 32.

(** [std::copy_n(name, copy_len, buf.begin()); buf[copy_len] = '\0';] *)
Definition name_buffer (name : string) : list ascii :=
  let len := String.length name in
  let copy_len := Nat.min len (name_size - 1) in
  let buf := replicate name_size Ascii.zero in
  take copy_len (String.list_ascii_of_string name) ++ Ascii.zero :: drop (S copy_len) buf.

(** The [consteval] constructors: a literal of [N] characters, terminator
    included, is a compile-time error unless [N <= 32]. *)
Definition literal_buffer (name : string) : option (list ascii) :=
  let N := S (String.length name) in
  if decide (N ≤ name_size)%nat then
    Some (String.list_ascii_of_string name ++ Ascii.zero :: drop N (replicate name_size Ascii.zero))
  else None.

(** The C string in a buffer. *)
Fixpoint c_str (buf : list ascii) : list ascii :=
  match buf with
  | [] => []
  | c :: buf' => if Ascii.eqb c Ascii.zero then [] else c :: c_str buf'
  end.

Lemma length_list_ascii name : length (String.list_ascii_of_string name) = String.length name.
Proof. induction name as [|c name IH]; cbn; [done|]. by rewrite IH. Qed.

Lemma c_str_app l buf :
  Forall (λ c, Ascii.eqb c Ascii.zero = false) l → c_str (l ++ Ascii.zero :: buf) = l.
Proof. induction 1 as [|c l Hc _ IH]; [done|]. cbn. by rewrite Hc, IH. Qed.

(** A literal that compiles fills the buffer as the run-time constructor does. *)
Lemma literal_is_runtime name buf : literal_buffer name = Some buf → buf = name_buffer name.
Proof.
  unfold literal_buffer, name_buffer. cbv zeta. case_decide as Hl; [|done]. intros [= <-].
  unfold name_size in *.
  replace (String.length name `min` (32 - 1))%nat with (String.length name) by lia.
  by rewrite take_ge by by rewrite length_list_ascii.
Qed.

(** A name buffer always has 32 characters, and the C string in it is the
    name's first 31 characters: a long run-time name is truncated, never
    overrun, and a literal is never truncated. *)
Theorem name_truncated name :
  Forall (λ c, Ascii.eqb c Ascii.zero = false) (String.list_ascii_of_string name) →
  length (name_buffer name) = name_size ∧
  c_str (name_buffer name) = take 31 (String.list_ascii_of_string name) ∧
  (∀ buf, literal_buffer name = Some buf → c_str buf = String.list_ascii_of_string name).
Proof.
  intros Hnul. pose proof (length_list_ascii name) as Hl. unfold name_buffer, name_size.
  assert (take (String.length name `min` (32 - 1)) (String.list_ascii_of_string name) =
    take 31 (String.list_ascii_of_string name)) as Et.
  { destruct (decide (String.length name ≤ 31)%nat).
    - rewrite !take_ge; [done|lia..].
    - by replace (String.length name `min` (32 - 1))%nat with 31%nat by lia. }
  assert (c_str (name_buffer name) = take 31 (String.list_ascii_of_string name)) as Hc.
  { unfold name_buffer, name_size. rewrite Et. apply c_str_app. by apply Forall_take. }
  split_and!.
  - rewrite length_app, length_take. cbn [length]. rewrite length_drop, length_replicate. lia.
  - exact Hc.
  - intros buf Hbuf. rewrite (literal_is_runtime _ _ Hbuf), Hc. revert Hbuf.
    unfold literal_buffer, name_size. cbv zeta. case_decide; [|done]. intros _. apply take_ge. lia.
Qed.

Lemma name_truncated_witness :
  c_str (name_buffer "abcdefghijklmnopqrstuvwxyz0123456789") =
    take 31 (String.list_ascii_of_string "abcdefghijklmnopqrstuvwxyz0123456789").
Proof. apply name_truncated. repeat constructor. Defined.
End Names.

(** ** Mutexes *)

(** The object: the base's members, and the OS state with the handle. *)
Record MutexObj (W : Type) := mkMutex {
  mutex_name : list ascii;
  initialized_ : bool;
  mtx : W;
}.
Arguments mkMutex {W} _ _ _.
Arguments mutex_name {W} _.
Arguments initialized_ {W} _.
Arguments mtx {W} _.

(** [concept MutexImplementation]. *)
Class MutexImplementation (W Duration Ev : Type) := {
  do_init : eff (MutexObj W) Ev (ErrorHandler () MutexError);
  do_lock : Duration → eff (MutexObj W) Ev (ErrorHandler () MutexError);
  do_unlock : eff (MutexObj W) Ev ();
}.

Module IMutex.
Section Base.
Context {W : Type}.

Definition IMutex (name : string) (w : W) : MutexObj W :=
  mkMutex (Names.name_buffer name) false w.
Definition IMutex_literal (name : string) (w : W) : option (MutexObj W) :=
  buf ← Names.literal_buffer name; Some (mkMutex buf false w).
Definition get_mutex_name (m : MutexObj W) : list ascii := mutex_name m.
Definition is_initialized (m : MutexObj W) : bool := initialized_ m.
Definition set_initialized (state : bool) (m : MutexObj W) : MutexObj W :=
  mkMutex (mutex_name m) state (mtx m).

Context {Duration Ev : Type} `{MutexImplementation W Duration Ev} `{LogEvent Ev} `{SourceLocation}.

Definition init : eff (MutexObj W) Ev (ErrorHandler () MutexError) :=
  m ← get;
  if negb (initialized_ m) then
    result ← do_init;
    (if operator_bool result then modify (set_initialized true) else mret ());;
    mret result
  else fail "IMutex::init" MutexErrors.AlreadyInitialized "Mutex already initialized".

Definition lock (timeout : Duration) : eff (MutexObj W) Ev (ErrorHandler () MutexError) :=
  m ← get;
  if negb (initialized_ m) then
    fail "IMutex::lock" MutexErrors.NotInitialized "Mutex not initialized"
  else do_lock timeout.

Definition unlock : eff (MutexObj W) Ev () :=
  m ← get;
  if negb (initialized_ m) then mret () else do_unlock.

(** [IMutexLocker]: constructor (returning [locked_]), destructor, and the
    block in between. *)
Definition IMutexLocker (timeout : Duration) : eff (MutexObj W) Ev bool :=
  lock_result ← lock timeout;
  mret (has_value lock_result).

Definition IMutexLocker_dtor (locked_ : bool) : eff (MutexObj W) Ev () :=
  if locked_ then unlock else mret ().

Definition with_lock {A} (timeout : Duration) (block : bool → eff (MutexObj W) Ev A)
    : eff (MutexObj W) Ev A :=
  locked_ ← IMutexLocker timeout;
  a ← block locked_;
  IMutexLocker_dtor locked_;;
  mret a.
End Base.
End IMutex.

(** An OS call on the handle of a mutex. *)
Definition mutex_sys {W Ev A} (f : W → A * W) : eff (MutexObj W) Ev A :=
  zoom mtx (λ w m, mkMutex (mutex_name m) (initialized_ m) w) id (call f).

Module PosixMutex.
Section Backend.
Context `{Errno} `{SourceLocation} {Ev : Type} `{LogEvent Ev}.

Definition errno_to_mutex_error (error_code : Z) : MutexError :=
  if decide (error_code = EINVAL) then MutexErrors.InvalidParameter
  else if decide (error_code = ENOMEM) then MutexErrors.InsufficientMemory
  else if decide (error_code = EAGAIN) then MutexErrors.ResourceLimitExceeded
  else if decide (error_code = ETIMEDOUT) then MutexErrors.Timeout
  else if decide (error_code = EINTR) then MutexErrors.Interrupted
  else if decide (error_code = EDEADLK) then MutexErrors.Deadlock
  else if decide (error_code = EBUSY) then MutexErrors.Busy
  else if decide (error_code = EPERM) then MutexErrors.PermissionDenied
  else if decide (error_code = EALREADY) then MutexErrors.AlreadyInitialized
  else MutexErrors.Unknown.

(** pthreads; the attribute object is part of [W]. *)
Record Pthread (W timespec : Type) := mkPthread {
  pthread_mutex_destroy : W → Z * W;
  pthread_mutexattr_init : W → Z * W;
  pthread_mutexattr_settype_errorcheck : W → Z * W;
  pthread_mutexattr_destroy : W → Z * W;
  pthread_mutex_init : W → Z * W;
  pthread_mutex_lock : W → Z * W;
  pthread_mutex_timedlock : timespec → W → Z * W;
  pthread_mutex_unlock : W → Z * W;
}.
Arguments pthread_mutex_destroy {W timespec} _ _.
Arguments pthread_mutexattr_init {W timespec} _ _.
Arguments pthread_mutexattr_settype_errorcheck {W timespec} _ _.
Arguments pthread_mutexattr_destroy {W timespec} _ _.
Arguments pthread_mutex_init {W timespec} _ _.
Arguments pthread_mutex_lock {W timespec} _ _.
Arguments pthread_mutex_timedlock {W timespec} _ _ _.
Arguments pthread_mutex_unlock {W timespec} _ _.

Context {W timespec : Type} (os : Pthread W timespec).
Abbreviation M := (eff (MutexObj W) Ev).

(** Lines 49-84, after the re-initialisation branch. *)
Definition create : M (ErrorHandler () MutexError) :=
  attr_init_rc ← mutex_sys (pthread_mutexattr_init os);
  if decide (attr_init_rc ≠ 0) then
    fail "Mutex::do_init" (errno_to_mutex_error attr_init_rc) "pthread_mutexattr_init failed"
  else
    set_type_rc ← mutex_sys (pthread_mutexattr_settype_errorcheck os);
    if decide (set_type_rc ≠ 0) then
      mutex_sys (pthread_mutexattr_destroy os);;
      fail "Mutex::do_init" (errno_to_mutex_error set_type_rc) "pthread_mutexattr_settype failed"
    else
      init_rc ← mutex_sys (pthread_mutex_init os);
      attr_destroy_rc ← mutex_sys (pthread_mutexattr_destroy os);
      if decide (attr_destroy_rc ≠ 0) then
        (if decide (init_rc = 0) then mutex_sys (pthread_mutex_destroy os);; mret ()
         else mret ());;
        fail "Mutex::do_init" (errno_to_mutex_error attr_destroy_rc)
          "pthread_mutexattr_destroy failed"
      else if decide (init_rc ≠ 0) then
        fail "Mutex::do_init" (errno_to_mutex_error init_rc) "pthread_mutex_init failed"
      else
        modify (IMutex.set_initialized true);;
        ok.

Definition do_init_posix : M (ErrorHandler () MutexError) :=
  m ← get;
  if IMutex.is_initialized m then
    destroy_rc ← mutex_sys (pthread_mutex_destroy os);
    if decide (destroy_rc ≠ 0) then
      fail "Mutex::do_init" (errno_to_mutex_error destroy_rc) "pthread_mutex_destroy failed"
    else
      modify (IMutex.set_initialized false);;
      create
  else create.

(** [abs_timeout]: [None] is [nullptr]. *)
Definition do_lock_posix (abs_timeout : option timespec) : M (ErrorHandler () MutexError) :=
  result ← mutex_sys (match abs_timeout with
                      | None => pthread_mutex_lock os
                      | Some ts => pthread_mutex_timedlock os ts
                      end);
  if decide (result = 0) then ok
  else
    fail "Mutex::do_lock" (errno_to_mutex_error result)
      (match abs_timeout with
       | None => "pthread_mutex_lock failed" | Some _ => "pthread_mutex_timedlock failed"
       end).

Definition do_unlock_posix : M () :=
  rc ← mutex_sys (pthread_mutex_unlock os);
  if decide (rc ≠ 0) then stopE Terminated else mret ().

#[export] Instance Mutex : MutexImplementation W (option timespec) Ev := {
  do_init := do_init_posix; do_lock := do_lock_posix; do_unlock := do_unlock_posix;
}.
End Backend.
Arguments pthread_mutex_destroy {W timespec} _ _.
Arguments pthread_mutexattr_init {W timespec} _ _.
Arguments pthread_mutexattr_settype_errorcheck {W timespec} _ _.
Arguments pthread_mutexattr_destroy {W timespec} _ _.
Arguments pthread_mutex_init {W timespec} _ _.
Arguments pthread_mutex_lock {W timespec} _ _.
Arguments pthread_mutex_timedlock {W timespec} _ _ _.
Arguments pthread_mutex_unlock {W timespec} _ _.
End PosixMutex.

Module ZephyrMutex.
Section Backend.
Context `{Errno} `{SourceLocation} {Ev : Type} `{LogEvent Ev}.

Definition errno_to_mutex_error (error_code : Z) : MutexError :=
  if decide (error_code = EINVAL) then MutexErrors.InvalidParameter
  else if decide (error_code = ETIMEDOUT ∨ error_code = EBUSY) then MutexErrors.Timeout
  else if decide (error_code = EDEADLK) then MutexErrors.Deadlock
  else if decide (error_code = EALREADY) then MutexErrors.AlreadyInitialized
  else MutexErrors.Unknown.

(** Zephyr's kernel mutex; the result of [k_mutex_unlock] is not looked at. *)
Context {W k_timeout_t : Type}.
Context (k_mutex_init : W → Z * W) (k_mutex_lock : k_timeout_t → W → Z * W)
  (k_mutex_unlock : W → Z * W).
Abbreviation M := (eff (MutexObj W) Ev).

Definition do_init_zephyr : M (ErrorHandler () MutexError) :=
  m ← get;
  if IMutex.is_initialized m then
    fail "Mutex::do_init" MutexErrors.AlreadyInitialized "Mutex already initialized"
  else
    result ← mutex_sys k_mutex_init;
    if decide (result ≠ 0) then
      fail "Mutex::do_init" (errno_to_mutex_error (- result)) "k_mutex_init failed"
    else
      modify (IMutex.set_initialized true);;
      ok.

Definition do_lock_zephyr (timeout : k_timeout_t) : M (ErrorHandler () MutexError) :=
  result ← mutex_sys (k_mutex_lock timeout);
  if decide (result = 0) then ok
  else fail "Mutex::do_lock" (errno_to_mutex_error (- result)) "k_mutex_lock failed".

Definition do_unlock_zephyr : M () := mutex_sys k_mutex_unlock;; mret ().

#[export] Instance Mutex : MutexImplementation W k_timeout_t Ev := {
  do_init := do_init_zephyr; do_lock := do_lock_zephyr; do_unlock := do_unlock_zephyr;
}.
End Backend.
End ZephyrMutex.

(** ** What the mutex promises *)

Lemma mutex_sys_run {W Ev A} (f : W → A * W) (m : MutexObj W) :
  mutex_sys (Ev := Ev) f m =
    Done ((f (mtx m)).1, mkMutex (mutex_name m) (initialized_ m) (f (mtx m)).2, []).
Proof. unfold mutex_sys, zoom. by rewrite call_run. Qed.

Section Promises.
Context {W Duration Ev : Type} `{MutexImplementation W Duration Ev} `{LogEvent Ev} `{SourceLocation}.

Lemma fail_run {St E} `{ErrorTraits E} fn (e : E) msg (s : St) :
  ∃ t, fail (Ev := Ev) fn e msg s = Done (is_err e, s, t).
Proof. by eexists. Qed.

(** Whatever the backend: before [init] a lock attempt is refused and an
    unlock does nothing, after it a second [init] is refused, and none of the
    three reaches the backend or changes the object. *)
Theorem imutex_guarded m timeout :
  (initialized_ m = false →
     (∃ t, IMutex.lock timeout m = Done (is_err MutexErrors.NotInitialized, m, t)) ∧
     IMutex.unlock m = Done ((), m, [])) ∧
  (initialized_ m = true →
     ∃ t, IMutex.init m = Done (is_err MutexErrors.AlreadyInitialized, m, t)).
Proof.
  unfold IMutex.lock, IMutex.unlock, IMutex.init. split.
  - intros Hi. rewrite !bind_run. cbn [get]. rewrite Hi. split; [by eexists|done].
  - intros Hi. rewrite bind_run. cbn [get]. rewrite Hi. by eexists.
Qed.

(** A backend is a mutex when there is a notion of the calling thread holding
    it, a successful lock takes it, a failed one does not, and unlocking a
    held mutex releases it. *)
Class MutexLaws := {
  held : W → bool;
  lock_law : ∀ timeout m, initialized_ m = true → held (mtx m) = false →
    ∃ r m' t, do_lock timeout m = Done (r, m', t) ∧ initialized_ m' = true ∧
      held (mtx m') = has_value r;
  unlock_law : ∀ m, initialized_ m = true → held (mtx m) = true →
    ∃ m' t, do_unlock m = Done ((), m', t) ∧ initialized_ m' = true ∧ held (mtx m') = false;
}.

(** The RAII locker: for any lawful backend and any block that leaves the
    mutex as it found it, the block is told whether the mutex is held, and
    after the scope the calling thread no longer holds it - lock failures
    included - without [std::terminate]. *)
Theorem locker_releases `{!MutexLaws} {A} timeout (block : bool → eff (MutexObj W) Ev A) m :
  initialized_ m = true → held (mtx m) = false →
  (∀ locked m1, initialized_ m1 = true → held (mtx m1) = locked →
     ∃ a m2 t, block locked m1 = Done (a, m2, t) ∧ initialized_ m2 = true ∧ held (mtx m2) = locked) →
  ∃ a m' t, IMutex.with_lock timeout block m = Done (a, m', t) ∧
    initialized_ m' = true ∧ held (mtx m') = false.
Proof.
  intros Hi Hh Hblock. unfold IMutex.with_lock, IMutex.IMutexLocker, IMutex.lock.
  destruct (lock_law timeout m Hi Hh) as (r & m1 & t1 & El & Hi1 & Hh1).
  destruct (Hblock (has_value r) m1 Hi1 Hh1) as (a & m2 & t2 & Eb & Hi2 & Hh2).
  assert (∃ m3 t3, IMutex.IMutexLocker_dtor (has_value r) m2 = Done ((), m3, t3) ∧
    initialized_ m3 = true ∧ held (mtx m3) = false) as (m3 & t3 & Ed & Hi3 & Hh3).
  { unfold IMutex.IMutexLocker_dtor. destruct (has_value r); [|by exists m2, []].
    unfold IMutex.unlock. rewrite bind_run. cbn [get]. rewrite Hi2. cbn [negb].
    destruct (unlock_law m2 Hi2 Hh2) as (m3 & t3 & -> & ? & ?). by exists m3, t3. }
  exists a, m3. eexists. split; [|done].
  rewrite !bind_run. cbn [get]. rewrite Hi. cbn [negb]. rewrite El. cbn [mret eff_ret].
  rewrite bind_run, Eb. rewrite bind_run, Ed. reflexivity.
Qed.
End Promises.
Arguments MutexLaws W Duration Ev {_}.

(** POSIX error-checking mutexes, as documented: locking a free mutex takes it
    or fails, unlocking a held one succeeds. *)
Record pthread_laws {W timespec} (os : PosixMutex.Pthread W timespec) (owned : W → bool) : Prop := {
  law_lock : ∀ ts w, owned w = false →
    let r := match ts with
             | None => PosixMutex.pthread_mutex_lock os w
             | Some t => PosixMutex.pthread_mutex_timedlock os t w
             end in owned r.2 = bool_decide (r.1 = 0);
  law_unlock : ∀ w, owned w = true →
    let r := PosixMutex.pthread_mutex_unlock os w in r.1 = 0 ∧ owned r.2 = false;
}.

Definition posix_mutex_laws `{Errno} `{SourceLocation} {Ev} `{LogEvent Ev} {W timespec}
    (os : PosixMutex.Pthread W timespec) owned (Hos : pthread_laws os owned) :
  @MutexLaws W (option timespec) Ev (PosixMutex.Mutex os).
Proof.
  refine {| held := owned |}.
  - intros ts m Hi Hh. cbn. unfold PosixMutex.do_lock_posix. rewrite bind_run, mutex_sys_run.
    pose proof (law_lock _ _ Hos ts (mtx m) Hh) as Hl.
    assert (∀ f : W → Z * W, f = match ts with
      | None => PosixMutex.pthread_mutex_lock os
      | Some t => PosixMutex.pthread_mutex_timedlock os t end →
      owned (f (mtx m)).2 = bool_decide ((f (mtx m)).1 = 0)) as Hf.
    { intros f ->. by destruct ts. }
    specialize (Hf _ eq_refl). case_decide as E.
    + rewrite bool_decide_eq_true_2 in Hf by done. by do 3 eexists.
    + rewrite bool_decide_eq_false_2 in Hf by done. by do 3 eexists.
  - intros m Hi Hh. cbn. unfold PosixMutex.do_unlock_posix. rewrite bind_run, mutex_sys_run.
    pose proof (law_unlock _ _ Hos (mtx m) Hh) as Hl.
    destruct Hl as [-> Hw]. rewrite decide_False by tauto. by do 2 eexists.
Defined.

(** A mutex nobody else uses; locking it twice is a detected deadlock. *)
Definition toy_pthread : PosixMutex.Pthread bool () :=
  PosixMutex.mkPthread bool () (λ w, (0, w)) (λ w, (0, w)) (λ w, (0, w)) (λ w, (0, w))
    (λ w, (0, false)) (λ w, if w then (35, w) else (0, true))
    (λ _ w, if w then (35, w) else (0, true)) (λ w, if w then (0, false) else (1, w)).

Lemma toy_pthread_laws : pthread_laws toy_pthread id.
Proof. split; [intros [] [] ?|intros [] ?]; done. Qed.

#[local] Instance toy_location : SourceLocation := λ s, s.

Lemma imutex_guarded_witness :
  let impl := @PosixMutex.Mutex linux_errno _ LogCall _ _ _ toy_pthread in
  (∃ t, @IMutex.lock _ _ _ impl _ _ None (IMutex.IMutex "m" false) =
     Done (is_err MutexErrors.NotInitialized, IMutex.IMutex "m" false, t)) ∧
  @IMutex.unlock _ _ _ impl (IMutex.IMutex "m" false) = Done ((), IMutex.IMutex "m" false, []).
Proof.
  apply (@imutex_guarded _ _ _ (@PosixMutex.Mutex linux_errno _ LogCall _ _ _ toy_pthread)).
  reflexivity.
Defined.

Lemma locker_releases_witness :
  ∃ a m' t, @IMutex.with_lock _ _ _ (@PosixMutex.Mutex linux_errno _ LogCall _ _ _ toy_pthread) _ _
      _ None (λ locked, mret locked) (mkMutex (Names.name_buffer "LED") true false) =
      Done (a, m', t) ∧ initialized_ m' = true ∧ mtx m' = false.
Proof.
  apply (@locker_releases _ _ _ _ _ _
    (@posix_mutex_laws linux_errno _ LogCall _ _ _ toy_pthread id toy_pthread_laws)).
  - reflexivity.
  - reflexivity.
  - intros locked m1 Hi Hh. exists locked, m1, []. split; [reflexivity|]. split; [exact Hi|exact Hh].
Defined.

Lemma zephyr_eagain_unknown `{Errno} :
  ZephyrMutex.errno_to_mutex_error (- - EAGAIN) = MutexErrors.Unknown.
Proof. rewrite Z.opp_involutive. unfold ZephyrMutex.errno_to_mutex_error. errno_cases. done. Qed.

(** A Zephyr lock whose waiting period ends ([k_mutex_lock] is documented to
    answer [-EAGAIN] then) is reported as [Unknown], not as [Timeout]. *)
Theorem zephyr_lock_timeout_unknown `{Errno} `{SourceLocation} {Ev} `{LogEvent Ev} {W k_timeout_t}
    (kinit kunlock : W → Z * W) (klock : k_timeout_t → W → Z * W) timeout m :
  initialized_ m = true → (klock timeout (mtx m)).1 = - EAGAIN →
  ∃ m' t, @IMutex.lock _ _ _ (ZephyrMutex.Mutex (Ev := Ev) kinit klock kunlock) _ _ timeout m =
    Done (is_err MutexErrors.Unknown, m', t).
Proof.
  intros Hi Hk. unfold IMutex.lock. rewrite bind_run. cbn [get]. rewrite Hi. cbn [negb do_lock].
  cbn. unfold ZephyrMutex.do_lock_zephyr. rewrite bind_run, mutex_sys_run, Hk.
  rewrite decide_False by (pose proof errno_pos; cbn in *; intuition lia). by do 2 eexists; rewrite zephyr_eagain_unknown.
Qed.

Lemma zephyr_lock_timeout_unknown_witness :
  ∃ m' t, @IMutex.lock _ _ _ (@ZephyrMutex.Mutex linux_errno _ LogCall _ bool () (λ w, (0, w))
      (λ _ w, (- 11, w)) (λ w, (0, w))) _ _ () (mkMutex [] true true) =
    Done (is_err MutexErrors.Unknown, m', t).
Proof. apply (@zephyr_lock_timeout_unknown linux_errno); reflexivity. Defined.

(** Initialising a POSIX mutex through the interface always comes back; the
    object is marked initialised exactly when success is reported, and it is
    reported exactly when all four pthread calls succeed. *)
Theorem posix_mutex_init_outcome `{Errno} `{SourceLocation} {Ev} `{LogEvent Ev} {W timespec}
    (os : PosixMutex.Pthread W timespec) m :
  initialized_ m = false →
  let r1 := PosixMutex.pthread_mutexattr_init os (mtx m) in
  let r2 := PosixMutex.pthread_mutexattr_settype_errorcheck os r1.2 in
  let r3 := PosixMutex.pthread_mutex_init os r2.2 in
  let r4 := PosixMutex.pthread_mutexattr_destroy os r3.2 in
  ∃ r m' t, @IMutex.init _ _ _ (PosixMutex.Mutex (Ev := Ev) os) _ _ m = Done (r, m', t) ∧
    initialized_ m' = has_value r ∧ mutex_name m' = mutex_name m ∧
    (has_value r = true ↔ r1.1 = 0 ∧ r2.1 = 0 ∧ r3.1 = 0 ∧ r4.1 = 0).
Proof.
  intros Hi r1 r2 r3 r4. unfold IMutex.init. rewrite bind_run. cbn [get]. rewrite Hi. cbn [negb].
  cbn [do_init PosixMutex.Mutex]. unfold PosixMutex.do_init_posix. rewrite !bind_run. cbn [get].
  unfold IMutex.is_initialized. rewrite Hi. unfold PosixMutex.create.
  rewrite bind_run, mutex_sys_run. fold r1. cbn [mtx mutex_name initialized_].
  case_decide as E1; [do 3 eexists; split; [reflexivity|]; cbn; rewrite Hi; intuition congruence|].
  rewrite bind_run, mutex_sys_run. cbn [mtx mutex_name initialized_]. fold r2.
  case_decide as E2.
  { rewrite bind_run, mutex_sys_run. do 3 eexists; split; [reflexivity|]. cbn. rewrite Hi.
    intuition congruence. }
  rewrite bind_run, mutex_sys_run. cbn [mtx mutex_name initialized_]. fold r3.
  rewrite bind_run, mutex_sys_run. cbn [mtx mutex_name initialized_]. fold r4.
  case_decide as E4.
  { rewrite bind_run. case_decide as E3; [rewrite bind_run, mutex_sys_run|];
      (do 3 eexists; split; [reflexivity|]; cbn; rewrite Hi; intuition congruence). }
  case_decide as E3; (do 3 eexists; split; [reflexivity|]; cbn; rewrite ?Hi);
    split_and!; try done; intuition (done || lia).
Qed.

Lemma posix_mutex_init_outcome_witness :
  ∃ r m' t, @IMutex.init _ _ _ (@PosixMutex.Mutex linux_errno _ LogCall _ _ _ toy_pthread) _ _
      (IMutex.IMutex "LED" false) = Done (r, m', t) ∧
    initialized_ m' = has_value r ∧ mutex_name m' = Names.name_buffer "LED" ∧
    (has_value r = true ↔ 0 = 0 ∧ 0 = 0 ∧ 0 = 0 ∧ 0 = 0).
Proof.
  apply (@posix_mutex_init_outcome linux_errno _ LogCall _ _ _ toy_pthread (IMutex.IMutex "LED" false)).
  reflexivity.
Defined.
