(* ===== verification/Semaphores.v ===== *)
(** * Semaphores (platform/common/isemaphore; the POSIX and Zephyr backends)

    The CRTP base [ISemaphore] over a type class, the backends over the OS
    calls they make, and the counting contract: however takes and gives are
    interleaved, no more takes succeed than the initial count and the gives
    allow. *)

From stdpp Require Import prelude list strings.
From Stdlib Require Import ZArith Lia Ascii.
From S2P Require Import Prelude Logger ErrorHandler ErrorCodes Sync.

(** ** The object and its interface *)

Record SemObj (W : Type) := mkSem {
  sem_name : list ascii;
  init_count : Z;
  count_limit : Z;
  sem_initialized_ : bool;
  sem : W;
}.
Arguments mkSem {W} _ _ _ _ _.
Arguments sem_name {W} _.
Arguments init_count {W} _.
Arguments count_limit {W} _.
Arguments sem_initialized_ {W} _.
Arguments sem {W} _.

(** [concept SemaphoreImplementation]. *)
Class SemaphoreImplementation (W Duration Ev : Type) := {
  sem_do_init : eff (SemObj W) Ev (ErrorHandler () SemaphoreError);
  do_take : Duration → eff (SemObj W) Ev (ErrorHandler () SemaphoreError);
  do_give : eff (SemObj W) Ev ();
}.

Module ISemaphore.
Section Base.
Context {W : Type}.

Definition ISemaphore (name : string) (initial_count max_limit : Z) (w : W) : SemObj W :=
  mkSem (Names.name_buffer name) initial_count max_limit false w.
Definition ISemaphore_literal (name : string) (initial_count max_limit : Z) (w : W)
    : option (SemObj W) :=
  buf ← Names.literal_buffer name; Some (mkSem buf initial_count max_limit false w).
Definition get_semaphore_name (s : SemObj W) : list ascii := sem_name s.
Definition get_initial_count (s : SemObj W) : Z := init_count s.
Definition get_count_limit (s : SemObj W) : Z := count_limit s.
Definition is_initialized (s : SemObj W) : bool := sem_initialized_ s.
Definition set_initialized (state : bool) (s : SemObj W) : SemObj W :=
  mkSem (sem_name s) (init_count s) (count_limit s) state (sem s).

Context {Duration Ev : Type} `{SemaphoreImplementation W Duration Ev} `{LogEvent Ev} `{SourceLocation}.

Definition init : eff (SemObj W) Ev (ErrorHandler () SemaphoreError) :=
  s ← get;
  if negb (sem_initialized_ s) then
    result ← sem_do_init;
    (if operator_bool result then modify (set_initialized true) else mret ());;
    mret result
  else fail "ISemaphore::init" SemaphoreErrors.AlreadyInitialized "Semaphore already initialized".

Definition take (timeout : Duration) : eff (SemObj W) Ev (ErrorHandler () SemaphoreError) :=
  s ← get;
  if negb (sem_initialized_ s) then
    fail "ISemaphore::take" SemaphoreErrors.NotInitialized "Semaphore not initialized"
  else do_take timeout.

Definition give : eff (SemObj W) Ev () :=
  s ← get;
  if negb (sem_initialized_ s) then mret () else do_give.
End Base.
End ISemaphore.

Definition sem_sys {W Ev A} (f : W → A * W) : eff (SemObj W) Ev A :=
  zoom sem (λ w s, mkSem (sem_name s) (init_count s) (count_limit s) (sem_initialized_ s) w) id
    (call f).

Module PosixSemaphore.
Section Backend.
Context `{Errno} `{SourceLocation} {Ev : Type} `{LogEvent Ev}.

Definition errno_to_semaphore_error (error_code : Z) : SemaphoreError :=
  if decide (error_code = EINVAL) then SemaphoreErrors.InvalidParameter
  else if decide (error_code = ENOMEM) then SemaphoreErrors.InsufficientMemory
  else if decide (error_code = ENOSPC) then SemaphoreErrors.ResourceLimitExceeded
  else if decide (error_code = ETIMEDOUT) then SemaphoreErrors.Timeout
  else if decide (error_code = EINTR) then SemaphoreErrors.Interrupted
  else if decide (error_code = EACCES) then SemaphoreErrors.PermissionDenied
  else if decide (error_code = EOVERFLOW) then SemaphoreErrors.CountOverflow
  else if decide (error_code = EALREADY) then SemaphoreErrors.AlreadyInitialized
  else SemaphoreErrors.Unknown.

(** [sem_t] of librt and [errno]. *)
Record PosixSem (W timespec : Type) := mkPosixSem {
  errno : W → Z;
  sem_init : Z → Z → W → Z * W;
  sem_destroy : W → Z * W;
  sem_wait : W → Z * W;
  sem_timedwait : timespec → W → Z * W;
  sem_post : W → Z * W;
}.
Arguments errno {W timespec} _ _.
Arguments sem_init {W timespec} _ _ _ _.
Arguments sem_destroy {W timespec} _ _.
Arguments sem_wait {W timespec} _ _.
Arguments sem_timedwait {W timespec} _ _ _.
Arguments sem_post {W timespec} _ _.

Context {W timespec : Type} (os : PosixSem W timespec).
Abbreviation M := (eff (SemObj W) Ev).

Definition get_errno : M Z := s ← get; mret (errno os (sem s)).

(** Lines 46-52. *)
Definition create : M (ErrorHandler () SemaphoreError) :=
  s ← get;
  result ← sem_sys (sem_init os 0 (ISemaphore.get_initial_count s));
  if decide (result = 0) then
    modify (ISemaphore.set_initialized true);;
    ok
  else
    err ← get_errno;
    fail "Semaphore::do_init" (errno_to_semaphore_error err) "sem_init failed".

Definition do_init_posix : M (ErrorHandler () SemaphoreError) :=
  s ← get;
  if ISemaphore.is_initialized s then
    destroy_result ← sem_sys (sem_destroy os);
    if decide (destroy_result ≠ 0) then
      err ← get_errno;
      fail "Semaphore::do_init" (errno_to_semaphore_error err) "sem_destroy failed"
    else
      modify (ISemaphore.set_initialized false);;
      create
  else create.

Definition do_take_posix (abs_timeout : option timespec) : M (ErrorHandler () SemaphoreError) :=
  result ← sem_sys (match abs_timeout with
                    | None => sem_wait os
                    | Some ts => sem_timedwait os ts
                    end);
  if decide (result = 0) then ok
  else
    err ← get_errno;
    fail "Semaphore::do_take" (errno_to_semaphore_error err) "sem_wait/sem_timedwait failed".

Definition do_give_posix : M () :=
  rc ← sem_sys (sem_post os);
  if decide (rc ≠ 0) then stopE Terminated else mret ().

Definition Semaphore_dtor : M () :=
  s ← get;
  if ISemaphore.is_initialized s then sem_sys (sem_destroy os);; mret () else mret ().

#[export] Instance Semaphore : SemaphoreImplementation W (option timespec) Ev := {
  sem_do_init := do_init_posix; do_take := do_take_posix; do_give := do_give_posix;
}.
End Backend.
Arguments errno {W timespec} _ _.
Arguments sem_init {W timespec} _ _ _ _.
Arguments sem_destroy {W timespec} _ _.
Arguments sem_wait {W timespec} _ _.
Arguments sem_timedwait {W timespec} _ _ _.
Arguments sem_post {W timespec} _ _.
End PosixSemaphore.

Module ZephyrSemaphore.
Section Backend.
Context `{Errno} `{SourceLocation} {Ev : Type} `{LogEvent Ev}.

Definition errno_to_semaphore_error (error_code : Z) : SemaphoreError :=
  if decide (error_code = EINVAL) then SemaphoreErrors.InvalidParameter
  else if decide (error_code = ETIMEDOUT ∨ error_code = EBUSY ∨ error_code = EAGAIN) then
    SemaphoreErrors.Timeout
  else if decide (error_code = EALREADY) then SemaphoreErrors.AlreadyInitialized
  else SemaphoreErrors.Unknown.

(** Zephyr's kernel semaphore; [k_sem_give] returns nothing. *)
Context {W k_timeout_t : Type}.
Context (k_sem_init : Z → Z → W → Z * W) (k_sem_take : k_timeout_t → W → Z * W)
  (k_sem_give : W → () * W).
Abbreviation M := (eff (SemObj W) Ev).

Definition do_init_zephyr : M (ErrorHandler () SemaphoreError) :=
  s ← get;
  if ISemaphore.is_initialized s then
    fail "Semaphore::do_init" SemaphoreErrors.AlreadyInitialized "Semaphore already initialized"
  else
    result ← sem_sys (k_sem_init (ISemaphore.get_initial_count s) (ISemaphore.get_count_limit s));
    if decide (result ≠ 0) then
      fail "Semaphore::do_init" (errno_to_semaphore_error (- result)) "k_sem_init failed"
    else
      modify (ISemaphore.set_initialized true);;
      ok.

Definition do_take_zephyr (ticks : k_timeout_t) : M (ErrorHandler () SemaphoreError) :=
  result ← sem_sys (k_sem_take ticks);
  if decide (result = 0) then ok
  else fail "Semaphore::do_take" (errno_to_semaphore_error (- result)) "k_sem_take failed".

Definition do_give_zephyr : M () := sem_sys k_sem_give.

#[export] Instance Semaphore : SemaphoreImplementation W k_timeout_t Ev := {
  sem_do_init := do_init_zephyr; do_take := do_take_zephyr; do_give := do_give_zephyr;
}.
End Backend.
End ZephyrSemaphore.

(** ** What the semaphore promises *)

Lemma sem_sys_run {W Ev A} (f : W → A * W) (s : SemObj W) :
  sem_sys (Ev := Ev) f s =
    Done ((f (sem s)).1,
      mkSem (sem_name s) (init_count s) (count_limit s) (sem_initialized_ s) (f (sem s)).2, []).
Proof. unfold sem_sys, zoom. by rewrite call_run. Qed.

Inductive sem_op (Duration : Type) := Take (timeout : Duration) | Give.
Arguments Take {Duration} _.
Arguments Give {Duration}.

Section Promises.
Context {W Duration Ev : Type} `{SemaphoreImplementation W Duration Ev} `{LogEvent Ev}
  `{SourceLocation}.

(** The contract of a backend: [count] is the number of takes that would not
    have to wait. *)
Class SemLaws := {
  count : W → Z;
  init_law : ∀ s r s' t, sem_initialized_ s = false → sem_do_init s = Done (r, s', t) →
    sem_initialized_ s' = has_value r ∧ (has_value r = true → count (sem s') = init_count s);
  take_law : ∀ timeout s r s' t, sem_initialized_ s = true → do_take timeout s = Done (r, s', t) →
    sem_initialized_ s' = true ∧
    (if has_value r then 0 < count (sem s) ∧ count (sem s') = count (sem s) - 1
     else count (sem s') = count (sem s));
  give_law : ∀ s s' t, sem_initialized_ s = true → do_give s = Done ((), s', t) →
    sem_initialized_ s' = true ∧ count (sem s) ≤ count (sem s') ≤ count (sem s) + 1;
}.

(** One interleaving of the operations of the threads that share the
    semaphore; the answer lists which takes succeeded. *)
Fixpoint run_sem_ops (ops : list (sem_op Duration)) : eff (SemObj W) Ev (list bool) :=
  match ops with
  | [] => mret []
  | Take timeout :: ops' =>
      r ← ISemaphore.take timeout;
      rs ← run_sem_ops ops';
      mret (has_value r :: rs)
  | Give :: ops' => ISemaphore.give;; run_sem_ops ops'
  end.

Definition init_and_run (ops : list (sem_op Duration)) : eff (SemObj W) Ev (bool * list bool) :=
  r ← ISemaphore.init;
  rs ← run_sem_ops ops;
  mret (has_value r, rs).

Definition successes (rs : list bool) : Z := Z.of_nat (count_ev id rs).
Definition gives (ops : list (sem_op Duration)) : Z :=
  Z.of_nat (count_ev (λ o, match o with Give => true | Take _ => false end) ops).

Lemma successes_cons b rs : successes (b :: rs) = (if b : bool then 1 else 0) + successes rs.
Proof. unfold successes, count_ev. rewrite filter_cons. case_decide as E; destruct b; cbn in *; done || lia. Qed.

Lemma gives_cons o ops :
  gives (o :: ops) = (match o with Give => 1 | Take _ => 0 end) + gives ops.
Proof. unfold gives, count_ev. rewrite filter_cons. case_decide as E; destruct o; cbn in *; done || lia. Qed.

Lemma take_refused d s r s' t :
  sem_initialized_ s = false → ISemaphore.take d s = Done (r, s', t) →
  s' = s ∧ has_value r = false.
Proof.
  intros Hi Hr. unfold ISemaphore.take in Hr. eff_inv. rewrite Hi in *. cbn [negb] in *.
  by match goal with H : fail _ _ _ _ = _ |- _ => apply fail_Done in H as [-> ->] end.
Qed.

Lemma give_refused s u s' t :
  sem_initialized_ s = false → ISemaphore.give s = Done (u, s', t) → s' = s.
Proof.
  intros Hi Hr. unfold ISemaphore.give in Hr. eff_inv. rewrite Hi in *. cbn [negb] in *. by eff_inv.
Qed.

Lemma run_uninitialised ops s rs s' t :
  sem_initialized_ s = false → run_sem_ops ops s = Done (rs, s', t) → successes rs = 0.
Proof.
  intros Hi. revert rs t.
  induction ops as [|[d|] ops IH]; cbn [run_sem_ops]; intros rs t Hr; eff_inv.
  - done.
  - match goal with H : ISemaphore.take _ _ = _ |- _ => apply take_refused in H as [-> E]; [|done] end.
    rewrite successes_cons, E. erewrite IH by eassumption. done.
  - match goal with H : ISemaphore.give _ = _ |- _ => apply give_refused in H as ->; [|done] end.
    by eapply IH.
Qed.

Context `{!SemLaws}.

Lemma take_counts d s r s' t :
  sem_initialized_ s = true → ISemaphore.take d s = Done (r, s', t) →
  sem_initialized_ s' = true ∧
  (if has_value r then 0 < count (sem s) ∧ count (sem s') = count (sem s) - 1
   else count (sem s') = count (sem s)).
Proof.
  intros Hi Hr. unfold ISemaphore.take in Hr. eff_inv. rewrite Hi in *. cbn [negb] in *.
  by eapply take_law.
Qed.

Lemma give_counts s u s' t :
  sem_initialized_ s = true → ISemaphore.give s = Done (u, s', t) →
  sem_initialized_ s' = true ∧ count (sem s) ≤ count (sem s') ≤ count (sem s) + 1.
Proof.
  intros Hi Hr. destruct u. unfold ISemaphore.give in Hr. eff_inv. rewrite Hi in *.
  cbn [negb] in *. by eapply give_law.
Qed.

Lemma run_conserves ops s rs s' t :
  sem_initialized_ s = true → 0 ≤ count (sem s) → run_sem_ops ops s = Done (rs, s', t) →
  0 ≤ count (sem s') ∧ successes rs + count (sem s') ≤ count (sem s) + gives ops.
Proof.
  revert s rs t.
  induction ops as [|[d|] ops IH]; cbn [run_sem_ops]; intros s rs t Hi Hc Hr; eff_inv.
  - unfold successes, gives. cbn. lia.
  - match goal with H : ISemaphore.take _ _ = _ |- _ => apply take_counts in H as [Hi' Hc']; [|done] end.
    match goal with H : run_sem_ops _ _ = _ |- _ =>
      apply IH in H as [? ?]; [|done|destruct (has_value _); lia] end.
    rewrite successes_cons, gives_cons. destruct (has_value _); lia.
  - match goal with H : ISemaphore.give _ = _ |- _ => apply give_counts in H as [Hi' Hc']; [|done] end.
    match goal with H : run_sem_ops _ _ = _ |- _ => apply IH in H as [? ?]; [|done|lia] end.
    rewrite gives_cons. lia.
Qed.

(** C37. Counting: on a freshly constructed semaphore of any lawful backend, in
    every interleaving that comes to an end the number of takes reported as
    successful is at most the initial count plus the number of gives. If
    [init] fails no take succeeds at all. *)
Theorem takes_bounded ops name n limit w up rs s' t :
  0 ≤ n → init_and_run ops (ISemaphore.ISemaphore name n limit w) = Done ((up, rs), s', t) →
  successes rs ≤ (if up then n + gives ops else 0).
Proof.
  intros Hn Hr. unfold init_and_run, ISemaphore.init in Hr. eff_inv.
  cbn [sem_initialized_ ISemaphore.ISemaphore negb] in *. eff_inv.
  match goal with H : sem_do_init _ = Done (?r, ?s, _) |- _ =>
    apply init_law in H as [Hi Hc]; [|done]; rename r into r0, s into s0 end.
  unfold operator_bool in *. destruct (has_value r0) eqn:Er; eff_inv.
  - match goal with H : run_sem_ops _ _ = _ |- _ => rename H into Hrun end.
    specialize (Hc eq_refl). cbn in Hc. apply run_conserves in Hrun as [? ?];
      [|done|unfold ISemaphore.set_initialized; cbn; lia].
    unfold ISemaphore.set_initialized in *. cbn in *. lia.
  - match goal with H : run_sem_ops _ _ = _ |- _ => rename H into Hrun end.
    apply run_uninitialised in Hrun; [|done]. lia.
Qed.
End Promises.
Arguments SemLaws W Duration Ev {_}.

(** ** The backends keep the contract *)

(** POSIX semaphores as documented: a successful wait finds a positive value
    and lowers it, a failed call leaves it alone, and [sem_post] succeeds
    exactly below [SEM_VALUE_MAX]. *)
Record posix_sem_laws {W timespec} (os : PosixSemaphore.PosixSem W timespec) (value : W → Z)
    (SEM_VALUE_MAX : Z) : Prop := {
  law_sem_init : ∀ n w, let r := PosixSemaphore.sem_init os 0 n w in
    (r.1 = 0 ↔ n ≤ SEM_VALUE_MAX) ∧ (r.1 = 0 → value r.2 = n);
  law_sem_wait : ∀ ts w, let r := match ts with
                                  | None => PosixSemaphore.sem_wait os w
                                  | Some t => PosixSemaphore.sem_timedwait os t w
                                  end in
    if decide (r.1 = 0) then 0 < value w ∧ value r.2 = value w - 1 else value r.2 = value w;
  law_sem_post : ∀ w, let r := PosixSemaphore.sem_post os w in
    (r.1 = 0 ↔ value w < SEM_VALUE_MAX) ∧ (r.1 = 0 → value r.2 = value w + 1);
}.

Section Posix.
Context `{Errno} `{SourceLocation} {Ev : Type} `{LogEvent Ev} {W timespec : Type}.
Context (os : PosixSemaphore.PosixSem W timespec) (value : W → Z) (SEM_VALUE_MAX : Z).
Context (Hos : posix_sem_laws os value SEM_VALUE_MAX).
#[local] Existing Instance PosixSemaphore.Semaphore.
#[local] Instance impl : SemaphoreImplementation W (option timespec) Ev :=
  PosixSemaphore.Semaphore os.

Lemma posix_init_law s r s' t :
  sem_initialized_ s = false → sem_do_init s = Done (r, s', t) →
  sem_initialized_ s' = has_value r ∧ (has_value r = true → value (sem s') = init_count s).
Proof.
  intros Hi. cbn [sem_do_init impl PosixSemaphore.Semaphore].
  unfold PosixSemaphore.do_init_posix, PosixSemaphore.create, ISemaphore.is_initialized.
  rewrite bind_run. cbn [get]. rewrite Hi. rewrite !bind_run. cbn [get]. rewrite bind_run, sem_sys_run.
  pose proof (law_sem_init _ _ _ Hos (init_count s) (sem s)) as [_ Hv].
  unfold ISemaphore.get_initial_count. case_decide as E.
  - intros Hr. cbn in Hr. injection Hr as <- <- _. cbn. auto.
  - intros Hr. cbn in Hr. injection Hr as <- <- _. cbn. by rewrite Hi.
Qed.

Lemma posix_take_law timeout s r s' t :
  sem_initialized_ s = true → do_take timeout s = Done (r, s', t) →
  sem_initialized_ s' = true ∧
  (if has_value r then 0 < value (sem s) ∧ value (sem s') = value (sem s) - 1
   else value (sem s') = value (sem s)).
Proof.
  intros Hi. cbn [do_take impl PosixSemaphore.Semaphore]. unfold PosixSemaphore.do_take_posix.
  rewrite bind_run, sem_sys_run. pose proof (law_sem_wait _ _ _ Hos timeout (sem s)) as Hv.
  destruct timeout as [ts|]; cbv zeta in Hv;
    (case_decide as E; intros Hr; cbn in Hr; injection Hr as <- <- _; cbn; auto).
Qed.

Lemma posix_give_run s :
  do_give s = if decide (value (sem s) < SEM_VALUE_MAX)
              then Done ((), mkSem (sem_name s) (init_count s) (count_limit s) (sem_initialized_ s)
                               (PosixSemaphore.sem_post os (sem s)).2, [])
              else Stop Terminated.
Proof.
  cbn [do_give impl PosixSemaphore.Semaphore]. unfold PosixSemaphore.do_give_posix.
  rewrite bind_run, sem_sys_run. pose proof (law_sem_post _ _ _ Hos (sem s)) as [Hp _].
  cbn in *. destruct (decide (value (sem s) < SEM_VALUE_MAX)) as [Hl|Hl].
  - rewrite decide_False by tauto. done.
  - by rewrite decide_True by tauto.
Qed.

Lemma posix_give_law s s' t :
  sem_initialized_ s = true → do_give s = Done ((), s', t) →
  sem_initialized_ s' = true ∧ value (sem s) ≤ value (sem s') ≤ value (sem s) + 1.
Proof.
  rewrite posix_give_run. intros Hi. case_decide as E; [|done]. intros [= <- _]. cbn.
  split; [done|]. pose proof (law_sem_post _ _ _ Hos (sem s)) as [Hp Hv].
  rewrite Hv by tauto. lia.
Qed.

Definition posix_semaphore_laws : SemLaws W (option timespec) Ev :=
  {| count := value; init_law := posix_init_law; take_law := posix_take_law;
     give_law := posix_give_law |}.

Fixpoint give_times (k : nat) : eff (SemObj W) Ev () :=
  match k with O => mret () | S k' => ISemaphore.give;; give_times k' end.

Lemma give_times_run k s :
  sem_initialized_ s = true →
  if decide (k = O ∨ value (sem s) + Z.of_nat k ≤ SEM_VALUE_MAX)
  then ∃ s', give_times k s = Done ((), s', []) ∧ value (sem s') = value (sem s) + Z.of_nat k
  else give_times k s = Stop Terminated.
Proof.
  revert s. induction k as [|k IH]; intros s Hi.
  - rewrite decide_True by auto. exists s. split; [done|lia].
  - cbn [give_times]. unfold ISemaphore.give. rewrite !bind_run. cbn [get]. rewrite Hi.
    cbn [negb]. rewrite posix_give_run. destruct (decide (value (sem s) < SEM_VALUE_MAX)) as [Hl|Hl].
    + pose proof (law_sem_post _ _ _ Hos (sem s)) as [Hp Hv]. specialize (Hv (proj2 Hp Hl)).
      set (s1 := mkSem _ _ _ _ _). specialize (IH s1 Hi).
      change (sem s1) with (PosixSemaphore.sem_post os (sem s)).2 in IH. rewrite Hv in IH.
      destruct (decide (k = 0%nat ∨ value (sem s) + 1 + Z.of_nat k ≤ SEM_VALUE_MAX)) as [Hk|Hk].
      * rewrite decide_True by (right; destruct Hk as [->|]; lia).
        destruct IH as (s' & -> & Ev'). exists s'. split; [done|lia].
      * rewrite decide_False by (intros [|]; [done|apply Hk; right; lia]). by rewrite IH.
    + rewrite decide_False by (intros [|]; lia). done.
Qed.

Lemma posix_init_run name n limit w :
  n ≤ SEM_VALUE_MAX →
  ISemaphore.init (ISemaphore.ISemaphore name n limit w) =
    Done (is_ok, mkSem (Names.name_buffer name) n limit true
                   (PosixSemaphore.sem_init os 0 n w).2, []).
Proof.
  intros Hn. pose proof (law_sem_init _ _ _ Hos n w) as [Hs _].
  unfold ISemaphore.init. rewrite bind_run. cbn [get ISemaphore.ISemaphore sem_initialized_ negb].
  rewrite bind_run. cbn [sem_do_init impl PosixSemaphore.Semaphore].
  assert (PosixSemaphore.do_init_posix os (ISemaphore.ISemaphore name n limit w) =
    Done (is_ok, mkSem (Names.name_buffer name) n limit true
                   (PosixSemaphore.sem_init os 0 n w).2, [])) as ->; [|done].
  unfold PosixSemaphore.do_init_posix, PosixSemaphore.create.
  unfold mbind, eff_bind. cbn [get ISemaphore.is_initialized sem_initialized_ ISemaphore.ISemaphore].
  rewrite sem_sys_run. cbn [sem init_count ISemaphore.get_initial_count].
  by rewrite (decide_True (P := (PosixSemaphore.sem_init os 0 n w).1 = 0)) by tauto.
Qed.

(** The POSIX semaphore ignores the [max_limit] it was constructed with:
    after [init] and [k] gives the value is [n + k] whatever the limit, and
    the process is terminated when that would pass [SEM_VALUE_MAX]. *)
Theorem posix_limit_ignored name n limit w k :
  n ≤ SEM_VALUE_MAX → (0 < k)%nat →
  let r := (ISemaphore.init;; give_times k) (ISemaphore.ISemaphore name n limit w) in
  if decide (n + Z.of_nat k ≤ SEM_VALUE_MAX)
  then ∃ s', r = Done ((), s', []) ∧ value (sem s') = n + Z.of_nat k
  else r = Stop Terminated.
Proof.
  intros Hn Hk r. subst r. rewrite bind_run, posix_init_run by done.
  pose proof (law_sem_init _ _ _ Hos n w) as [Hs Hv].
  set (s1 := mkSem _ _ _ _ _). pose proof (give_times_run k s1 eq_refl) as Hg.
  change (sem s1) with (PosixSemaphore.sem_init os 0 n w).2 in Hg. rewrite Hv in Hg by tauto.
  destruct (decide (n + Z.of_nat k ≤ SEM_VALUE_MAX)) as [Hl|Hl].
  - rewrite decide_True in Hg by auto. destruct Hg as (s' & -> & E). by exists s'.
  - rewrite decide_False in Hg by (intros [|]; lia). by rewrite Hg.
Qed.
End Posix.

(** ** A concrete semaphore: the value, the last [errno], and a wait that is
    interrupted when it would block *)
#[local] Instance toy_location : SourceLocation := λ s, s.

Definition toy_sem : PosixSemaphore.PosixSem (Z * Z) () :=
  let wait w := if decide (0 < w.1) then (0, (w.1 - 1, w.2)) else (-1, (w.1, 4)) in
  PosixSemaphore.mkPosixSem (Z * Z) () snd
    (λ _ n w, if decide (n ≤ 10) then (0, (n, w.2)) else (-1, (w.1, 22)))
    (λ w, (0, w)) wait (λ _, wait)
    (λ w, if decide (w.1 < 10) then (0, (w.1 + 1, w.2)) else (-1, (w.1, 75))).

Lemma toy_sem_laws : posix_sem_laws toy_sem fst 10.
Proof.
  split.
  - intros n w. cbn. case_decide; cbn; intuition lia.
  - intros ts [v e]. replace (match ts with Some _ => _ | None => _ end) with
      (if decide (0 < v) then (0, (v - 1, e)) else (-1, (v, 4))) by (by destruct ts as [[]|]).
    by case_decide.
  - intros w. cbn. case_decide; cbn; intuition lia.
Qed.

Lemma takes_bounded_witness :
  successes [true; false; true] ≤ 1 + gives (Duration := option ()) [Take None; Take None; Give; Take None].
Proof.
  refine (@takes_bounded _ _ _ (@PosixSemaphore.Semaphore linux_errno _ LogCall _ _ _ toy_sem) _ _
    (@posix_semaphore_laws linux_errno _ LogCall _ _ _ toy_sem fst 10 toy_sem_laws)
    [Take None; Take None; Give; Take None] "pool" 1 1 (0, 0) true [true; false; true]
    (mkSem (Names.name_buffer "pool") 1 1 true (0, 4)) _ _ _).
  - lia.
  - vm_compute. reflexivity.
Defined.

Lemma posix_limit_ignored_witness :
  ∃ s', (@ISemaphore.init _ _ _ (@PosixSemaphore.Semaphore linux_errno _ LogCall _ _ _ toy_sem) _ _;;
         @give_times linux_errno _ LogCall _ _ _ toy_sem 3)
        (ISemaphore.ISemaphore "binary" 0 1 (0, 0)) = Done ((), s', []) ∧ (sem s').1 = 3.
Proof.
  apply (@posix_limit_ignored linux_errno _ LogCall _ _ _ toy_sem fst 10 toy_sem_laws "binary" 0 1
    (0, 0) 3); lia.
Defined.
