(* ===== verification/MsgQueue.v ===== *)
(** * Message queues (platform/common/imessage_queue; the POSIX and Zephyr
    backends)

    Messages are trivially copyable, and both backends hand the operating
    system the object representation, so a message is its list of bytes. The
    interface is a type class, with the two [init] shapes of the concepts
    [QueueInitWithBuffer] and [QueueInitWithoutBuffer]; the contract proved of
    both backends is first in, first out. *)

From stdpp Require Import prelude list strings.
From Stdlib Require Import ZArith Lia Ascii.
From S2P Require Import Prelude Logger ErrorHandler ErrorCodes Sync.

(** ** The interface *)

Class QueueInitWithBuffer (St BufferType Ev : Type) :=
  init_impl_buffer : BufferType → Z → eff St Ev (ErrorHandler () MessageQueueError).

Class QueueInitWithoutBuffer (St Ev : Type) :=
  init_impl : Z → eff St Ev (ErrorHandler () MessageQueueError).

(** [receive_impl] takes the bytes the caller's object holds and answers with
    those it holds afterwards. *)
Class MessageQueueImplementation (St DurationType Ev : Type) := {
  send_impl : bytes → DurationType → eff St Ev (ErrorHandler () MessageQueueError);
  receive_impl : bytes → DurationType → eff St Ev (ErrorHandler () MessageQueueError * bytes);
  get_free_space_impl : eff St Ev Z;
}.

Module IMessageQueue.
Section Base.
Context {St Ev : Type} `{LogEvent Ev} `{SourceLocation}.

Definition init_with_buffer {BufferType} `{QueueInitWithBuffer St BufferType Ev}
    (buffer : BufferType) (capacity : Z) : eff St Ev (ErrorHandler () MessageQueueError) :=
  if decide (capacity = 0) then
    fail "IMessageQueue::init" MessageQueueErrors.InvalidParameter "Capacity cannot be zero"
  else init_impl_buffer buffer capacity.

Definition init `{QueueInitWithoutBuffer St Ev} (capacity : Z)
    : eff St Ev (ErrorHandler () MessageQueueError) :=
  if decide (capacity = 0) then
    fail "IMessageQueue::init" MessageQueueErrors.InvalidParameter "Capacity cannot be zero"
  else init_impl capacity.

Context {DurationType : Type} `{MessageQueueImplementation St DurationType Ev}.

Definition send (message : bytes) (timeout : DurationType)
    : eff St Ev (ErrorHandler () MessageQueueError) := send_impl message timeout.

Definition receive (message : bytes) (timeout : DurationType)
    : eff St Ev (ErrorHandler () MessageQueueError * bytes) := receive_impl message timeout.

Definition get_free_space : eff St Ev Z := get_free_space_impl.
End Base.
End IMessageQueue.

(** Copying [n] received bytes over the start of an object. *)
Definition overwrite (data message : bytes) : bytes := data ++ drop (length data) message.

(** ** POSIX *)

Record timespec := mkTimespec { tv_sec : Z; tv_nsec : Z }.

(** [std::numeric_limits<time_t>::max()], 64-bit [time_t] and [long]. *)
Definition time_max : Z := 2 ^ 63 - 1.

(** Signed 64-bit arithmetic: an overflow is undefined. *)
Definition chk64 (z : Z) : outcome Z :=
  if decide (- 2 ^ 63 ≤ z ≤ time_max) then Done z else Stop Undefined.

Module PosixMessageQueue.

Definition infinite_timeout : Z := 2 ^ 32 - 1.

(** [ms_to_timespec], given what [clock_gettime] left in [ts]. *)
Definition ms_to_timespec (ts : timespec) (timeout_ms : Z) : outcome timespec :=
  let max_sec := time_max in
  let now_sec := tv_sec ts in
  let add_sec := timeout_ms / 1000 in
  let add_nsec := u32 (timeout_ms mod 1000 * 1000000) in
  left ← chk64 (max_sec - now_sec);
  if decide (left ≤ 0) then Done (mkTimespec max_sec 999999999)
  else
    let safe_sec := if decide (left < add_sec) then left else add_sec in
    sec ← chk64 (tv_sec ts + safe_sec);
    nsec ← chk64 (tv_nsec ts + add_nsec);
    if decide (1000000000 ≤ nsec) then
      if decide (sec < max_sec) then
        sec' ← chk64 (sec + 1);
        nsec' ← chk64 (nsec - 1000000000);
        Done (mkTimespec sec' nsec')
      else Done (mkTimespec sec 999999999)
    else Done (mkTimespec sec nsec).

(** The object: the base's name, the descriptor, and the OS state. *)
Record MessageQueue (W : Type) := mkQueue {
  queue_name : list ascii;
  mqd_ : Z;
  world : W;
}.
Arguments mkQueue {W} _ _ _.
Arguments queue_name {W} _.
Arguments mqd_ {W} _.
Arguments world {W} _.

(** [mqueue.h], [clock_gettime] (what it leaves in the zeroed [timespec]) and
    [errno]. [mq_open] gets the name, [mq_maxmsg] and [mq_msgsize] - flags
    [O_CREAT | O_RDWR], mode 0644 - and messages have priority 0. [mq_receive] answers with the number of bytes, and the bytes. *)
Record Mqueue (W : Type) := mkMqueue {
  errno : W → Z;
  clock_gettime : W → timespec * W;
  mq_open : list ascii → Z → Z → W → Z * W;
  mq_close : Z → W → Z * W;
  mq_unlink : list ascii → W → Z * W;
  mq_send : Z → bytes → W → Z * W;
  mq_timedsend : Z → bytes → timespec → W → Z * W;
  mq_receive : Z → nat → W → Z * bytes * W;
  mq_timedreceive : Z → nat → timespec → W → Z * bytes * W;
  mq_getattr : Z → W → Z * (Z * Z) * W;
}.
Arguments errno {W} _ _.
Arguments clock_gettime {W} _ _.
Arguments mq_open {W} _ _ _ _ _.
Arguments mq_close {W} _ _ _.
Arguments mq_unlink {W} _ _ _.
Arguments mq_send {W} _ _ _ _.
Arguments mq_timedsend {W} _ _ _ _ _.
Arguments mq_receive {W} _ _ _ _.
Arguments mq_timedreceive {W} _ _ _ _ _.
Arguments mq_getattr {W} _ _ _.

Section Backend.
Context `{Errno} `{SourceLocation} {Ev : Type} `{LogEvent Ev}.

Definition errno_to_error (err : Z) : MessageQueueError :=
  if decide (err = EINVAL ∨ err = EBADF) then MessageQueueErrors.InvalidParameter
  else if decide (err = ENOMEM) then MessageQueueErrors.InsufficientMemory
  else if decide (err = ENOSPC ∨ err = EMFILE ∨ err = ENFILE) then
    MessageQueueErrors.ResourceLimitExceeded
  else if decide (err = ETIMEDOUT) then MessageQueueErrors.Timeout
  else if decide (err = EINTR) then MessageQueueErrors.Interrupted
  else if decide (err = EAGAIN) then MessageQueueErrors.QueueFull
  else if decide (err = EACCES) then MessageQueueErrors.PermissionDenied
  else if decide (err = EEXIST) then MessageQueueErrors.AlreadyExists
  else MessageQueueErrors.Unknown.

(** [sizeof_T] is [sizeof(T)]. *)
Context {W : Type} (os : Mqueue W) (sizeof_T : nat).
Abbreviation M := (eff (MessageQueue W) Ev).

Definition MessageQueue_ctor (name : string) (w : W) : MessageQueue W :=
  mkQueue (Names.name_buffer name) (-1) w.
Definition MessageQueue_literal (name : string) (w : W) : option (MessageQueue W) :=
  buf ← Names.literal_buffer name; Some (mkQueue buf (-1) w).
Definition get_name (q : MessageQueue W) : list ascii := queue_name q.

Definition set_mqd (fd : Z) (q : MessageQueue W) : MessageQueue W :=
  mkQueue (queue_name q) fd (world q).

Definition sys {A} (f : W → A * W) : M A :=
  zoom world (λ w q, mkQueue (queue_name q) (mqd_ q) w) id (call f).

Definition os_error {A} (fn msg : string) (a : ErrorHandler () MessageQueueError → A) : M A :=
  q ← get;
  r ← fail fn (errno_to_error (errno os (world q))) msg;
  mret (a r).

(** [queue_name[0]]. *)
Definition first_char (q : MessageQueue W) : ascii := default Ascii.zero (head (get_name q)).

Definition init_impl_posix (capacity : Z) : M (ErrorHandler () MessageQueueError) :=
  q ← get;
  if Ascii.eqb (first_char q) Ascii.zero then
    fail "MessageQueue::init_impl" MessageQueueErrors.InvalidParameter "Queue name is empty"
  else if negb (Ascii.eqb (first_char q) "/") then
    fail "MessageQueue::init_impl" MessageQueueErrors.InvalidParameter
      "Queue name must start with '/'"
  else
    fd ← sys (mq_open os (get_name q) capacity (Z.of_nat sizeof_T));
    modify (set_mqd fd);;
    if decide (fd = -1) then os_error "MessageQueue::init_impl" "mq_open failed" id
    else ok.

(** The deadline for a bounded wait, [None] for an unbounded one. *)
Definition deadline (timeout_ms : Z) : M (option timespec) :=
  if decide (timeout_ms = 0 ∨ timeout_ms = infinite_timeout) then mret None
  else
    now ← sys (clock_gettime os);
    ts ← liftO (ms_to_timespec now timeout_ms);
    mret (Some ts).

Definition send_impl_posix (msg : bytes) (timeout_ms : Z) : M (ErrorHandler () MessageQueueError) :=
  q ← get;
  if decide (mqd_ q = -1) then
    fail "MessageQueue::send_impl" MessageQueueErrors.InvalidQueue "Queue not initialized"
  else
    ts ← deadline timeout_ms;
    result ← sys (match ts with
                  | None => mq_send os (mqd_ q) msg
                  | Some ts => mq_timedsend os (mqd_ q) msg ts
                  end);
    if decide (result ≠ 0) then os_error "MessageQueue::send_impl" "mq_send/mq_timedsend failed" id
    else ok.

Definition receive_impl_posix (msg : bytes) (timeout_ms : Z)
    : M (ErrorHandler () MessageQueueError * bytes) :=
  q ← get;
  if decide (mqd_ q = -1) then
    r ← fail "MessageQueue::receive_impl" MessageQueueErrors.InvalidQueue "Queue not initialized";
    mret (r, msg)
  else
    ts ← deadline timeout_ms;
    answer ← sys (match ts with
                  | None => mq_receive os (mqd_ q) sizeof_T
                  | Some ts => mq_timedreceive os (mqd_ q) sizeof_T ts
                  end);
    if decide (answer.1 < 0) then
      os_error "MessageQueue::receive_impl" "mq_receive/mq_timedreceive failed" (λ r, (r, msg))
    else
      r ← ok;
      mret (r, overwrite answer.2 msg).

Definition get_free_space_posix : M Z :=
  q ← get;
  if decide (mqd_ q = -1) then mret 0
  else
    answer ← sys (mq_getattr os (mqd_ q));
    let '(rc, (mq_maxmsg, mq_curmsgs)) := answer in
    if decide (rc = 0) then
      d ← liftO (chk64 (mq_maxmsg - mq_curmsgs));
      mret (d mod 2 ^ 64)
    else mret 0.

Definition MessageQueue_dtor : M () :=
  q ← get;
  if decide (mqd_ q ≠ -1) then
    sys (mq_close os (mqd_ q));;
    (if negb (Ascii.eqb (first_char q) Ascii.zero)
     then sys (mq_unlink os (get_name q));; mret ()
     else mret ())
  else mret ().

#[export] Instance queue_init : QueueInitWithoutBuffer (MessageQueue W) Ev := init_impl_posix.
#[export] Instance queue : MessageQueueImplementation (MessageQueue W) Z Ev := {
  send_impl := send_impl_posix;
  receive_impl := receive_impl_posix;
  get_free_space_impl := get_free_space_posix;
}.
End Backend.
End PosixMessageQueue.

(** ** Zephyr *)

Module ZephyrMessageQueue.

Record MessageQueue (W : Type) := mkQueue {
  queue_name : list ascii;
  initialized_ : bool;
  queue_ : W;
}.
Arguments mkQueue {W} _ _ _.
Arguments queue_name {W} _.
Arguments initialized_ {W} _.
Arguments queue_ {W} _.

(** Zephyr's kernel queue, whose state includes the caller's buffer. *)
Record Msgq (W BufferType k_timeout_t : Type) := mkMsgq {
  k_msgq_init : BufferType → Z → Z → W → () * W;
  k_msgq_put : bytes → k_timeout_t → W → Z * W;
  k_msgq_get : k_timeout_t → W → Z * bytes * W;
  k_msgq_num_free_get : W → Z * W;
}.
Arguments k_msgq_init {W BufferType k_timeout_t} _ _ _ _ _.
Arguments k_msgq_put {W BufferType k_timeout_t} _ _ _ _.
Arguments k_msgq_get {W BufferType k_timeout_t} _ _ _.
Arguments k_msgq_num_free_get {W BufferType k_timeout_t} _ _.

Section Backend.
Context `{Errno} `{SourceLocation} {Ev : Type} `{LogEvent Ev}.

Definition k_error_to_error (error : Z) : MessageQueueError :=
  if decide (error = - EINVAL) then MessageQueueErrors.InvalidParameter
  else if decide (error = - EALREADY) then MessageQueueErrors.AlreadyInitialized
  else if decide (error = - EAGAIN ∨ error = - EBUSY ∨ error = - ETIMEDOUT) then
    MessageQueueErrors.Timeout
  else if decide (error = - ENOMEM) then MessageQueueErrors.InsufficientMemory
  else MessageQueueErrors.Unknown.

Context {W BufferType k_timeout_t : Type} (k : Msgq W BufferType k_timeout_t) (sizeof_T : nat).
Abbreviation M := (eff (MessageQueue W) Ev).

Definition MessageQueue_ctor (name : string) (w : W) : MessageQueue W :=
  mkQueue (Names.name_buffer name) false w.

Definition sys {A} (f : W → A * W) : M A :=
  zoom queue_ (λ w q, mkQueue (queue_name q) (initialized_ q) w) id (call f).

Definition init_impl_zephyr (buffer : BufferType) (capacity : Z)
    : M (ErrorHandler () MessageQueueError) :=
  if decide (capacity = 0) then
    fail "MessageQueue::init_impl" MessageQueueErrors.InvalidParameter "Invalid capacity"
  else
    q ← get;
    if initialized_ q then
      fail "MessageQueue::init_impl" MessageQueueErrors.AlreadyInitialized
        "Queue already initialized"
    else
      sys (k_msgq_init k buffer (Z.of_nat sizeof_T) capacity);;
      modify (λ q, mkQueue (queue_name q) true (queue_ q));;
      ok.

Definition send_impl_zephyr (msg : bytes) (timeout : k_timeout_t)
    : M (ErrorHandler () MessageQueueError) :=
  q ← get;
  if negb (initialized_ q) then
    fail "MessageQueue::send_impl" MessageQueueErrors.InvalidQueue "Queue not initialized"
  else
    result ← sys (k_msgq_put k msg timeout);
    if decide (result = 0) then ok
    else if decide (result = - EAGAIN ∨ result = - EBUSY) then
      fail "MessageQueue::send_impl" MessageQueueErrors.QueueFull "k_msgq_put queue full or timeout"
    else fail "MessageQueue::send_impl" (k_error_to_error result) "k_msgq_put failed".

Definition receive_impl_zephyr (msg : bytes) (timeout : k_timeout_t)
    : M (ErrorHandler () MessageQueueError * bytes) :=
  q ← get;
  if negb (initialized_ q) then
    r ← fail "MessageQueue::receive_impl" MessageQueueErrors.InvalidQueue "Queue not initialized";
    mret (r, msg)
  else
    answer ← sys (k_msgq_get k timeout);
    if decide (answer.1 = 0) then
      r ← ok;
      mret (r, overwrite answer.2 msg)
    else if decide (answer.1 = - EAGAIN ∨ answer.1 = - EBUSY) then
      r ← fail "MessageQueue::receive_impl" MessageQueueErrors.QueueEmpty
            "k_msgq_get queue empty or timeout";
      mret (r, msg)
    else
      r ← fail "MessageQueue::receive_impl" (k_error_to_error answer.1) "k_msgq_get failed";
      mret (r, msg).

Definition get_free_space_zephyr : M Z :=
  q ← get;
  if negb (initialized_ q) then mret 0 else sys (k_msgq_num_free_get k).

#[export] Instance queue_init : QueueInitWithBuffer (MessageQueue W) BufferType Ev :=
  init_impl_zephyr.
#[export] Instance queue : MessageQueueImplementation (MessageQueue W) k_timeout_t Ev := {
  send_impl := send_impl_zephyr;
  receive_impl := receive_impl_zephyr;
  get_free_space_impl := get_free_space_zephyr;
}.
End Backend.
End ZephyrMessageQueue.

(** ** Deadlines *)

Definition nanoseconds (ts : timespec) : Z := tv_sec ts * 1000000000 + tv_nsec ts.
Definition normalised (ts : timespec) : Prop :=
  0 ≤ tv_sec ts ≤ time_max ∧ 0 ≤ tv_nsec ts < 1000000000.

Lemma chk64_in z : - 2 ^ 63 ≤ z ≤ time_max → chk64 z = Done z.
Proof. intros Hz. unfold chk64. by rewrite decide_True. Qed.

Lemma ms_to_timespec_run now timeout_ms :
  normalised now → is_u32 timeout_ms →
  ∃ ts, PosixMessageQueue.ms_to_timespec now timeout_ms = Done ts ∧ normalised ts ∧
    nanoseconds now ≤ nanoseconds ts ∧
    (if decide (tv_sec now = time_max) then ts = mkTimespec time_max 999999999
     else if decide (nanoseconds now + timeout_ms * 1000000 < (time_max + 1) * 1000000000)
     then nanoseconds ts = nanoseconds now + timeout_ms * 1000000
     else tv_sec ts = time_max).
Proof.
  intros [Hs Hn] Ht. destruct now as [sec nsec]. unfold nanoseconds, normalised in *. cbn in *.
  unfold is_u32 in Ht. pose proof (Z.div_mod timeout_ms 1000 ltac:(lia)) as Hdm.
  pose proof (Z.mod_pos_bound timeout_ms 1000 ltac:(lia)) as Hm.
  assert (0 ≤ timeout_ms / 1000) by (apply Z.div_pos; lia).
  unfold PosixMessageQueue.ms_to_timespec. cbn [tv_sec tv_nsec].
  rewrite u32_small by (unfold is_u32; lia).
  set (q := timeout_ms / 1000) in *. set (r := timeout_ms mod 1000) in *. clearbody q r.
  unfold time_max in *. rewrite (chk64_in (_ - sec)) by (unfold time_max; lia). cbn [mbind outcome_bind].
  destruct (decide (2 ^ 63 - 1 - sec ≤ 0)) as [Hz|Hz].
  { eexists. split; [reflexivity|]. cbn. split; [lia|]. split; [lia|]. by rewrite decide_True by lia. }
  destruct (decide (2 ^ 63 - 1 - sec < q)) as [Hq|Hq];
    (rewrite (chk64_in (sec + _)) by (unfold time_max; lia); cbn [mbind outcome_bind];
     rewrite (chk64_in (nsec + _)) by (unfold time_max; lia); cbn [mbind outcome_bind];
     destruct (decide (1000000000 ≤ nsec + r * 1000000)) as [Hc|Hc]).
  - rewrite (decide_False (P := sec + _ < _)) by lia.
    eexists. split; [reflexivity|]. cbn. split; [lia|]. split; [lia|]. rewrite (decide_False (P := sec = _)), decide_False by lia. lia.
  - eexists. split; [reflexivity|]. cbn. split; [lia|]. split; [lia|]. rewrite (decide_False (P := sec = _)), decide_False by lia. lia.
  - destruct (decide (sec + q < 2 ^ 63 - 1)) as [Hl|Hl].
    + rewrite !chk64_in by (unfold time_max; lia). cbn [mbind outcome_bind].
      eexists. split; [reflexivity|]. cbn. split; [lia|]. split; [lia|]. rewrite (decide_False (P := sec = _)), decide_True by lia. lia.
    + eexists. split; [reflexivity|]. cbn. split; [lia|]. split; [lia|]. rewrite (decide_False (P := sec = _)), decide_False by lia. lia.
  - eexists. split; [reflexivity|]. cbn. split; [lia|]. split; [lia|]. rewrite (decide_False (P := sec = _)), decide_True by lia. lia.
Qed.

(** C38. The deadline of a bounded wait never overflows, is a valid [timespec] and
    not before the current time. In the last second the clock can express it is
    the end of that second, whatever the timeout; before, it is the current
    time plus the timeout when the clock can express that, and in the last
    second otherwise. *)
Theorem ms_to_timespec_deadline now timeout_ms :
  normalised now → is_u32 timeout_ms →
  ∃ ts, PosixMessageQueue.ms_to_timespec now timeout_ms = Done ts ∧ normalised ts ∧
    nanoseconds now ≤ nanoseconds ts ∧
    (if decide (tv_sec now = time_max) then ts = mkTimespec time_max 999999999
     else if decide (nanoseconds now + timeout_ms * 1000000 < (time_max + 1) * 1000000000)
     then nanoseconds ts = nanoseconds now + timeout_ms * 1000000
     else tv_sec ts = time_max).
Proof. apply ms_to_timespec_run. Qed.

Lemma ms_to_timespec_deadline_witness :
  ∃ ts, PosixMessageQueue.ms_to_timespec (mkTimespec 1700000000 999000000) 1500 = Done ts ∧
    normalised ts ∧ 1700000000999000000 ≤ nanoseconds ts ∧
    nanoseconds ts = 1700000000999000000 + 1500 * 1000000.
Proof.
  apply (ms_to_timespec_deadline (mkTimespec 1700000000 999000000) 1500).
  - split; vm_compute; split; discriminate || reflexivity.
  - split; vm_compute; discriminate || reflexivity.
Defined.

(** ** First in, first out *)

Lemma overwrite_same data message : length data = length message → overwrite data message = data.
Proof. intros E. unfold overwrite. rewrite drop_ge by lia. apply app_nil_r. Qed.

Inductive queue_op (DurationType : Type) := Send (m : bytes) (d : DurationType) | Receive (d : DurationType).
Arguments Send {DurationType} _ _.
Arguments Receive {DurationType} _.

Section Fifo.
Context {St DurationType Ev : Type} `{MessageQueueImplementation St DurationType Ev}.
Context (size : nat).

(** The contract: [contents] is what is in the queue, oldest first. A call that
    reports an error changes neither the queue nor the caller's object. *)
Class QueueLaws := {
  contents : St → list bytes;
  send_law : ∀ m d s r s' t, send_impl m d s = Done (r, s', t) →
    contents s' = contents s ++ (if has_value r then [m] else []);
  receive_law : ∀ m d s r m' s' t, receive_impl m d s = Done ((r, m'), s', t) →
    if has_value r then ∃ data, contents s = data :: contents s' ∧ m' = overwrite data m
    else contents s' = contents s ∧ m' = m;
}.

(** One interleaving of the senders and receivers of a queue: the messages
    accepted and the messages delivered. Receivers start from zeroed objects. *)
Fixpoint run_queue_ops (ops : list (queue_op DurationType)) : eff St Ev (list bytes * list bytes) :=
  match ops with
  | [] => mret ([], [])
  | Send m d :: ops' =>
      r ← IMessageQueue.send m d;
      rest ← run_queue_ops ops';
      mret ((if has_value r then [m] else []) ++ rest.1, rest.2)
  | Receive d :: ops' =>
      answer ← IMessageQueue.receive (replicate size 0) d;
      rest ← run_queue_ops ops';
      mret (rest.1, (if has_value answer.1 then [answer.2] else []) ++ rest.2)
  end.

Definition sized (m : bytes) : Prop := length m = size.
Definition sends_sized (o : queue_op DurationType) : Prop :=
  match o with Send m _ => sized m | Receive _ => True end.

(** Over any lawful backend the messages delivered, followed by those still
    queued, are the messages queued at first followed by those accepted. *)
Lemma laws_fifo `{!QueueLaws} ops s accepted delivered s' t :
  Forall sized (contents s) → Forall sends_sized ops →
  run_queue_ops ops s = Done ((accepted, delivered), s', t) →
  delivered ++ contents s' = contents s ++ accepted.
Proof.
  intros Hs Ho. revert s accepted delivered t Hs.
  induction Ho as [|[m d|d] ops Hm _ IH]; cbn [run_queue_ops]; intros s accepted delivered t Hs Hr.
  - eff_inv. by rewrite app_nil_r.
  - eff_inv. unfold IMessageQueue.send in *.
    match goal with H : send_impl _ _ _ = Done (?r, ?s1, _) |- _ =>
      pose proof (send_law _ _ _ _ _ _ H) as E; rename r into r1, s1 into s1 end.
    match goal with H : run_queue_ops _ _ = Done (?p, _, _) |- _ =>
      destruct p as [acc del]; apply IH in H end.
    + cbn. rewrite (app_assoc (contents s)), <- E. done.
    + rewrite E. apply Forall_app. split; [done|]. destruct (has_value r1); by repeat constructor.
  - eff_inv. unfold IMessageQueue.receive in *.
    match goal with H : receive_impl _ _ _ = Done (?p, _, _) |- _ =>
      destruct p as [r1 m1]; apply receive_law in H end.
    match goal with H : run_queue_ops _ _ = Done (?p, _, _) |- _ =>
      destruct p as [acc del]; rename H into Hrun end.
    cbn in *. destruct (has_value r1).
    + match goal with H : ∃ _, _ |- _ => destruct H as (data & E & ->) end.
      rewrite E in Hs. inversion Hs as [|?? Hd Hs']; subst.
      apply IH in Hrun; [|done]. rewrite E, overwrite_same by (by rewrite length_replicate).
      cbn. by rewrite Hrun.
    + match goal with H : _ ∧ _ |- _ => destruct H as [E ->] end.
      apply IH in Hrun; [|by rewrite E]. by rewrite E in Hrun.
Qed.
End Fifo.
Arguments QueueLaws St DurationType Ev {_}.

(** *** POSIX keeps the contract *)

(** The call that [send_impl] and [receive_impl] end in. *)
Definition os_send {W} (os : PosixMessageQueue.Mqueue W) (fd : Z) (m : bytes) (ts : option timespec)
    : W → Z * W :=
  match ts with
  | None => PosixMessageQueue.mq_send os fd m
  | Some ts => PosixMessageQueue.mq_timedsend os fd m ts
  end.
Definition os_receive {W} (os : PosixMessageQueue.Mqueue W) (fd : Z) (n : nat) (ts : option timespec)
    : W → Z * bytes * W :=
  match ts with
  | None => PosixMessageQueue.mq_receive os fd n
  | Some ts => PosixMessageQueue.mq_timedreceive os fd n ts
  end.

(** [mq_send] appends and [mq_receive] takes from the front (all messages have
    priority 0), or they fail and change nothing; the clock is a clock. *)
Record mq_laws {W} (os : PosixMessageQueue.Mqueue W) (pending : Z → W → list bytes) : Prop := {
  law_clock : ∀ fd w, pending fd (PosixMessageQueue.clock_gettime os w).2 = pending fd w;
  law_time : ∀ w, normalised (PosixMessageQueue.clock_gettime os w).1;
  law_send : ∀ fd m ts w,
    pending fd (os_send os fd m ts w).2 =
      pending fd w ++ (if decide ((os_send os fd m ts w).1 = 0) then [m] else []);
  law_receive : ∀ fd n ts w,
    if decide ((os_receive os fd n ts w).1.1 < 0)
    then pending fd (os_receive os fd n ts w).2 = pending fd w
    else pending fd w = (os_receive os fd n ts w).1.2 :: pending fd (os_receive os fd n ts w).2;
}.

(** A queue that refuses a message only when it holds [limit] of them, and a
    receiver only when it holds none: what is left when no call is interrupted
    and every wait for somebody else is in vain. *)
Record mq_obliging {W} (os : PosixMessageQueue.Mqueue W) (pending : Z → W → list bytes)
    (fd : Z) (limit : nat) : Prop := {
  obliging_send : ∀ m ts w, (os_send os fd m ts w).1 = 0 ↔ (length (pending fd w) < limit)%nat;
  obliging_receive : ∀ n ts w, (os_receive os fd n ts w).1.1 < 0 ↔ pending fd w = [];
}.

(** A queue of at most [limit] messages, on paper: the messages accepted, those
    delivered, and those left. *)
Fixpoint fifo (limit : nat) (ops : list (queue_op Z)) (c : list bytes)
    : list bytes * list bytes * list bytes :=
  match ops with
  | [] => ([], [], c)
  | Send m _ :: ops' =>
      if decide (length c < limit)%nat then
        let '(accepted, delivered, rest) := fifo limit ops' (c ++ [m]) in
        (m :: accepted, delivered, rest)
      else fifo limit ops' c
  | Receive _ :: ops' =>
      match c with
      | [] => fifo limit ops' []
      | m :: c' =>
          let '(accepted, delivered, rest) := fifo limit ops' c' in
          (accepted, m :: delivered, rest)
      end
  end.

Section PosixFifo.
Context `{Errno} `{SourceLocation} {Ev : Type} `{LogEvent Ev} {W : Type}.
Context (os : PosixMessageQueue.Mqueue W) (sizeof_T : nat) (pending : Z → W → list bytes).
Context (Hos : mq_laws os pending).
Import PosixMessageQueue.

Definition posix_contents (q : MessageQueue W) : list bytes := pending (mqd_ q) (world q).

Lemma sys_run {A} (f : W → A * W) q :
  sys (Ev := Ev) f q = Done ((f (world q)).1, mkQueue (queue_name q) (mqd_ q) (f (world q)).2, []).
Proof. unfold sys, zoom. by rewrite call_run. Qed.

Lemma deadline_Done timeout q ts q' t :
  deadline (Ev := Ev) os timeout q = Done (ts, q', t) →
  q' = mkQueue (queue_name q) (mqd_ q) (world q') ∧ pending (mqd_ q) (world q') = posix_contents q.
Proof using Hos.
  unfold deadline. case_decide.
  - intros [= _ <- _]. by destruct q.
  - intros Hr. eff_inv.
    match goal with H : sys _ _ = _ |- _ => rewrite sys_run in H; injection H as <- <- _ end.
    split; [done|]. apply (law_clock _ _ Hos).
Qed.

Lemma deadline_run timeout q :
  is_u32 timeout →
  ∃ ts q' t, deadline (Ev := Ev) os timeout q = Done (ts, q', t) ∧
    pending (mqd_ q) (world q') = posix_contents q.
Proof using Hos.
  intros Ht. unfold deadline. case_decide; [by do 3 eexists|]. rewrite bind_run, sys_run.
  destruct (ms_to_timespec_run _ timeout (law_time _ _ Hos (world q)) Ht) as (ts & E & _).
  rewrite bind_run, E. do 3 eexists. split; [reflexivity|]. apply (law_clock _ _ Hos).
Qed.

Lemma os_error_run {A} fn msg (a : ErrorHandler () MessageQueueError → A) q :
  ∃ e t, os_error (Ev := Ev) os fn msg a q = Done (a (is_err e), q, t).
Proof. unfold os_error. rewrite get_bind, bind_run. by do 2 eexists. Qed.

(** A call on an open queue, once its deadline is known: it returns, and says
    what the operating system said. *)
Lemma posix_send_run m d q ts q1 t1 :
  mqd_ q ≠ -1 → deadline (Ev := Ev) os d q = Done (ts, q1, t1) →
  let answer := os_send os (mqd_ q) m ts (world q1) in
  ∃ r t, send_impl_posix (Ev := Ev) os m d q = Done (r, mkQueue (queue_name q) (mqd_ q) answer.2, t) ∧
    has_value r = bool_decide (answer.1 = 0).
Proof using Hos.
  intros Hfd E answer. pose proof (deadline_Done _ _ _ _ _ E) as [Eq _].
  destruct q1 as [n1 fd1 w1]. injection Eq as -> ->.
  unfold send_impl_posix. rewrite get_bind, decide_False by done. rewrite bind_run, E, bind_run, sys_run.
  fold (os_send os (mqd_ q) m ts). cbn [mqd_ queue_name world] in *. fold answer.
  destruct (decide (answer.1 ≠ 0)) as [Hr|Hr].
  - edestruct @os_error_run as (e & t & ->). do 2 eexists. split; [reflexivity|].
    by rewrite bool_decide_eq_false_2.
  - do 2 eexists. split; [reflexivity|]. rewrite bool_decide_eq_true_2; [done|lia].
Qed.

Lemma posix_receive_run m d q ts q1 t1 :
  mqd_ q ≠ -1 → deadline (Ev := Ev) os d q = Done (ts, q1, t1) →
  let answer := os_receive os (mqd_ q) sizeof_T ts (world q1) in
  ∃ r t, receive_impl_posix (Ev := Ev) os sizeof_T m d q =
      Done ((r, if has_value r then overwrite answer.1.2 m else m),
            mkQueue (queue_name q) (mqd_ q) answer.2, t) ∧
    has_value r = bool_decide (0 ≤ answer.1.1).
Proof using Hos.
  intros Hfd E answer. pose proof (deadline_Done _ _ _ _ _ E) as [Eq _].
  destruct q1 as [n1 fd1 w1]. injection Eq as -> ->.
  unfold receive_impl_posix. rewrite get_bind, decide_False by done. rewrite bind_run, E, bind_run, sys_run.
  fold (os_receive os (mqd_ q) sizeof_T ts). cbn [mqd_ queue_name world] in *. fold answer.
  destruct (decide (answer.1.1 < 0)) as [Hr|Hr].
  - edestruct @os_error_run as (e & t & ->). eexists (is_err e), _. split; [reflexivity|].
    rewrite bool_decide_eq_false_2; [done|lia].
  - rewrite bind_run. eexists is_ok, _. split; [reflexivity|]. rewrite bool_decide_eq_true_2; [done|lia].
Qed.

Lemma posix_send_law m d q r q' t :
  send_impl_posix (Ev := Ev) os m d q = Done (r, q', t) →
  posix_contents q' = posix_contents q ++ (if has_value r then [m] else []).
Proof using Hos.
  intros Hr. destruct (decide (mqd_ q = -1)) as [Hfd|Hfd].
  { unfold send_impl_posix in Hr. rewrite get_bind, decide_True in Hr by done.
    apply fail_Done in Hr as [-> ->]. cbn. by rewrite app_nil_r. }
  destruct (deadline (Ev := Ev) os d q) as [[[ts q1] t1]|] eqn:E.
  - destruct (posix_send_run m d q ts q1 t1 Hfd E) as (r1 & t2 & E1 & Hv). rewrite E1 in Hr.
    injection Hr as <- <- _. apply deadline_Done in E as [_ <-]. unfold posix_contents.
    cbn [mqd_ world]. rewrite Hv, (law_send _ _ Hos). by case_decide; case_bool_decide.
  - unfold send_impl_posix in Hr. rewrite get_bind, decide_False in Hr by done.
    by rewrite bind_run, E in Hr.
Qed.

Lemma posix_receive_law m d q r m' q' t :
  receive_impl_posix (Ev := Ev) os sizeof_T m d q = Done ((r, m'), q', t) →
  if has_value r then ∃ data, posix_contents q = data :: posix_contents q' ∧ m' = overwrite data m
  else posix_contents q' = posix_contents q ∧ m' = m.
Proof using Hos.
  intros Hr. destruct (decide (mqd_ q = -1)) as [Hfd|Hfd].
  { unfold receive_impl_posix in Hr. rewrite get_bind, decide_True in Hr by done.
    apply bind_Done in Hr as (? & ? & ? & ? & Hf & Hr & _). apply fail_Done in Hf as [-> ->]. by eff_inv. }
  destruct (deadline (Ev := Ev) os d q) as [[[ts q1] t1]|] eqn:E.
  - destruct (posix_receive_run m d q ts q1 t1 Hfd E) as (r1 & t2 & E1 & Hv). rewrite E1 in Hr.
    injection Hr as <- <- <- _. apply deadline_Done in E as [_ <-]. unfold posix_contents.
    cbn [mqd_ world]. rewrite Hv. pose proof (law_receive _ _ Hos (mqd_ q) sizeof_T ts (world q1)) as Hl.
    case_decide; [rewrite bool_decide_eq_false_2 by lia; done|].
    rewrite bool_decide_eq_true_2 by lia. by eexists.
  - unfold receive_impl_posix in Hr. rewrite get_bind, decide_False in Hr by done.
    by rewrite bind_run, E in Hr.
Qed.

Definition posix_queue_laws : @QueueLaws (MessageQueue W) Z Ev (queue os sizeof_T) :=
  @Build_QueueLaws _ _ _ (queue os sizeof_T) posix_contents posix_send_law posix_receive_law.
#[local] Instance this_queue : MessageQueueImplementation (MessageQueue W) Z Ev := queue os sizeof_T.
#[local] Instance this_init : QueueInitWithoutBuffer (MessageQueue W) Ev := queue_init os sizeof_T.
Abbreviation run := (run_queue_ops (St := MessageQueue W) (DurationType := Z) (Ev := Ev) sizeof_T).

(** What C++ lets a program pass: messages of the size of the type, [uint32_t]
    timeouts. *)
Definition typed_op (o : queue_op Z) : Prop :=
  match o with Send m d => sized sizeof_T m ∧ is_u32 d | Receive d => is_u32 d end.

(** On a queue that is not open nothing happens. *)
Lemma run_closed ops q :
  mqd_ q = -1 → ∃ t, run ops q = Done (([], []), q, t).
Proof.
  intros Hfd. induction ops as [|[m d|d] ops [t IH]]; cbn [run_queue_ops]; [by eexists|..].
  - rewrite bind_run. change (IMessageQueue.send m d q) with (send_impl_posix (Ev := Ev) os m d q).
    unfold send_impl_posix. rewrite get_bind, decide_True by done. unfold fail. rewrite of_error_run, bind_run, IH. by eexists.
  - assert (∃ e t0, receive_impl_posix (Ev := Ev) os sizeof_T (replicate sizeof_T 0) d q =
      Done ((is_err e, replicate sizeof_T 0), q, t0)) as (e & t0 & E).
    { unfold receive_impl_posix. rewrite get_bind, decide_True by done. by do 2 eexists. }
    rewrite bind_run. change (IMessageQueue.receive ?m d q) with (receive_impl_posix (Ev := Ev) os sizeof_T m d q).
    rewrite E, bind_run, IH. by eexists.
Qed.

(** On an open queue every call returns, and when the operating system obliges,
    they make the queue on paper. *)
Lemma run_open ops q :
  mqd_ q ≠ -1 → Forall typed_op ops → Forall (sized sizeof_T) (posix_contents q) →
  ∃ accepted delivered q' t, run ops q = Done ((accepted, delivered), q', t) ∧ mqd_ q' = mqd_ q ∧
    ∀ limit, mq_obliging os pending (mqd_ q) limit →
      (accepted, delivered, posix_contents q') = fifo limit ops (posix_contents q).
Proof using Hos.
  intros Hfd Hops. revert q Hfd.
  induction Hops as [|[m d|d] ops Ho _ IH]; intros q Hfd Hs; cbn [run_queue_ops].
  { by exists [], [], q, []. }
  - destruct Ho as [Hm Hd]. destruct (deadline_run d q Hd) as (ts & q1 & t1 & E & Hp).
    destruct (posix_send_run m d q ts q1 t1 Hfd E) as (r & t2 & E2 & Hv).
    pose proof (posix_send_law m d q _ _ _ E2) as Hc.
    destruct (IH (mkQueue (queue_name q) (mqd_ q) (os_send os (mqd_ q) m ts (world q1)).2) Hfd)
      as (acc & del & q' & t3 & E3 & Hfd3 & Hob).
    { rewrite Hc. apply Forall_app. split; [done|]. destruct (has_value r); by repeat constructor. }
    rewrite bind_run. change (IMessageQueue.send m d q) with (send_impl_posix (Ev := Ev) os m d q).
    rewrite E2, bind_run, E3. do 4 eexists. split; [reflexivity|]. split; [done|].
    intros limit Hl. specialize (Hob limit Hl). rewrite Hc, Hv in Hob. rewrite Hv. cbn [fst snd fifo].
    pose proof (obliging_send _ _ _ _ Hl m ts (world q1)) as Hl1. rewrite Hp in Hl1.
    case_bool_decide; [rewrite decide_True by tauto; by rewrite <- Hob|].
    rewrite decide_False by tauto. by rewrite app_nil_r in Hob.
  - destruct (deadline_run d q Ho) as (ts & q1 & t1 & E & Hp).
    destruct (posix_receive_run (replicate sizeof_T 0) d q ts q1 t1 Hfd E) as (r & t2 & E2 & Hv).
    pose proof (posix_receive_law _ d q _ _ _ _ E2) as Hc.
    destruct (IH (mkQueue (queue_name q) (mqd_ q) (os_receive os (mqd_ q) sizeof_T ts (world q1)).2) Hfd)
      as (acc & del & q' & t3 & E3 & Hfd3 & Hob).
    { destruct (has_value r); [destruct Hc as (data & Hc & _)|by destruct Hc as [-> _]].
      rewrite Hc in Hs. by apply Forall_cons in Hs as [_ Hs]. }
    rewrite bind_run.
    change (IMessageQueue.receive ?m d q) with (receive_impl_posix (Ev := Ev) os sizeof_T m d q).
    rewrite E2, bind_run, E3. do 4 eexists. split; [reflexivity|]. split; [done|].
    intros limit Hl. specialize (Hob limit Hl). cbn [fst snd fifo].
    pose proof (obliging_receive _ _ _ _ Hl sizeof_T ts (world q1)) as Hl1. rewrite Hp in Hl1.
    destruct (has_value r) eqn:Er; symmetry in Hv.
    + apply bool_decide_eq_true in Hv. destruct Hc as (data & Hc & Hm).
      rewrite Hc in Hs |- *. apply Forall_cons in Hs as [Hs _]. rewrite Hm, overwrite_same.
      * by rewrite <- Hob.
      * by rewrite length_replicate.
    + apply bool_decide_eq_false in Hv. destruct Hc as [Hc _]. rewrite Hc in Hob.
      replace (posix_contents q) with ([] : list bytes) in * by (symmetry; apply Hl1; lia). done.
Qed.

Lemma init_run name capacity w :
  let opened := mq_open os (Names.name_buffer name) capacity (Z.of_nat sizeof_T) w in
  ∃ r fd w' t, IMessageQueue.init capacity (MessageQueue_ctor name w) =
      Done (r, mkQueue (Names.name_buffer name) fd w', t) ∧
    has_value r = bool_decide (capacity ≠ 0 ∧ String.get 0 name = Some "/"%char ∧ opened.1 ≠ -1) ∧
    if has_value r then fd = opened.1 ∧ w' = opened.2 else fd = -1.
Proof.
  intros opened. unfold IMessageQueue.init. destruct (decide (capacity = 0)) as [Hc|Hc].
  { do 4 eexists. split; [reflexivity|]. split; [|done]. by rewrite bool_decide_eq_false_2 by tauto. }
  change (init_impl capacity) with (init_impl_posix (Ev := Ev) os sizeof_T capacity).
  unfold init_impl_posix. rewrite get_bind.
  assert (first_char (MessageQueue_ctor name w) = default Ascii.zero (String.get 0 name)) as -> by by destruct name.
  destruct (Ascii.eqb_spec (default Ascii.zero (String.get 0 name)) Ascii.zero) as [Ez|Ez].
  { do 4 eexists. split; [reflexivity|]. split; [|done]. rewrite bool_decide_eq_false_2; [done|].
    intros (_ & E & _). by rewrite E in Ez. }
  destruct (Ascii.eqb_spec (default Ascii.zero (String.get 0 name)) "/") as [Es|Es]; cbn [negb]; cycle 1.
  { do 4 eexists. split; [reflexivity|]. split; [|done]. rewrite bool_decide_eq_false_2; [done|].
    intros (_ & E & _). by rewrite E in Es. }
  assert (String.get 0 name = Some "/"%char) as Eg.
  { destruct (String.get 0 name); cbn in Es; [by rewrite Es|discriminate Es]. }
  rewrite bind_run, sys_run, modify_bind. cbn [set_mqd queue_name mqd_ world MessageQueue_ctor get_name].
  fold opened. destruct (decide (opened.1 = -1)) as [Ho|Ho].
  - edestruct @os_error_run as (e & t & ->). do 4 eexists. split; [reflexivity|]. split; [|done].
    by rewrite bool_decide_eq_false_2 by tauto.
  - do 4 eexists. split; [reflexivity|]. split; [|done]. by rewrite bool_decide_eq_true_2.
Qed.

(** C35. A POSIX queue from its [init] on. [init] succeeds exactly when it gets a
    capacity, a name that begins with a slash, and a descriptor. Then every
    call returns; what the receivers are handed, followed by what is still
    queued, is what was queued at first followed by the messages whose senders
    were told so, in order and unaltered; and with an operating system that
    refuses a call only on a full or an empty queue, it is exactly the bounded
    queue on paper. When [init] has failed every later call is refused. *)
Theorem queue_fifo name capacity w ops :
  let opened := mq_open os (Names.name_buffer name) capacity (Z.of_nat sizeof_T) w in
  let queued := pending opened.1 in
  Forall typed_op ops → Forall (sized sizeof_T) (queued opened.2) →
  ∃ r q t accepted delivered q' t',
    IMessageQueue.init capacity (MessageQueue_ctor name w) = Done (r, q, t) ∧
    run ops q = Done ((accepted, delivered), q', t') ∧
    has_value r = bool_decide (capacity ≠ 0 ∧ String.get 0 name = Some "/"%char ∧ opened.1 ≠ -1) ∧
    if has_value r then
      delivered ++ queued (world q') = queued opened.2 ++ accepted ∧
      ∀ limit, mq_obliging os pending opened.1 limit →
        (accepted, delivered, queued (world q')) = fifo limit ops (queued opened.2)
    else accepted = [] ∧ delivered = [].
Proof using Hos.
  intros opened queued Hops Hs. destruct (init_run name capacity w) as (r & fd & w' & t & E & Hv & Hq).
  fold opened in Hv, Hq. destruct (has_value r) eqn:Er.
  - destruct Hq as [-> ->]. symmetry in Hv. pose proof Hv as (_ & _ & Hfd)%bool_decide_eq_true.
    destruct (run_open ops (mkQueue (Names.name_buffer name) opened.1 opened.2) Hfd Hops Hs)
      as (acc & del & q' & t' & E' & Hfd' & Hob).
    exists r, (mkQueue (Names.name_buffer name) opened.1 opened.2), t, acc, del, q', t'.
    split; [exact E|]. split; [exact E'|]. rewrite Er. split; [done|].
    assert (posix_contents q' = queued (world q')) as Ec by (unfold posix_contents, queued; by rewrite Hfd').
    rewrite <- Ec. split; [|exact Hob].
    refine (@laws_fifo _ _ _ (queue os sizeof_T) sizeof_T posix_queue_laws ops
      (mkQueue (Names.name_buffer name) opened.1 opened.2) acc del q' t' Hs _ E').
    eapply Forall_impl; [exact Hops|]. by intros [m d|d]; [intros []|].
  - destruct (run_closed ops (mkQueue (Names.name_buffer name) fd w') Hq) as [t' E'].
    do 7 eexists. split; [exact E|]. split; [exact E'|]. by rewrite Er.
Qed.
End PosixFifo.

(** *** Zephyr keeps the contract *)

Record msgq_laws {W BufferType k_timeout_t}
    (k : ZephyrMessageQueue.Msgq W BufferType k_timeout_t) (pending : W → list bytes) : Prop := {
  law_put : ∀ m d w, let r := ZephyrMessageQueue.k_msgq_put k m d w in
    pending r.2 = pending w ++ (if decide (r.1 = 0) then [m] else []);
  law_get : ∀ d w, let r := ZephyrMessageQueue.k_msgq_get k d w in
    if decide (r.1.1 = 0) then pending w = r.1.2 :: pending r.2 else pending r.2 = pending w;
}.

Section ZephyrFifo.
Context `{Errno} `{SourceLocation} {Ev : Type} `{LogEvent Ev} {W BufferType k_timeout_t : Type}.
Context (k : ZephyrMessageQueue.Msgq W BufferType k_timeout_t) (pending : W → list bytes).
Context (Hk : msgq_laws k pending).
Import ZephyrMessageQueue.

Definition zephyr_contents (q : MessageQueue W) : list bytes := pending (queue_ q).

Lemma zephyr_sys_run {A} (f : W → A * W) q :
  sys (Ev := Ev) f q =
    Done ((f (queue_ q)).1, mkQueue (queue_name q) (initialized_ q) (f (queue_ q)).2, []).
Proof. unfold sys, zoom. by rewrite call_run. Qed.

Lemma zephyr_send_law m d q r q' t :
  send_impl_zephyr (Ev := Ev) k m d q = Done (r, q', t) →
  zephyr_contents q' = zephyr_contents q ++ (if has_value r then [m] else []).
Proof.
  unfold send_impl_zephyr. autorewrite with eff. intros Hr.
  pose proof (law_put _ _ Hk m d (queue_ q)) as Hl. cbv zeta in Hl.
  destruct (initialized_ q); cbn [negb] in Hr.
  - apply bind_Done in Hr as (? & ? & ? & ? & Hc & Hr & _).
    rewrite zephyr_sys_run in Hc. injection Hc as <- <- _. unfold zephyr_contents.
    repeat case_decide;
      first [apply ok_Done in Hr as [-> ->]|apply fail_Done in Hr as [-> ->]]; done.
  - apply fail_Done in Hr as [-> ->]. cbn. by rewrite app_nil_r.
Qed.

Lemma zephyr_receive_law m d q r m' q' t :
  receive_impl_zephyr (Ev := Ev) k m d q = Done ((r, m'), q', t) →
  if has_value r then ∃ data, zephyr_contents q = data :: zephyr_contents q' ∧ m' = overwrite data m
  else zephyr_contents q' = zephyr_contents q ∧ m' = m.
Proof.
  unfold receive_impl_zephyr. autorewrite with eff. intros Hr.
  pose proof (law_get _ _ Hk d (queue_ q)) as Hl. cbv zeta in Hl.
  destruct (initialized_ q); cbn [negb] in Hr.
  - apply bind_Done in Hr as (? & ? & ? & ? & Hc & Hr & _).
    rewrite zephyr_sys_run in Hc. injection Hc as <- <- _. unfold zephyr_contents.
    repeat case_decide; apply bind_Done in Hr as (? & ? & ? & ? & Hf & Hr & _);
      (first [apply ok_Done in Hf as [-> ->]|apply fail_Done in Hf as [-> ->]]);
      injection Hr as <- <- <- _; cbn; eauto.
  - apply bind_Done in Hr as (? & ? & ? & ? & Hf & Hr & _). apply fail_Done in Hf as [-> ->].
    by injection Hr as <- <- <- _.
Qed.

Definition zephyr_queue_laws : @QueueLaws (MessageQueue W) k_timeout_t Ev (queue k) :=
  @Build_QueueLaws _ _ _ (queue k) zephyr_contents zephyr_send_law zephyr_receive_law.
End ZephyrFifo.

(** ** Zephyr's answer to an empty or full queue without waiting *)

(** [k_msgq_get] and [k_msgq_put] are documented to answer [-ENOMSG] when the
    call does not wait; both directions then report [Unknown], not
    [QueueEmpty] or [QueueFull]. *)
Theorem zephyr_nowait_unknown `{Errno} `{SourceLocation} {Ev} `{LogEvent Ev} {W BufferType k_timeout_t}
    (k : ZephyrMessageQueue.Msgq W BufferType k_timeout_t) m d name w :
  (ZephyrMessageQueue.k_msgq_get k d w).1.1 = - ENOMSG →
  (ZephyrMessageQueue.k_msgq_put k m d w).1 = - ENOMSG →
  let q := ZephyrMessageQueue.mkQueue name true w in
  (∃ q' t, ZephyrMessageQueue.receive_impl_zephyr (Ev := Ev) k m d q =
     Done ((is_err MessageQueueErrors.Unknown, m), q', t)) ∧
  (∃ q' t, ZephyrMessageQueue.send_impl_zephyr (Ev := Ev) k m d q =
     Done (is_err MessageQueueErrors.Unknown, q', t)).
Proof.
  intros Hg Hp q. subst q.
  assert (∀ x y : Z, x ≠ y → - x ≠ - y) as Hopp by (intros; lia).
  assert (ZephyrMessageQueue.k_error_to_error (- ENOMSG) = MessageQueueErrors.Unknown) as Ek.
  { unfold ZephyrMessageQueue.k_error_to_error.
    rewrite !decide_False; [done|apply Hopp; errno_ne
      |intros [E|[E|E]]; revert E; apply Hopp; errno_ne|apply Hopp; errno_ne|apply Hopp; errno_ne]. }
  assert (¬ (- ENOMSG = - EAGAIN ∨ - ENOMSG = - EBUSY)) as Hne.
  { intros [E|E]; revert E; apply Hopp; errno_ne. }
  assert (- ENOMSG ≠ 0) by (pose proof errno_pos; lia).
  split.
  - unfold ZephyrMessageQueue.receive_impl_zephyr. rewrite get_bind. cbn [ZephyrMessageQueue.initialized_ negb].
    rewrite bind_run, zephyr_sys_run. cbn [ZephyrMessageQueue.queue_]. rewrite Hg.
    rewrite (decide_False (P := - ENOMSG = 0)) by done. rewrite decide_False by done. rewrite Ek.
    by do 2 eexists.
  - unfold ZephyrMessageQueue.send_impl_zephyr. rewrite get_bind. cbn [ZephyrMessageQueue.initialized_ negb].
    rewrite bind_run, zephyr_sys_run. cbn [ZephyrMessageQueue.queue_]. rewrite Hp.
    rewrite (decide_False (P := - ENOMSG = 0)) by done. rewrite decide_False by done. rewrite Ek.
    by do 2 eexists.
Qed.

(** ** Concrete queues *)
#[local] Instance toy_location : SourceLocation := λ s, s.

(** A Zephyr queue of two messages, and the answer of a call that does not wait. *)
Definition toy_msgq : ZephyrMessageQueue.Msgq (list bytes) () () :=
  ZephyrMessageQueue.mkMsgq (list bytes) () ()
    (λ _ _ _ _, ((), []))
    (λ m _ w, if decide (length w < 2)%nat then (0, w ++ [m]) else (-42, w))
    (λ _ w, match w with m :: w' => (0, m, w') | [] => (-42, [], []) end)
    (λ w, (2 - Z.of_nat (length w), w)).

Lemma toy_msgq_laws : msgq_laws toy_msgq id.
Proof.
  split.
  - intros m [] w. cbn. destruct (decide (length w < 2)%nat); cbn; [done|].
    by rewrite app_nil_r.
  - intros [] [|m w]; done.
Qed.

Lemma zephyr_fifo_sample :
  [[1; 2]; [3; 4]] ++ [[5; 6]] = [] ++ [[1; 2]; [3; 4]; [5; 6]] :> list bytes.
Proof.
  refine (@laws_fifo _ _ _ (@ZephyrMessageQueue.queue linux_errno _ LogCall _ _ _ _ toy_msgq) 2
    (@zephyr_queue_laws linux_errno _ LogCall _ _ _ _ toy_msgq id toy_msgq_laws)
    [Send [1; 2] (); Receive (); Receive (); Send [3; 4] (); Send [5; 6] (); Send [7; 8] (); Receive ()]
    (ZephyrMessageQueue.mkQueue (Names.name_buffer "q") true [])
    [[1; 2]; [3; 4]; [5; 6]] [[1; 2]; [3; 4]]
    (ZephyrMessageQueue.mkQueue (Names.name_buffer "q") true [[5; 6]]) _ _ _ _).
  - constructor.
  - repeat constructor.
  - vm_compute. reflexivity.
Qed.

(** An operating system with one POSIX queue, of two messages, at descriptor 7. *)
Definition toy_mq_send (fd : Z) (m : bytes) (w : list bytes) : Z * list bytes :=
  if decide (fd = 7 ∧ (length w < 2)%nat) then (0, w ++ [m]) else (-1, w).
Definition toy_mq_receive (fd : Z) (n : nat) (w : list bytes) : Z * bytes * list bytes :=
  if decide (fd = 7) then
    match w with m :: w' => (Z.of_nat (length m), m, w') | [] => (-1, [], []) end
  else (-1, [], w).
Definition toy_mqueue : PosixMessageQueue.Mqueue (list bytes) :=
  PosixMessageQueue.mkMqueue (list bytes) (λ _, 11) (λ w, (mkTimespec 1700000000 5, w))
    (λ _ _ _ w, (7, w)) (λ _ w, (0, w)) (λ _ w, (0, w)) toy_mq_send (λ fd m _, toy_mq_send fd m)
    toy_mq_receive (λ fd n _, toy_mq_receive fd n) (λ _ w, (0, (2, Z.of_nat (length w)), w)).
Definition toy_pending (fd : Z) (w : list bytes) : list bytes := if decide (fd = 7) then w else [].

Lemma toy_mq_laws : mq_laws toy_mqueue toy_pending.
Proof.
  split; [done|by intros; split; vm_compute|..].
  - intros fd m ts w. assert (os_send toy_mqueue fd m ts = toy_mq_send fd m) as -> by by destruct ts.
    unfold toy_mq_send, toy_pending.
    destruct (decide (fd = 7)), (decide (fd = 7 ∧ (length w < 2)%nat)) as [[]|]; cbn; rewrite ?app_nil_r; done.
  - intros fd n ts w. assert (os_receive toy_mqueue fd n ts = toy_mq_receive fd n) as -> by by destruct ts.
    unfold toy_mq_receive, toy_pending. destruct (decide (fd = 7)); cbn; [|done].
    destruct w as [|m w]; cbn; [done|]. by rewrite decide_False by lia.
Qed.

Lemma toy_obliging : mq_obliging toy_mqueue toy_pending 7 2.
Proof.
  split.
  - intros m ts w. assert (os_send toy_mqueue 7 m ts = toy_mq_send 7 m) as -> by by destruct ts.
    unfold toy_mq_send, toy_pending. rewrite (decide_True (P := 7 = 7)) by done. case_decide; cbn; [tauto|].
    split; [done|]. tauto.
  - intros n ts w. assert (os_receive toy_mqueue 7 n ts = toy_mq_receive 7 n) as -> by by destruct ts.
    unfold toy_mq_receive, toy_pending. rewrite !(decide_True (P := 7 = 7)) by done.
    destruct w; cbn; split; (done || lia).
Qed.

Definition toy_queue_ops : list (queue_op Z) :=
  [Send [1; 2] 100; Receive 0; Receive 100; Send [3; 4] 0; Send [5; 6] 100; Send [7; 8] 100; Receive 100].

Lemma queue_fifo_witness :
  ∃ r q t accepted delivered q' t',
    @IMessageQueue.init _ LogCall _ _ (@PosixMessageQueue.queue_init linux_errno _ LogCall _ _ toy_mqueue 2) 10
      (PosixMessageQueue.MessageQueue_ctor "/readings" []) = Done (r, q, t) ∧
    run_queue_ops (H := @PosixMessageQueue.queue linux_errno _ LogCall _ _ toy_mqueue 2) 2 toy_queue_ops q =
      Done ((accepted, delivered), q', t') ∧
    has_value r = true ∧
    delivered ++ PosixMessageQueue.world q' = [] ++ accepted ∧
    (accepted, delivered, PosixMessageQueue.world q') = ([[1; 2]; [3; 4]; [5; 6]], [[1; 2]; [3; 4]], [[5; 6]]).
Proof.
  destruct (@queue_fifo linux_errno _ LogCall _ _ toy_mqueue 2 toy_pending toy_mq_laws "/readings" 10 []
    toy_queue_ops) as (r & q & t & acc & del & q' & t' & E1 & E2 & Hr & H).
  - repeat first [apply Forall_nil|apply Forall_cons; split]; try (split; [reflexivity|]);
      cbn; unfold is_u32; lia.
  - constructor.
  - assert (has_value r = true) as Hv by (rewrite Hr; reflexivity). rewrite Hv in H.
    destruct H as [H1' H2']. exists r, q, t, acc, del, q', t'.
    split; [exact E1|]. split; [exact E2|]. split; [exact Hv|]. split; [exact H1'|].
    exact (H2' 2%nat toy_obliging).
Defined.

Lemma zephyr_nowait_unknown_witness :
  ∃ q' t, @ZephyrMessageQueue.receive_impl_zephyr linux_errno _ LogCall _ _ _ _
      (ZephyrMessageQueue.mkMsgq (list bytes) () () (λ _ _ _ w, ((), w)) (λ _ _ w, (-42, w))
         (λ _ w, (-42, [], w)) (λ w, (0, w)))
      [0; 0] () (ZephyrMessageQueue.mkQueue [] true []) =
    Done ((is_err MessageQueueErrors.Unknown, [0; 0]), q', t).
Proof.
  apply (@zephyr_nowait_unknown linux_errno _ LogCall _ _ _ _
    (ZephyrMessageQueue.mkMsgq (list bytes) () () (λ _ _ _ w, ((), w)) (λ _ _ w, (-42, w))
         (λ _ w, (-42, [], w)) (λ w, (0, w))) [0; 0] () [] []); reflexivity.
Defined.
