(* ===== verification/Threads.v ===== *)
(** * Threads (platform/common/ithread; the POSIX and Zephyr backends)

    The CRTP base [IThread] over a type class, the POSIX backend with its
    scheduling set-up, its retry without real-time priority and its join loop,
    and the Zephyr backend with its parameter passing. Pointers and
    [std::uintptr_t] are integers; [nullptr] is 0. *)

From stdpp Require Import prelude list strings.
From Stdlib Require Import ZArith Lia Ascii.
From S2P Require Import Prelude Logger ErrorHandler ErrorCodes Sync.

(** ** The interface *)

Inductive ThreadParamVariant :=
| ThreadParam1 (param : Z)
| ThreadParam2 (param1 param2 : Z)
| ThreadParam3 (param1 param2 param3 : Z)
| ThreadParamValue (value : Z).

(** Function pointers, by signature. *)
Inductive ThreadFunctionVariant :=
| ThreadFunction1 (entry : Z)
| ThreadFunction2 (entry : Z)
| ThreadFunction3 (entry : Z).

Record ThreadStackInfo := mkStack { stack_size : Z; stack_pointer : Z }.

(** The base's members; [derived] holds those of the platform class, [os] the
    state of the operating system. *)
Record ThreadObj (D W : Type) := mkThread {
  active : bool;
  thread_name : list ascii;
  stack_info : ThreadStackInfo;
  thread_priority : Z;
  derived : D;
  os : W;
}.
Arguments mkThread {D W} _ _ _ _ _ _.
Arguments active {D W} _.
Arguments thread_name {D W} _.
Arguments stack_info {D W} _.
Arguments thread_priority {D W} _.
Arguments derived {D W} _.
Arguments os {D W} _.

(** [concept ThreadImplementation], with both [os_create] overloads. *)
Class ThreadImplementation (D W Ev : Type) := {
  os_create_params : ThreadFunctionVariant → ThreadStackInfo → Z → ThreadParamVariant →
    eff (ThreadObj D W) Ev (ErrorHandler () ThreadError);
  os_create : ThreadFunctionVariant → ThreadStackInfo → Z →
    eff (ThreadObj D W) Ev (ErrorHandler () ThreadError);
  os_destroy : eff (ThreadObj D W) Ev (ErrorHandler () ThreadError);
}.

Module IThread.
Section Base.
Context {D W : Type}.
Implicit Types s : ThreadObj D W.

Definition IThread (name : string) (d : D) (w : W) : ThreadObj D W :=
  mkThread false (Names.name_buffer name) (mkStack 0 0) 0 d w.
Definition IThread_literal (name : string) (d : D) (w : W) : option (ThreadObj D W) :=
  buf ← Names.literal_buffer name; Some (mkThread false buf (mkStack 0 0) 0 d w).

Lemma literal_thread name d w s : IThread_literal name d w = Some s → s = IThread name d w.
Proof.
  unfold IThread_literal. destruct (Names.literal_buffer name) as [buf|] eqn:E; [|done].
  intros [= <-]. by rewrite (Names.literal_is_runtime _ _ E).
Qed.

Definition get_thread_name s : list ascii := thread_name s.
Definition get_stack_info s : ThreadStackInfo := stack_info s.
Definition get_thread_priority s : Z := thread_priority s.
Definition set_stack_info (i : ThreadStackInfo) s : ThreadObj D W :=
  mkThread (active s) (thread_name s) i (thread_priority s) (derived s) (os s).
Definition set_thread_priority (priority : Z) s : ThreadObj D W :=
  mkThread (active s) (thread_name s) (stack_info s) priority (derived s) (os s).
Definition is_active s : bool := active s.
Definition set_active (b : bool) s : ThreadObj D W :=
  mkThread b (thread_name s) (stack_info s) (thread_priority s) (derived s) (os s).
Definition set_thread_info (i : ThreadStackInfo) (priority : Z) s : ThreadObj D W :=
  set_thread_priority priority (set_stack_info i s).
Definition set_derived (f : D → D) s : ThreadObj D W :=
  mkThread (active s) (thread_name s) (stack_info s) (thread_priority s) (f (derived s)) (os s).

Context {Ev : Type} `{ThreadImplementation D W Ev} `{LogEvent Ev} `{SourceLocation}.
Abbreviation M := (eff (ThreadObj D W) Ev (ErrorHandler () ThreadError)).

(** The common shape of the two [create] overloads. *)
Definition create_with (impl : M) (stackInfo : ThreadStackInfo) (priority : Z) : M :=
  s ← get;
  if active s then fail "IThread::create" ThreadErrors.AlreadyCreated "Thread already created"
  else
    modify (set_thread_info stackInfo priority);;
    result ← impl;
    (if operator_bool result then modify (set_active true) else mret ());;
    mret result.

Definition create_params (f : ThreadFunctionVariant) (stackInfo : ThreadStackInfo) (priority : Z)
    (params : ThreadParamVariant) : M :=
  create_with (os_create_params f stackInfo priority params) stackInfo priority.

Definition create (f : ThreadFunctionVariant) (stackInfo : ThreadStackInfo) (priority : Z) : M :=
  create_with (os_create f stackInfo priority) stackInfo priority.

Definition destroy : M :=
  s ← get;
  if negb (active s) then ok
  else
    result ← os_destroy;
    (if operator_bool result then modify (set_active false) else mret ());;
    mret result.

(** [~Thread] of the POSIX backend. *)
Definition Thread_dtor : eff (ThreadObj D W) Ev () :=
  s ← get;
  if is_active s then destroy;; mret () else mret ().
End Base.
End IThread.

Definition tsys {D W Ev A} (f : W → A * W) : eff (ThreadObj D W) Ev A :=
  zoom os (λ w s, mkThread (active s) (thread_name s) (stack_info s) (thread_priority s)
                    (derived s) w) id (call f).

(** ** POSIX *)

Module PosixThread.

Inductive policy := SCHED_FIFO | SCHED_OTHER.
Inductive inherit := PTHREAD_INHERIT_SCHED | PTHREAD_EXPLICIT_SCHED.

(** pthreads and the scheduler; [pthread_create] answers with the handle it
    stores. The attribute object is part of [W]. *)
Record Pthreads (W : Type) := mkPthreads {
  pthread_attr_init : W → Z * W;
  pthread_attr_destroy : W → Z * W;
  pthread_attr_setstacksize : Z → W → Z * W;
  pthread_attr_setschedpolicy : policy → W → Z * W;
  pthread_attr_setschedparam : Z → W → Z * W;
  pthread_attr_setinheritsched : inherit → W → Z * W;
  sched_get_priority_min : policy → W → Z * W;
  sched_get_priority_max : policy → W → Z * W;
  pthread_create : Z → Z → W → Z * Z * W;
  pthread_join : Z → W → Z * W;
}.
Arguments pthread_attr_init {W} _ _.
Arguments pthread_attr_destroy {W} _ _.
Arguments pthread_attr_setstacksize {W} _ _ _.
Arguments pthread_attr_setschedpolicy {W} _ _ _.
Arguments pthread_attr_setschedparam {W} _ _ _.
Arguments pthread_attr_setinheritsched {W} _ _ _.
Arguments sched_get_priority_min {W} _ _ _.
Arguments sched_get_priority_max {W} _ _ _.
Arguments pthread_create {W} _ _ _ _.
Arguments pthread_join {W} _ _ _.

(** The members of [Thread]; the attribute object is in [W]. *)
Record Members := mkMembers { param : Z; thread : Z }.
Definition set_param (p : Z) (m : Members) : Members := mkMembers p (thread m).
Definition set_handle (h : Z) (m : Members) : Members := mkMembers (param m) h.

(** *** Stack sizes: 64-bit [std::size_t], 8-byte words *)
Section StackSize.
(** [PTHREAD_STACK_MIN], when the platform defines it, and the answer of
    [sysconf(_SC_THREAD_STACK_MIN)], when that exists. *)
Context (PTHREAD_STACK_MIN : option Z) (runtime_min : option Z).

Definition minimum_stack_size : Z :=
  let fallback := 16384 in
  match PTHREAD_STACK_MIN with
  | Some min_stack => if decide (min_stack = 0) then fallback else min_stack
  | None =>
      match runtime_min with
      | Some m => if decide (0 < m) then m else fallback
      | None => fallback
      end
  end.

Definition sanitize_stack_size (requested : Z) : Z :=
  let min_stack := minimum_stack_size in
  if decide (requested = 0) then min_stack
  else
    let word_align := 8 - 1 in
    let aligned := Z.land ((requested + word_align) mod 2 ^ 64) (2 ^ 64 - 1 - word_align) in
    Z.max aligned min_stack.
End StackSize.

Section Backend.
Context `{Errno} `{SourceLocation} {Ev : Type} `{LogEvent Ev}.

Definition errno_to_thread_error (error_code : Z) : ThreadError :=
  if decide (error_code = EINVAL) then ThreadErrors.InvalidParameter
  else if decide (error_code = ENOMEM) then ThreadErrors.InsufficientMemory
  else if decide (error_code = EAGAIN) then ThreadErrors.ResourceLimitExceeded
  else if decide (error_code = EPERM) then ThreadErrors.PermissionDenied
  else if decide (error_code = ESRCH) then ThreadErrors.ThreadNotFound
  else if decide (error_code = EDEADLK) then ThreadErrors.Deadlock
  else if decide (error_code = EALREADY) then ThreadErrors.AlreadyCreated
  else ThreadErrors.Unknown.

Context {W : Type} (p : Pthreads W) (PTHREAD_STACK_MIN runtime_min : option Z).
Abbreviation M := (eff (ThreadObj Members W) Ev).

(** [std::clamp], undefined when the bounds are out of order. *)
Definition clamp (v lo hi : Z) : outcome Z :=
  if decide (hi < lo) then Stop Undefined else Done (Z.max lo (Z.min v hi)).

Definition configure_priority (priority : Z) : M Z :=
  if decide (priority < 0) then
    tsys (pthread_attr_setinheritsched p PTHREAD_INHERIT_SCHED);;
    mret 0
  else
    min_priority ← tsys (sched_get_priority_min p SCHED_FIFO);
    max_priority ← tsys (sched_get_priority_max p SCHED_FIFO);
    if decide (min_priority = -1 ∨ max_priority = -1) then
      tsys (pthread_attr_setinheritsched p PTHREAD_INHERIT_SCHED);;
      mret (- EINVAL)
    else
      clamped ← liftO (clamp priority min_priority max_priority);
      policy_rc ← tsys (pthread_attr_setschedpolicy p SCHED_FIFO);
      let policy_ok := bool_decide (policy_rc = 0) in
      param_ok ← (if policy_ok
                  then rc ← tsys (pthread_attr_setschedparam p clamped); mret (bool_decide (rc = 0))
                  else mret false);
      explicit_ok ← (if (param_ok : bool)
                     then rc ← tsys (pthread_attr_setinheritsched p PTHREAD_EXPLICIT_SCHED);
                          mret (bool_decide (rc = 0))
                     else mret false);
      if policy_ok && param_ok && explicit_ok then mret 0
      else
        tsys (pthread_attr_setschedpolicy p SCHED_OTHER);;
        tsys (pthread_attr_setinheritsched p PTHREAD_INHERIT_SCHED);;
        mret (- EPERM).

(** The [attempt_create] lambdas; they differ in the argument they pass. *)
Definition attempt_create (f : ThreadFunctionVariant) (size priority arg : Z) (force_inherit : bool)
    : M Z :=
  init_err ← tsys (pthread_attr_init p);
  if decide (init_err ≠ 0) then mret init_err
  else
    stack_err ← tsys (pthread_attr_setstacksize p size);
    if decide (stack_err ≠ 0) then tsys (pthread_attr_destroy p);; mret stack_err
    else
      (if force_inherit then
         tsys (pthread_attr_setschedpolicy p SCHED_OTHER);;
         tsys (pthread_attr_setinheritsched p PTHREAD_INHERIT_SCHED)
       else configure_priority priority);;
      match f with
      | ThreadFunction1 threadFun =>
          r ← tsys (pthread_create p threadFun arg);
          modify (IThread.set_derived (set_handle r.2));;
          tsys (pthread_attr_destroy p);;
          mret r.1
      | _ => tsys (pthread_attr_destroy p);; mret EINVAL
      end.

(** Lines 158-169 and 214-225: one attempt, and one more without real-time
    scheduling when that is what was refused. *)
Definition create_thread (f : ThreadFunctionVariant) (size priority arg : Z)
    : M (ErrorHandler () ThreadError) :=
  err0 ← attempt_create f size priority arg false;
  err ← (if decide (err0 = EPERM ∧ 0 ≤ priority)
         then attempt_create f size priority arg true else mret err0);
  if decide (err = 0) then
    modify (IThread.set_active true);;
    ok
  else fail "Thread::os_create" (errno_to_thread_error err) "pthread_create failed".

Definition os_create_params_posix (f : ThreadFunctionVariant) (stackInfo : ThreadStackInfo)
    (priority : Z) (params : ThreadParamVariant) : M (ErrorHandler () ThreadError) :=
  let size := sanitize_stack_size PTHREAD_STACK_MIN runtime_min (stack_size stackInfo) in
  modify (IThread.set_derived (set_param 0));;
  match params with
  | ThreadParamValue raw | ThreadParam1 raw =>
      modify (IThread.set_derived (set_param raw));;
      create_thread f size priority raw
  | _ => fail "Thread::os_create" ThreadErrors.InvalidParameter "Invalid thread parameter type"
  end.

Definition os_create_posix (f : ThreadFunctionVariant) (stackInfo : ThreadStackInfo) (priority : Z)
    : M (ErrorHandler () ThreadError) :=
  let size := sanitize_stack_size PTHREAD_STACK_MIN runtime_min (stack_size stackInfo) in
  modify (IThread.set_derived (set_param 0));;
  create_thread f size priority 0.

(** [do { err = pthread_join(...); } while (err == EINTR);] *)
Definition join_body (handle : Z) (w : W) : outcome (W + Z * W) :=
  let '(err, w') := pthread_join p handle w in
  if decide (err = EINTR) then Done (inl w') else Done (inr (err, w')).

Definition os_destroy_posix (fuel : nat) : M (ErrorHandler () ThreadError) :=
  s ← get;
  r ← liftO (loop fuel (join_body (thread (derived s))) (os s));
  tsys (λ _, ((), r.2));;
  if decide (r.1 = 0) then
    modify (IThread.set_active false);;
    ok
  else fail "Thread::os_destroy" (errno_to_thread_error r.1) "pthread_join failed".

#[export] Instance Thread (fuel : nat) : ThreadImplementation Members W Ev := {
  os_create_params := os_create_params_posix;
  os_create := os_create_posix;
  os_destroy := os_destroy_posix fuel;
}.
End Backend.
End PosixThread.

(** ** Zephyr *)

Module ZephyrThread.

Record Members := mkMembers { p1 : Z; p2 : Z; p3 : Z; thread_id : Z }.

(** [k_thread_create] (stack pointer and size, entry, three arguments,
    priority; no options, no delay) answers with the thread's identifier. *)
Record Kthreads (W : Type) := mkKthreads {
  k_thread_create : Z → Z → Z → Z → Z → Z → Z → W → Z * W;
  k_thread_join : Z → W → Z * W;
}.
Arguments k_thread_create {W} _ _ _ _ _ _ _ _ _.
Arguments k_thread_join {W} _ _ _.

Section Backend.
Context `{Errno} `{SourceLocation} {Ev : Type} `{LogEvent Ev}.

Definition errno_to_thread_error (error_code : Z) : ThreadError :=
  if decide (error_code = EINVAL) then ThreadErrors.InvalidParameter
  else if decide (error_code = EAGAIN) then ThreadErrors.ResourceLimitExceeded
  else if decide (error_code = ESRCH) then ThreadErrors.ThreadNotFound
  else if decide (error_code = EALREADY) then ThreadErrors.AlreadyCreated
  else ThreadErrors.Unknown.

Context {W : Type} (k : Kthreads W).
Abbreviation M := (eff (ThreadObj Members W) Ev).

(** Lines 39-60: the three argument slots. *)
Definition thread_args (params : ThreadParamVariant) : Z * Z * Z :=
  match params with
  | ThreadParam1 a => (a, 0, 0)
  | ThreadParam2 a b => (a, b, 0)
  | ThreadParam3 a b c => (a, b, c)
  | ThreadParamValue v => (v, 0, 0)
  end.

Definition create_thread (f : ThreadFunctionVariant) (stackInfo : ThreadStackInfo) (priority : Z)
    (args : Z * Z * Z) : M (ErrorHandler () ThreadError) :=
  match f with
  | ThreadFunction3 threadFun =>
      let '(a, b, c) := args in
      modify (IThread.set_derived (λ m, mkMembers a b c (thread_id m)));;
      tid ← tsys (k_thread_create k (stack_pointer stackInfo) (stack_size stackInfo) threadFun
                    a b c priority);
      modify (IThread.set_derived (λ m, mkMembers (p1 m) (p2 m) (p3 m) tid));;
      if decide (tid ≠ 0) then
        modify (IThread.set_active true);;
        ok
      else fail "Thread::os_create" ThreadErrors.CreationFailed "k_thread_create failed"
  | _ =>
      fail "Thread::os_create" ThreadErrors.InvalidParameter
        "Invalid thread function type for Zephyr"
  end.

Definition os_create_params_zephyr (f : ThreadFunctionVariant) (stackInfo : ThreadStackInfo)
    (priority : Z) (params : ThreadParamVariant) : M (ErrorHandler () ThreadError) :=
  create_thread f stackInfo priority (thread_args params).

Definition os_create_zephyr (f : ThreadFunctionVariant) (stackInfo : ThreadStackInfo) (priority : Z)
    : M (ErrorHandler () ThreadError) :=
  create_thread f stackInfo priority (0, 0, 0).

Definition os_destroy_zephyr : M (ErrorHandler () ThreadError) :=
  s ← get;
  err ← tsys (k_thread_join k (thread_id (derived s)));
  if decide (err = 0) then
    modify (IThread.set_active false);;
    ok
  else fail "Thread::os_destroy" (errno_to_thread_error (- err)) "k_thread_join failed".

#[export] Instance Thread : ThreadImplementation Members W Ev := {
  os_create_params := os_create_params_zephyr;
  os_create := os_create_zephyr;
  os_destroy := os_destroy_zephyr;
}.

(** [~Thread] of the Zephyr backend. *)
Definition Thread_dtor_zephyr : M () :=
  s ← get;
  if IThread.is_active s then IThread.destroy;; mret () else mret ().
End Backend.
End ZephyrThread.

(** ** Stack sizes *)

Lemma land_align8 x : 0 ≤ x < 2 ^ 64 → Z.land x (2 ^ 64 - 1 - 7) = x - x mod 8.
Proof.
  intros Hx. change (2 ^ 64 - 1 - 7) with (Z.shiftl (Z.ones 61) 3).
  transitivity (Z.shiftl (Z.shiftr x 3) 3).
  - apply Z.bits_inj'. intros n Hn. rewrite Z.land_spec, !Z.shiftl_spec by done.
    destruct (decide (n < 3)) as [Hl|Hl].
    { rewrite !(Z.testbit_neg_r _ (n - 3)) by lia. by rewrite andb_false_r. }
    rewrite Z.shiftr_spec by lia. replace (n - 3 + 3) with n by lia.
    destruct (decide (n < 64)) as [Hh|Hh].
    + rewrite Z.ones_spec_low by lia. by rewrite andb_true_r.
    + rewrite <- (Z.mod_small x (2 ^ 64)), Z.mod_pow2_bits_high by lia. done.
  - rewrite Z.shiftl_mul_pow2, Z.shiftr_div_pow2 by lia. change (2 ^ 3) with 8.
    pose proof (Z.div_mod x 8 ltac:(lia)). lia.
Qed.

(** The stack size handed to pthreads is never below the platform's minimum,
    is a whole number of words unless it is that minimum, and is the least such
    size that covers the request; a request so large that rounding up would
    wrap gets the minimum. *)
Theorem sanitize_stack_size_spec stack_min runtime_min requested :
  let min := PosixThread.minimum_stack_size stack_min runtime_min in
  let r := PosixThread.sanitize_stack_size stack_min runtime_min requested in
  0 ≤ requested < 2 ^ 64 → 0 < min →
  min ≤ r ∧ (r = min ∨ r mod 8 = 0) ∧
  (if decide (requested + 7 < 2 ^ 64)
   then requested ≤ r ∧ (r = min ∨ r < requested + 8)
   else r = min).
Proof.
  intros min r Hreq Hmin. subst r. unfold PosixThread.sanitize_stack_size. fold min.
  destruct (decide (requested = 0)) as [->|Hne].
  { split_and!; [lia|by left|]. case_decide; [|done]. split; [lia|by left]. }
  change (2 ^ 64 - 1 - (8 - 1)) with (2 ^ 64 - 1 - 7). change (8 - 1) with 7.
  rewrite land_align8 by (apply Z.mod_pos_bound; lia).
  destruct (decide (requested + 7 < 2 ^ 64)) as [Hs|Hs].
  - rewrite (Z.mod_small (requested + 7)) by lia.
    pose proof (Z.mod_pos_bound (requested + 7) 8 ltac:(lia)).
    pose proof (Z.div_mod (requested + 7) 8 ltac:(lia)).
    assert ((requested + 7 - (requested + 7) mod 8) mod 8 = 0) as Ea.
    { replace (requested + 7 - (requested + 7) mod 8) with ((requested + 7) / 8 * 8) by lia.
      by apply Z.mod_mul. }
    destruct (Z.max_spec (requested + 7 - (requested + 7) mod 8) min) as [[? ->]|[? ->]].
    + split_and!; [lia|by left|lia|by left].
    + split_and!; [lia|by right|lia|right; lia].
  - replace (requested + 7) with (requested + 7 - 2 ^ 64 + 1 * 2 ^ 64) by lia.
    rewrite Z.mod_add, (Z.mod_small (requested + 7 - 2 ^ 64)) by lia.
    rewrite (Z.mod_small (requested + 7 - 2 ^ 64) 8) by lia.
    rewrite Z.max_r by lia. split_and!; [lia|by left|done].
Qed.

Lemma sanitize_stack_size_spec_witness :
  let r := PosixThread.sanitize_stack_size (Some 16384) None 100001 in
  16384 ≤ r ∧ (r = 16384 ∨ r mod 8 = 0) ∧ 100001 ≤ r ∧ (r = 16384 ∨ r < 100001 + 8).
Proof. apply (sanitize_stack_size_spec (Some 16384) None 100001); [lia|vm_compute; reflexivity]. Defined.

(** ** One thread at a time *)

Inductive thread_op :=
| Create (f : ThreadFunctionVariant) (i : ThreadStackInfo) (priority : Z)
    (params : option ThreadParamVariant)
| Destroy.

Section Lifecycle.
Context {D W Ev : Type} `{ThreadImplementation D W Ev} `{LogEvent Ev} `{SourceLocation}.
Implicit Types s : ThreadObj D W.

(** The contract of a backend, in terms of the threads the operating system
    has started and joined for this object so far. *)
Class ThreadLaws := {
  spawned : W → Z;
  joined : W → Z;
  create_law : ∀ f i priority params s r s' t, active s = false →
    (match params with
     | Some ps => os_create_params f i priority ps
     | None => os_create f i priority
     end) s = Done (r, s', t) →
    active s' = has_value r ∧ joined (os s') = joined (os s) ∧
    spawned (os s') = spawned (os s) + (if has_value r then 1 else 0);
  destroy_law : ∀ s r s' t, active s = true → os_destroy s = Done (r, s', t) →
    active s' = negb (has_value r) ∧ spawned (os s') = spawned (os s) ∧
    joined (os s') = joined (os s) + (if has_value r then 1 else 0);
}.

Definition run_thread_op (o : thread_op) : eff (ThreadObj D W) Ev (ErrorHandler () ThreadError) :=
  match o with
  | Create f i priority (Some ps) => IThread.create_params f i priority ps
  | Create f i priority None => IThread.create f i priority
  | Destroy => IThread.destroy
  end.

Fixpoint run_thread_ops (ops : list thread_op) : eff (ThreadObj D W) Ev () :=
  match ops with
  | [] => mret ()
  | o :: ops' => run_thread_op o;; run_thread_ops ops'
  end.

Context `{!ThreadLaws}.

(** Threads started and not joined. *)
Definition balance s : Z := spawned (os s) - joined (os s) - (if active s then 1 else 0).

Lemma set_active_if (r : ErrorHandler () ThreadError) b s u s' t :
  (if operator_bool r then modify (IThread.set_active b) else mret ()) s = Done (u, s', t : list Ev) →
  active s' = (if has_value r then b else active s) ∧ os s' = os s.
Proof. unfold operator_bool. destruct (has_value r); intros Hr; by eff_inv. Qed.

(** [create] on an object without a thread, [destroy] on one with a thread. *)
Lemma create_with_effect f i priority params s r s' t :
  active s = false →
  IThread.create_with (match params with
                       | Some ps => os_create_params f i priority ps
                       | None => os_create f i priority
                       end) i priority s = Done (r, s', t) →
  active s' = has_value r ∧ joined (os s') = joined (os s) ∧
  spawned (os s') = spawned (os s) + (if has_value r then 1 else 0).
Proof.
  unfold IThread.create_with. autorewrite with eff. intros Ha. rewrite Ha. autorewrite with eff.
  intros (r1 & s1 & ? & ? & Hc & Hr & _)%bind_Done.
  apply create_law in Hc as (A1 & J1 & S1); [|done].
  apply bind_Done in Hr as (? & s2 & ? & ? & Hset & Hr & _).
  apply set_active_if in Hset as [A2 O2]. injection Hr as <- <- _.
  rewrite A2, O2, A1, J1, S1. by destruct (has_value r1).
Qed.

Lemma destroy_effect s r s' t :
  active s = true → IThread.destroy s = Done (r, s', t) →
  active s' = negb (has_value r) ∧ spawned (os s') = spawned (os s) ∧
  joined (os s') = joined (os s) + (if has_value r then 1 else 0).
Proof.
  unfold IThread.destroy. autorewrite with eff. intros Ha. rewrite Ha. cbn [negb].
  intros (r1 & s1 & ? & ? & Hc & Hr & _)%bind_Done.
  apply destroy_law in Hc as (A1 & S1 & J1); [|done].
  apply bind_Done in Hr as (? & s2 & ? & ? & Hset & Hr & _).
  apply set_active_if in Hset as [A2 O2]. injection Hr as <- <- _.
  rewrite A2, O2, A1, J1, S1. by destruct (has_value r1).
Qed.

Lemma create_with_balance f i priority params s r s' t :
  IThread.create_with (match params with
                       | Some ps => os_create_params f i priority ps
                       | None => os_create f i priority
                       end) i priority s = Done (r, s', t) →
  balance s' = balance s.
Proof.
  intros Hr. destruct (active s) eqn:Ha.
  - unfold IThread.create_with in Hr. autorewrite with eff in Hr. rewrite Ha in Hr.
    by apply fail_Done in Hr as [-> _].
  - destruct (create_with_effect _ _ _ _ _ _ _ _ Ha Hr) as (A & J & S).
    unfold balance. rewrite A, Ha, J, S. destruct (has_value r); lia.
Qed.

Lemma destroy_balance s r s' t : IThread.destroy s = Done (r, s', t) → balance s' = balance s.
Proof.
  intros Hr. destruct (active s) eqn:Ha.
  - destruct (destroy_effect _ _ _ _ Ha Hr) as (A & S & J).
    unfold balance. rewrite A, Ha, J, S. destruct (has_value r); cbn; lia.
  - unfold IThread.destroy in Hr. autorewrite with eff in Hr. rewrite Ha in Hr. cbn [negb] in Hr.
    unfold ok, of_value in Hr. by eff_inv.
Qed.

Lemma run_ops_balance ops s u s' t :
  run_thread_ops ops s = Done (u, s', t) → balance s' = balance s.
Proof.
  revert s t. induction ops as [|o ops IH]; cbn [run_thread_ops]; intros s t Hr.
  { by eff_inv. }
  apply bind_Done in Hr as (r & s1 & ? & ? & Ho & Hr & _). rewrite (IH _ _ Hr).
  destruct o as [f i priority [ps|]|]; cbn [run_thread_op] in Ho.
  - by apply (create_with_balance f i priority (Some ps)) in Ho.
  - by apply (create_with_balance f i priority None) in Ho.
  - by apply destroy_balance in Ho.
Qed.

(** A thread object never has more than one thread: whatever the sequence of
    [create] and [destroy] calls on a new object, it has started exactly one
    more thread than it has joined while it is active, and as many as it has
    joined while it is not. *)
Theorem one_thread_at_a_time ops name d w u s' t :
  run_thread_ops ops (IThread.IThread name d w) = Done (u, s', t) →
  spawned (os s') - spawned w =
    joined (os s') - joined w + (if active s' then 1 else 0).
Proof. intros Hr. apply run_ops_balance in Hr. unfold balance in Hr. cbn in Hr. lia. Qed.
End Lifecycle.
Arguments ThreadLaws D W Ev {_}.

(** *** POSIX keeps the contract *)

Lemma tsys_run {D W Ev A} (f : W → A * W) (s : ThreadObj D W) :
  tsys (Ev := Ev) f s =
    Done ((f (os s)).1, mkThread (active s) (thread_name s) (stack_info s) (thread_priority s)
                          (derived s) (f (os s)).2, []).
Proof. unfold tsys, zoom. by rewrite call_run. Qed.

(** [spawns] and [joins] count the threads the system has started and joined. *)
Record pthreads_laws {W} (p : PosixThread.Pthreads W) (spawns joins : W → Z) : Prop := {
  law_init : ∀ w, let w' := (PosixThread.pthread_attr_init p w).2 in
    spawns w' = spawns w ∧ joins w' = joins w;
  law_destroy : ∀ w, let w' := (PosixThread.pthread_attr_destroy p w).2 in
    spawns w' = spawns w ∧ joins w' = joins w;
  law_stack : ∀ n w, let w' := (PosixThread.pthread_attr_setstacksize p n w).2 in
    spawns w' = spawns w ∧ joins w' = joins w;
  law_policy : ∀ x w, let w' := (PosixThread.pthread_attr_setschedpolicy p x w).2 in
    spawns w' = spawns w ∧ joins w' = joins w;
  law_param : ∀ x w, let w' := (PosixThread.pthread_attr_setschedparam p x w).2 in
    spawns w' = spawns w ∧ joins w' = joins w;
  law_inherit : ∀ x w, let w' := (PosixThread.pthread_attr_setinheritsched p x w).2 in
    spawns w' = spawns w ∧ joins w' = joins w;
  law_min : ∀ x w, let w' := (PosixThread.sched_get_priority_min p x w).2 in
    spawns w' = spawns w ∧ joins w' = joins w;
  law_max : ∀ x w, let w' := (PosixThread.sched_get_priority_max p x w).2 in
    spawns w' = spawns w ∧ joins w' = joins w;
  law_create : ∀ f a w, let r := PosixThread.pthread_create p f a w in
    joins r.2 = joins w ∧ spawns r.2 = spawns w + (if decide (r.1.1 = 0) then 1 else 0);
  law_join : ∀ h w, let r := PosixThread.pthread_join p h w in
    spawns r.2 = spawns w ∧ joins r.2 = joins w + (if decide (r.1 = 0) then 1 else 0);
}.

Section PosixLifecycle.
Context `{Errno} `{SourceLocation} {Ev : Type} `{LogEvent Ev} {W : Type}.
Context (p : PosixThread.Pthreads W) (stack_min runtime_min : option Z) (spawns joins : W → Z).
Context (Hp : pthreads_laws p spawns joins).
Import PosixThread.
Abbreviation obj := (ThreadObj Members W).
Implicit Types s : obj.

(** Computations that neither start nor join a thread nor touch [active]. *)
Definition quiet {A} (m : eff obj Ev A) : Prop :=
  ∀ s x s' t, m s = Done (x, s', t) →
    active s' = active s ∧ spawns (os s') = spawns (os s) ∧ joins (os s') = joins (os s).

Lemma quiet_ret {A} (x : A) : quiet (mret x).
Proof. intros s y s' t [= <- <- _]. done. Qed.

Lemma quiet_bind {A B} (m : eff obj Ev A) (f : A → eff obj Ev B) :
  quiet m → (∀ x, quiet (f x)) → quiet (m ≫= f).
Proof.
  intros Hm Hf s y s' t (x & s1 & ? & ? & H1' & H2' & _)%bind_Done.
  apply Hm in H1' as (?&?&?). apply Hf in H2' as (?&?&?). split_and!; congruence.
Qed.

Lemma quiet_tsys {A} (f : W → A * W) :
  (∀ w, spawns (f w).2 = spawns w ∧ joins (f w).2 = joins w) → quiet (tsys f).
Proof. intros Hf s x s' t. rewrite tsys_run. intros [= _ <- _]. cbn. by destruct (Hf (os s)). Qed.

Lemma quiet_if {A} (P : Prop) `{Decision P} (m1 m2 : eff obj Ev A) :
  quiet m1 → quiet m2 → quiet (if decide P then m1 else m2).
Proof. by case_decide. Qed.

Lemma quiet_ifb {A} (b : bool) (m1 m2 : eff obj Ev A) :
  quiet m1 → quiet m2 → quiet (if b then m1 else m2).
Proof. by destruct b. Qed.

Lemma quiet_liftO {A} (o : outcome A) : quiet (liftO o).
Proof. intros s x s' t (_ & -> & _)%liftO_Done. done. Qed.

Lemma quiet_derived f : quiet (modify (IThread.set_derived f)).
Proof. intros s x s' t [= _ <- _]. done. Qed.

Lemma quiet_init : quiet (tsys (pthread_attr_init p)).
Proof. apply quiet_tsys, (law_init _ _ _ Hp). Qed.
Lemma quiet_destroy : quiet (tsys (pthread_attr_destroy p)).
Proof. apply quiet_tsys, (law_destroy _ _ _ Hp). Qed.
Lemma quiet_stack n : quiet (tsys (pthread_attr_setstacksize p n)).
Proof. apply quiet_tsys, (law_stack _ _ _ Hp). Qed.
Lemma quiet_policy x : quiet (tsys (pthread_attr_setschedpolicy p x)).
Proof. apply quiet_tsys, (law_policy _ _ _ Hp). Qed.
Lemma quiet_param x : quiet (tsys (pthread_attr_setschedparam p x)).
Proof. apply quiet_tsys, (law_param _ _ _ Hp). Qed.
Lemma quiet_inherit x : quiet (tsys (pthread_attr_setinheritsched p x)).
Proof. apply quiet_tsys, (law_inherit _ _ _ Hp). Qed.
Lemma quiet_min x : quiet (tsys (sched_get_priority_min p x)).
Proof. apply quiet_tsys, (law_min _ _ _ Hp). Qed.
Lemma quiet_max x : quiet (tsys (sched_get_priority_max p x)).
Proof. apply quiet_tsys, (law_max _ _ _ Hp). Qed.

Create HintDb quiet.
#[local] Hint Resolve quiet_ret quiet_bind quiet_if quiet_ifb quiet_liftO quiet_derived quiet_init
  quiet_destroy quiet_stack quiet_policy quiet_param quiet_inherit quiet_min quiet_max : quiet.

Lemma configure_priority_quiet priority : quiet (configure_priority p priority).
Proof. unfold configure_priority. eauto 40 with quiet. Qed.

(** What an attempt or a whole [os_create] does to the counters. *)
Definition starts {A} (done : A → bool) (m : eff obj Ev A) : Prop :=
  ∀ s x s' t, m s = Done (x, s', t) →
    active s' = active s ∧ joins (os s') = joins (os s) ∧
    spawns (os s') = spawns (os s) + (if done x then 1 else 0).

Lemma starts_quiet_bind {A B} (done : B → bool) (m : eff obj Ev A) (f : A → eff obj Ev B) :
  quiet m → (∀ x, starts done (f x)) → starts done (m ≫= f).
Proof.
  intros Hm Hf s y s' t (x & s1 & ? & ? & H1' & H2' & _)%bind_Done.
  apply Hm in H1' as (?&?&?). apply Hf in H2' as (?&?&?). split_and!; congruence.
Qed.

Lemma starts_not {A B} (done : A → bool) (x : A) (m : eff obj Ev B) :
  done x = false → quiet m → starts done (m;; mret x).
Proof.
  intros Hx Hm s y s' t (? & s1 & ? & ? & H1' & H2' & _)%bind_Done.
  injection H2' as <- <- _. apply Hm in H1' as (?&?&?). rewrite Hx. split_and!; [done..|lia].
Qed.

Definition is_zero (err : Z) : bool := bool_decide (err = 0).

Lemma attempt_starts f size priority arg force_inherit :
  starts is_zero (attempt_create p f size priority arg force_inherit).
Proof.
  assert (∀ err, err ≠ 0 → starts is_zero (mret err : eff obj Ev Z)) as Hfail.
  { intros err Herr s x s' t [= <- <- _]. unfold is_zero.
    rewrite bool_decide_eq_false_2 by done. split_and!; [done..|lia]. }
  assert (EINVAL ≠ 0) as Hinval by (pose proof errno_pos; lia).
  assert (∀ err, err ≠ 0 → is_zero err = false) as Hz.
  { intros. by apply bool_decide_eq_false_2. }
  unfold attempt_create. apply starts_quiet_bind; [auto with quiet|]. intros err. case_decide; [auto|].
  apply starts_quiet_bind; [auto with quiet|]. intros err2. case_decide.
  { apply starts_not; auto with quiet. }
  apply starts_quiet_bind.
  { destruct force_inherit; [eauto with quiet|apply configure_priority_quiet]. }
  intros _. destruct f as [e| |]; [|by apply starts_not; auto with quiet..].
  intros s x s' t (r & s1 & ? & ? & Hc & Hr & _)%bind_Done.
  rewrite tsys_run in Hc. injection Hc as <- <- _.
  destruct (law_create _ _ _ Hp e arg (os s)) as [Jc Sc].
  autorewrite with eff in Hr. apply bind_Done in Hr as (? & s2 & ? & ? & Hd & Hr & _).
  injection Hr as <- <- _. apply quiet_destroy in Hd as (A2 & S2 & J2). cbn in *.
  split_and!; [done|congruence|]. unfold is_zero. rewrite S2, Sc.
  case_decide; [by rewrite bool_decide_eq_true_2|by rewrite bool_decide_eq_false_2].
Qed.

(** Since [EPERM] is not success, a retry follows an attempt that started
    nothing. *)
Lemma create_thread_law f size priority arg s r s' t :
  active s = false → create_thread p f size priority arg s = Done (r, s', t) →
  active s' = has_value r ∧ joins (os s') = joins (os s) ∧
  spawns (os s') = spawns (os s) + (if has_value r then 1 else 0).
Proof.
  intros Ha (err0 & s1 & ? & ? & H0' & Hr & _)%bind_Done.
  apply attempt_starts in H0' as (A1 & J1 & S1).
  apply bind_Done in Hr as (err & s2 & ? & ? & H2' & Hr & _).
  assert (active s2 = false ∧ joins (os s2) = joins (os s) ∧
    spawns (os s2) = spawns (os s) + (if is_zero err then 1 else 0)) as (A2 & J2 & S2).
  { case_if H2' as [[-> _]|Hn].
    - apply attempt_starts in H2' as (A2 & J2 & S2). unfold is_zero in S1.
      rewrite bool_decide_eq_false_2 in S1 by (pose proof errno_pos; lia).
      split_and!; congruence || lia.
    - injection H2' as <- <- _. split_and!; congruence. }
  unfold is_zero in S2. case_if Hr as [E|E].
  - autorewrite with eff in Hr. apply ok_Done in Hr as [-> ->]. cbn.
    rewrite bool_decide_eq_true_2 in S2 by done. auto.
  - apply fail_Done in Hr as [-> ->]. cbn.
    rewrite bool_decide_eq_false_2 in S2 by done. auto.
Qed.

Lemma posix_create_law f i priority params s r s' t :
  active s = false →
  (match params with
   | Some ps => os_create_params_posix p stack_min runtime_min f i priority ps
   | None => os_create_posix p stack_min runtime_min f i priority
   end) s = Done (r, s', t) →
  active s' = has_value r ∧ joins (os s') = joins (os s) ∧
  spawns (os s') = spawns (os s) + (if has_value r then 1 else 0).
Proof.
  intros Ha Hr. destruct params as [[]|];
    unfold os_create_params_posix, os_create_posix in Hr; autorewrite with eff in Hr;
    try (apply create_thread_law in Hr; exact Hr || exact Ha);
    (apply fail_Done in Hr as [-> ->]; cbn; split_and!; [done..|lia]).
Qed.

Lemma join_body_run h w :
  join_body p h w =
    (if decide ((pthread_join p h w).1 = EINTR) then Done (inl (pthread_join p h w).2)
     else Done (inr (pthread_join p h w))).
Proof. unfold join_body. by destruct (pthread_join p h w). Qed.

Lemma join_loop_law h fuel w err w' :
  loop fuel (join_body p h) w = Done (err, w') →
  spawns w' = spawns w ∧ joins w' = joins w + (if decide (err = 0) then 1 else 0).
Proof.
  revert w. induction fuel as [|fuel IH]; intros w; cbn; [done|].
  rewrite join_body_run. pose proof (law_join _ _ _ Hp h w) as [Sj Jj].
  destruct (pthread_join p h w) as [e w1]. cbn in *. destruct (decide (e = EINTR)) as [E|E].
  - intros Hr. apply IH in Hr as [-> ->]. rewrite Sj, Jj. split; [done|].
    rewrite (decide_False (P := e = 0)) by (pose proof errno_pos; lia). lia.
  - intros [= <- <-]. auto.
Qed.

Lemma posix_destroy_law fuel s r s' t :
  active s = true → os_destroy_posix p fuel s = Done (r, s', t) →
  active s' = negb (has_value r) ∧ spawns (os s') = spawns (os s) ∧
  joins (os s') = joins (os s) + (if has_value r then 1 else 0).
Proof.
  unfold os_destroy_posix. autorewrite with eff. intros Ha Hr.
  apply bind_Done in Hr as ([err w'] & s1 & ? & ? & Hl & Hr & _).
  apply liftO_Done in Hl as (Hl & -> & _). apply join_loop_law in Hl as [Sj Jj].
  apply bind_Done in Hr as (? & s2 & ? & ? & Hc & Hr & _).
  rewrite tsys_run in Hc. injection Hc as <- <- _. cbn [fst snd] in *.
  case_if Hr as [E|E].
  - autorewrite with eff in Hr. apply ok_Done in Hr as [-> ->]. done.
  - apply fail_Done in Hr as [-> ->]. done.
Qed.

Definition posix_thread_laws fuel :
  @ThreadLaws Members W Ev (Thread p stack_min runtime_min fuel) :=
  @Build_ThreadLaws _ _ _ (Thread p stack_min runtime_min fuel) spawns joins
    posix_create_law (posix_destroy_law fuel).
End PosixLifecycle.

(** *** Zephyr keeps the contract *)

Record kthreads_laws {W} (k : ZephyrThread.Kthreads W) (spawns joins : W → Z) : Prop := {
  law_k_create : ∀ sp sz f a b c prio w,
    let r := ZephyrThread.k_thread_create k sp sz f a b c prio w in
    joins r.2 = joins w ∧ spawns r.2 = spawns w + (if decide (r.1 = 0) then 0 else 1);
  law_k_join : ∀ h w, let r := ZephyrThread.k_thread_join k h w in
    spawns r.2 = spawns w ∧ joins r.2 = joins w + (if decide (r.1 = 0) then 1 else 0);
}.

Section ZephyrLifecycle.
Context `{Errno} `{SourceLocation} {Ev : Type} `{LogEvent Ev} {W : Type}.
Context (k : ZephyrThread.Kthreads W) (spawns joins : W → Z).
Context (Hk : kthreads_laws k spawns joins).
Import ZephyrThread.
Implicit Types s : ThreadObj Members W.

Lemma zephyr_create_law f i priority args s r s' (t : list Ev) :
  active s = false → create_thread k f i priority args s = Done (r, s', t) →
  active s' = has_value r ∧ joins (os s') = joins (os s) ∧
  spawns (os s') = spawns (os s) + (if has_value r then 1 else 0).
Proof.
  intros Ha Hr. destruct f as [e|e|e]; cbn [create_thread] in Hr.
  - apply fail_Done in Hr as [-> ->]. cbn. split_and!; [done..|lia].
  - apply fail_Done in Hr as [-> ->]. cbn. split_and!; [done..|lia].
  - destruct args as [[a b] c]. autorewrite with eff in Hr.
    apply bind_Done in Hr as (tid & s1 & ? & ? & Hc & Hr & _).
    rewrite tsys_run in Hc. injection Hc as <- <- _. cbn [os IThread.set_derived] in *.
    destruct (law_k_create _ _ _ Hk (stack_pointer i) (stack_size i) e a b c priority (os s)) as [Jc Sc].
    autorewrite with eff in Hr. case_if Hr as [E|E].
    + autorewrite with eff in Hr. apply ok_Done in Hr as [-> ->]. cbn.
      rewrite Jc, Sc, decide_False by done. done.
    + apply fail_Done in Hr as [-> ->]. cbn. rewrite Jc, Sc, decide_True by lia. done.
Qed.

Lemma zephyr_destroy_law s r s' (t : list Ev) :
  active s = true → os_destroy_zephyr k s = Done (r, s', t) →
  active s' = negb (has_value r) ∧ spawns (os s') = spawns (os s) ∧
  joins (os s') = joins (os s) + (if has_value r then 1 else 0).
Proof.
  unfold os_destroy_zephyr. autorewrite with eff. intros Ha Hr.
  apply bind_Done in Hr as (err & s1 & ? & ? & Hc & Hr & _).
  rewrite tsys_run in Hc. injection Hc as <- <- _.
  destruct (law_k_join _ _ _ Hk (thread_id (derived s)) (os s)) as [Sj Jj].
  case_if Hr as [E|E].
  - autorewrite with eff in Hr. apply ok_Done in Hr as [-> ->]. done.
  - apply fail_Done in Hr as [-> ->]. done.
Qed.

Definition zephyr_thread_laws : @ThreadLaws Members W Ev (Thread k).
Proof.
  refine (@Build_ThreadLaws _ _ _ (Thread k) spawns joins _ zephyr_destroy_law).
  intros f i priority [ps|] s r s' t Ha Hr.
  - exact (zephyr_create_law f i priority (thread_args ps) s r s' t Ha Hr).
  - exact (zephyr_create_law f i priority (0, 0, 0) s r s' t Ha Hr).
Defined.
End ZephyrLifecycle.

(** ** Joining *)

(** [pthread_join] is interrupted [n] times between [w] and [w']. *)
Inductive interrupted `{Errno} {W} (p : PosixThread.Pthreads W) (h : Z) : nat → W → W → Prop :=
| interrupted_0 w : interrupted p h 0 w w
| interrupted_S n w w1 w' :
    PosixThread.pthread_join p h w = (EINTR, w1) → interrupted p h n w1 w' →
    interrupted p h (S n) w w'.

Lemma join_loop_run `{Errno} {W} (p : PosixThread.Pthreads W) h n w w1 err w2 :
  interrupted p h n w w1 → PosixThread.pthread_join p h w1 = (err, w2) → err ≠ EINTR →
  ∀ fuel, (n < fuel)%nat → loop fuel (PosixThread.join_body p h) w = Done (err, w2).
Proof.
  intros Hi Hj Herr. induction Hi as [w|n w w1' w' Hw Hi IH]; intros [|fuel] Hf; [lia| |lia|].
  - cbn. rewrite join_body_run, Hj. by rewrite (decide_False (P := err = EINTR)).
  - cbn. rewrite join_body_run, Hw. cbn [fst snd]. rewrite (decide_True (P := EINTR = EINTR)) by done.
    apply IH; [done|lia].
Qed.

(** [destroy] on an active POSIX thread outlives any number of interruptions
    of the join: it comes back as soon as the join does, reports success
    exactly when the join did, and then the object is inactive. *)
Theorem destroy_joins `{Errno} `{SourceLocation} {Ev} `{LogEvent Ev} {W}
    (p : PosixThread.Pthreads W) stack_min runtime_min n fuel err w1 w2
    (s : ThreadObj PosixThread.Members W) :
  active s = true →
  interrupted p (PosixThread.thread (derived s)) n (os s) w1 →
  PosixThread.pthread_join p (PosixThread.thread (derived s)) w1 = (err, w2) → err ≠ EINTR →
  (n < fuel)%nat →
  ∃ r s' t, @IThread.destroy _ _ _ (PosixThread.Thread (Ev := Ev) p stack_min runtime_min fuel) s =
      Done (r, s', t) ∧
    os s' = w2 ∧ has_value r = bool_decide (err = 0) ∧ active s' = negb (bool_decide (err = 0)).
Proof.
  intros Ha Hi Hj Herr Hf. unfold IThread.destroy. rewrite get_bind, Ha. cbn [negb].
  rewrite bind_run. cbn [os_destroy PosixThread.Thread]. unfold PosixThread.os_destroy_posix.
  rewrite get_bind, bind_run. unfold liftO.
  rewrite (join_loop_run _ _ _ _ _ _ _ Hi Hj Herr _ Hf).
  rewrite bind_run, tsys_run. cbn [fst snd active thread_name stack_info thread_priority derived os].
  destruct (decide (err = 0)) as [->|He].
  - rewrite bool_decide_eq_true_2 by done. rewrite modify_bind. do 3 eexists. split; [reflexivity|].
    done.
  - rewrite bool_decide_eq_false_2 by done. do 3 eexists. split; [reflexivity|]. done.
Qed.

(** ** Creating a thread without real-time privileges *)

(** A system that may refuse real-time scheduling with [EPERM], but not a
    thread with inherited scheduling and a large enough stack. *)
Record unprivileged {W} `{Errno} (p : PosixThread.Pthreads W) (min_size : Z) (inherits : W → bool) : Prop := {
  ok_init : ∀ w, (PosixThread.pthread_attr_init p w).1 = 0;
  ok_stack : ∀ n w, min_size ≤ n → (PosixThread.pthread_attr_setstacksize p n w).1 = 0;
  ok_range : ∀ w w', (PosixThread.sched_get_priority_min p PosixThread.SCHED_FIFO w).1 ≤
    (PosixThread.sched_get_priority_max p PosixThread.SCHED_FIFO w').1;
  ok_inherit : ∀ w, inherits
    (PosixThread.pthread_attr_setinheritsched p PosixThread.PTHREAD_INHERIT_SCHED w).2 = true;
  ok_create : ∀ f a w, let rc := (PosixThread.pthread_create p f a w).1.1 in
    if inherits w then rc = 0 else rc = 0 ∨ rc = EPERM;
}.

Section Unprivileged.
Context `{Errno} `{SourceLocation} {Ev : Type} `{LogEvent Ev} {W : Type}.
Context (p : PosixThread.Pthreads W) (stack_min runtime_min : option Z) (inherits : W → bool).
Context (Hu : unprivileged p (PosixThread.minimum_stack_size stack_min runtime_min) inherits).
Import PosixThread.
Abbreviation obj := (ThreadObj Members W).
Implicit Types s : obj.

Lemma sanitize_min requested :
  minimum_stack_size stack_min runtime_min ≤ sanitize_stack_size stack_min runtime_min requested.
Proof. unfold sanitize_stack_size. case_decide; lia. Qed.

(** Computations that only change the operating system, and come back. *)
Definition only_os {A} (m : eff obj Ev A) : Prop :=
  ∀ s, ∃ x w t, m s = Done (x, mkThread (active s) (thread_name s) (stack_info s)
                                 (thread_priority s) (derived s) w, t).

Lemma only_os_ret {A} (x : A) : only_os (mret x).
Proof. intros [a n i pr d w]. by exists x, w, []. Qed.

Lemma only_os_tsys {A} (f : W → A * W) : only_os (tsys f).
Proof. intros s. rewrite tsys_run. eauto. Qed.

Lemma only_os_bind {A B} (m : eff obj Ev A) (f : A → eff obj Ev B) :
  only_os m → (∀ x, only_os (f x)) → only_os (m ≫= f).
Proof.
  intros Hm Hf s. destruct (Hm s) as (x & w & t & E).
  destruct (Hf x (mkThread (active s) (thread_name s) (stack_info s) (thread_priority s)
                    (derived s) w)) as (y & w' & t' & E').
  exists y, w', (t ++ t'). by rewrite bind_run, E, E'.
Qed.

Lemma only_os_if {A} (b : bool) (m1 m2 : eff obj Ev A) :
  only_os m1 → only_os m2 → only_os (if b then m1 else m2).
Proof. by destruct b. Qed.

Lemma only_os_dec {A} P `{Decision P} (m1 m2 : eff obj Ev A) :
  only_os m1 → only_os m2 → only_os (if decide P then m1 else m2).
Proof. by case_decide. Qed.

Lemma only_os_clamp {A} v lo hi (f : Z → eff obj Ev A) :
  lo ≤ hi → (∀ x, only_os (f x)) → only_os (liftO (clamp v lo hi) ≫= f).
Proof.
  intros Hl Hf s. rewrite bind_run. unfold clamp. rewrite decide_False by lia. cbn [liftO].
  destruct (Hf (Z.max lo (Z.min v hi)) s) as (x & w & t & ->). eauto.
Qed.

Create HintDb only_os.
#[local] Hint Resolve only_os_ret only_os_tsys only_os_bind only_os_if only_os_dec : only_os.

Lemma configure_priority_run priority : only_os (configure_priority (Ev := Ev) p priority).
Proof.
  unfold configure_priority. apply only_os_dec; [auto with only_os|]. intros s.
  pose proof (ok_range _ _ _ Hu (os s) (sched_get_priority_min p SCHED_FIFO (os s)).2) as Hl.
  rewrite bind_run, tsys_run, bind_run, tsys_run.
  cbn [os active thread_name stack_info thread_priority derived].
  set (lo := (sched_get_priority_min p SCHED_FIFO (os s)).1) in *.
  set (s1 := mkThread _ _ _ _ _ _). set (hi := (sched_get_priority_max p SCHED_FIFO _).1) in *.
  match goal with |- context [(if decide ?P then ?m1 else ?m2) s1] =>
    assert (only_os (if decide P then m1 else m2)) as Ho end.
  { apply only_os_dec; [auto with only_os|]. apply only_os_clamp; [done|]. auto 20 with only_os. }
  destruct (Ho s1) as (x & w & t & ->). cbn. eauto.
Qed.

(** One attempt: it comes back with success or a refusal, and with success when
    it does not ask for real-time scheduling. *)
Lemma attempt_create_run e requested priority arg force_inherit s :
  let size := sanitize_stack_size stack_min runtime_min requested in
  ∃ err s' t, attempt_create p (ThreadFunction1 e) size priority arg force_inherit s =
      Done (err, s', t : list Ev) ∧
    (err = 0 ∨ err = EPERM) ∧ (force_inherit = true ∨ priority < 0 → err = 0) ∧
    param (derived s') = param (derived s).
Proof.
  intros size. unfold attempt_create. rewrite bind_run, tsys_run, (ok_init _ _ _ Hu).
  rewrite (decide_False (P := 0 ≠ 0)) by tauto. rewrite bind_run, tsys_run.
  cbn [os active thread_name stack_info thread_priority derived].
  rewrite (ok_stack _ _ _ Hu) by apply sanitize_min. rewrite (decide_False (P := 0 ≠ 0)) by tauto.
  set (s1 := mkThread _ _ _ _ _ _). rewrite bind_run.
  assert (∃ x w t, (if force_inherit
      then tsys (pthread_attr_setschedpolicy p SCHED_OTHER);;
           tsys (pthread_attr_setinheritsched p PTHREAD_INHERIT_SCHED)
      else configure_priority p priority) s1 =
      Done (x, mkThread (active s1) (thread_name s1) (stack_info s1) (thread_priority s1) (derived s1) w, t : list Ev) ∧
    (force_inherit = true ∨ priority < 0 → inherits w = true)) as (x & w & t & -> & Hi).
  { destruct force_inherit.
    - rewrite bind_run, tsys_run, tsys_run. do 3 eexists. split; [reflexivity|]. intros _.
      apply (ok_inherit _ _ _ Hu).
    - destruct (decide (priority < 0)) as [Hp|Hp].
      + unfold configure_priority. rewrite decide_True by done. rewrite bind_run, tsys_run.
        do 3 eexists. split; [reflexivity|]. intros _. apply (ok_inherit _ _ _ Hu).
      + destruct (configure_priority_run priority s1) as (x & w & t & E).
        exists x, w, t. split; [exact E|]. intros [|]; done. }
  pose proof (ok_create _ _ _ Hu e arg w) as Hc. cbv zeta in Hc.
  rewrite bind_run, tsys_run. cbn [os active thread_name stack_info thread_priority derived].
  rewrite modify_bind, bind_run, tsys_run. do 3 eexists. split; [reflexivity|].
  split_and!; [destruct (inherits w); auto| |done].
  intros Hf. by rewrite Hi in Hc.
Qed.

(** Real-time scheduling is optional: if all the system refuses is the
    real-time priority, [create] with a usable entry point and parameter
    always starts the thread - falling back to the inherited scheduling when
    the first attempt is not permitted - and records the parameter. *)
Theorem create_without_privilege e i priority raw params s :
  params = ThreadParam1 raw ∨ params = ThreadParamValue raw → active s = false →
  ∃ s' t, @IThread.create_params _ _ _ (Thread (Ev := Ev) p stack_min runtime_min 1) _ _
      (ThreadFunction1 e) i priority params s = Done (is_ok, s', t) ∧
    active s' = true ∧ param (derived s') = raw.
Proof.
  intros Hpar Ha. unfold IThread.create_params, IThread.create_with.
  rewrite get_bind, Ha, modify_bind, bind_run. cbn [os_create_params Thread].
  assert (∀ s, ∃ s' t, os_create_params_posix p stack_min runtime_min (ThreadFunction1 e) i priority
    params s = Done (is_ok, s', t : list Ev) ∧ param (derived s') = raw) as Hos.
  { clear s Ha. intros s.
    assert (os_create_params_posix (Ev := Ev) p stack_min runtime_min (ThreadFunction1 e) i priority params s =
      create_thread p (ThreadFunction1 e) (sanitize_stack_size stack_min runtime_min (stack_size i))
        priority raw (IThread.set_derived (set_param raw) (IThread.set_derived (set_param 0) s))) as ->.
    { unfold os_create_params_posix. destruct Hpar as [-> | ->]; by rewrite !modify_bind. }
    set (s0 := IThread.set_derived _ _). unfold create_thread. rewrite bind_run.
    destruct (attempt_create_run e (stack_size i) priority raw false s0)
      as (err & s1 & t1 & -> & He & Hneg & Hd).
    rewrite bind_run. destruct (decide (err = EPERM ∧ 0 ≤ priority)) as [Hr|Hr].
    - destruct (attempt_create_run e (stack_size i) priority raw true s1)
        as (err' & s2 & t2 & -> & _ & Hz & Hd').
      rewrite decide_True by auto. rewrite modify_bind. do 2 eexists. split; [reflexivity|].
      cbn. by rewrite Hd', Hd.
    - assert (err = 0) as -> by (destruct He as [|He]; [done|]; apply Hneg; right; lia).
      cbn [mret eff_ret]. rewrite decide_True by done. rewrite modify_bind.
      do 2 eexists. split; [reflexivity|]. cbn. by rewrite Hd. }
  destruct (Hos (IThread.set_thread_info i priority s)) as (s' & t & -> & Hd).
  do 2 eexists. split; [reflexivity|]. done.
Qed.
End Unprivileged.

(** ** A concrete system: threads need inherited scheduling, and the next joins
    are interrupted *)
#[local] Instance toy_location : SourceLocation := λ s, s.

Record toy_system := mkToy { t_inherit : bool; t_spawned : Z; t_joined : Z; t_interrupts : nat }.

Definition toy_pthreads : PosixThread.Pthreads toy_system :=
  PosixThread.mkPthreads toy_system (λ w, (0, w)) (λ w, (0, w)) (λ _ w, (0, w)) (λ _ w, (0, w))
    (λ _ w, (0, w))
    (λ x w, (0, mkToy (match x with PosixThread.PTHREAD_INHERIT_SCHED => true | _ => false end)
                  (t_spawned w) (t_joined w) (t_interrupts w)))
    (λ _ w, (1, w)) (λ _ w, (99, w))
    (λ _ _ w, if t_inherit w
              then (0, 5, mkToy true (t_spawned w + 1) (t_joined w) (t_interrupts w)) else (1, 0, w))
    (λ _ w, match t_interrupts w with
            | S n => (4, mkToy (t_inherit w) (t_spawned w) (t_joined w) n)
            | O => (0, mkToy (t_inherit w) (t_spawned w) (t_joined w + 1) 0)
            end).

Lemma toy_pthreads_laws : pthreads_laws toy_pthreads t_spawned t_joined.
Proof.
  split; try done.
  - intros f a w. cbn. destruct (t_inherit w); (split; [done|]); case_decide; cbn in *; done || lia.
  - intros h w. cbn. destruct (t_interrupts w); (split; [done|]); case_decide; cbn in *; done || lia.
Qed.

Lemma toy_unprivileged : @unprivileged _ linux_errno toy_pthreads 16384 t_inherit.
Proof. split; try done. intros f a w. cbn. destruct (t_inherit w); [done|by right]. Qed.

Abbreviation toy_impl :=
  (@PosixThread.Thread linux_errno _ LogCall _ _ toy_pthreads (Some 16384) None).

Lemma create_without_privilege_witness :
  ∃ s' t, @IThread.create_params _ _ _ (toy_impl 1) _ _
      (ThreadFunction1 64) (mkStack 4096 0) 20 (ThreadParam1 77)
      (IThread.IThread "BleScan" (PosixThread.mkMembers 0 0) (mkToy false 0 0 0)) =
      Done (is_ok, s', t) ∧
    active s' = true ∧ PosixThread.param (derived s') = 77.
Proof.
  apply (@create_without_privilege linux_errno _ LogCall _ _ toy_pthreads (Some 16384) None t_inherit
    toy_unprivileged); [by left|reflexivity].
Defined.

Lemma one_thread_at_a_time_witness :
  let w := mkToy false 0 0 2 in
  let s' := mkThread false (Names.name_buffer "t") (mkStack 0 0) 3 (PosixThread.mkMembers 0 5)
              (mkToy true 1 1 0) in
  t_spawned (os s') - t_spawned w =
    t_joined (os s') - t_joined w + (if active s' then 1 else 0).
Proof.
  intros w s'.
  refine (@one_thread_at_a_time _ _ _ (toy_impl 3) _ _
    (@posix_thread_laws linux_errno _ LogCall _ _ toy_pthreads (Some 16384) None t_spawned t_joined
      toy_pthreads_laws 3)
    [Create (ThreadFunction1 64) (mkStack 0 0) 3 None; Create (ThreadFunction1 64) (mkStack 0 0) 3 None;
     Destroy; Destroy]
    "t" (PosixThread.mkMembers 0 0) w () s' _ _).
  vm_compute. reflexivity.
Defined.

Lemma destroy_joins_witness :
  let s := mkThread true [] (mkStack 0 0) 0 (PosixThread.mkMembers 0 5) (mkToy true 1 0 2) in
  ∃ r s' t, @IThread.destroy _ _ _ (toy_impl 3) s = Done (r, s', t) ∧
    os s' = mkToy true 1 1 0 ∧ has_value r = bool_decide (0 = 0) ∧
    active s' = negb (bool_decide (0 = 0)).
Proof.
  intros s. apply (@destroy_joins linux_errno _ LogCall _ _ toy_pthreads (Some 16384) None 2 3 0
    (mkToy true 1 0 0) (mkToy true 1 1 0) s).
  - reflexivity.
  - do 2 (eapply interrupted_S; [reflexivity|]). apply interrupted_0.
  - reflexivity.
  - discriminate.
  - lia.
Defined.
