(* ===== verification/Ble.v ===== *)
(** * BLE scanners (platform/common/ible; the POSIX/BlueZ and Zephyr backends)

    The CRTP base [IBle], the HCI scanner with its life cycle and its scan loop
    - the HCI event filter and the advertising-report parser - and the Zephyr
    scanner with its static instance pointer. Buffer positions are offsets; an
    address past the buffer that is only compared is an ordinary number. *)

From stdpp Require Import prelude list strings gmap.
From Stdlib Require Import ZArith Lia Ascii.
From S2P Require Import Prelude Logger ErrorHandler ErrorCodes Types Sync Threads.

(** An invocation of the advertisement callback, with its arguments. *)
Record adv_call := mkAdv {
  adv_fn : nat;
  adv_ctx : Z;
  adv_addr : bytes;
  adv_addr_type : Z;
  adv_adv_type : Z;
  adv_rssi : Z;
  adv_data : bytes;
}.

Class AdvEvent (Ev : Type) := ev_adv : adv_call → Ev.

(** What a scanner does to the outside. *)
Inductive ble_event :=
| BleLog (l : LogCall)
| BleAdv (c : adv_call).

#[export] Instance ble_event_LogEvent : LogEvent ble_event := BleLog.
#[export] Instance ble_event_AdvEvent : AdvEvent ble_event := BleAdv.

(** ** The interface *)

(** [concept BleImplementation]. *)
Class BleImplementation (St Ev : Type) := {
  init_impl : fn_ptr → Z → eff St Ev (ErrorHandler () BleError);
  start_scan_impl : eff St Ev (ErrorHandler () BleError);
  stop_scan_impl : eff St Ev (ErrorHandler () BleError);
}.

Module IBle.
Section Base.
Context {St Ev : Type} `{BleImplementation St Ev} `{LogEvent Ev} `{SourceLocation}.

Definition init (cb : fn_ptr) (ctx : Z) : eff St Ev (ErrorHandler () BleError) :=
  match cb with
  | None => fail "IBle::init" BleErrors.InvalidCallback "Advertisement callback is null"
  | Some _ => init_impl cb ctx
  end.

Definition start_scan : eff St Ev (ErrorHandler () BleError) := start_scan_impl.
Definition stop_scan : eff St Ev (ErrorHandler () BleError) := stop_scan_impl.
End Base.
End IBle.

(** ** The HCI scanner *)

Module HciScanner.

Definition k_hci_event_pkt : Z := 0x04.
Definition k_evt_le_meta : Z := 0x3E.
Definition k_le_adv_report_evt : Z := 0x02.
Definition k_min_adv_report_size : nat := 11.
Definition k_hci_buf_size : nat := 260.
Definition k_max_reports : Z := 15.
Definition k_report_hdr : nat := 10.
Definition k_scan_timeout_ms : Z := 1000.

(** The members; the system state is in [scan_thread_]. *)
Record Scanner (W : Type) := mkScanner {
  callback_ : fn_ptr;
  callback_ctx_ : Z;
  hci_fd_ : Z;
  dev_id_ : Z;
  running_ : bool;
  scan_thread_ : ThreadObj PosixThread.Members W;
}.
Arguments mkScanner {W} _ _ _ _ _ _.
Arguments callback_ {W} _.
Arguments callback_ctx_ {W} _.
Arguments hci_fd_ {W} _.
Arguments dev_id_ {W} _.
Arguments running_ {W} _.
Arguments scan_thread_ {W} _.

(** A [struct hci_filter] by the BlueZ calls that build it, on constants of its
    headers. *)
Inductive hci_constant := HCI_EVENT_PKT | EVT_LE_META_EVENT.
Inductive filter_call :=
| hci_filter_clear
| hci_filter_set_ptype (t : hci_constant)
| hci_filter_set_event (e : hci_constant).

(** BlueZ, sockets, [errno] and [strerror]. *)
Record Bluez (W : Type) := mkBluez {
  hci_get_route : W → Z * W;
  hci_open_dev : Z → W → Z * W;
  setsockopt_filter : Z → list filter_call → W → Z * W;
  close : Z → W → Z * W;
  hci_le_set_scan_enable : Z → Z → Z → Z → W → Z * W;
  hci_le_set_scan_parameters : Z → Z → Z → Z → Z → Z → Z → W → Z * W;
  errno : W → Z;
  strerror : Z → string;
}.
Arguments hci_get_route {W} _ _.
Arguments hci_open_dev {W} _ _ _.
Arguments setsockopt_filter {W} _ _ _ _.
Arguments close {W} _ _ _.
Arguments hci_le_set_scan_enable {W} _ _ _ _ _ _.
Arguments hci_le_set_scan_parameters {W} _ _ _ _ _ _ _ _ _.
Arguments errno {W} _ _.
Arguments strerror {W} _ _.

Section Backend.
Context `{SourceLocation} {Ev : Type} `{LogEvent Ev} `{AdvEvent Ev} {W : Type}.
Context `{ThreadImplementation PosixThread.Members W Ev} (bt : Bluez W).
(** The addresses of [scan_thread_fn] and of the object. *)
Context (scan_thread_fn_ptr this : Z).
Abbreviation M := (eff (Scanner W) Ev).
Implicit Types s : Scanner W.

Definition set_callback (cb : fn_ptr) (ctx : Z) s : Scanner W :=
  mkScanner cb ctx (hci_fd_ s) (dev_id_ s) (running_ s) (scan_thread_ s).
Definition set_fd (fd : Z) s : Scanner W :=
  mkScanner (callback_ s) (callback_ctx_ s) fd (dev_id_ s) (running_ s) (scan_thread_ s).
Definition set_dev (dev : Z) s : Scanner W :=
  mkScanner (callback_ s) (callback_ctx_ s) (hci_fd_ s) dev (running_ s) (scan_thread_ s).
Definition set_running (b : bool) s : Scanner W :=
  mkScanner (callback_ s) (callback_ctx_ s) (hci_fd_ s) (dev_id_ s) b (scan_thread_ s).
Definition set_thread (th : ThreadObj PosixThread.Members W) s : Scanner W :=
  mkScanner (callback_ s) (callback_ctx_ s) (hci_fd_ s) (dev_id_ s) (running_ s) th.

Definition thread_call {A} (m : eff (ThreadObj PosixThread.Members W) Ev A) : M A :=
  zoom scan_thread_ set_thread id m.
Definition sys {A} (f : W → A * W) : M A := thread_call (tsys f).

(** [LOGGER_ERROR(fmt, ..., errno_to_str(saved_errno))]. *)
Definition log_errno (fmt : string) (args : list log_arg) : M () :=
  s ← get;
  log (LOGGER_ERROR fmt (args ++ [AStr (strerror bt (errno bt (os (scan_thread_ s))))])).

(** Events only, and of these LE meta events. *)
Definition hci_event_filter : list filter_call :=
  [hci_filter_clear; hci_filter_set_ptype HCI_EVENT_PKT; hci_filter_set_event EVT_LE_META_EVENT].

Definition open_hci_socket : M Z :=
  s ← get;
  fd ← sys (hci_open_dev bt (dev_id_ s));
  if decide (fd < 0) then
    log_errno "hci_open_dev(%d) failed: %s" [AInt (dev_id_ s)];;
    mret (-1)
  else
    rc ← sys (setsockopt_filter bt fd hci_event_filter);
    if decide (rc < 0) then
      log_errno "setsockopt(HCI_FILTER) failed: %s" [];;
      sys (close bt fd);;
      mret (-1)
    else mret fd.

Definition enable_le_scan : M bool :=
  s ← get;
  sys (hci_le_set_scan_enable bt (hci_fd_ s) 0 0 k_scan_timeout_ms);;
  rc ← sys (hci_le_set_scan_parameters bt (hci_fd_ s) 0 0x00A0 0x00A0 0 0 k_scan_timeout_ms);
  if decide (rc < 0) then
    log_errno "hci_le_set_scan_parameters failed: %s" [];;
    mret false
  else
    rc ← sys (hci_le_set_scan_enable bt (hci_fd_ s) 1 0 k_scan_timeout_ms);
    if decide (rc < 0) then
      log_errno "hci_le_set_scan_enable failed: %s" [];;
      mret false
    else mret true.

Definition disable_le_scan : M () :=
  s ← get;
  if decide (0 ≤ hci_fd_ s) then
    sys (hci_le_set_scan_enable bt (hci_fd_ s) 0 0 1000);;
    mret ()
  else mret ().

Definition init_impl_posix (cb : fn_ptr) (ctx : Z) : M (ErrorHandler () BleError) :=
  modify (set_callback cb ctx);;
  dev ← sys (hci_get_route bt);
  modify (set_dev dev);;
  if decide (dev < 0) then
    fail "Scanner::init_impl" BleErrors.AdapterNotFound "No BT adapter found (hci_get_route)"
  else
    fd ← open_hci_socket;
    modify (set_fd fd);;
    if decide (fd < 0) then
      fail "Scanner::init_impl" BleErrors.SystemError "Failed to open HCI socket"
    else ok.

Definition start_scan_posix : M (ErrorHandler () BleError) :=
  s ← get;
  if decide (hci_fd_ s < 0) then
    fail "Scanner::start_scan_impl" BleErrors.NotInitialised "Call init() before start_scan()"
  else if running_ s then ok
  else
    enabled ← enable_le_scan;
    if negb (enabled : bool) then
      fail "Scanner::start_scan_impl" BleErrors.ScanStartFailed "hci_le_set_scan_enable failed"
    else
      modify (set_running true);;
      result ← thread_call (IThread.create_params (ThreadFunction1 scan_thread_fn_ptr)
                              (mkStack 8192 0) 5 (ThreadParam1 this));
      if negb (operator_bool result) then
        modify (set_running false);;
        disable_le_scan;;
        fail "Scanner::start_scan_impl" BleErrors.SystemError "Failed to create scan thread"
      else
        s ← get;
        log (LOGGER_NOTICE "BLE passive scan started (hci%d)" [AInt (dev_id_ s)]);;
        ok.

Definition stop_scan_posix : M (ErrorHandler () BleError) :=
  s ← get;
  if negb (running_ s) then ok
  else
    modify (set_running false);;
    disable_le_scan;;
    log (LOGGER_NOTICE "BLE passive scan stopped" []);;
    ok.

(** The body of [~Scanner]. *)
Definition Scanner_dtor : M () :=
  s ← get;
  (if running_ s then modify (set_running false);; disable_le_scan else mret ());;
  if decide (0 ≤ hci_fd_ s) then
    sys (close bt (hci_fd_ s));;
    modify (set_fd (-1))
  else mret ().

(** The members go after the body: the thread object joins its thread. *)
Definition destroy_scanner : M () := Scanner_dtor;; thread_call IThread.Thread_dtor.

(** *** The scan thread *)

(** One report at [off]; answers with the offset of the next one, or [None]
    when the rest of the buffer does not hold a whole report. *)
Definition report_step (report : bytes) (off : nat) : M (option nat) :=
  s ← get;
  if decide (length report < off + k_report_hdr)%nat then mret None
  else
    adv_type ← liftO (span_get report off);
    addr_type ← liftO (span_get report (off + 1));
    data_len ← liftO (span_get report (off + 8));
    let data_len := Z.to_nat data_len in
    if decide (length report < off + k_report_hdr + data_len)%nat then mret None
    else
      rssi ← liftO (span_get report (off + 9 + data_len));
      addr ← liftO (subspan report (off + 2) 6);
      data ← liftO (subspan report (off + 9) data_len);
      match callback_ s with
      | Some fn =>
          emit (ev_adv (mkAdv fn (callback_ctx_ s) addr addr_type adv_type (i8 rssi) data))
      | None => stopE Undefined
      end;;
      mret (Some (off + 9 + data_len + 1)%nat).

Fixpoint report_loop (report : bytes) (n off : nat) : M () :=
  match n with
  | O => mret ()
  | S n' =>
      next ← report_step report off;
      match next with
      | Some off' => report_loop report n' off'
      | None => mret ()
      end
  end.

Definition dispatch_adv_report (report : bytes) (num_reports : Z) : M () :=
  s ← get;
  match callback_ s with
  | None => mret ()
  | Some _ =>
      if decide (k_max_reports < num_reports) then mret ()
      else report_loop report (Z.to_nat num_reports) 0
  end.

(** Lines 223-244: the [len > 0] bytes one [read] returned. *)
Definition handle_packet (packet : bytes) : M () :=
  let total := length packet in
  if decide (total < 5 + k_min_adv_report_size)%nat then mret ()
  else
    b0 ← liftO (span_get packet 0);
    if decide (b0 ≠ k_hci_event_pkt) then mret ()
    else
      b1 ← liftO (span_get packet 1);
      if decide (b1 ≠ k_evt_le_meta) then mret ()
      else
        b3 ← liftO (span_get packet 3);
        if decide (b3 ≠ k_le_adv_report_evt) then mret ()
        else
          num_reports ← liftO (span_get packet 4);
          if decide (num_reports = 0) then mret ()
          else dispatch_adv_report (drop 5 packet) num_reports.

(** What one turn of the loop sees of its surroundings: [running_] at the loop
    test, what [read] returned ([None]: nothing), and [running_] when it is
    looked at again. *)
Record turn := mkTurn { at_test : bool; read_bytes : option bytes; after_read : bool }.

(** The loop over its first turns; the answer says whether it has ended. *)
Fixpoint scan_loop (turns : list turn) : M bool :=
  match turns with
  | [] => mret false
  | t :: turns' =>
      if at_test t then
        match read_bytes t with
        | None => if negb (after_read t) then mret true else scan_loop turns'
        | Some packet => handle_packet packet;; scan_loop turns'
        end
      else mret true
  end.

Definition scan_thread_fn (ctx : Z) (turns : list turn) : M bool :=
  if decide (ctx = 0) then mret true else scan_loop turns.

#[export] Instance hci_scanner : BleImplementation (Scanner W) Ev := {
  init_impl := init_impl_posix;
  start_scan_impl := start_scan_posix;
  stop_scan_impl := stop_scan_posix;
}.
End Backend.

Definition new_scanner {W} (th : ThreadObj PosixThread.Members W) : Scanner W :=
  mkScanner None 0 (-1) (-1) false th.
End HciScanner.

(** ** The Zephyr scanner *)

Module ZephyrScanner.

Record Scanner := mkScanner { callback_ : fn_ptr; callback_ctx_ : Z }.

(** [struct bt_le_scan_param]; the macros are those of the stack's headers. *)
Inductive bt_macro :=
| BT_LE_SCAN_TYPE_PASSIVE | BT_LE_SCAN_OPT_NONE
| BT_GAP_SCAN_FAST_INTERVAL | BT_GAP_SCAN_FAST_WINDOW.
Record bt_le_scan_param := mkScanParam {
  scan_type : bt_macro;
  scan_options : bt_macro;
  scan_interval : bt_macro;
  scan_window : bt_macro;
}.

(** The program's scanners by address, the static [s_instance_], and the
    Bluetooth stack. *)
Record Scanners (W : Type) := mkScanners {
  objects : gmap nat Scanner;
  s_instance_ : option nat;
  stack : W;
}.
Arguments mkScanners {W} _ _ _.
Arguments objects {W} _.
Arguments s_instance_ {W} _.
Arguments stack {W} _.

Record Bt (W : Type) := mkBt {
  bt_le_scan_cb_register : nat → W → () * W;
  bt_le_scan_start : bt_le_scan_param → W → Z * W;
  bt_le_scan_stop : W → Z * W;
}.
Arguments bt_le_scan_cb_register {W} _ _ _.
Arguments bt_le_scan_start {W} _ _ _.
Arguments bt_le_scan_stop {W} _ _.

(** [bt_le_scan_recv_info]: the address behind its pointer. *)
Record recv_info := mkInfo {
  info_addr : option (bytes * Z);
  info_adv_type : Z;
  info_rssi : Z;
}.

Section Backend.
Context `{SourceLocation} {Ev : Type} `{LogEvent Ev} `{AdvEvent Ev} {W : Type} (bt : Bt W).
Abbreviation M := (eff (Scanners W) Ev).

Definition BT_ADDR_SIZE : nat := 6.

Definition sys {A} (f : W → A * W) : M A :=
  zoom stack (λ w s, mkScanners (objects s) (s_instance_ s) w) id (call f).

Definition init_impl_zephyr (this : nat) (cb : fn_ptr) (ctx : Z) : M (ErrorHandler () BleError) :=
  modify (λ s, mkScanners (<[this := mkScanner cb ctx]> (objects s)) (Some this) (stack s));;
  sys (bt_le_scan_cb_register bt this);;
  ok.

(** Passive, no options, the stack's fast interval and window. *)
Definition scan_params : bt_le_scan_param :=
  mkScanParam BT_LE_SCAN_TYPE_PASSIVE BT_LE_SCAN_OPT_NONE BT_GAP_SCAN_FAST_INTERVAL
    BT_GAP_SCAN_FAST_WINDOW.

Definition start_scan_zephyr : M (ErrorHandler () BleError) :=
  err ← sys (bt_le_scan_start bt scan_params);
  if decide (err ≠ 0) then
    log (LOGGER_ERROR "bt_le_scan_start failed (%d)" [AInt err]);;
    fail "Scanner::start_scan_impl" BleErrors.ScanStartFailed "bt_le_scan_start failed"
  else ok.

Definition stop_scan_zephyr : M (ErrorHandler () BleError) :=
  err ← sys (bt_le_scan_stop bt);
  if decide (err ≠ 0) then
    log (LOGGER_ERROR "bt_le_scan_stop failed (%d)" [AInt err]);;
    fail "Scanner::stop_scan_impl" BleErrors.ScanStopFailed "bt_le_scan_stop failed"
  else ok.

(** The object behind [s_instance_] may be gone: then this is undefined. *)
Definition zephyr_scan_cb (info : option recv_info) (buf : option bytes) : M () :=
  s ← get;
  match s_instance_ s with
  | None => mret ()
  | Some i =>
      match objects s !! i with
      | None => stopE Undefined
      | Some inst =>
          match callback_ inst, info, buf with
          | Some fn, Some info, Some buf =>
              match info_addr info with
              | Some (val, addr_type) =>
                  addr ← liftO (subspan val 0 BT_ADDR_SIZE);
                  emit (ev_adv (mkAdv fn (callback_ctx_ inst) addr addr_type (info_adv_type info)
                                  (info_rssi info) buf))
              | None => mret ()
              end
          | _, _, _ => mret ()
          end
      end
  end.

(** Construction at an address, and the defaulted destructor. *)
Definition construct_scanner (this : nat) (s : Scanners W) : Scanners W :=
  mkScanners (<[this := mkScanner None 0]> (objects s)) (s_instance_ s) (stack s).
Definition destroy_scanner (this : nat) : M () :=
  modify (λ s, mkScanners (delete this (objects s)) (s_instance_ s) (stack s)).

Definition zephyr_scanner (this : nat) : BleImplementation (Scanners W) Ev := {|
  init_impl := init_impl_zephyr this;
  start_scan_impl := start_scan_zephyr;
  stop_scan_impl := stop_scan_zephyr;
|}.
End Backend.
End ZephyrScanner.

(** ** Parsing advertising reports *)

(** One report as the controller lays it out. *)
Definition encode_report (c : adv_call) : bytes :=
  [adv_adv_type c; adv_addr_type c] ++ adv_addr c ++ [Z.of_nat (length (adv_data c))] ++
  adv_data c ++ [u8 (adv_rssi c)].

Record wf_report (c : adv_call) : Prop := {
  wf_rep_addr : length (adv_addr c) = 6%nat;
  wf_rep_data : (length (adv_data c) < 256)%nat;
  wf_rep_rssi : is_i8 (adv_rssi c);
}.

Lemma encode_report_length c :
  wf_report c → length (encode_report c) = (10 + length (adv_data c))%nat.
Proof. intros [Ha _ _]. unfold encode_report. rewrite !length_app, Ha. cbn. lia. Qed.

Lemma i8_u8 z : is_i8 z → i8 (u8 z) = z.
Proof.
  unfold is_i8, i8, u8, signed. change (2 ^ (8 - 1)) with 128. change (2 ^ 8) with 256.
  change (2 ^ 7) with 128. intros. Z.div_mod_to_equations. lia.
Qed.

Lemma u8_i8 z : is_u8 z → u8 (i8 z) = z.
Proof.
  unfold is_u8, i8, u8, signed. change (2 ^ (8 - 1)) with 128. change (2 ^ 8) with 256.
  intros. Z.div_mod_to_equations. lia.
Qed.

Section Reports.
Context {Ev : Type} `{LogEvent Ev} `{AdvEvent Ev} {W : Type}.
Import HciScanner.
Implicit Types s : Scanner W.

(** A report at [off] followed by anything is delivered as it is. *)
Lemma report_step_encode report off c rest s :
  wf_report c → callback_ s = Some (adv_fn c) → callback_ctx_ s = adv_ctx c →
  drop off report = encode_report c ++ rest →
  report_step (Ev := Ev) report off s =
    Done (Some (off + length (encode_report c))%nat, s, [ev_adv c]).
Proof.
  intros Hwf Hcb Hctx Hd. pose proof (encode_report_length c Hwf) as El.
  destruct c as [fn ctx a at_ ty rs data]. destruct Hwf as [Ha Hl Hr].
  cbn [adv_fn adv_ctx adv_addr adv_data adv_rssi] in *.
  assert (length report = off + 10 + length data + length rest)%nat as Hlen.
  { apply (f_equal length) in Hd. rewrite length_app, El, length_drop in Hd. lia. }
  assert (∀ k, report !! (off + k)%nat = (encode_report (mkAdv fn ctx a at_ ty rs data) ++ rest) !! k) as Hk.
  { intros k. by rewrite <- lookup_drop, Hd. }
  destruct a as [|a0 [|a1 [|a2 [|a3 [|a4 [|a5 [|]]]]]]]; try discriminate Ha. clear Ha.
  unfold report_step, k_report_hdr. rewrite get_bind, decide_False by lia.
  assert (encode_report (mkAdv fn ctx [a0; a1; a2; a3; a4; a5] at_ ty rs data) ++ rest =
    [ty; at_; a0; a1; a2; a3; a4; a5; Z.of_nat (length data)] ++ data ++ u8 rs :: rest) as Ee.
  { unfold encode_report. cbn. by rewrite <- app_assoc. }
  assert (span_get report off = Done ty) as E0.
  { apply span_get_Done. rewrite <- (Nat.add_0_r off), Hk. done. }
  assert (span_get report (off + 1) = Done at_) as E1 by (apply span_get_Done; by rewrite Hk).
  assert (span_get report (off + 8) = Done (Z.of_nat (length data))) as E8.
  { apply span_get_Done. by rewrite Hk. }
  assert (span_get report (off + 9 + length data) = Done (u8 rs)) as E9.
  { apply span_get_Done. rewrite <- Nat.add_assoc, Hk, Ee, lookup_app_r by (cbn [length]; lia).
    cbn [length]. apply list_lookup_middle. lia. }
  assert (subspan report (off + 2) 6 = Done [a0; a1; a2; a3; a4; a5]) as Ea.
  { unfold subspan. rewrite decide_True by lia. rewrite <- drop_drop, Hd. done. }
  assert (subspan report (off + 9) (length data) = Done data) as Ed.
  { unfold subspan. rewrite decide_True by lia. rewrite <- drop_drop, Hd, Ee. cbn [app drop].
    by rewrite drop_0, take_app_length. }
  rewrite bind_run. unfold liftO at 1. rewrite E0.
  rewrite bind_run. unfold liftO at 1. rewrite E1.
  rewrite bind_run. unfold liftO at 1. rewrite E8. rewrite Nat2Z.id.
  rewrite decide_False by lia.
  rewrite bind_run. unfold liftO at 1. rewrite E9.
  rewrite bind_run. unfold liftO at 1. rewrite Ea.
  rewrite bind_run. unfold liftO at 1. rewrite Ed.
  rewrite bind_run, Hcb, Hctx, i8_u8 by done. cbn [emit mret eff_ret app]. rewrite El.
  by replace (off + 9 + length data + 1)%nat with (off + (10 + length data))%nat by lia.
Qed.

(** Either the rest of the buffer is too short for a report, or it starts with
    one. *)
Lemma report_start report off s fn :
  is_bytes report → callback_ s = Some fn →
  report_step (Ev := Ev) report off s = Done (None, s, []) ∨
  ∃ c rest, wf_report c ∧ adv_fn c = fn ∧ adv_ctx c = callback_ctx_ s ∧
    drop off report = encode_report c ++ rest.
Proof.
  intros Hb Hcb. destruct (decide (length report < off + k_report_hdr)%nat) as [Hs|Hs].
  { left. unfold report_step. by rewrite get_bind, decide_True. }
  unfold k_report_hdr in Hs.
  destruct (drop off report) as [|ty [|at_ [|a0 [|a1 [|a2 [|a3 [|a4 [|a5 [|dl tl]]]]]]]]] eqn:Hd;
    try (apply (f_equal length) in Hd; rewrite length_drop in Hd; cbn in Hd; lia).
  assert (is_bytes (drop off report)) as Hb' by by apply Forall_drop.
  assert (length tl = length report - off - 9)%nat as Htl.
  { apply (f_equal length) in Hd. rewrite length_drop in Hd. cbn in Hd. lia. }
  assert (is_u8 dl) as Hdl.
  { apply (proj1 (Forall_lookup _ _) Hb' 8%nat). by rewrite Hd. }
  destruct (decide (length report < off + k_report_hdr + Z.to_nat dl)%nat) as [Ht|Ht].
  - left. unfold report_step. rewrite get_bind, decide_False by (unfold k_report_hdr; lia).
    assert (∀ k, report !! (off + k)%nat = drop off report !! k) as Hk.
    { intros k. by rewrite lookup_drop. }
    rewrite bind_run. unfold liftO at 1. rewrite (proj2 (span_get_Done report off ty))
      by (rewrite <- (Nat.add_0_r off), Hk, Hd; done).
    rewrite bind_run. unfold liftO at 1. rewrite (proj2 (span_get_Done report (off + 1) at_))
      by (rewrite Hk, Hd; done).
    rewrite bind_run. unfold liftO at 1. rewrite (proj2 (span_get_Done report (off + 8) dl))
      by (rewrite Hk, Hd; done).
    by rewrite decide_True.
  - right. unfold k_report_hdr in Ht. unfold is_u8 in Hdl. change (2 ^ 8) with 256 in Hdl.
    destruct (lookup_lt_is_Some_2 tl (Z.to_nat dl)) as [rb Hrb]; [lia|].
    assert (is_u8 rb) as Hrb'.
    { apply (proj1 (Forall_lookup _ _) Hb' (9 + Z.to_nat dl)%nat). by rewrite Hd. }
    exists (mkAdv fn (callback_ctx_ s) [a0; a1; a2; a3; a4; a5] at_ ty (i8 rb) (take (Z.to_nat dl) tl)),
      (drop (S (Z.to_nat dl)) tl).
    assert (length (take (Z.to_nat dl) tl) = Z.to_nat dl) as Elen by (rewrite length_take; lia).
    split_and!; [|done|done|].
    + split; cbn [adv_addr adv_data adv_rssi]; [done|lia|apply i8_range].
    + unfold encode_report. cbn [adv_adv_type adv_addr_type adv_addr adv_data adv_rssi].
      rewrite Elen, Z2Nat.id, u8_i8 by (done || lia). cbn. rewrite <- app_assoc.
      do 9 f_equal. symmetry. cbn. by apply (take_drop_middle _ _ _ Hrb).
Qed.

Lemma drop_app_rest (l pre rest : bytes) off :
  drop off l = pre ++ rest → drop (off + length pre) l = rest.
Proof. intros E. rewrite <- drop_drop, E. by rewrite drop_app_length. Qed.

(** The loop delivers the reports in front of it ... *)
Lemma report_loop_encode report s cs rest off :
  Forall (λ c, wf_report c ∧ callback_ s = Some (adv_fn c) ∧ callback_ctx_ s = adv_ctx c) cs →
  drop off report = concat (encode_report <$> cs) ++ rest →
  report_loop (Ev := Ev) report (length cs) off s = Done ((), s, ev_adv <$> cs).
Proof.
  intros Hcs. revert off. induction Hcs as [|c cs (Hwf & Hcb & Hctx) _ IH]; intros off Hd; [done|].
  cbn [fmap list_fmap concat] in Hd. rewrite <- app_assoc in Hd.
  cbn [length report_loop]. rewrite bind_run.
  rewrite (report_step_encode _ _ _ _ _ Hwf Hcb Hctx Hd).
  rewrite (IH _ (drop_app_rest _ _ _ _ Hd)). done.
Qed.

(** ... and nothing else, on any buffer. *)
Lemma report_loop_total report s fn n off :
  is_bytes report → callback_ s = Some fn →
  ∃ cs rest, report_loop (Ev := Ev) report n off s = Done ((), s, ev_adv <$> cs) ∧
    (length cs ≤ n)%nat ∧ Forall wf_report cs ∧
    Forall (λ c, adv_fn c = fn ∧ adv_ctx c = callback_ctx_ s) cs ∧
    drop off report = concat (encode_report <$> cs) ++ rest.
Proof.
  intros Hb Hcb. revert off. induction n as [|n IH]; intros off.
  { exists [], (drop off report). by split_and!. }
  cbn [report_loop]. rewrite bind_run.
  destruct (report_start report off s fn Hb Hcb) as [E|(c & rest & Hwf & Hfn & Hctx & Hd)].
  - rewrite E. exists [], (drop off report). split_and!; [done|cbn; lia|done..].
  - rewrite (report_step_encode _ _ _ _ _ Hwf ltac:(by rewrite Hfn) (eq_sym Hctx) Hd).
    destruct (IH (off + length (encode_report c))%nat) as (cs & rest' & -> & Hn & Hw & Hf & Hd').
    exists (c :: cs), rest'. split_and!; [done|cbn; lia|by constructor|by constructor|].
    cbn [fmap list_fmap concat]. rewrite <- app_assoc, <- Hd', Hd. f_equal. symmetry. by apply drop_app_rest.
Qed.

(** *** Whole packets *)

(** The HCI packet of an LE advertising report event. *)
Definition adv_packet (plen : Z) (cs : list adv_call) : bytes :=
  [k_hci_event_pkt; k_evt_le_meta; plen; k_le_adv_report_evt; Z.of_nat (length cs)] ++
  concat (encode_report <$> cs).

Lemma handle_packet_run packet s b2 n body :
  packet = [k_hci_event_pkt; k_evt_le_meta; b2; k_le_adv_report_evt; n] ++ body →
  handle_packet (Ev := Ev) packet s =
    if decide ((length body < 11)%nat ∨ n = 0) then Done ((), s, [])
    else dispatch_adv_report body n s.
Proof.
  intros ->. unfold handle_packet, k_min_adv_report_size. rewrite length_app. cbn [length].
  destruct (decide (length body < 11)%nat) as [Hl|Hl].
  { rewrite decide_True by lia. by rewrite decide_True by tauto. }
  rewrite decide_False by lia. set (packet := _ ++ body).
  assert (span_get packet 0 = Done k_hci_event_pkt) as -> by done.
  rewrite liftO_bind, decide_False by tauto.
  assert (span_get packet 1 = Done k_evt_le_meta) as -> by done.
  rewrite liftO_bind, decide_False by tauto.
  assert (span_get packet 3 = Done k_le_adv_report_evt) as -> by done.
  rewrite liftO_bind, decide_False by tauto.
  assert (span_get packet 4 = Done n) as -> by done.
  rewrite liftO_bind. assert (drop 5 packet = body) as -> by done.
  destruct (decide (n = 0)) as [->|Hn].
  - by rewrite decide_True by tauto.
  - by rewrite decide_False by tauto.
Qed.

(** A packet of another kind is thrown away. *)
Lemma handle_packet_other b0 b1 b2 b3 n body s :
  ¬ (b0 = k_hci_event_pkt ∧ b1 = k_evt_le_meta ∧ b3 = k_le_adv_report_evt) →
  handle_packet (Ev := Ev) (b0 :: b1 :: b2 :: b3 :: n :: body) s = Done ((), s, []).
Proof.
  intros Hne. unfold handle_packet. destruct (decide (length _ < _)%nat); [done|].
  set (packet := b0 :: _).
  assert (span_get packet 0 = Done b0) as -> by done.
  rewrite liftO_bind. destruct (decide (b0 ≠ k_hci_event_pkt)) as [|E0]; [done|].
  assert (span_get packet 1 = Done b1) as -> by done.
  rewrite liftO_bind. destruct (decide (b1 ≠ k_evt_le_meta)) as [|E1]; [done|].
  assert (span_get packet 3 = Done b3) as -> by done.
  rewrite liftO_bind. destruct (decide (b3 ≠ k_le_adv_report_evt)) as [|E3]; [done|].
  exfalso. apply Hne. split_and!; by apply dec_stable.
Qed.

(** The packet of an event, computed. *)
Lemma handle_packet_reports plen cs s :
  (1 ≤ length cs ≤ 15)%nat →
  Forall (λ c, wf_report c ∧ callback_ s = Some (adv_fn c) ∧ callback_ctx_ s = adv_ctx c) cs →
  handle_packet (Ev := Ev) (adv_packet plen cs) s =
    Done ((), s, match cs with
                 | [c] => if decide (adv_data c = []) then [] else [ev_adv c]
                 | _ => ev_adv <$> cs
                 end).
Proof.
  intros Hn Hcs. rewrite (handle_packet_run _ _ plen (Z.of_nat (length cs)) (concat (encode_report <$> cs))) by done.
  assert (dispatch_adv_report (Ev := Ev) (concat (encode_report <$> cs)) (Z.of_nat (length cs)) s =
    Done ((), s, ev_adv <$> cs)) as Hd.
  { unfold dispatch_adv_report. rewrite get_bind.
    destruct cs as [|c cs']; [cbn in Hn; lia|]. pose proof Hcs as Hcs0.
    inversion Hcs0 as [|?? (_ & -> & _)]; subst. unfold k_max_reports. rewrite decide_False by lia.
    rewrite Nat2Z.id. apply (report_loop_encode _ _ _ []); [done|]. by rewrite app_nil_r. }
  destruct cs as [|c cs]; [cbn in Hn; lia|]. inversion Hcs as [|?? (Hwf & _) Hcs']; subst.
  pose proof (encode_report_length c Hwf) as Hl.
  destruct cs as [|c2 cs].
  - destruct (decide (adv_data c = [])) as [E|E].
    + rewrite decide_True; [done|]. left. cbn [fmap list_fmap concat].
      rewrite app_nil_r, Hl, E. cbn. lia.
    + rewrite decide_False; [done|]. intros [Hx|Hx]; [|done]. cbn [fmap list_fmap concat] in Hx.
      rewrite app_nil_r, Hl in Hx.
      destruct (adv_data c); [done|cbn in Hx; lia].
  - inversion Hcs' as [|?? (Hwf2 & _) _]; subst. pose proof (encode_report_length c2 Hwf2) as Hl2.
    rewrite decide_False; [done|]. intros [Hx|Hx]; [|cbn in Hx; lia].
    cbn [fmap list_fmap concat] in Hx. rewrite !length_app in Hx. lia.
Qed.

(** What gets through of the reports of an event. *)
Definition let_through (cs : list adv_call) : list adv_call :=
  match cs with
  | [c] => if decide (adv_data c = []) then [] else [c]
  | _ => if decide (length cs ≤ 15)%nat then cs else []
  end.

(** C32. Of a well-formed event every report reaches the application, in order and
    unaltered, and nothing else - with two exceptions, when the whole event is
    thrown away: more than 15 reports, and a single report without data: the
    length check counts the number-of-reports byte twice, and the packet of
    such an event is one byte short of it. *)
Theorem reports_delivered plen cs s :
  (length cs < 256)%nat →
  Forall (λ c, wf_report c ∧ callback_ s = Some (adv_fn c) ∧ callback_ctx_ s = adv_ctx c) cs →
  handle_packet (Ev := Ev) (adv_packet plen cs) s = Done ((), s, ev_adv <$> let_through cs).
Proof.
  intros Hlen Hcs. destruct (decide (length cs ≤ 15)%nat) as [Hn|Hn].
  - destruct cs as [|c cs].
    { by rewrite (handle_packet_run _ _ plen 0 []) by done. }
    rewrite handle_packet_reports by (done || cbn in *; lia). do 2 f_equal.
    unfold let_through. destruct cs; [by case_decide|by rewrite decide_True].
  - destruct cs as [|c [|c2 cs]]; [cbn in Hn; lia..|]. unfold let_through. rewrite decide_False by done.
    rewrite (handle_packet_run _ _ plen (Z.of_nat (length (c :: c2 :: cs)))
      (concat (encode_report <$> c :: c2 :: cs))) by done.
    case_decide as Hs; [done|]. unfold dispatch_adv_report. rewrite get_bind.
    apply Forall_cons in Hcs as [(_ & -> & _) _]. unfold k_max_reports. by rewrite decide_True by lia.
Qed.

(** Any packet: only whole reports are delivered. *)
Lemma handle_packet_total packet s :
  is_bytes packet →
  ∃ cs rest, handle_packet (Ev := Ev) packet s = Done ((), s, ev_adv <$> cs) ∧
    (length cs ≤ 15)%nat ∧ Forall wf_report cs ∧
    Forall (λ c, callback_ s = Some (adv_fn c) ∧ adv_ctx c = callback_ctx_ s) cs ∧
    (cs = [] ∨ drop 5 packet = concat (encode_report <$> cs) ++ rest).
Proof.
  intros Hb.
  assert (∃ cs rest, (cs = [] ∨ drop 5 packet = concat (encode_report <$> cs) ++ rest) ∧
    (length cs ≤ 15)%nat ∧ Forall wf_report cs ∧
    Forall (λ c, callback_ s = Some (adv_fn c) ∧ adv_ctx c = callback_ctx_ s) cs ∧
    handle_packet (Ev := Ev) packet s = Done ((), s, ev_adv <$> cs)) as (cs & rest & ? & ? & ? & ? & ?).
  2: { exists cs, rest. by split_and!. }
  assert (∀ r, r = Done ((), s, []) →
    ∃ cs rest, (cs = [] ∨ drop 5 packet = concat (encode_report <$> cs) ++ rest) ∧
    (length cs ≤ 15)%nat ∧ Forall wf_report cs ∧
    Forall (λ c, callback_ s = Some (adv_fn c) ∧ adv_ctx c = callback_ctx_ s) cs ∧
    r = Done ((), s, ev_adv <$> cs)) as Hnone.
  { intros r ->. exists [], []. split_and!; [by left|cbn; lia|done..]. }
  destruct (decide (length packet < 16)%nat) as [Hl|Hl].
  { apply Hnone. unfold handle_packet, k_min_adv_report_size. by rewrite decide_True. }
  destruct packet as [|b0 [|b1 [|b2 [|b3 [|n body]]]]]; cbn in Hl; try lia.
  assert (is_u8 n ∧ is_bytes body) as [Hn Hbody].
  { do 4 apply Forall_inv_tail in Hb. by inversion Hb. }
  destruct (decide (b0 = k_hci_event_pkt ∧ b1 = k_evt_le_meta ∧ b3 = k_le_adv_report_evt)) as [(-> & -> & ->)|Hne].
  - rewrite (handle_packet_run _ _ b2 n body) by done. case_decide; [by apply Hnone|].
    unfold dispatch_adv_report. rewrite get_bind. destruct (callback_ s) as [fn|] eqn:Hcb; [|by apply (Hnone (Done ((), s, [])))].
    unfold k_max_reports. case_decide; [by apply Hnone|].
    destruct (report_loop_total body s fn (Z.to_nat n) 0 Hbody Hcb) as (cs & rest & E & Hc & Hw & Hf & Hd).
    exists cs, rest. split_and!; [by right|lia|done| |done].
    eapply Forall_impl; [exact Hf|]. by intros c [-> ->].
  - apply Hnone. by apply handle_packet_other.
Qed.

(** Whatever bytes the socket delivers, handling them stays inside the packet,
    leaves the scanner alone, and invokes the registered callback - at most 15
    times - on whole reports that are in the packet one after the other. *)
Theorem packet_safe packet s :
  is_bytes packet →
  ∃ cs rest, handle_packet (Ev := Ev) packet s = Done ((), s, ev_adv <$> cs) ∧
    (length cs ≤ 15)%nat ∧ Forall wf_report cs ∧
    Forall (λ c, callback_ s = Some (adv_fn c) ∧ adv_ctx c = callback_ctx_ s) cs ∧
    (cs = [] ∨ drop 5 packet = concat (encode_report <$> cs) ++ rest).
Proof. apply handle_packet_total. Qed.
End Reports.

(** ** Starting and stopping the HCI scanner *)

Section Lifecycle.
Context `{SourceLocation} {Ev : Type} `{LogEvent Ev} `{AdvEvent Ev} {W : Type}.
Context `{ThreadImplementation PosixThread.Members W Ev} (bt : HciScanner.Bluez W).
Context (scan_thread_fn_ptr this : Z).
Import HciScanner.
Implicit Types s : Scanner W.

(** Only the system has moved. *)
Record only_system s s' : Prop := {
  same_fd : hci_fd_ s' = hci_fd_ s;
  same_running : running_ s' = running_ s;
  same_active : active (scan_thread_ s') = active (scan_thread_ s);
  same_callback : callback_ s' = callback_ s;
  same_ctx : callback_ctx_ s' = callback_ctx_ s;
}.

Lemma only_system_refl s : only_system s s.
Proof. done. Qed.

Lemma only_system_trans s1 s2 s3 : only_system s1 s2 → only_system s2 s3 → only_system s1 s3.
Proof. intros [] []. split; congruence. Qed.

Definition calls_only {A} (m : eff (Scanner W) Ev A) : Prop :=
  ∀ s x s' t, m s = Done (x, s', t) → only_system s s'.

Lemma calls_ret {A} (x : A) : calls_only (mret x).
Proof. intros s y s' t [= _ <- _]. apply only_system_refl. Qed.

Lemma calls_bind {A B} (m : eff (Scanner W) Ev A) f :
  calls_only m → (∀ x, calls_only (f x)) → calls_only (m ≫= f : eff (Scanner W) Ev B).
Proof.
  intros Hm Hf s y s' t (x & s1 & ? & ? & H1' & H2' & _)%bind_Done.
  eapply only_system_trans; [by eapply Hm|by eapply Hf].
Qed.

Lemma calls_get {B} (f : Scanner W → eff (Scanner W) Ev B) :
  (∀ s, calls_only (f s)) → calls_only (get ≫= f).
Proof. intros Hf s y s' t. rewrite get_bind. apply Hf. Qed.

Lemma calls_sys {A} (f : W → A * W) : calls_only (sys f).
Proof.
  intros s x s' t. unfold sys, thread_call. rewrite zoom_Done. intros (th & t0 & Hr & -> & _).
  rewrite tsys_run in Hr. injection Hr as _ <- _. done.
Qed.

Lemma calls_log l : calls_only (log l).
Proof. intros s x s' t. unfold log, emit. intros [= _ <- _]. apply only_system_refl. Qed.

Lemma calls_dec {A} P `{Decision P} (m1 m2 : eff (Scanner W) Ev A) :
  calls_only m1 → calls_only m2 → calls_only (if decide P then m1 else m2).
Proof. by case_decide. Qed.

Create HintDb calls.
#[local] Hint Resolve calls_ret calls_bind calls_get calls_sys calls_log calls_dec : calls.

Lemma log_errno_calls fmt args : calls_only (log_errno bt fmt args).
Proof. unfold log_errno. auto with calls. Qed.
#[local] Hint Resolve log_errno_calls : calls.

Lemma enable_calls : calls_only (enable_le_scan bt).
Proof. unfold enable_le_scan. auto 12 with calls. Qed.

Lemma disable_calls : calls_only (disable_le_scan bt).
Proof. unfold disable_le_scan. auto with calls. Qed.

(** [create] reports success only for a thread that was not active, and leaves
    it active. *)
Lemma create_success f i priority params (th : ThreadObj PosixThread.Members W) r th' (t : list Ev) :
  IThread.create_params f i priority params th = Done (r, th', t) → has_value r = true →
  active th = false ∧ active th' = true.
Proof.
  unfold IThread.create_params, IThread.create_with. rewrite get_bind. intros Hr Hv.
  destruct (active th); [apply fail_Done in Hr as [_ ->]; discriminate Hv|]. split; [done|].
  rewrite modify_bind in Hr. apply bind_Done in Hr as (r1 & th1 & ? & ? & _ & Hr & _).
  apply bind_Done in Hr as (? & th2 & ? & ? & Hset & Hr & _). injection Hr as <- <- _.
  apply set_active_if in Hset as [-> _]. by rewrite Hv.
Qed.

Lemma start_scan_run s r s' t :
  running_ s = false → start_scan_posix bt scan_thread_fn_ptr this s = Done (r, s', t) →
  running_ s' = has_value r ∧ hci_fd_ s' = hci_fd_ s ∧
  (has_value r = true →
     0 ≤ hci_fd_ s ∧ active (scan_thread_ s) = false ∧ active (scan_thread_ s') = true ∧
     callback_ s' = callback_ s ∧ callback_ctx_ s' = callback_ctx_ s).
Proof.
  intros Hrun. unfold start_scan_posix. rewrite get_bind. intros Hr. case_if Hr as [Hfd|Hfd].
  { apply fail_Done in Hr as [-> ->]. by rewrite Hrun. }
  rewrite Hrun in Hr. apply bind_Done in Hr as (en & s1 & ? & ? & He & Hr & _).
  apply enable_calls in He as [F1 R1 A1 B1 C1]. destruct en; cbn [negb] in Hr.
  2: { apply fail_Done in Hr as [-> ->]. rewrite R1, Hrun. done. }
  rewrite modify_bind in Hr. apply bind_Done in Hr as (rc & s2 & ? & ? & Hc & Hr & _).
  unfold thread_call in Hc. apply zoom_Done in Hc as (th & t0 & Hc & -> & _).
  cbn [scan_thread_ set_running] in Hc. unfold operator_bool in Hr.
  destruct (has_value rc) eqn:Hv; cbn [negb] in Hr.
  - apply create_success in Hc as [Ha Ha']; [|done].
    rewrite get_bind in Hr. apply bind_Done in Hr as (? & s3 & ? & ? & Hl & Hr & _).
    apply calls_log in Hl as [F3 R3 A3 B3 C3]. apply ok_Done in Hr as [-> ->]. cbn in *.
    split_and!; [done|congruence|]. intros _. split_and!; [lia|congruence..].
  - rewrite modify_bind in Hr. apply bind_Done in Hr as (? & s3 & ? & ? & Hd & Hr & _).
    apply disable_calls in Hd as [F3 R3 A3 B3 C3]. apply fail_Done in Hr as [-> ->]. cbn in *.
    split_and!; [done|congruence|done].
Qed.

Lemma stop_scan_keeps s r s' t :
  stop_scan_posix bt s = Done (r, s', t) →
  callback_ s' = callback_ s ∧ callback_ctx_ s' = callback_ctx_ s.
Proof.
  unfold stop_scan_posix. rewrite get_bind. intros Hr. destruct (running_ s) eqn:Hrun; cbn [negb] in Hr.
  - rewrite modify_bind in Hr. apply bind_Done in Hr as (? & s1 & ? & ? & Hd & Hr & _).
    apply disable_calls in Hd as [F1 R1 A1 B1 C1].
    apply bind_Done in Hr as (? & s2 & ? & ? & Hl & Hr & _). apply calls_log in Hl as [F2 R2 A2 B2 C2].
    apply ok_Done in Hr as [-> ->]. cbn in *. split; congruence.
  - by apply ok_Done in Hr as [-> ->].
Qed.

Lemma dtor_run s u s' t :
  Scanner_dtor bt s = Done (u, s', t : list Ev) →
  running_ s' = false ∧ callback_ s' = callback_ s ∧ callback_ctx_ s' = callback_ctx_ s ∧ hci_fd_ s' < 0.
Proof.
  unfold Scanner_dtor. rewrite get_bind. intros (? & s1 & ? & ? & Hb & Hr & _)%bind_Done.
  assert (running_ s1 = false ∧ callback_ s1 = callback_ s ∧ callback_ctx_ s1 = callback_ctx_ s ∧
    hci_fd_ s1 = hci_fd_ s) as (Hr1 & Hc1 & Hx1 & Hf1).
  { destruct (running_ s) eqn:Hrun.
    - rewrite modify_bind in Hb. apply disable_calls in Hb as [F1 R1 A1 B1 C1]. by cbn in *.
    - by injection Hb as _ <- _. }
  case_if Hr as [Hfd|Hfd]; [|injection Hr as _ <- _; split_and!; (done || lia)].
  apply bind_Done in Hr as (? & s2 & ? & ? & Hc & Hr & _). apply calls_sys in Hc as [F2 R2 A2 B2 C2].
  injection Hr as _ <- _. cbn. split_and!; (congruence || lia).
Qed.

Lemma dtor_active s u s' t :
  Scanner_dtor bt s = Done (u, s', t : list Ev) →
  active (scan_thread_ s') = active (scan_thread_ s).
Proof.
  unfold Scanner_dtor. rewrite get_bind. intros (? & s1 & ? & ? & Hb & Hr & _)%bind_Done.
  assert (active (scan_thread_ s1) = active (scan_thread_ s)) as Ha1.
  { destruct (running_ s); [|by injection Hb as _ <- _].
    rewrite modify_bind in Hb. apply disable_calls in Hb as [F1 R1 A1 B1 C1]. by cbn in *. }
  case_if Hr as [Hfd|Hfd]; [|by injection Hr as _ <- _].
  apply bind_Done in Hr as (? & s2 & ? & ? & Hc & Hr & _). apply calls_sys in Hc as [F2 R2 A2 B2 C2].
  injection Hr as _ <- _. cbn in *. congruence.
Qed.

Lemma open_calls : calls_only (open_hci_socket bt).
Proof. unfold open_hci_socket. auto 12 with calls. Qed.

Lemma init_scan_run cb ctx s r s' t :
  init_impl_posix bt cb ctx s = Done (r, s', t) →
  callback_ s' = cb ∧ callback_ctx_ s' = ctx ∧ running_ s' = running_ s ∧
  active (scan_thread_ s') = active (scan_thread_ s) ∧ (has_value r = true → 0 ≤ hci_fd_ s').
Proof.
  unfold init_impl_posix. rewrite modify_bind. intros Hr.
  apply bind_Done in Hr as (dev & s1 & ? & ? & Hd & Hr & _). apply calls_sys in Hd as [F1 R1 A1 B1 C1].
  rewrite modify_bind in Hr. case_if Hr as [Hdev|Hdev].
  { apply fail_Done in Hr as [-> ->]. cbn in *. by split_and!. }
  apply bind_Done in Hr as (fd & s2 & ? & ? & Ho & Hr & _). apply open_calls in Ho as [F2 R2 A2 B2 C2].
  rewrite modify_bind in Hr. cbn in *.
  case_if Hr as [Hfd|Hfd]; [apply fail_Done in Hr as [-> ->]|apply ok_Done in Hr as [-> ->]]; cbn;
    (split_and!; [congruence..|]); [done|lia].
Qed.

Lemma stop_scan_run s r s' t :
  stop_scan_posix bt s = Done (r, s', t) →
  has_value r = true ∧ running_ s' = false ∧ hci_fd_ s' = hci_fd_ s ∧
  active (scan_thread_ s') = active (scan_thread_ s).
Proof.
  unfold stop_scan_posix. rewrite get_bind. intros Hr. destruct (running_ s) eqn:Hrun; cbn [negb] in Hr.
  - rewrite modify_bind in Hr. apply bind_Done in Hr as (? & s1 & ? & ? & Hd & Hr & _).
    apply disable_calls in Hd as [F1 R1 A1 B1 C1].
    apply bind_Done in Hr as (? & s2 & ? & ? & Hl & Hr & _). apply calls_log in Hl as [F2 R2 A2 B2 C2].
    apply ok_Done in Hr as [-> ->]. cbn in *. split_and!; [done|congruence..].
  - by apply ok_Done in Hr as [-> ->].
Qed.

(** The running flag tells the truth about [start_scan]: it is up exactly when
    the call reports success, which takes an open socket and a thread object
    that was not active. *)
Theorem start_scan_outcome s r s' t :
  running_ s = false →
  @IBle.start_scan _ _ (hci_scanner bt scan_thread_fn_ptr this) s = Done (r, s', t) →
  running_ s' = has_value r ∧ hci_fd_ s' = hci_fd_ s ∧
  (has_value r = true →
     0 ≤ hci_fd_ s ∧ active (scan_thread_ s) = false ∧ active (scan_thread_ s') = true).
Proof.
  intros Hrun (? & ? & Hs)%start_scan_run; [|done]. split_and!; [done..|].
  intros Hv. by destruct (Hs Hv) as (? & ? & ? & _).
Qed.

(** C36. Scanning cannot be resumed: nothing joins the scan thread when scanning is
    stopped, its object stays active, so every later [start_scan] fails. *)
Theorem restart_fails s r1 s1 t1 r2 s2 t2 r3 s3 t3 :
  let impl := hci_scanner bt scan_thread_fn_ptr this in
  running_ s = false →
  @IBle.start_scan _ _ impl s = Done (r1, s1, t1) → has_value r1 = true →
  @IBle.stop_scan _ _ impl s1 = Done (r2, s2, t2) →
  @IBle.start_scan _ _ impl s2 = Done (r3, s3, t3) →
  has_value r2 = true ∧ has_value r3 = false ∧ running_ s3 = false.
Proof.
  intros impl Hrun H1' Hv H2' H3'.
  apply start_scan_run in H1' as (_ & _ & Hs1); [|done]. destruct (Hs1 Hv) as (_ & _ & Ha1 & _).
  apply stop_scan_run in H2' as (Hv2 & Hrun2 & _ & Ha2).
  apply start_scan_run in H3' as (Hr3 & _ & Hs3); [|done].
  destruct (has_value r3); [|done]. destruct (Hs3 eq_refl) as (_ & Hf & _). congruence.
Qed.
End Lifecycle.

(** ** A concrete scanner *)
#[local] Instance toy_location : SourceLocation := λ s, s.

Definition toy_bluez : HciScanner.Bluez toy_system :=
  HciScanner.mkBluez toy_system (λ w, (0, w)) (λ _ w, (7, w)) (λ _ _ w, (0, w)) (λ _ w, (0, w))
    (λ _ _ _ _ w, (0, w)) (λ _ _ _ _ _ _ _ w, (0, w)) (λ _, 0) (λ _, "Success").

Abbreviation toy_thread :=
  (@PosixThread.Thread linux_errno _ ble_event _ _ toy_pthreads (Some 16384) None 1).

Definition toy_scanner (running active : bool) (w : toy_system) : HciScanner.Scanner toy_system :=
  HciScanner.mkScanner (Some 3%nat) 9 7 0 running
    (mkThread active (Names.name_buffer "BleScanner") (mkStack 8192 0) 5
       (PosixThread.mkMembers 9 5) w).

Definition toy_report (data : bytes) : adv_call := mkAdv 3 9 [1; 2; 3; 4; 5; 0xE2] 1 3 (-60) data.

Lemma reports_delivered_witness :
  let s := toy_scanner true true (mkToy true 1 0 0) in
  (HciScanner.handle_packet (Ev := ble_event) (adv_packet 20 [toy_report [1; 2]; toy_report []]) s =
   Done ((), s, [BleAdv (toy_report [1; 2]); BleAdv (toy_report [])])) ∧
  HciScanner.handle_packet (Ev := ble_event) (adv_packet 11 [toy_report []]) s = Done ((), s, []) ∧
  HciScanner.handle_packet (Ev := ble_event) (adv_packet 162 (replicate 16 (toy_report []))) s =
    Done ((), s, []).
Proof.
  intros s. split_and!.
  - apply (reports_delivered (Ev := ble_event) 20 [toy_report [1; 2]; toy_report []] s); [cbn; lia|].
    repeat constructor; cbn; lia.
  - apply (reports_delivered (Ev := ble_event) 11 [toy_report []] s); [cbn; lia|].
    repeat constructor; cbn; lia.
  - apply (reports_delivered (Ev := ble_event) 162 (replicate 16 (toy_report [])) s); [cbn; lia|].
    repeat constructor; cbn; lia.
Defined.

Lemma packet_safe_witness :
  ∃ cs rest, HciScanner.handle_packet (Ev := ble_event)
      (adv_packet 20 [toy_report [1; 2]] ++ [0; 0; 1]) (toy_scanner true true (mkToy true 1 0 0)) =
      Done ((), toy_scanner true true (mkToy true 1 0 0), BleAdv <$> cs) ∧
    (length cs ≤ 15)%nat ∧ Forall wf_report cs ∧
    Forall (λ c, Some 3%nat = Some (adv_fn c) ∧ adv_ctx c = 9) cs ∧
    (cs = [] ∨ encode_report (toy_report [1; 2]) ++ [0; 0; 1] = concat (encode_report <$> cs) ++ rest).
Proof.
  apply (packet_safe (Ev := ble_event) (adv_packet 20 [toy_report [1; 2]] ++ [0; 0; 1])
    (toy_scanner true true (mkToy true 1 0 0))).
  apply is_bytes_dec. reflexivity.
Defined.

Lemma start_scan_outcome_witness :
  let s := toy_scanner false false (mkToy false 0 0 0) in
  let s' := toy_scanner true true (mkToy true 1 0 0) in
  HciScanner.running_ s' = has_value (@is_ok BleError) ∧ HciScanner.hci_fd_ s' = HciScanner.hci_fd_ s ∧
  (has_value (@is_ok BleError) = true →
     0 ≤ HciScanner.hci_fd_ s ∧ active (HciScanner.scan_thread_ s) = false ∧
     active (HciScanner.scan_thread_ s') = true).
Proof.
  intros s s'.
  eapply (start_scan_outcome (Ev := ble_event) (H2 := toy_thread) toy_bluez 64 9 s is_ok s');
    [reflexivity|vm_compute; reflexivity].
Defined.

Lemma restart_fails_witness :
  has_value (@is_ok BleError) = true ∧
  has_value (is_err BleErrors.SystemError) = false ∧
  HciScanner.running_ (toy_scanner false true (mkToy true 1 0 0)) = false.
Proof.
  eapply (restart_fails (Ev := ble_event) (H2 := toy_thread) toy_bluez 64 9
    (toy_scanner false false (mkToy false 0 0 0)) is_ok (toy_scanner true true (mkToy true 1 0 0)) _
    is_ok (toy_scanner false true (mkToy true 1 0 0)) _
    (is_err BleErrors.SystemError) (toy_scanner false true (mkToy true 1 0 0)) _);
    [reflexivity|vm_compute; reflexivity|reflexivity|vm_compute; reflexivity|vm_compute; reflexivity].
Defined.
