(* ===== verification/Boards.v ===== *)
(** * Board support (boards/common, boards/posix, boards/zephyr)

    The GPIO interface and its two drivers, the LED that blinks under a mutex,
    the Zephyr watchdog, and the owning [Serial] wrapper with its move
    semantics over an abstract driver. *)

From stdpp Require Import prelude list strings gmap.
From Stdlib Require Import ZArith Lia Ascii.
From S2P Require Import Prelude Logger ErrorHandler ErrorCodes Sync.

(** ** GPIO *)

Inductive GpioMode :=
| Input | Output | Analog | InputPullup | InputPulldown | OutputPullup | OutputPulldown | AltFunction.

(** The enumerators' values. *)
Definition GpioMode_value (m : GpioMode) : Z :=
  match m with
  | Input => 0 | Output => 1 | Analog => 2 | InputPullup => 3 | InputPulldown => 4
  | OutputPullup => 5 | OutputPulldown => 6 | AltFunction => 7
  end.

Inductive DigitalState := Low | High.
Definition DigitalState_value (s : DigitalState) : Z := match s with Low => 0 | High => 1 end.

(** [concept GpioPinImplementation]; [G] is the hardware's state. *)
Class GpioPinImplementation (G PinType Ev : Type) := {
  do_set_mode : PinType → GpioMode → eff G Ev (ErrorHandler () GpioError);
  do_deinit : PinType → eff G Ev ();
  do_read : PinType → eff G Ev DigitalState;
  do_write : PinType → DigitalState → eff G Ev ();
}.

Module IGpio.
Section Base.
Context {G PinType Ev : Type} `{GpioPinImplementation G PinType Ev}.

Definition set_mode (pin : PinType) (mode : GpioMode) : eff G Ev (ErrorHandler () GpioError) :=
  do_set_mode pin mode.
Definition deinit (pin : PinType) : eff G Ev () := do_deinit pin.
Definition read (pin : PinType) : eff G Ev DigitalState := do_read pin.
Definition write (pin : PinType) (state : DigitalState) : eff G Ev () := do_write pin state.
End Base.
End IGpio.

Module PosixGpio.

Record Pin := mkPin { port : Z; pin : Z }.

Section Backend.
Context `{SourceLocation} {Ev : Type} `{LogEvent Ev} {G : Type}.

Definition set_mode_posix (p : Pin) (mode : GpioMode) : eff G Ev (ErrorHandler () GpioError) :=
  log (LOGGER_NOTICE "Setting POSIX pin %d mode to %d" [AInt (pin p); AInt (GpioMode_value mode)]);;
  ok.

Definition deinit_posix (p : Pin) : eff G Ev () :=
  log (LOGGER_NOTICE "Deinitializing POSIX pin %d" [AInt (pin p)]).

Definition read_posix (p : Pin) : eff G Ev DigitalState :=
  log (LOGGER_NOTICE "Read POSIX pin %d" [AInt (pin p)]);;
  mret Low.

Definition write_posix (p : Pin) (state : DigitalState) : eff G Ev () :=
  log (LOGGER_NOTICE "Writing %d to POSIX pin %d"
         [AInt (DigitalState_value state); AInt (pin p)]).

#[export] Instance GpioDriver : GpioPinImplementation G Pin Ev := {
  do_set_mode := set_mode_posix; do_deinit := deinit_posix;
  do_read := read_posix; do_write := write_posix;
}.
End Backend.
End PosixGpio.

Module ZephyrGpio.

(** Zephyr's GPIO calls on a device-tree specification, and its flags. *)
Record Gpio (G Spec : Type) := mkGpio {
  gpio_is_ready_dt : Spec → G → bool * G;
  gpio_pin_configure_dt : Spec → Z → G → Z * G;
  gpio_pin_get_dt : Spec → G → Z * G;
  gpio_pin_set_dt : Spec → Z → G → Z * G;
  GPIO_INPUT : Z; GPIO_OUTPUT : Z; GPIO_PULL_UP : Z; GPIO_PULL_DOWN : Z;
}.
Arguments gpio_is_ready_dt {G Spec} _ _ _.
Arguments gpio_pin_configure_dt {G Spec} _ _ _ _.
Arguments gpio_pin_get_dt {G Spec} _ _ _.
Arguments gpio_pin_set_dt {G Spec} _ _ _ _.
Arguments GPIO_INPUT {G Spec} _.
Arguments GPIO_OUTPUT {G Spec} _.
Arguments GPIO_PULL_UP {G Spec} _.
Arguments GPIO_PULL_DOWN {G Spec} _.

Section Backend.
Context `{Errno} `{SourceLocation} {Ev : Type} `{LogEvent Ev} {G Spec : Type} (z : Gpio G Spec).

Definition errno_to_gpio_error (error_code : Z) : GpioError :=
  let e := - error_code in
  if decide (e = 0) then GpioErrors.Unknown
  else if decide (e = EINVAL) then GpioErrors.InvalidParameter
  else if decide (e = ENODEV) then GpioErrors.DeviceNotAvailable
  else if decide (e = EIO) then GpioErrors.IOError
  else if decide (e = EBUSY) then GpioErrors.Busy
  else if decide (e = ENOTSUP) then GpioErrors.NotSupported
  else GpioErrors.Unknown.

(** The [switch] on the mode. *)
Definition mode_flags (mode : GpioMode) : option Z :=
  match mode with
  | Input => Some (GPIO_INPUT z)
  | Output => Some (GPIO_OUTPUT z)
  | InputPullup => Some (Z.lor (GPIO_INPUT z) (GPIO_PULL_UP z))
  | InputPulldown => Some (Z.lor (GPIO_INPUT z) (GPIO_PULL_DOWN z))
  | OutputPullup => Some (Z.lor (GPIO_OUTPUT z) (GPIO_PULL_UP z))
  | OutputPulldown => Some (Z.lor (GPIO_OUTPUT z) (GPIO_PULL_DOWN z))
  | Analog | AltFunction => None
  end.

Definition set_mode_zephyr (spec : Spec) (mode : GpioMode) : eff G Ev (ErrorHandler () GpioError) :=
  ready ← call (gpio_is_ready_dt z spec);
  if negb (ready : bool) then
    fail "GpioDriver::do_set_mode" GpioErrors.DeviceNotAvailable "GPIO device not ready"
  else
    match mode_flags mode with
    | None => fail "GpioDriver::do_set_mode" GpioErrors.InvalidMode "Invalid GPIO mode"
    | Some flags =>
        ret ← call (gpio_pin_configure_dt z spec flags);
        if decide (ret < 0) then
          fail "GpioDriver::do_set_mode" (errno_to_gpio_error ret) "gpio_pin_configure_dt failed"
        else ok
    end.

Definition deinit_zephyr (spec : Spec) : eff G Ev () := mret ().

Definition read_zephyr (spec : Spec) : eff G Ev DigitalState :=
  ready ← call (gpio_is_ready_dt z spec);
  if negb (ready : bool) then mret Low
  else
    value ← call (gpio_pin_get_dt z spec);
    if decide (value < 0) then mret Low
    else mret (if decide (value = 0) then Low else High).

Definition write_zephyr (spec : Spec) (state : DigitalState) : eff G Ev () :=
  ready ← call (gpio_is_ready_dt z spec);
  if negb (ready : bool) then mret ()
  else
    let value := match state with High => 1 | Low => 0 end in
    ret ← call (gpio_pin_set_dt z spec value);
    if decide (ret < 0) then mret () else mret ().

#[export] Instance GpioDriver : GpioPinImplementation G Spec Ev := {
  do_set_mode := set_mode_zephyr; do_deinit := deinit_zephyr;
  do_read := read_zephyr; do_write := write_zephyr;
}.
End Backend.
End ZephyrGpio.

(** ** The LED *)

Module Led.

(** The blinker's [status], the file's static [mutex], and the hardware. *)
Record LedBlinker (W G : Type) := mkLed {
  status : bool;
  mutex : MutexObj W;
  gpio : G;
}.
Arguments mkLed {W G} _ _ _.
Arguments status {W G} _.
Arguments mutex {W G} _.
Arguments gpio {W G} _.

(** The static objects: boards/posix names its mutex by a literal,
    boards/zephyr through a pointer. *)
Definition ledPin : PosixGpio.Pin := PosixGpio.mkPin 1 0.
Definition led_objects_posix {W G} (w : W) (g : G) : option (LedBlinker W G) :=
  m ← IMutex.IMutex_literal "LED" w; Some (mkLed false m g).
Definition led_objects_zephyr {W G} (w : W) (g : G) : LedBlinker W G :=
  mkLed false (IMutex.IMutex "LED" w) g.

Lemma led_objects_same {W G} (w : W) (g : G) :
  led_objects_posix w g = Some (led_objects_zephyr w g).
Proof. reflexivity. Qed.

Section Led.
Context `{SourceLocation} {Ev : Type} `{LogEvent Ev} {W G Duration PinType : Type}.
Context `{MutexImplementation W Duration Ev} `{GpioPinImplementation G PinType Ev}.
Context (ledPin : PinType).
Abbreviation M := (eff (LedBlinker W G) Ev).

Definition on_mutex {A} (m : eff (MutexObj W) Ev A) : M A :=
  zoom mutex (λ x l, mkLed (status l) x (gpio l)) id m.
Definition on_gpio {A} (m : eff G Ev A) : M A :=
  zoom gpio (λ g l, mkLed (status l) (mutex l) g) id m.

(** boards/posix: the error codes are logged as numbers. *)
Definition init_posix : M bool :=
  mutex_result ← on_mutex IMutex.init;
  match internal_result mutex_result with
  | Unexpected e =>
      log (LOGGER_ERROR "Failed to initialize LED mutex, error: %d" [AInt (MutexError_code e)]);;
      mret false
  | Value _ =>
      result ← on_gpio (IGpio.set_mode ledPin Output);
      match internal_result result with
      | Unexpected e =>
          log (LOGGER_ERROR "Failed to set LED GPIO mode, error: %d" [AInt (GpioError_code e)]);;
          mret false
      | Value _ => mret true
      end
  end.

(** boards/zephyr: the same without the log lines. *)
Definition init_zephyr : M bool :=
  mutex_result ← on_mutex IMutex.init;
  if negb (operator_bool mutex_result) then mret false
  else
    result ← on_gpio (IGpio.set_mode ledPin Output);
    if negb (operator_bool result) then mret false else mret true.

(** [blink], the same in both: the locker's constructor, the body, its
    destructor. *)
Definition blink (forever : Duration) : M () :=
  lock ← on_mutex (IMutex.IMutexLocker forever);
  (if lock : bool then
     modify (λ l, mkLed (negb (status l)) (mutex l) (gpio l));;
     l ← get;
     let state := if status l then Low else High in
     on_gpio (IGpio.write ledPin state)
   else mret ());;
  on_mutex (IMutex.IMutexLocker_dtor lock).

(** boards/zephyr: [K_FOREVER] for the null pointer of boards/posix. *)
Definition blink_zephyr (K_FOREVER : Duration) : M () := blink K_FOREVER.

(** *** Blinking *)

Lemma locker_run `{!MutexLaws W Duration Ev} forever (m : MutexObj W) :
  initialized_ m = true → held (mtx m) = false →
  ∃ b m' t, IMutex.IMutexLocker forever m = Done (b, m', t) ∧
    initialized_ m' = true ∧ held (mtx m') = b.
Proof.
  intros Hi Hh. unfold IMutex.IMutexLocker, IMutex.lock.
  destruct (lock_law forever m Hi Hh) as (r & m' & t & E & Hi' & Hh').
  exists (has_value r), m', t. split; [|done].
  rewrite bind_run, get_bind, Hi. cbn [negb]. rewrite E. cbn. by rewrite app_nil_r.
Qed.

Lemma locker_dtor_run `{!MutexLaws W Duration Ev} b (m : MutexObj W) :
  initialized_ m = true → held (mtx m) = b →
  ∃ m' t, IMutex.IMutexLocker_dtor b m = Done ((), m', t) ∧
    initialized_ m' = true ∧ held (mtx m') = false.
Proof.
  intros Hi Hh. destruct b; [|by exists m, []].
  destruct (unlock_law m Hi Hh) as (m' & t & E & ? & ?). exists m', t. split; [|done].
  unfold IMutex.IMutexLocker_dtor, IMutex.unlock. by rewrite get_bind, Hi.
Qed.

(** One [blink] with a mutex this thread does not hold: if the lock is granted,
    the status is inverted and the pin is driven once, Low when the LED is now
    on and High when it is off; if it is not, neither happens. In both cases
    the mutex is free again. *)
Theorem blink_toggles `{!MutexLaws W Duration Ev} forever l :
  initialized_ (mutex l) = true → held (mtx (mutex l)) = false →
  (∀ s g, ∃ g' t, IGpio.write ledPin s g = Done ((), g', t)) →
  ∃ b m1 t1 l' t, IMutex.IMutexLocker forever (mutex l) = Done (b, m1, t1) ∧
    blink forever l = Done ((), l', t) ∧
    held (mtx (mutex l')) = false ∧ initialized_ (mutex l') = true ∧
    if b : bool then
      status l' = negb (status l) ∧
      ∃ t2, IGpio.write ledPin (if status l' then Low else High) (gpio l) = Done ((), gpio l', t2)
    else status l' = status l ∧ gpio l' = gpio l.
Proof.
  intros Hi Hh Hg. destruct (locker_run forever (mutex l) Hi Hh) as (b & m1 & t1 & El & Hi1 & Hh1).
  destruct (locker_dtor_run b m1 Hi1 Hh1) as (m2 & t2 & Ed & Hi2 & Hh2).
  exists b, m1, t1. unfold blink, on_mutex, on_gpio. rewrite bind_run. unfold zoom at 1. rewrite El.
  rewrite bind_run. destruct b.
  - rewrite modify_bind, get_bind. cbn [status mutex gpio].
    destruct (Hg (if negb (status l) then Low else High) (gpio l)) as (g' & t3 & Ew).
    unfold zoom. cbn [gpio]. rewrite Ew. cbn [mutex]. rewrite Ed. do 2 eexists.
    split_and!; [done|reflexivity|done..|]. cbn [status gpio]. eauto.
  - cbn [mret eff_ret]. unfold zoom. cbn [mutex]. rewrite Ed. do 2 eexists.
    split_and!; [done|reflexivity|done..].
Qed.
End Led.
End Led.

(** The POSIX LED, with a mutex nobody else uses. *)
#[local] Instance toy_location : SourceLocation := λ s, s.

#[local] Instance led_mutex : MutexImplementation bool (option ()) LogCall :=
  @PosixMutex.Mutex linux_errno _ LogCall _ _ _ toy_pthread.
#[local] Instance led_mutex_laws : MutexLaws bool (option ()) LogCall :=
  @posix_mutex_laws linux_errno _ LogCall _ _ _ toy_pthread id toy_pthread_laws.
#[local] Instance led_gpio : GpioPinImplementation () PosixGpio.Pin LogCall := PosixGpio.GpioDriver.

Lemma blink_toggles_witness :
  let l := Led.mkLed false (mkMutex (Names.name_buffer "LED") true false) () in
  ∃ b m1 t1 l' t, IMutex.IMutexLocker None (Led.mutex l) = Done (b, m1, t1) ∧
    Led.blink Led.ledPin None l = Done ((), l', t) ∧
    held (mtx (Led.mutex l')) = false ∧ initialized_ (Led.mutex l') = true ∧
    if b : bool then
      Led.status l' = negb (Led.status l) ∧
      ∃ t2, IGpio.write Led.ledPin (if Led.status l' then Low else High)
              (Led.gpio l) = Done ((), Led.gpio l', t2)
    else Led.status l' = Led.status l ∧ Led.gpio l' = Led.gpio l.
Proof.
  intros l. apply (Led.blink_toggles Led.ledPin None l).
  - reflexivity.
  - reflexivity.
  - intros s g. by do 2 eexists.
Defined.

(** ** The watchdog *)

Class WatchdogImplementation (St Ev : Type) := {
  init_impl : Z → eff St Ev (ErrorHandler () WatchdogError);
  feed_impl : eff St Ev ();
}.

Module IWatchdog.
Definition init {St Ev} `{WatchdogImplementation St Ev} (timeout : Z)
    : eff St Ev (ErrorHandler () WatchdogError) := init_impl timeout.
Definition feed {St Ev} `{WatchdogImplementation St Ev} : eff St Ev () := feed_impl.
End IWatchdog.

Module ZephyrWatchdog.

(** The function-local static channel id, and the device. *)
Record Wdt (W : Type) := mkWdt { wdt_channel_id : Z; device : W }.
Arguments mkWdt {W} _ _.
Arguments wdt_channel_id {W} _.
Arguments device {W} _.

(** The driver's calls; [wdt_install_timeout] gets the window's maximum. *)
Record WdtApi (W : Type) := mkApi {
  device_is_ready : W → bool * W;
  wdt_install_timeout : Z → W → Z * W;
  wdt_setup : W → Z * W;
  wdt_feed : Z → W → Z * W;
}.
Arguments device_is_ready {W} _ _.
Arguments wdt_install_timeout {W} _ _ _.
Arguments wdt_setup {W} _ _.
Arguments wdt_feed {W} _ _ _.

Section Backend.
Context `{Errno} `{SourceLocation} {Ev : Type} `{LogEvent Ev} {W : Type} (api : WdtApi W).
Abbreviation M := (eff (Wdt W) Ev).

Definition errno_to_watchdog_error (err : Z) : WatchdogError :=
  if decide (err = - ENOTSUP) then WatchdogErrors.NotSupported
  else if decide (err = - EINVAL) then WatchdogErrors.InvalidParameter
  else if decide (err = - ENODEV) then WatchdogErrors.DeviceNotFound
  else if decide (err = - EBUSY) then WatchdogErrors.AlreadyInitialized
  else WatchdogErrors.HardwareError.

Definition wsys {A} (f : W → A * W) : M A :=
  zoom device (λ w s, mkWdt (wdt_channel_id s) w) id (call f).

Definition install (timeout : Z) : M () :=
  id ← wsys (wdt_install_timeout api timeout);
  modify (λ s, mkWdt id (device s)).

Definition init_impl_zephyr (timeout : Z) : M (ErrorHandler () WatchdogError) :=
  ready ← wsys (device_is_ready api);
  if negb (ready : bool) then
    fail "WatchdogDriver::init_impl" WatchdogErrors.DeviceNotReady "Watchdog device not ready"
  else
    install timeout;;
    s ← get;
    (if decide (wdt_channel_id s = - ENOTSUP) then install timeout else mret ());;
    s ← get;
    if decide (wdt_channel_id s < 0) then
      fail "WatchdogDriver::init_impl" WatchdogErrors.ConfigurationError
        "Failed to install watchdog timeout"
    else
      setup_result ← wsys (wdt_setup api);
      if decide (setup_result ≠ 0) then
        fail "WatchdogDriver::init_impl" (errno_to_watchdog_error setup_result)
          "Failed to setup watchdog"
      else ok.

Definition feed_impl_zephyr : M () :=
  s ← get;
  wsys (wdt_feed api (wdt_channel_id s));;
  mret ().

#[export] Instance WatchdogDriver : WatchdogImplementation (Wdt W) Ev := {
  init_impl := init_impl_zephyr; feed_impl := feed_impl_zephyr;
}.
End Backend.
End ZephyrWatchdog.

(** ** Serial ports *)

Module SerialPort.

(** What a concrete driver implements, as functions on its state, and the move
    constructor of its class, which leaves something behind in the source. *)
Class SerialDriverImplementation (D : Type) := {
  init_impl : D → ErrorHandler () SerialError * D;
  deinit_impl : D → D;
  poll_write_impl : bytes → Z → D → Z * D;
  poll_read_impl : nat → Z → D → Z * bytes * D;
  non_blocking_write_impl : bytes → Z → D → Z * D;
  non_blocking_read_impl : nat → Z → D → Z * bytes * D;
  get_tx_pending_impl : D → Z;
  get_rx_pending_impl : D → Z;
  flush_tx_impl : D → D;
  flush_rx_impl : D → D;
  move_impl : D → D * D;
}.

(** [concept SerialDriverConcept]: what [Serial] needs of a driver. *)
Class SerialDriver (D : Type) := {
  init : D → ErrorHandler () SerialError * D;
  deinit : D → D;
  poll_write : bytes → Z → D → Z * D;
  poll_read : nat → Z → D → Z * bytes * D;
  non_blocking_write : bytes → Z → D → Z * D;
  non_blocking_read : nat → Z → D → Z * bytes * D;
  tx_pending : D → Z;
  rx_pending : D → Z;
  drop_tx : D → D;
  drop_rx : D → D;
  move : D → D * D;
}.

(** [SerialDriverInterface<Derived>]: each call goes to the derived class. *)
#[export] Instance SerialDriverInterface {D} `{SerialDriverImplementation D} : SerialDriver D := {|
  init := init_impl;
  deinit := deinit_impl;
  poll_write := poll_write_impl;
  poll_read := poll_read_impl;
  non_blocking_write := non_blocking_write_impl;
  non_blocking_read := non_blocking_read_impl;
  tx_pending := get_tx_pending_impl;
  rx_pending := get_rx_pending_impl;
  drop_tx := flush_tx_impl;
  drop_rx := flush_rx_impl;
  move := move_impl;
|}.

(** The wrapper, and the calls it makes to drivers: the driver object a call is
    made on, as it is at the call. *)
Record Serial (D : Type) := mkSerial { driver_ : D; is_initialized_ : bool }.
Arguments mkSerial {D} _ _.
Arguments driver_ {D} _.
Arguments is_initialized_ {D} _.

Inductive serial_event (D : Type) :=
| DriverInit (d : D) (ok : bool)
| DriverDeinit (d : D)
| DriverWrite (d : D) (data : bytes)
| DriverRead (d : D) (n : nat).
Arguments DriverInit {D} _ _.
Arguments DriverDeinit {D} _.
Arguments DriverWrite {D} _ _.
Arguments DriverRead {D} _ _.

Section Wrapper.
Context {D : Type} `{SerialDriver D}.
(** The wrappers that exist, by address. *)
Abbreviation M := (eff (gmap nat (Serial D)) (serial_event D)).

(** An access to the object at [i], undefined when there is none. *)
Definition object (i : nat) : M (Serial D) :=
  m ← get;
  match m !! i with Some s => mret s | None => stopE Undefined end.
Definition store (i : nat) (s : Serial D) : M () := modify (<[i := s]>).

(** [explicit Serial(DriverT&& driver)] *)
Definition construct (i : nat) (d : D) : M () :=
  m ← get;
  match m !! i with
  | Some _ => stopE Undefined
  | None => store i (mkSerial (move d).1 false)
  end.

Definition initialize (i : nat) : M bool :=
  s ← object i;
  (if negb (is_initialized_ s) then
     let '(result, d) := init (driver_ s) in
     emit (DriverInit (driver_ s) (has_value result));;
     store i (mkSerial d (has_value result))
   else mret ());;
  s ← object i;
  mret (is_initialized_ s).

Definition cleanup (i : nat) : M () :=
  s ← object i;
  if is_initialized_ s then
    emit (DriverDeinit (driver_ s));;
    store i (mkSerial (deinit (driver_ s)) false)
  else mret ().

(** [~Serial] and the end of the object's life. *)
Definition destroy (i : nat) : M () :=
  cleanup i;;
  modify (delete i).

(** [Serial(Serial&& other)] *)
Definition move_construct (i j : nat) : M () :=
  m ← get;
  match m !! i with
  | Some _ => stopE Undefined
  | None =>
      other ← object j;
      let '(d, left_behind) := move (driver_ other) in
      store i (mkSerial d (is_initialized_ other));;
      store j (mkSerial left_behind false)
  end.

(** [operator=(Serial&& other)] *)
Definition move_assign (i j : nat) : M () :=
  if decide (i ≠ j) then
    cleanup i;;
    other ← object j;
    let '(d, left_behind) := move (driver_ other) in
    store i (mkSerial d (is_initialized_ other));;
    store j (mkSerial left_behind false)
  else mret ().

Definition write (i : nat) (data : bytes) (timeout : Z) : M Z :=
  s ← object i;
  if negb (is_initialized_ s) || bool_decide (data = []) then mret 0
  else
    let '(n, d) := non_blocking_write data timeout (driver_ s) in
    emit (DriverWrite (driver_ s) data);;
    store i (mkSerial d (is_initialized_ s));;
    mret n.

Definition read (i : nat) (size : nat) (timeout : Z) : M (Z * bytes) :=
  s ← object i;
  if negb (is_initialized_ s) || bool_decide (size = 0%nat) then mret (0, [])
  else
    let '(n, data, d) := non_blocking_read size timeout (driver_ s) in
    emit (DriverRead (driver_ s) size);;
    store i (mkSerial d (is_initialized_ s));;
    mret (n, data).

Definition get_tx_pending (i : nat) : M Z := s ← object i; mret (tx_pending (driver_ s)).
Definition get_rx_pending (i : nat) : M Z := s ← object i; mret (rx_pending (driver_ s)).
Definition flush_tx (i : nat) : M () :=
  s ← object i; store i (mkSerial (drop_tx (driver_ s)) (is_initialized_ s)).
Definition flush_rx (i : nat) : M () :=
  s ← object i; store i (mkSerial (drop_rx (driver_ s)) (is_initialized_ s)).

(** *** Ownership *)

Inductive serial_op :=
| OConstruct (i : nat) (d : D) | OInitialize (i : nat) | ODestroy (i : nat)
| OMove (i j : nat) | OAssign (i j : nat) | OWrite (i : nat) (data : bytes) (timeout : Z)
| ORead (i size : nat) (timeout : Z) | OFlushTx (i : nat) | OFlushRx (i : nat).

Definition run_serial_op (o : serial_op) : M () :=
  match o with
  | OConstruct i d => construct i d
  | OInitialize i => initialize i;; mret ()
  | ODestroy i => destroy i
  | OMove i j => move_construct i j
  | OAssign i j => move_assign i j
  | OWrite i data timeout => write i data timeout;; mret ()
  | ORead i size timeout => read i size timeout;; mret ()
  | OFlushTx i => flush_tx i
  | OFlushRx i => flush_rx i
  end.

Fixpoint run_serial_ops (ops : list serial_op) : M () :=
  match ops with [] => mret () | o :: ops' => run_serial_op o;; run_serial_ops ops' end.

(** Which port a driver is for: no call changes that, and a move takes the port
    along. *)
Class SerialPorts (K : Type) (port : D → K) : Prop := {
  port_init : ∀ d, port (init d).2 = port d;
  port_write : ∀ data timeout d, port (non_blocking_write data timeout d).2 = port d;
  port_read : ∀ n timeout d, port (non_blocking_read n timeout d).2 = port d;
  port_drop_tx : ∀ d, port (drop_tx d) = port d;
  port_drop_rx : ∀ d, port (drop_rx d) = port d;
  port_move : ∀ d, port (move d).1 = port d;
}.

Section Ownership.
Context {K : Type} `{EqDecision K} (port : D → K) `{!SerialPorts K port} (k : K).

(** Wrappers that own the initialised driver of port [k]; initialisations of it
    that succeeded, and its shut-downs. *)
Definition owns (s : Serial D) : bool := is_initialized_ s && bool_decide (port (driver_ s) = k).
Definition own (s : Serial D) : nat := if owns s then 1%nat else 0%nat.
Definition owners (m : gmap nat (Serial D)) : nat :=
  size (filter (λ p : nat * Serial D, owns p.2 = true) m).

Definition inits (t : list (serial_event D)) : nat :=
  count_ev (λ e, match e with DriverInit d b => b && bool_decide (port d = k) | _ => false end) t.
Definition deinits (t : list (serial_event D)) : nat :=
  count_ev (λ e, match e with DriverDeinit d => bool_decide (port d = k) | _ => false end) t.

Lemma owners_insert m i s : owners (<[i := s]> m) = (owners (delete i m) + own s)%nat.
Proof using EqDecision0.
  unfold owners, own. rewrite <- (insert_delete_eq m i). destruct (owns s) eqn:E.
  - rewrite map_filter_insert_True by done.
    rewrite map_size_insert_None; [lia|].
    apply map_lookup_filter_None_2. left. apply lookup_delete_eq.
  - rewrite map_filter_insert_False by (cbn; congruence).
    rewrite delete_delete_eq. lia.
Qed.

Lemma owners_lookup m i s : m !! i = Some s → owners m = (owners (delete i m) + own s)%nat.
Proof. intros E. rewrite <- owners_insert. by rewrite insert_id. Qed.

Lemma own_down (d : D) : own (mkSerial d false) = 0%nat.
Proof. done. Qed.

(** Only the port counts. *)
Lemma own_port (d1 d2 : D) b : port d1 = port d2 → own (mkSerial d1 b) = own (mkSerial d2 b).
Proof. intros E. unfold own, owns. cbn. by rewrite E. Qed.

(** A step changes the owners by the drivers it initialises less those it
    shuts down. *)
Definition balanced {A} (m : M A) : Prop :=
  ∀ s x s' t, m s = Done (x, s', t) → (owners s + inits t = owners s' + deinits t)%nat.

Lemma balanced_bind {A B} (m : M A) (f : A → M B) :
  balanced m → (∀ x, balanced (f x)) → balanced (m ≫= f).
Proof.
  intros Hm Hf s y s' t (x & s1 & t1 & t2 & H1' & H2' & ->)%bind_Done.
  apply Hm in H1'. apply Hf in H2'. unfold inits, deinits in *. rewrite !count_ev_app. lia.
Qed.

Lemma balanced_ret {A} (x : A) : balanced (mret x).
Proof. intros s y s' t [= _ <- <-]. done. Qed.

Lemma object_Done i m x s' t : object i m = Done (x, s', t) → m !! i = Some x ∧ s' = m ∧ t = [].
Proof.
  unfold object. rewrite get_bind. destruct (m !! i) as [s|]; [|done]. by intros [= <- <- <-].
Qed.

(** Overwriting an object by one that owns as much. *)
Lemma store_same m i s s1 :
  m !! i = Some s → own s1 = own s → owners (<[i := s1]> m) = owners m.
Proof. intros Hi Ho. rewrite owners_insert, (owners_lookup m i s Hi). lia. Qed.

Lemma cleanup_run i m u m' t :
  cleanup i m = Done (u, m', t) →
  ∃ s, m !! i = Some s ∧ inits t = 0%nat ∧ deinits t = own s ∧
    ((is_initialized_ s = false ∧ m' = m) ∨ ∃ d, m' = <[i := mkSerial d false]> m).
Proof.
  unfold cleanup. intros (s & m1 & t1 & t2 & (Hi & -> & ->)%object_Done & Hr & ->)%bind_Done.
  exists s. split; [done|]. unfold own, owns. destruct (is_initialized_ s) eqn:E.
  - apply bind_Done in Hr as (? & ? & ? & ? & He & Hr & ->). injection He as _ <- <-.
    injection Hr as _ <- <-. split; [done|]. split; [|by right; eexists].
    cbn. by case_bool_decide.
  - injection Hr as _ <- <-. split; [done|]. split; [done|]. by left.
Qed.

Lemma cleanup_owners i m u m' t :
  cleanup i m = Done (u, m', t) →
  ∃ s, m' !! i = Some s ∧ own s = 0%nat ∧ inits t = 0%nat ∧
    owners m = (owners m' + deinits t)%nat ∧ (∀ j, j ≠ i → m' !! j = m !! j).
Proof.
  intros (s & Hi & Ht & Hd & [(Ho & ->)|(d & ->)])%cleanup_run.
  - assert (own s = 0%nat) as E by (unfold own, owns; by rewrite Ho).
    exists s. split_and!; [done..|lia|done].
  - exists (mkSerial d false). split_and!; [by rewrite lookup_insert_eq|done..| |].
    + rewrite owners_insert, own_down, (owners_lookup m i s Hi). lia.
    + intros j Hj. by rewrite lookup_insert_ne.
Qed.

(** The flag leaves [j] and arrives at [i]. *)
Lemma handover_owners i j m s d l :
  i ≠ j → m !! j = Some s → (∀ s', m !! i = Some s' → own s' = 0%nat) → port d = port (driver_ s) →
  owners (<[j := mkSerial l false]> (<[i := mkSerial d (is_initialized_ s)]> m)) = owners m.
Proof.
  intros Hij Hj Hi Hp. rewrite owners_insert, delete_insert_ne by done.
  rewrite owners_insert, (owners_lookup m j s Hj), own_down, (own_port _ _ _ Hp).
  replace (mkSerial (driver_ s) (is_initialized_ s)) with s by by destruct s.
  enough (owners (delete i (delete j m)) = owners (delete j m)) by lia.
  destruct (m !! i) as [s'|] eqn:E.
  - rewrite (owners_lookup (delete j m) i s') by (by rewrite lookup_delete_ne).
    rewrite (Hi s') by done. lia.
  - rewrite delete_id; [done|]. by rewrite lookup_delete_ne.
Qed.

Lemma store_balanced i m s s1 u m' t :
  m !! i = Some s → own s1 = own s → store i s1 m = Done (u, m', t) →
  owners m' = owners m ∧ inits t = 0%nat ∧ deinits t = 0%nat.
Proof. intros Hi Ho [= _ <- <-]. split_and!; [by eapply store_same|done..]. Qed.

Lemma inits_init d1 d b : port d = port d1 → inits ([DriverInit d1 b] ++ []) = own (mkSerial d b).
Proof. intros E. unfold own, owns, inits. cbn. rewrite E. by destruct b, (bool_decide _). Qed.

Lemma balanced_discard {A} (m : M A) : balanced m → balanced (m;; mret ()).
Proof. intros Hm. apply balanced_bind; [done|]. intros _. apply balanced_ret. Qed.

(** Work with the object at [i] that hands back as much as it took. *)
Lemma balanced_object {A} i (f : Serial D → M A) :
  (∀ s m x m' t, m !! i = Some s → f s m = Done (x, m', t) →
     (owners m + inits t = owners m' + deinits t)%nat) →
  balanced (s ← object i; f s).
Proof.
  intros Hk m x m' t (s & ? & ? & ? & (Hi & -> & ->)%object_Done & Hr & ->)%bind_Done. by eapply Hk.
Qed.

(** A transfer through the driver. *)
Lemma transfer_balanced {A} i s e s1 (x : A) m y m' t :
  m !! i = Some s → own s1 = own s → inits [e] = 0%nat → deinits [e] = 0%nat →
  (emit e;; store i s1;; mret x) m = Done (y, m', t) →
  (owners m + inits t = owners m' + deinits t)%nat.
Proof.
  intros Hi Ho Hn Hd (? & ? & ? & ? & He & Hr & ->)%bind_Done. injection He as _ <- <-.
  apply bind_Done in Hr as (? & ? & t3 & ? & Hs & Hr & ->).
  apply (store_balanced i m s) in Hs as (E & ? & ?); [|done..].
  injection Hr as _ <- <-. unfold inits, deinits in *. rewrite !count_ev_app. cbn in *. lia.
Qed.

Lemma initialize_balanced i : balanced (initialize i).
Proof.
  apply balanced_object. intros s m x m' t Hi Hr.
  apply bind_Done in Hr as (? & m2 & t3 & t4 & Hinit & Hr & ->).
  apply bind_Done in Hr as (s2 & ? & ? & ? & (_ & -> & ->)%object_Done & Hret & ->).
  injection Hret as _ <- <-. rewrite !app_nil_r.
  destruct (is_initialized_ s) eqn:E; cbn [negb] in Hinit; [by injection Hinit as _ <- <-|].
  pose proof (port_init (driver_ s)) as Hp. destruct (init (driver_ s)) as [result d]. cbn in Hp.
  apply bind_Done in Hinit as (? & ? & ? & ? & He & Hs & ->). injection He as _ <- <-.
  injection Hs as _ <- <-. rewrite owners_insert, (owners_lookup m i s Hi), (inits_init _ _ _ Hp).
  change (deinits _) with 0%nat. assert (own s = 0%nat) as Es by (unfold own, owns; by rewrite E). lia.
Qed.

Lemma destroy_balanced i : balanced (destroy i).
Proof.
  intros m x m' t (? & m1 & t1 & t2 & Hc & Hd & ->)%bind_Done.
  apply cleanup_owners in Hc as (s & Hi & Ho & Ht & Hown & _). injection Hd as _ <- <-.
  rewrite app_nil_r. rewrite (owners_lookup m1 i s Hi) in Hown. lia.
Qed.

Lemma construct_balanced i d : balanced (construct i d).
Proof.
  intros m x m' t. unfold construct. rewrite get_bind. destruct (m !! i) eqn:E; [done|].
  intros [= _ <- <-]. rewrite owners_insert, delete_id by done. cbn. lia.
Qed.

Lemma move_construct_balanced i j : balanced (move_construct i j).
Proof.
  intros m x m' t. unfold move_construct. rewrite get_bind. destruct (m !! i) eqn:E; [done|].
  intros (s & ? & ? & ? & (Hj & -> & ->)%object_Done & Hr & ->)%bind_Done.
  pose proof (port_move (driver_ s)) as Hp. destruct (move (driver_ s)) as [d l].
  apply bind_Done in Hr as (? & ? & ? & ? & H1' & H2' & ->). injection H1' as _ <- <-.
  injection H2' as _ <- <-. rewrite handover_owners; [cbn; lia| |done|congruence|done].
  intros ->. congruence.
Qed.

Lemma move_assign_balanced i j : balanced (move_assign i j).
Proof.
  intros m x m' t Hr. unfold move_assign in Hr.
  destruct (decide (i ≠ j)) as [Hij|Hij]; [|by injection Hr as _ <- <-].
  apply bind_Done in Hr as (? & m1 & t1 & t2 & Hc & Hr & ->).
  apply cleanup_owners in Hc as (s & Hi & Ho & Ht & Hown & _).
  apply bind_Done in Hr as (s2 & ? & ? & ? & (Hj & -> & ->)%object_Done & Hr & ->).
  pose proof (port_move (driver_ s2)) as Hp. destruct (move (driver_ s2)) as [d l].
  apply bind_Done in Hr as (? & ? & ? & ? & H1' & H2' & ->). injection H1' as _ <- <-.
  injection H2' as _ <- <-. rewrite handover_owners by (done || congruence).
  rewrite !app_nil_r. lia.
Qed.

Lemma write_balanced i data ms : balanced (write i data ms).
Proof.
  apply balanced_object. intros s m x m' t Hi Hr. destruct (_ || _); [by injection Hr as _ <- <-|].
  pose proof (port_write data ms (driver_ s)) as Hp.
  destruct (non_blocking_write data ms (driver_ s)) as [n d].
  apply (transfer_balanced i s) in Hr; [done..|by destruct s; apply own_port|done|done].
Qed.

Lemma read_balanced i n ms : balanced (read i n ms).
Proof.
  apply balanced_object. intros s m x m' t Hi Hr. destruct (_ || _); [by injection Hr as _ <- <-|].
  pose proof (port_read n ms (driver_ s)) as Hp.
  destruct (non_blocking_read n ms (driver_ s)) as [[k' data] d].
  apply (transfer_balanced i s) in Hr; [done..|by destruct s; apply own_port|done|done].
Qed.

(** A flush rewrites the driver and nothing else. *)
Lemma update_balanced i (g : D → D) :
  (∀ d, port (g d) = port d) →
  balanced (s ← object i; store i (mkSerial (g (driver_ s)) (is_initialized_ s))).
Proof.
  intros Hg. apply balanced_object. intros s m x m' t Hi Hs.
  apply (store_balanced i m s) in Hs as (E & ? & ?); [lia|done|]. destruct s. by apply own_port.
Qed.

Lemma run_serial_op_balanced o : balanced (run_serial_op o).
Proof.
  destruct o; cbn [run_serial_op]; try apply balanced_discard.
  - apply construct_balanced.
  - apply initialize_balanced.
  - apply destroy_balanced.
  - apply move_construct_balanced.
  - apply move_assign_balanced.
  - apply write_balanced.
  - apply read_balanced.
  - apply update_balanced, port_drop_tx.
  - apply update_balanced, port_drop_rx.
Qed.

Lemma run_serial_ops_balanced ops : balanced (run_serial_ops ops).
Proof.
  induction ops as [|o ops IH]; [apply balanced_ret|].
  apply balanced_bind; [apply run_serial_op_balanced|done].
Qed.

(** C39. Ownership through moves: in any program over serial wrappers, and for each
    port, the initialisations of its driver that succeeded are its shut-downs
    plus the wrappers that own it initialised at that point - so no driver is
    shut down in place of another or more often than initialised, and when
    every wrapper is gone each successful initialisation has been undone. *)
Theorem serial_ownership ops m t :
  run_serial_ops ops ∅ = Done ((), m, t) → inits t = (owners m + deinits t)%nat.
Proof using SerialPorts0. intros Hr. apply run_serial_ops_balanced in Hr. by rewrite <- Hr. Qed.
End Ownership.
End Wrapper.

(** A driver: its port - none once it has been moved from - and how often it
    has been initialised. *)
Record toy_port := mkPort { number : option nat; started : nat }.
#[local] Instance toy_driver : SerialDriverImplementation toy_port := {|
  init_impl d := (is_ok, mkPort (number d) (S (started d))); deinit_impl d := mkPort (number d) 0;
  poll_write_impl data _ d := (Z.of_nat (length data), d);
  poll_read_impl n _ d := (0, replicate n 0, d);
  non_blocking_write_impl data _ d := (Z.of_nat (length data), d);
  non_blocking_read_impl n _ d := (0, replicate n 0, d);
  get_tx_pending_impl _ := 0; get_rx_pending_impl _ := 0;
  flush_tx_impl d := d; flush_rx_impl d := d;
  move_impl d := (d, mkPort None 0);
|}.

Lemma toy_ports : SerialPorts (option nat) number.
Proof. by split. Qed.

(** Two ports, the second moved over the first: the first is shut down then, the
    second when the wrapper it has ended up in is destroyed. *)
Lemma serial_ownership_witness :
  let port5 := mkPort (Some 5%nat) in
  let port6 := mkPort (Some 6%nat) in
  ∃ t, t = [DriverInit (port5 0%nat) true; DriverInit (port6 0%nat) true; DriverDeinit (port5 1%nat);
            DriverWrite (port6 1%nat) [1%Z]; DriverDeinit (port6 1%nat)] ∧
    inits number (Some 5%nat) t = (owners number (Some 5%nat) ∅ + deinits number (Some 5%nat) t)%nat ∧
    inits number (Some 6%nat) t = (owners number (Some 6%nat) ∅ + deinits number (Some 6%nat) t)%nat.
Proof.
  intros port5 port6. eexists. split; [reflexivity|].
  split; [apply (serial_ownership (D := toy_port) number (SerialPorts0 := toy_ports) (Some 5%nat)
    [OConstruct 0 (port5 0%nat); OConstruct 1 (port6 0%nat); OInitialize 0; OInitialize 1; OInitialize 1;
     OAssign 0 1; OWrite 0 [1] 10; OWrite 1 [2] 10; OMove 2 0; ODestroy 0; ODestroy 1; ODestroy 2] ∅);
    vm_compute; reflexivity|].
  apply (serial_ownership (D := toy_port) number (SerialPorts0 := toy_ports) (Some 6%nat)
    [OConstruct 0 (port5 0%nat); OConstruct 1 (port6 0%nat); OInitialize 0; OInitialize 1; OInitialize 1;
     OAssign 0 1; OWrite 0 [1] 10; OWrite 1 [2] 10; OMove 2 0; ODestroy 0; ODestroy 1; ODestroy 2] ∅).
  vm_compute; reflexivity.
Defined.
End SerialPort.
