(* ===== verification/Exclusion.v ===== *)
(** * Threads that share a mutex (platform/common/imutex, boards/*/led)

    Any number of threads call [blink] on one [LedBlinker]. Each [blink] is
    split into the accesses it makes to what they share - the mutex, the
    status, the pin -, and the threads' accesses are interleaved in every
    order. Shown are mutual exclusion, that every interleaving computes what
    the same number of [blink]s one after the other would, and that they all
    come to an end. The mutex enters through what the kernel documents of it,
    as a class both backends discharge. *)

From stdpp Require Import prelude list strings.
From Stdlib Require Import ZArith Lia.
From S2P Require Import Prelude Logger ErrorHandler ErrorCodes Sync Boards.

(** ** A mutex seen by several threads *)

(** [impl t] is the backend with thread [t] calling. A lock that succeeds was
    free and belongs to the caller then, one that fails changes no owner; the
    owner's unlock frees it. *)
Class SharedMutex {W Duration Ev : Type} (impl : nat → MutexImplementation W Duration Ev) := {
  mutex_owner : W → option nat;
  shared_lock : ∀ t timeout m, initialized_ m = true → mutex_owner (mtx m) ≠ Some t →
    ∃ r m' l, do_lock (MutexImplementation := impl t) timeout m = Done (r, m', l) ∧
      initialized_ m' = true ∧
      if has_value r then mutex_owner (mtx m) = None ∧ mutex_owner (mtx m') = Some t
      else mutex_owner (mtx m') = mutex_owner (mtx m);
  shared_unlock : ∀ t m, initialized_ m = true → mutex_owner (mtx m) = Some t →
    ∃ m' l, do_unlock (MutexImplementation := impl t) m = Done ((), m', l) ∧
      initialized_ m' = true ∧ mutex_owner (mtx m') = None;
}.

(** POSIX: an error-checking mutex. *)
Record shared_pthread_laws {W timespec} (os : nat → PosixMutex.Pthread W timespec)
    (owner : W → option nat) : Prop := {
  shared_pthread_lock : ∀ t ts w, owner w ≠ Some t →
    let r := match ts with
             | None => PosixMutex.pthread_mutex_lock (os t) w
             | Some a => PosixMutex.pthread_mutex_timedlock (os t) a w
             end in
    if decide (r.1 = 0) then owner w = None ∧ owner r.2 = Some t else owner r.2 = owner w;
  shared_pthread_unlock : ∀ t w, owner w = Some t →
    let r := PosixMutex.pthread_mutex_unlock (os t) w in r.1 = 0 ∧ owner r.2 = None;
}.

Definition posix_shared_mutex `{Errno} `{SourceLocation} {Ev} `{LogEvent Ev} {W timespec}
    (os : nat → PosixMutex.Pthread W timespec) owner (Hos : shared_pthread_laws os owner) :
  SharedMutex (λ t, PosixMutex.Mutex (Ev := Ev) (os t)).
Proof.
  refine {| mutex_owner := owner |}.
  - intros t ts m Hi Hh. cbn. unfold PosixMutex.do_lock_posix. rewrite bind_run, mutex_sys_run.
    pose proof (shared_pthread_lock _ _ Hos t ts (mtx m) Hh) as Hl. cbv zeta in Hl.
    destruct ts as [a|]; case_decide as E; do 3 eexists; (split; [reflexivity|]); by split.
  - intros t m Hi Hh. cbn. unfold PosixMutex.do_unlock_posix. rewrite bind_run, mutex_sys_run.
    destruct (shared_pthread_unlock _ _ Hos t (mtx m) Hh) as [-> Hw].
    rewrite decide_False by tauto. by do 2 eexists.
Defined.

(** Zephyr: a kernel mutex, which its owner does not lock again. *)
Record shared_kernel_laws {W k_timeout_t} (lock : nat → k_timeout_t → W → Z * W)
    (unlock : nat → W → Z * W) (owner : W → option nat) : Prop := {
  shared_kernel_lock : ∀ t ts w, owner w ≠ Some t →
    let r := lock t ts w in
    if decide (r.1 = 0) then owner w = None ∧ owner r.2 = Some t else owner r.2 = owner w;
  shared_kernel_unlock : ∀ t w, owner w = Some t → owner (unlock t w).2 = None;
}.

Definition zephyr_shared_mutex `{Errno} `{SourceLocation} {Ev} `{LogEvent Ev} {W k_timeout_t}
    (kinit : W → Z * W) (lock : nat → k_timeout_t → W → Z * W) (unlock : nat → W → Z * W) owner
    (Hos : shared_kernel_laws lock unlock owner) :
  SharedMutex (λ t, ZephyrMutex.Mutex (Ev := Ev) kinit (lock t) (unlock t)).
Proof.
  refine {| mutex_owner := owner |}.
  - intros t ts m Hi Hh. cbn. unfold ZephyrMutex.do_lock_zephyr. rewrite bind_run, mutex_sys_run.
    pose proof (shared_kernel_lock _ _ _ Hos t ts (mtx m) Hh) as Hl. cbv zeta in Hl.
    case_decide as E; do 3 eexists; (split; [reflexivity|]); by split.
  - intros t m Hi Hh. cbn. unfold ZephyrMutex.do_unlock_zephyr. rewrite bind_run, mutex_sys_run.
    do 2 eexists. split; [reflexivity|]. split; [done|]. by apply (shared_kernel_unlock _ _ _ Hos).
Defined.

(** ** Where a thread is *)

(** Between two blinks with [todo] to come, inside the constructor of the
    locker, and inside the guarded block: before [status] is read, with its
    value, after it is stored, with the value read again, after the pin is
    driven. *)
Inductive blink_pc :=
| Between
| Locking
| Locked
| Loaded (value : bool)
| Stored
| Reloaded (value : bool)
| Driven.

#[export] Instance blink_pc_eq_dec : EqDecision blink_pc.
Proof. solve_decision. Defined.

Record blinker := mkBlinker { pc : blink_pc; todo : nat }.
#[export] Instance blinker_eq_dec : EqDecision blinker.
Proof. solve_decision. Defined.

Definition inside (p : blink_pc) : bool :=
  match p with Between | Locking => false | _ => true end.

Section Blinkers.
Context `{SourceLocation} {Ev : Type} `{LogEvent Ev} {W G Duration PinType : Type}.
Context (impl : nat → MutexImplementation W Duration Ev) `{!SharedMutex impl}.
Context `{GpioPinImplementation G PinType Ev} (ledPin : PinType) (forever : Duration).
Abbreviation Led := (Led.LedBlinker W G).
Abbreviation M := (eff Led Ev).
Implicit Types l : Led.

(** The next access of thread [t]. *)
Definition advance (t : nat) (b : blinker) : M blinker :=
  match pc b with
  | Between => mret (mkBlinker Locking (pred (todo b)))
  | Locking =>
      locked_ ← Led.on_mutex (IMutex.IMutexLocker (H := impl t) forever);
      mret (mkBlinker (if locked_ : bool then Locked else Between) (todo b))
  | Locked => l ← get; mret (mkBlinker (Loaded (Led.status l)) (todo b))
  | Loaded value =>
      modify (λ l, Led.mkLed (negb value) (Led.mutex l) (Led.gpio l));;
      mret (mkBlinker Stored (todo b))
  | Stored => l ← get; mret (mkBlinker (Reloaded (Led.status l)) (todo b))
  | Reloaded value =>
      Led.on_gpio (IGpio.write ledPin (if value then Low else High));;
      mret (mkBlinker Driven (todo b))
  | Driven =>
      Led.on_mutex (IMutex.IMutexLocker_dtor (H := impl t) true);;
      mret (mkBlinker Between (todo b))
  end.

(** Accesses of thread [t] until it is between two blinks. *)
Fixpoint advance_to_end (fuel t : nat) (b : blinker) : M blinker :=
  match fuel with
  | O => stopE Undefined
  | S fuel' =>
      b' ← advance t b;
      if decide (pc b' = Between) then mret b' else advance_to_end fuel' t b'
  end.

(** An untimed lock does not return while another thread holds the mutex; a
    thread without a blink to do has ended. *)
Definition enabled (t : nat) (b : blinker) l : Prop :=
  match pc b with
  | Between => todo b ≠ 0%nat
  | Locking => ∀ u, mutex_owner (mtx (Led.mutex l)) = Some u → u = t
  | _ => True
  end.

(** The threads' accesses, one at a time; [true] marks the start of a guarded
    block. *)
Inductive access : Led * list blinker → bool → Led * list blinker → Prop :=
| access_step l bs t b b' l' tr :
    bs !! t = Some b → enabled t b l → advance t b l = Done (b', l', tr) →
    access (l, bs) (bool_decide (pc b' = Locked)) (l', <[t := b']> bs).

Inductive accesses : Led * list blinker → list bool → Led * list blinker → Prop :=
| accesses_nil cf : accesses cf [] cf
| accesses_snoc cf ms cf1 m cf2 :
    accesses cf ms cf1 → access cf1 m cf2 → accesses cf (ms ++ [m]) cf2.

(** The guarded blocks started. *)
Definition blocks (ms : list bool) : nat := length (filter (λ m, m = true) ms).

(** ** The accesses are those of [blink] *)

Lemma advance_to_end_run fuel t b l :
  advance_to_end (S fuel) t b l =
    match advance t b l with
    | Done (b', l1, t1) =>
        if decide (pc b' = Between) then Done (b', l1, t1)
        else match advance_to_end fuel t b' l1 with
             | Done (x, l2, t2) => Done (x, l2, t1 ++ t2)
             | Stop r => Stop r
             end
    | Stop r => Stop r
    end.
Proof.
  cbn [advance_to_end]. rewrite bind_run. destruct (advance t b l) as [[[b' l1] t1]|]; [|done].
  case_decide; [|done]. cbn. by rewrite app_nil_r.
Qed.

(** Alone, a thread's accesses are exactly one [blink]. *)
Lemma advance_is_blink t n l :
  advance_to_end 7 t (mkBlinker Between (S n)) l =
    (Led.blink (H1 := impl t) ledPin forever;; mret (mkBlinker Between n)) l.
Proof.
  unfold Led.blink. rewrite advance_to_end_run. cbn [advance pc todo pred mret eff_ret].
  rewrite decide_False by done. rewrite advance_to_end_run. cbn [advance pc todo].
  rewrite !bind_run. unfold Led.on_mutex at 1 2. unfold zoom at 1 2.
  destruct (IMutex.IMutexLocker (H := impl t) forever (Led.mutex l)) as [[[locked m] t1]|] eqn:E; [|done].
  cbn [mret eff_ret pc]. destruct locked.
  2:{ rewrite decide_True by done. rewrite ret_bind. cbn. by rewrite !app_nil_r. }
  rewrite decide_False by done. rewrite bind_run, modify_bind, get_bind.
  rewrite (advance_to_end_run 4). cbn [advance pc todo]. rewrite get_bind. cbn [mret eff_ret pc].
  rewrite decide_False by done.
  rewrite (advance_to_end_run 3). cbn [advance pc todo]. rewrite modify_bind. cbn [mret eff_ret pc].
  rewrite decide_False by done.
  rewrite (advance_to_end_run 2). cbn [advance pc todo]. rewrite get_bind. cbn [mret eff_ret pc].
  rewrite decide_False by done.
  rewrite (advance_to_end_run 1). cbn [advance pc todo Led.status Led.mutex Led.gpio].
  rewrite bind_run. unfold Led.on_gpio, zoom. cbn [Led.status Led.mutex Led.gpio].
  destruct (IGpio.write _ _ _) as [[[[] g] t2]|]; [|done]. cbn [mret eff_ret pc].
  rewrite decide_False by done.
  rewrite (advance_to_end_run 0). cbn [advance pc todo Led.status Led.mutex Led.gpio].
  rewrite bind_run. unfold Led.on_mutex, zoom. cbn [Led.status Led.mutex Led.gpio].
  destruct (IMutex.IMutexLocker_dtor true m) as [[[[] m'] t3]|]; [|done]. cbn [mret eff_ret pc].
  rewrite decide_True by done. rewrite !list_fmap_id, ?app_nil_r. cbn. by rewrite ?app_nil_r, ?app_assoc.
Qed.
(** *** Running a schedule *)

#[local] Instance enabled_dec t b l : Decision (enabled t b l).
Proof.
  unfold enabled. destruct (pc b); try apply _.
  destruct (mutex_owner (mtx (Led.mutex l))) as [o|] eqn:Ho; [|left; by intros u].
  destruct (decide (o = t)) as [->|Hne]; [left; by intros u [= ->]|right].
  intros Hu. apply Hne. by apply Hu.
Defined.

(** The threads of the list take one access each, in this order. *)
Fixpoint schedule (ts : list nat) (ms : list bool) (cf : Led * list blinker)
    : option (list bool * (Led * list blinker)) :=
  match ts with
  | [] => Some (ms, cf)
  | t :: ts' =>
      match cf.2 !! t with
      | Some b =>
          if decide (enabled t b cf.1) then
            match advance t b cf.1 with
            | Done (b', l', _) =>
                schedule ts' (ms ++ [bool_decide (pc b' = Locked)]) (l', <[t := b']> cf.2)
            | Stop _ => None
            end
          else None
      | None => None
      end
  end.

Lemma schedule_accesses ts cf0 ms cf ms' cf' :
  accesses cf0 ms cf → schedule ts ms cf = Some (ms', cf') → accesses cf0 ms' cf'.
Proof.
  revert ms cf. induction ts as [|t ts IH]; intros ms [l bs] Hs; cbn [schedule fst snd].
  { by intros [= <- <-]. }
  destruct (bs !! t) as [b|] eqn:Ht; [|done]. case_decide as Hen; [|done].
  destruct (advance t b l) as [[[b' l'] tr]|] eqn:E; [|done]. apply IH.
  eapply accesses_snoc; [exact Hs|]. by econstructor.
Qed.

(** ** What every interleaving keeps *)

Context (write_total : ∀ state g, ∃ g' tr, IGpio.write ledPin state g = Done ((), g', tr : list Ev)).

(** Driving the pin, and one guarded block as a whole. *)
Definition drive (state : DigitalState) (g : G) : G :=
  match IGpio.write (Ev := Ev) ledPin state g with Done (_, g', _) => g' | Stop _ => g end.
Definition toggle (v : bool * G) : bool * G :=
  (negb v.1, drive (if negb v.1 then Low else High) v.2).

Lemma write_run state g : ∃ tr, IGpio.write ledPin state g = Done ((), drive state g, tr : list Ev).
Proof using write_total.
  unfold drive. destruct (write_total state g) as (g' & tr & ->). by exists tr.
Qed.

Definition lit l : bool * G := (Led.status l, Led.gpio l).

(** What a thread inside the block has done to the value [v] it found. *)
Definition in_block (p : blink_pc) l (v : bool * G) : Prop :=
  match p with
  | Between | Locking => False
  | Locked => lit l = v
  | Loaded value => lit l = v ∧ value = v.1
  | Stored => lit l = (negb v.1, v.2)
  | Reloaded value => lit l = (negb v.1, v.2) ∧ value = negb v.1
  | Driven => lit l = toggle v
  end.

(** [k] blocks have been started since the LED was [v0]. *)
Definition exclusive (v0 : bool * G) (k : nat) (cf : Led * list blinker) : Prop :=
  let '(l, bs) := cf in
  initialized_ (Led.mutex l) = true ∧
  match mutex_owner (mtx (Led.mutex l)) with
  | None => Forall (λ b, inside (pc b) = false) bs ∧ lit l = Nat.iter k toggle v0
  | Some t => ∃ b j, bs !! t = Some b ∧ k = S j ∧ in_block (pc b) l (Nat.iter j toggle v0) ∧
      ∀ u c, bs !! u = Some c → u ≠ t → inside (pc c) = false
  end.

Lemma in_block_inside p l v : in_block p l v → inside p = true.
Proof. by destruct p. Qed.

(** A thread that is inside is the owner. *)
Lemma inside_owner v0 k l bs t b :
  exclusive v0 k (l, bs) → bs !! t = Some b → inside (pc b) = true →
  mutex_owner (mtx (Led.mutex l)) = Some t ∧
  ∃ j, k = S j ∧ in_block (pc b) l (Nat.iter j toggle v0) ∧
    ∀ u c, bs !! u = Some c → u ≠ t → inside (pc c) = false.
Proof.
  intros [_ Hex] Ht Hin. destruct (mutex_owner _) as [o|].
  - destruct Hex as (c & j & Ho & Hk & Hb & Hothers).
    destruct (decide (t = o)) as [->|Hne].
    + split; [done|]. exists j. rewrite Ho in Ht. by injection Ht as ->.
    + rewrite (Hothers t b Ht Hne) in Hin. discriminate Hin.
  - destruct Hex as [Hno _]. rewrite (Forall_lookup_1 _ _ _ _ Hno Ht) in Hin. discriminate Hin.
Qed.

Lemma lookup_insert_cases (bs : list blinker) t b' u c :
  <[t := b']> bs !! u = Some c → (u = t ∧ c = b') ∨ (u ≠ t ∧ bs !! u = Some c).
Proof.
  destruct (decide (u = t)) as [->|Hne].
  - intros Hu. left. split; [done|]. apply list_lookup_insert_Some in Hu as [(_ & -> & _)|[? _]]; done.
  - rewrite list_lookup_insert_ne by done. by right.
Qed.

(** A thread outside that stays outside, and a mutex whose owner stays. *)
Lemma exclusive_outside v0 k l l' bs t b b' :
  exclusive v0 k (l, bs) → bs !! t = Some b → inside (pc b) = false → inside (pc b') = false →
  initialized_ (Led.mutex l') = true → lit l' = lit l →
  mutex_owner (mtx (Led.mutex l')) = mutex_owner (mtx (Led.mutex l)) →
  exclusive v0 k (l', <[t := b']> bs).
Proof.
  intros [_ Hex] Ht Hb Hb' Hi' Hlit Howner. split; [done|]. rewrite Howner.
  destruct (mutex_owner (mtx (Led.mutex l))) as [o|].
  - destruct Hex as (c & j & Ho & Hk & Hc & Hothers).
    assert (o ≠ t) as Hne.
    { intros ->. rewrite Ht in Ho. injection Ho as <-. apply in_block_inside in Hc. congruence. }
    exists c, j. split; [by rewrite list_lookup_insert_ne|]. split; [done|]. split.
    + destruct l, l'. unfold lit in *. cbn in *. injection Hlit as -> ->. by destruct (pc c).
    + intros u x [[-> ->]|[Hu Hx]]%lookup_insert_cases Huo; [done|]. by eapply Hothers.
  - destruct Hex as [Hno Hv]. split; [|congruence]. by apply Forall_insert.
Qed.

(** The owner's steps inside its block. *)
Lemma exclusive_inside v0 j l l' bs t b b' :
  (∀ u c, bs !! u = Some c → u ≠ t → inside (pc c) = false) → bs !! t = Some b →
  initialized_ (Led.mutex l') = true → mutex_owner (mtx (Led.mutex l')) = Some t →
  in_block (pc b') l' (Nat.iter j toggle v0) →
  exclusive v0 (S j) (l', <[t := b']> bs).
Proof.
  intros Hothers Ht Hi Ho Hb. split; [done|]. rewrite Ho. exists b', j.
  split; [apply list_lookup_insert_eq; by eapply lookup_lt_Some|]. split_and!; [done..|].
  intros u c [[-> ->]|[Hu Hc]]%lookup_insert_cases Hne; [done|]. by eapply Hothers.
Qed.

Lemma locking_exclusive v0 k l bs t b :
  exclusive v0 k (l, bs) → bs !! t = Some b → pc b = Locking → enabled t b l →
  ∃ locked l' tr, advance t b l =
      Done (mkBlinker (if locked : bool then Locked else Between) (todo b), l', tr) ∧
    mutex_owner (mtx (Led.mutex l)) = None ∧
    exclusive v0 (if locked then S k else k)
      (l', <[t := mkBlinker (if locked : bool then Locked else Between) (todo b)]> bs).
Proof.
  intros Hex Ht Hpc Hen.
  assert (mutex_owner (mtx (Led.mutex l)) = None) as Hfree.
  { unfold enabled in Hen. rewrite Hpc in Hen. destruct Hex as [_ Hex].
    destruct (mutex_owner _) as [o|]; [|done]. pose proof (Hen o eq_refl) as ->.
    destruct Hex as (c & j & Hc & _ & Hin & _). rewrite Ht in Hc. injection Hc as <-.
    rewrite Hpc in Hin. destruct Hin. }
  assert (initialized_ (Led.mutex l) = true) as Hi by apply Hex.
  destruct (shared_lock t forever (Led.mutex l) Hi) as (r & m' & tr & E & Hi' & Hr); [by rewrite Hfree|].
  exists (has_value r), (Led.mkLed (Led.status l) m' (Led.gpio l)), tr. split; [|split; [done|]].
  - unfold advance. rewrite Hpc, bind_run. unfold Led.on_mutex, zoom, IMutex.IMutexLocker, IMutex.lock.
    rewrite bind_run, get_bind, Hi. cbn [negb]. rewrite E. cbn. by rewrite list_fmap_id, !app_nil_r.
  - destruct (has_value r).
    + destruct Hr as [_ Ho]. destruct Hex as [_ Hex]. rewrite Hfree in Hex. destruct Hex as [Hno Hv].
      apply (exclusive_inside v0 k l _ bs t b); try done.
      intros u c Hu _. exact (Forall_lookup_1 _ _ _ _ Hno Hu).
    + eapply exclusive_outside; try done. by rewrite Hpc.
Qed.

Lemma driven_exclusive v0 k l bs t b :
  exclusive v0 k (l, bs) → bs !! t = Some b → pc b = Driven →
  ∃ l' tr, advance t b l = Done (mkBlinker Between (todo b), l', tr) ∧
    exclusive v0 k (l', <[t := mkBlinker Between (todo b)]> bs).
Proof.
  intros Hex Ht Hpc. pose proof Hex as [Hi _].
  destruct (inside_owner v0 k l bs t b Hex Ht) as (Ho & j & -> & Hb & Hothers); [by rewrite Hpc|].
  destruct (shared_unlock t (Led.mutex l) Hi Ho) as (m' & tr & E & Hi' & Ho').
  exists (Led.mkLed (Led.status l) m' (Led.gpio l)), tr. split.
  - unfold advance. rewrite Hpc, bind_run. unfold Led.on_mutex, zoom, IMutex.IMutexLocker_dtor, IMutex.unlock.
    rewrite get_bind, Hi. cbn [negb]. rewrite E. cbn. by rewrite list_fmap_id, !app_nil_r.
  - rewrite Hpc in Hb. split; [done|]. cbn [Led.mutex]. rewrite Ho'. split; [|exact Hb].
    apply Forall_lookup. intros u c [[-> ->]|[Hu Hc]]%lookup_insert_cases; [done|]. by eapply Hothers.
Qed.

(** Every access a thread is allowed to make is made, and keeps the
    invariant; it counts when it starts a block. *)
Lemma advance_exclusive v0 k l bs t b :
  exclusive v0 k (l, bs) → bs !! t = Some b → enabled t b l →
  ∃ b' l' tr, advance t b l = Done (b', l', tr) ∧
    exclusive v0 (if bool_decide (pc b' = Locked) then S k else k) (l', <[t := b']> bs).
Proof using write_total.
  intros Hex Ht Hen. pose proof Hex as [Hi _]. destruct b as [p n].
  destruct (inside p) eqn:Hin; cycle 1.
  { destruct p; try discriminate Hin.
    - eexists _, l, []. split; [reflexivity|]. by eapply exclusive_outside.
    - destruct (locking_exclusive v0 k l bs t _ Hex Ht eq_refl Hen) as (locked & l' & tr & E & _ & Hex').
      do 3 eexists. split; [exact E|]. by destruct locked. }
  destruct (inside_owner v0 k l bs t _ Hex Ht Hin) as (Ho & j & -> & Hb & Hothers).
  cbn [pc] in Hb. destruct p as [| | |v| |v|]; try discriminate Hin; cbn [in_block] in Hb.
  - eexists _, l, []. split; [reflexivity|]. eapply exclusive_inside; try done.
    split; [done|]. cbn [pc]. by rewrite <- Hb.
  - destruct Hb as [Hb ->]. eexists _, _, []. split; [reflexivity|].
    eapply exclusive_inside; try done. cbn. unfold lit in *. cbn. by rewrite <- Hb.
  - eexists _, l, []. split; [reflexivity|]. eapply exclusive_inside; try done.
    split; [done|]. unfold lit in Hb. by injection Hb.
  - destruct Hb as [Hb ->]. unfold lit in Hb. injection Hb as Hs Hg.
    destruct (write_run (if negb (Nat.iter j toggle v0).1 then Low else High) (Led.gpio l)) as [tr E].
    eexists _, _, _. split.
    { unfold advance. cbn [pc]. rewrite bind_run. unfold Led.on_gpio, zoom. rewrite E. reflexivity. }
    eapply exclusive_inside; try done. cbn. unfold lit, toggle. cbn. by rewrite Hs, Hg.
  - destruct (driven_exclusive v0 (S j) l bs t _ Hex Ht eq_refl) as (l' & tr & E & Hex').
    do 3 eexists. split; [exact E|]. exact Hex'.
Qed.

Lemma blocks_app ms m : blocks (ms ++ [m]) = if m then S (blocks ms) else blocks ms.
Proof.
  unfold blocks. rewrite filter_app, length_app.
  destruct m; [rewrite filter_cons_True by done|rewrite filter_cons_False by done]; cbn; lia.
Qed.

Lemma accesses_exclusive v0 cf ms cf' :
  accesses cf ms cf' → exclusive v0 0 cf → exclusive v0 (blocks ms) cf'.
Proof using write_total.
  intros Hsteps H0'. induction Hsteps as [cf|cf ms cf1 m cf2 _ IH Hs]; [done|].
  specialize (IH H0'). rewrite blocks_app. destruct Hs as [l bs t b b' l' tr Ht Hen Hrun].
  destruct (advance_exclusive _ _ _ _ _ _ IH Ht Hen) as (b1 & l1 & tr1 & E & Hex).
  rewrite Hrun in E. by injection E as <- <- _.
Qed.

(** Threads that have not begun, and an initialised mutex nobody holds. *)
Definition fresh_start (cf : Led * list blinker) : Prop :=
  initialized_ (Led.mutex cf.1) = true ∧ mutex_owner (mtx (Led.mutex cf.1)) = None ∧
  Forall (λ b, pc b = Between) cf.2.

Lemma fresh_exclusive cf : fresh_start cf → exclusive (lit cf.1) 0 cf.
Proof.
  destruct cf as [l bs]. intros (Hi & Ho & Hbs). cbn in *. split; [done|]. rewrite Ho. split; [|done].
  eapply Forall_impl; [exact Hbs|]. by intros b ->.
Qed.

(** The owner can go on; without an owner every thread that has not ended can. *)
Lemma owner_or_done v0 k l bs :
  exclusive v0 k (l, bs) →
  Forall (λ b, b = mkBlinker Between 0) bs ∨ ∃ t b, bs !! t = Some b ∧ enabled t b l.
Proof.
  intros [_ Hex]. destruct (mutex_owner _) as [o|] eqn:Ho.
  - right. destruct Hex as (b & j & Hb & _ & Hin & _). exists o, b. split; [done|].
    unfold enabled. destruct (pc b); try done; by destruct Hin.
  - destruct Hex as [Hno _].
    destruct (decide (Forall (λ b, b = mkBlinker Between 0) bs)) as [|Hn]; [by left|right].
    apply not_Forall_Exists, Exists_exists in Hn as (b & Hin & Hb); [|apply _].
    apply list_elem_of_lookup in Hin as [t Ht]. exists t, b. split; [done|].
    pose proof (Forall_lookup_1 _ _ _ _ Hno Ht) as Hout. unfold enabled. rewrite Ho.
    destruct b as [[] n]; try discriminate Hout; [|done]. cbn. intros ->. by apply Hb.
Qed.

(** C25. Mutual exclusion and progress. Whatever the order of the accesses, at most
    one thread is inside the guarded block, and it is the one that owns the
    mutex; no thread is ever terminated - every access a thread may make
    succeeds -; and as long as a thread has a blink to do or to finish, some
    thread may make an access. *)
Theorem mutual_exclusion cf ms l bs :
  fresh_start cf → accesses cf ms (l, bs) →
  (∀ t b, bs !! t = Some b → inside (pc b) = true →
     mutex_owner (mtx (Led.mutex l)) = Some t ∧
     ∀ u c, bs !! u = Some c → inside (pc c) = true → u = t) ∧
  (∀ t b, bs !! t = Some b → enabled t b l → ∃ b' l' tr, advance t b l = Done (b', l', tr)) ∧
  (Forall (λ b, b = mkBlinker Between 0) bs ∨ ∃ t b, bs !! t = Some b ∧ enabled t b l).
Proof using write_total.
  intros Hf Hsteps. pose proof (accesses_exclusive _ _ _ _ Hsteps (fresh_exclusive _ Hf)) as Hex.
  split_and!.
  - intros t b Ht Hin. destruct (inside_owner _ _ _ _ _ _ Hex Ht Hin) as (Ho & j & _ & _ & Hothers).
    split; [done|]. intros u c Hu Hc. destruct (decide (u = t)) as [|Hne]; [done|].
    rewrite (Hothers u c Hu Hne) in Hc. discriminate Hc.
  - intros t b Ht Hen. destruct (advance_exclusive _ _ _ _ _ _ Hex Ht Hen) as (b' & l' & tr & E & _). eauto.
  - by eapply owner_or_done.
Qed.

(** [k] calls of [blink], one after the other, by any threads, each of them
    granted the lock. *)
Inductive blinked l : nat → Led → Prop :=
| blinked_none : blinked l 0 l
| blinked_once k l1 t m' tr1 l2 tr :
    blinked l k l1 →
    IMutex.IMutexLocker (H := impl t) forever (Led.mutex l1) = Done (true, m', tr1 : list Ev) →
    Led.blink (H1 := impl t) ledPin forever l1 = Done ((), l2, tr) →
    blinked l (S k) l2.

Lemma granted_blink t l m' tr1 l' tr :
  IMutex.IMutexLocker (H := impl t) forever (Led.mutex l) = Done (true, m', tr1 : list Ev) →
  Led.blink (H1 := impl t) ledPin forever l = Done ((), l', tr) → lit l' = toggle (lit l).
Proof using write_total.
  intros El. unfold Led.blink. rewrite bind_run. unfold Led.on_mutex at 1. unfold zoom at 1. rewrite El.
  rewrite bind_run, modify_bind, get_bind. unfold Led.on_gpio, zoom. cbn [Led.status Led.mutex Led.gpio].
  destruct (write_run (if negb (Led.status l) then Low else High) (Led.gpio l)) as [tr2 Ew].
  rewrite Ew. unfold Led.on_mutex, zoom. cbn [Led.status Led.mutex Led.gpio].
  destruct (IMutex.IMutexLocker_dtor true m') as [[[[] m2] tr3]|]; [|done].
  intros [= <- _]. reflexivity.
Qed.

Lemma blinked_lit l k l' : blinked l k l' → lit l' = Nat.iter k toggle (lit l).
Proof using write_total.
  induction 1 as [|k l1 t m' tr1 l2 tr _ IH El Eb]; [done|].
  change (Nat.iter (S k) toggle (lit l)) with (toggle (Nat.iter k toggle (lit l))).
  rewrite <- IH. by eapply granted_blink.
Qed.

Lemma iter_toggle_status k v : (Nat.iter k toggle v).1 = xorb v.1 (Nat.odd k).
Proof.
  induction k as [|k IH]; [by rewrite xorb_false_r|]. change (Nat.iter (S k) toggle v) with (toggle (Nat.iter k toggle v)).
  unfold toggle at 1. cbn [fst]. rewrite IH, Nat.odd_succ, <- Nat.negb_odd. by destruct v.1, (Nat.odd k).
Qed.

(** C26. Atomicity: no update is lost. Whenever no thread is inside a guarded block,
    status and pin are what as many [blink]s one after the other leave, and
    the status has been inverted once per block. *)
Theorem blinks_serialised cf ms l bs :
  fresh_start cf → accesses cf ms (l, bs) → Forall (λ b, inside (pc b) = false) bs →
  Led.status l = xorb (Led.status cf.1) (Nat.odd (blocks ms)) ∧
  ∀ l', blinked cf.1 (blocks ms) l' → Led.status l = Led.status l' ∧ Led.gpio l = Led.gpio l'.
Proof using write_total.
  intros Hf Hsteps Hout. pose proof (accesses_exclusive _ _ _ _ Hsteps (fresh_exclusive _ Hf)) as [_ Hex].
  assert (lit l = Nat.iter (blocks ms) toggle (lit cf.1)) as E.
  { destruct (mutex_owner _) as [o|]; [|apply Hex]. destruct Hex as (b & j & Hb & _ & Hin & _).
    apply in_block_inside in Hin. rewrite (Forall_lookup_1 _ _ _ _ Hout Hb) in Hin. discriminate Hin. }
  split.
  - change (Led.status l) with (lit l).1. by rewrite E, iter_toggle_status.
  - intros l' Hb%blinked_lit. rewrite <- E in Hb. unfold lit in Hb. by injection Hb as -> ->.
Qed.

(** *** All threads finish *)

(** The accesses a thread can still make. *)
Definition left_of (b : blinker) : nat :=
  7 * todo b + match pc b with
               | Between => 0 | Locking => 6 | Locked => 5 | Loaded _ => 4
               | Stored => 3 | Reloaded _ => 2 | Driven => 1
               end.
(** The blocks it will still start if every lock is granted. *)
Definition blinks_of (b : blinker) : nat :=
  todo b + if decide (pc b = Locking) then 1 else 0.

Lemma sum_insert (f : blinker → nat) bs t b b' :
  bs !! t = Some b →
  (sum_list_with f (<[t := b']> bs) + f b = sum_list_with f bs + f b')%nat.
Proof.
  revert t. induction bs as [|c bs IH]; intros [|t]; cbn; [done..| |].
  - intros [= ->]. lia.
  - intros Ht. specialize (IH t Ht). rewrite <- !Nat.add_assoc. f_equal. exact IH.
Qed.

Lemma advance_left t b l b' l' tr :
  enabled t b l → advance t b l = Done (b', l', tr) → (left_of b' < left_of b)%nat.
Proof.
  destruct b as [[] n]; unfold enabled, advance, left_of; cbn [pc todo]; intros Hen Hrun; eff_inv;
    cbn [pc todo]; try lia.
  match goal with |- context [if ?x then Locked else Between] => destruct x end; lia.
Qed.

Lemma access_left cf m cf' :
  access cf m cf' → (sum_list_with left_of cf'.2 < sum_list_with left_of cf.2)%nat.
Proof.
  intros [l bs t b b' l' tr Ht Hen Hrun]. cbn.
  pose proof (advance_left _ _ _ _ _ _ Hen Hrun). pose proof (sum_insert left_of bs t b b' Ht). lia.
Qed.

Lemma accesses_left cf ms cf' :
  accesses cf ms cf' →
  (length ms + sum_list_with left_of cf'.2 ≤ sum_list_with left_of cf.2)%nat.
Proof.
  induction 1 as [cf|cf ms cf1 m cf2 _ IH Hs]; [cbn; lia|].
  apply access_left in Hs. rewrite length_app. cbn. lia.
Qed.

(** A lock of a free mutex is granted. *)
Definition always_granted : Prop :=
  ∀ t m r m' tr, initialized_ m = true → mutex_owner (mtx m) = None →
    do_lock (MutexImplementation := impl t) forever m = Done (r, m', tr) → has_value r = true.

Lemma access_blinks v0 k cf m cf' :
  always_granted → exclusive v0 k cf → access cf m cf' →
  (sum_list_with blinks_of cf'.2 + (if m then 1 else 0) = sum_list_with blinks_of cf.2)%nat.
Proof using write_total.
  intros Hg Hex Hs. destruct Hs as [l bs t [p n] b' l' tr Ht Hen Hrun]. cbn.
  pose proof (sum_insert blinks_of bs t _ b' Ht) as Hsum.
  enough (blinks_of b' + (if bool_decide (pc b' = Locked) then 1 else 0) = blinks_of (mkBlinker p n))%nat by lia.
  destruct p; cycle 1.
  - destruct (locking_exclusive v0 k l bs t _ Hex Ht eq_refl Hen) as (locked & l1 & tr1 & E & Hfree & _).
    rewrite Hrun in E. injection E as -> -> ->. destruct locked; [by unfold blinks_of; cbn [pc todo]; rewrite Nat.add_0_r|]. exfalso.
    unfold advance in Hrun. cbn [pc] in Hrun. unfold Led.on_mutex, IMutex.IMutexLocker, IMutex.lock in Hrun.
    assert (initialized_ (Led.mutex l) = true) as Hi by apply Hex.
    rewrite bind_run in Hrun. unfold zoom in Hrun. rewrite bind_run, get_bind, Hi in Hrun. cbn [negb] in Hrun.
    destruct (do_lock _ _) as [[[r m'] tr2]|] eqn:El; [|done]. cbn in Hrun.
    pose proof (Hg _ _ _ _ _ Hi Hfree El) as Hv. rewrite Hv in Hrun. discriminate Hrun.
  - unfold advance in Hrun. cbn [pc] in Hrun. by eff_inv.
  - unfold advance in Hrun. cbn [pc] in Hrun. by eff_inv.
  - unfold advance in Hrun. cbn [pc] in Hrun. by eff_inv.
  - unfold advance in Hrun. cbn [pc] in Hrun. by eff_inv.
  - unfold advance in Hrun. cbn [pc] in Hrun. by eff_inv.
  - unfold advance in Hrun. cbn [pc todo] in Hrun. eff_inv. unfold enabled in Hen. cbn [pc todo] in Hen.
    unfold blinks_of. cbn [pc todo]. rewrite bool_decide_eq_false_2, decide_True, decide_False by done. lia.
Qed.

Lemma accesses_blinks cf ms cf' :
  always_granted → fresh_start cf → accesses cf ms cf' →
  (sum_list_with blinks_of cf'.2 + blocks ms = sum_list_with blinks_of cf.2)%nat.
Proof using write_total.
  intros Hg Hf Hsteps. induction Hsteps as [cf|cf ms cf1 m cf2 Hs1 IH Hs]; [cbn; lia|].
  pose proof (accesses_exclusive _ _ _ _ Hs1 (fresh_exclusive _ Hf)) as Hex.
  pose proof (access_blinks _ _ _ _ _ Hg Hex Hs). specialize (IH Hf).
  rewrite blocks_app. destruct m; lia.
Qed.

Lemma fresh_sums bs :
  Forall (λ b, pc b = Between) bs →
  sum_list_with left_of bs = (7 * sum_list_with todo bs)%nat ∧
  sum_list_with blinks_of bs = sum_list_with todo bs.
Proof.
  induction 1 as [|[p n] bs Hb _ [IH1 IH2]]; [done|]. cbn in Hb. subst p. split.
  - change (left_of (mkBlinker Between n) + sum_list_with left_of bs =
      7 * (n + sum_list_with todo bs))%nat. rewrite IH1. unfold left_of. cbn [pc todo]. lia.
  - change (blinks_of (mkBlinker Between n) + sum_list_with blinks_of bs =
      n + sum_list_with todo bs)%nat. rewrite IH2. unfold blinks_of. cbn [pc todo].
    rewrite decide_False by done. lia.
Qed.

Lemma done_sum bs :
  Forall (λ b, b = mkBlinker Between 0) bs → sum_list_with blinks_of bs = 0%nat.
Proof. induction 1 as [|b bs -> _ IH]; [done|]. cbn. by rewrite IH. Qed.

(** C27. Every schedule ends: the threads make at most seven accesses per [blink].
    When no access is possible any more, all of them are through and the mutex
    is free; and if the locks were granted, every [blink] has inverted the
    status. *)
Theorem blinks_finish cf ms l bs :
  fresh_start cf → accesses cf ms (l, bs) →
  (length ms ≤ 7 * sum_list_with todo cf.2)%nat ∧
  ((∀ m cf', ¬ access (l, bs) m cf') →
     Forall (λ b, b = mkBlinker Between 0) bs ∧ mutex_owner (mtx (Led.mutex l)) = None ∧
     (always_granted →
        Led.status l = xorb (Led.status cf.1) (Nat.odd (sum_list_with todo cf.2)))).
Proof using write_total.
  intros Hf Hsteps. pose proof Hf as (_ & _ & Hbs). destruct (fresh_sums _ Hbs) as [El Eb].
  split; [pose proof (accesses_left _ _ _ Hsteps); lia|]. intros Hend.
  pose proof (accesses_exclusive _ _ _ _ Hsteps (fresh_exclusive _ Hf)) as Hex.
  assert (Forall (λ b, b = mkBlinker Between 0) bs) as Hdone.
  { destruct (owner_or_done _ _ _ _ Hex) as [|(t & b & Ht & Hen)]; [done|]. exfalso.
    destruct (advance_exclusive _ _ _ _ _ _ Hex Ht Hen) as (b' & l' & tr & E & _).
    eapply Hend. by econstructor. }
  split; [done|]. destruct Hex as [_ Hex]. destruct (mutex_owner _) as [o|].
  { destruct Hex as (b & j & Hb & _ & Hin & _). apply in_block_inside in Hin.
    rewrite (Forall_lookup_1 _ _ _ _ Hdone Hb) in Hin. discriminate Hin. }
  split; [done|]. intros Hg. pose proof (accesses_blinks _ _ _ Hg Hf Hsteps) as Hsum.
  cbn [snd] in Hsum. rewrite (done_sum _ Hdone), Eb in Hsum. cbn in Hsum. destruct Hex as [_ Hv].
  change (Led.status l) with (lit l).1. rewrite Hv, iter_toggle_status. by rewrite <- Hsum.
Qed.
End Blinkers.

(** ** Two threads and a POSIX LED *)

Lemma posix_write_total {G Ev} `{LogEvent Ev} p state (g : G) :
  ∃ g' tr, PosixGpio.write_posix (Ev := Ev) p state g = Done ((), g', tr).
Proof. by do 2 eexists. Qed.

Lemma zephyr_write_total {G Spec Ev} (z : ZephyrGpio.Gpio G Spec) spec state (g : G) :
  ∃ g' tr, ZephyrGpio.write_zephyr (Ev := Ev) z spec state g = Done ((), g', tr).
Proof.
  unfold ZephyrGpio.write_zephyr. rewrite bind_run, call_run. destruct (negb _); [by do 2 eexists|].
  rewrite bind_run, call_run. case_decide; by do 2 eexists.
Qed.

#[local] Instance toy_location : SourceLocation := λ s, s.

(** An error-checking mutex whose state is its owner. *)
Definition owned_pthread (t : nat) : PosixMutex.Pthread (option nat) () :=
  let lock (w : option nat) := match w with
                               | None => (0, Some t)
                               | Some o => (if decide (o = t) then 35 else 110, w)
                               end in
  PosixMutex.mkPthread (option nat) () (λ w, (0, w)) (λ w, (0, w)) (λ w, (0, w)) (λ w, (0, w))
    (λ w, (0, None)) lock (λ _, lock) (λ w, if decide (w = Some t) then (0, None) else (1, w)).

Lemma owned_pthread_laws : shared_pthread_laws owned_pthread id.
Proof.
  split.
  - intros t ts w Hw. unfold id in *. destruct ts, w as [o|]; cbn; try done;
      (destruct (decide (o = t)) as [->|]; [done|]); done.
  - intros t w Hw. unfold id in Hw. rewrite Hw. cbn. by rewrite decide_True.
Qed.

#[local] Instance owned_shared :
  SharedMutex (λ t, @PosixMutex.Mutex linux_errno _ LogCall _ _ _ (owned_pthread t)) :=
  @posix_shared_mutex linux_errno _ LogCall _ _ _ owned_pthread id owned_pthread_laws.
#[local] Instance led_gpio : GpioPinImplementation () PosixGpio.Pin LogCall := PosixGpio.GpioDriver.

Lemma led_write_total state (g : ()) :
  ∃ g' tr, IGpio.write Led.ledPin state g = Done ((), g', tr : list LogCall).
Proof. apply posix_write_total. Qed.

Definition two_blinkers : Led.LedBlinker (option nat) () * list blinker :=
  (Led.mkLed false (mkMutex (Names.name_buffer "LED") true None) (),
   [mkBlinker Between 1; mkBlinker Between 2]).

Abbreviation toy_accesses :=
  (accesses (λ t, @PosixMutex.Mutex linux_errno _ LogCall _ _ _ (owned_pthread t))
     Led.ledPin None).
Abbreviation toy_schedule :=
  (schedule (λ t, @PosixMutex.Mutex linux_errno _ LogCall _ _ _ (owned_pthread t))
     Led.ledPin None).

Lemma two_blinkers_fresh :
  fresh_start (λ t, @PosixMutex.Mutex linux_errno _ LogCall _ _ _ (owned_pthread t)) two_blinkers.
Proof. split; [reflexivity|]. split; [reflexivity|]. by repeat constructor. Qed.

(** Thread 1 gets the lock while thread 0 waits for it. *)
Lemma mutual_exclusion_witness :
  ∃ l bs, toy_accesses two_blinkers [false; false; true; false] (l, bs) ∧
    bs = [mkBlinker Locking 0; mkBlinker (Loaded false) 1] ∧
    ∀ u c, bs !! u = Some c → inside (pc c) = true → u = 1%nat.
Proof.
  destruct (toy_schedule [0; 1; 1; 1]%nat [] two_blinkers) as [[ms [l bs]]|] eqn:E;
    [|vm_compute in E; discriminate E].
  pose proof (schedule_accesses _ _ _ _ two_blinkers _ _ _ _ (accesses_nil _ _ _ _) E) as Hs.
  vm_compute in E. injection E as <- <- <-.
  eexists _, _. split; [exact Hs|]. split; [reflexivity|].
  refine (proj2 (proj1 (mutual_exclusion _ _ _ led_write_total _ _ _ _ two_blinkers_fresh Hs)
    1%nat _ eq_refl eq_refl)).
Defined.

(** Both have blinked once, thread 1 has one more to do. *)
Lemma blinks_serialised_witness :
  ∃ l bs ms, toy_accesses two_blinkers ms (l, bs) ∧
    bs = [mkBlinker Between 0; mkBlinker Between 1] ∧ blocks ms = 2%nat ∧ Led.status l = false.
Proof.
  destruct (toy_schedule [0; 1; 1; 1; 1; 1; 1; 1; 0; 0; 0; 0; 0; 0]%nat [] two_blinkers)
    as [[ms [l bs]]|] eqn:E; [|vm_compute in E; discriminate E].
  pose proof (schedule_accesses _ _ _ _ two_blinkers _ _ _ _ (accesses_nil _ _ _ _) E) as Hs.
  vm_compute in E. injection E as <- <- <-.
  eexists _, _, _. split; [exact Hs|]. split; [reflexivity|]. split; [reflexivity|].
  refine (proj1 (blinks_serialised _ _ _ led_write_total _ _ _ _ two_blinkers_fresh Hs _)).
  repeat constructor.
Defined.

(** All three blinks done: nothing is left to do, and the LED is on. *)
Lemma blinks_finish_witness :
  ∃ l bs ms, toy_accesses two_blinkers ms (l, bs) ∧ (length ms ≤ 21)%nat ∧
    ((∀ m cf', ¬ access (λ t, @PosixMutex.Mutex linux_errno _ LogCall _ _ _ (owned_pthread t))
        Led.ledPin None (l, bs) m cf') →
     Forall (λ b, b = mkBlinker Between 0) bs ∧ mtx (Led.mutex l) = None ∧
     (always_granted (λ t, @PosixMutex.Mutex linux_errno _ LogCall _ _ _ (owned_pthread t)) None →
      Led.status l = true)).
Proof.
  destruct (toy_schedule [0; 1; 1; 1; 1; 1; 1; 1; 0; 0; 0; 0; 0; 0; 1; 1; 1; 1; 1; 1; 1]%nat [] two_blinkers)
    as [[ms [l bs]]|] eqn:E; [|vm_compute in E; discriminate E].
  pose proof (schedule_accesses _ _ _ _ two_blinkers _ _ _ _ (accesses_nil _ _ _ _) E) as Hs.
  vm_compute in E. injection E as <- <- <-.
  eexists _, _, _. split; [exact Hs|].
  exact (blinks_finish _ _ _ led_write_total _ _ _ _ two_blinkers_fresh Hs).
Defined.
