(* ===== verification/Usbd.v ===== *)
(** * USB device set-up (platform/zephyr_core/usb_common/common_usbd.c)

    The C code that configures the Zephyr USB stack: string descriptors,
    configurations, classes and callbacks, each step checked. The USB stack is
    a parameter, the Kconfig switches are a record. The order of the calls is
    stated as a plan, and the code is proved to carry out that plan up to the
    first call that fails. *)

From stdpp Require Import prelude list strings.
From Stdlib Require Import ZArith Lia.
From S2P Require Import Prelude Logger.

(** [LOG_ERR(fmt, ...)] of Zephyr's logger. *)
Inductive usb_event := LOG_ERR (fmt : string) (args : list log_arg).

(** The objects the file defines. *)
Inductive usbd_desc := lang | mfr | product | sample_sn | sample_usbext.
Inductive usbd_config := sample_fs_config | sample_hs_config.
Inductive usbd_speed := USBD_SPEED_FS | USBD_SPEED_HS.

#[export] Instance usbd_desc_eq_dec : EqDecision usbd_desc.
Proof. solve_decision. Defined.
#[export] Instance usbd_speed_eq_dec : EqDecision usbd_speed.
Proof. solve_decision. Defined.

Definition blocklist : list string := ["dfu_dfu"].

(** The build's configuration, and the attribute bits of the USB headers. *)
Record Kconfig := mkKconfig {
  CONFIG_HWINFO : bool;
  CONFIG_USBD_CDC_ACM_CLASS : bool;
  CONFIG_USBD_CDC_ECM_CLASS : bool;
  CONFIG_USBD_CDC_NCM_CLASS : bool;
  CONFIG_USBD_MIDI2_CLASS : bool;
  CONFIG_USBD_AUDIO2_CLASS : bool;
  CONFIG_USBD_VIDEO_CLASS : bool;
  CONFIG_COMMON_USBD_SELF_POWERED : bool;
  CONFIG_COMMON_USBD_REMOTE_WAKEUP : bool;
  CONFIG_COMMON_USBD_20_EXTENSION_DESC : bool;
  USBD_SUPPORTS_HIGH_SPEED : bool;
  USB_SCD_SELF_POWERED : Z;
  USB_SCD_REMOTE_WAKEUP : Z;
  USB_BCC_MISCELLANEOUS : Z;
}.

(** The USB stack, on the one context [usbd]. *)
Record Usbd (W : Type) := mkUsbd {
  usbd_add_descriptor : usbd_desc → W → Z * W;
  usbd_caps_speed : W → usbd_speed * W;
  usbd_add_configuration : usbd_speed → usbd_config → W → Z * W;
  usbd_register_all_classes : usbd_speed → Z → list string → W → Z * W;
  usbd_device_set_code_triple : usbd_speed → Z → Z → Z → W → Z * W;
  usbd_self_powered : Z → W → () * W;
  usbd_msg_register_cb : Z → W → Z * W;
  usbd_device_set_bcd_usb : usbd_speed → Z → W → Z * W;
  usbd_init : W → Z * W;
}.
Arguments usbd_add_descriptor {W} _ _ _.
Arguments usbd_caps_speed {W} _ _.
Arguments usbd_add_configuration {W} _ _ _ _.
Arguments usbd_register_all_classes {W} _ _ _ _ _.
Arguments usbd_device_set_code_triple {W} _ _ _ _ _ _.
Arguments usbd_self_powered {W} _ _ _.
Arguments usbd_msg_register_cb {W} _ _ _.
Arguments usbd_device_set_bcd_usb {W} _ _ _ _.
Arguments usbd_init {W} _ _.

Section Setup.
Context (k : Kconfig) {W : Type} (api : Usbd W).
Abbreviation M := (eff W usb_event).

Definition attributes : Z :=
  u8 (Z.lor (if CONFIG_COMMON_USBD_SELF_POWERED k then USB_SCD_SELF_POWERED k else 0)
            (if CONFIG_COMMON_USBD_REMOTE_WAKEUP k then USB_SCD_REMOTE_WAKEUP k else 0)).

(** [LOG_ERR(...); return NULL;]: a pointer is [true] when it is [&usbd]. *)
Definition give_up_with (fmt : string) (args : list log_arg) : M bool :=
  emit (LOG_ERR fmt args);; mret false.

Definition sample_fix_code_triple (speed : usbd_speed) : M () :=
  if CONFIG_USBD_CDC_ACM_CLASS k || CONFIG_USBD_CDC_ECM_CLASS k ||
     CONFIG_USBD_CDC_NCM_CLASS k || CONFIG_USBD_MIDI2_CLASS k ||
     CONFIG_USBD_AUDIO2_CLASS k || CONFIG_USBD_VIDEO_CLASS k
  then
    call (usbd_device_set_code_triple api speed (USB_BCC_MISCELLANEOUS k) 0x02 0x01);; mret ()
  else
    call (usbd_device_set_code_triple api speed 0 0 0);; mret ().

(** The high-speed block; [false] when it returned from the function. *)
Definition setup_high_speed : M bool :=
  err ← call (usbd_add_configuration api USBD_SPEED_HS sample_hs_config);
  if decide (err ≠ 0) then give_up_with "Failed to add High-Speed configuration" []
  else
    err ← call (usbd_register_all_classes api USBD_SPEED_HS 1 blocklist);
    if decide (err ≠ 0) then give_up_with "Failed to add register classes" []
    else
      sample_fix_code_triple USBD_SPEED_HS;;
      mret true.

(** From the full-speed configuration on. *)
Definition setup_full_speed (msg_cb : Z) : M bool :=
  err ← call (usbd_add_configuration api USBD_SPEED_FS sample_fs_config);
  if decide (err ≠ 0) then give_up_with "Failed to add Full-Speed configuration" []
  else
    err ← call (usbd_register_all_classes api USBD_SPEED_FS 1 blocklist);
    if decide (err ≠ 0) then give_up_with "Failed to add register classes" []
    else
      sample_fix_code_triple USBD_SPEED_FS;;
      call (usbd_self_powered api (Z.land attributes (USB_SCD_SELF_POWERED k)));;
      err ← (if decide (msg_cb ≠ 0) then call (usbd_msg_register_cb api msg_cb) else mret 0);
      if decide (err ≠ 0) then give_up_with "Failed to register message callback" []
      else if CONFIG_COMMON_USBD_20_EXTENSION_DESC k then
        call (usbd_device_set_bcd_usb api USBD_SPEED_FS 0x0201);;
        call (usbd_device_set_bcd_usb api USBD_SPEED_HS 0x0201);;
        err ← call (usbd_add_descriptor api sample_usbext);
        if decide (err ≠ 0) then give_up_with "Failed to add USB 2.0 Extension Descriptor" []
        else mret true
      else mret true.

Definition sample_usbd_setup_device (msg_cb : Z) : M bool :=
  err ← call (usbd_add_descriptor api lang);
  if decide (err ≠ 0) then give_up_with "Failed to initialize language descriptor (%d)" [AInt err]
  else
    err ← call (usbd_add_descriptor api mfr);
    if decide (err ≠ 0) then
      give_up_with "Failed to initialize manufacturer descriptor (%d)" [AInt err]
    else
      err ← call (usbd_add_descriptor api product);
      if decide (err ≠ 0) then
        give_up_with "Failed to initialize product descriptor (%d)" [AInt err]
      else
        err ← (if CONFIG_HWINFO k then call (usbd_add_descriptor api sample_sn) else mret err);
        if decide (err ≠ 0) then give_up_with "Failed to initialize SN descriptor (%d)" [AInt err]
        else
          hs ← (if USBD_SUPPORTS_HIGH_SPEED k then
                  speed ← call (usbd_caps_speed api);
                  mret (bool_decide (speed = USBD_SPEED_HS))
                else mret false);
          go_on ← (if (hs : bool) then setup_high_speed else mret true);
          if negb (go_on : bool) then mret false else setup_full_speed msg_cb.

Definition sample_usbd_init_device (msg_cb : Z) : M bool :=
  ready ← sample_usbd_setup_device msg_cb;
  if negb (ready : bool) then mret false
  else
    err ← call (usbd_init api);
    if decide (err ≠ 0) then give_up_with "Failed to initialize device support" []
    else mret true.
End Setup.

(** ** The plan *)

Inductive usb_call :=
| AddDescriptor (d : usbd_desc)
| AddConfiguration (speed : usbd_speed) (c : usbd_config)
| RegisterAllClasses (speed : usbd_speed)
| SetCodeTriple (speed : usbd_speed) (base sub proto : Z)
| SelfPowered (status : Z)
| RegisterCb (cb : Z)
| SetBcdUsb (speed : usbd_speed) (bcd : Z)
| InitDevice.

(** A step is checked, with the message for its failure and whether that shows
    the code, or it is not. *)
Inductive usb_step :=
| Must (c : usb_call) (failure : string) (show : bool)
| May (c : usb_call).

Section Plan.
Context (k : Kconfig) {W : Type} (api : Usbd W).

Definition perform (c : usb_call) : W → Z * W :=
  match c with
  | AddDescriptor d => usbd_add_descriptor api d
  | AddConfiguration sp c => usbd_add_configuration api sp c
  | RegisterAllClasses sp => usbd_register_all_classes api sp 1 blocklist
  | SetCodeTriple sp b s p => usbd_device_set_code_triple api sp b s p
  | SelfPowered st => λ w, (0, (usbd_self_powered api st w).2)
  | RegisterCb cb => usbd_msg_register_cb api cb
  | SetBcdUsb sp v => usbd_device_set_bcd_usb api sp v
  | InitDevice => usbd_init api
  end.

(** Carrying out a plan: the failure it ends with, if any. *)
Fixpoint carry_out (plan : list usb_step) (w : W) : option (string * list log_arg) * W :=
  match plan with
  | [] => (None, w)
  | Must c failure show :: plan' =>
      let '(err, w') := perform c w in
      if decide (err = 0) then carry_out plan' w'
      else (Some (failure, if show then [AInt err] else []), w')
  | May c :: plan' => carry_out plan' (perform c w).2
  end.

Definition string_plan : list usb_step :=
  [Must (AddDescriptor lang) "Failed to initialize language descriptor (%d)" true;
   Must (AddDescriptor mfr) "Failed to initialize manufacturer descriptor (%d)" true;
   Must (AddDescriptor product) "Failed to initialize product descriptor (%d)" true] ++
  (if CONFIG_HWINFO k
   then [Must (AddDescriptor sample_sn) "Failed to initialize SN descriptor (%d)" true] else []).

Definition multi_interface : bool :=
  CONFIG_USBD_CDC_ACM_CLASS k || CONFIG_USBD_CDC_ECM_CLASS k || CONFIG_USBD_CDC_NCM_CLASS k ||
  CONFIG_USBD_MIDI2_CLASS k || CONFIG_USBD_AUDIO2_CLASS k || CONFIG_USBD_VIDEO_CLASS k.

Definition triple_step (sp : usbd_speed) : usb_step :=
  May (if multi_interface then SetCodeTriple sp (USB_BCC_MISCELLANEOUS k) 2 1
       else SetCodeTriple sp 0 0 0).

Definition high_speed_plan : list usb_step :=
  [Must (AddConfiguration USBD_SPEED_HS sample_hs_config)
     "Failed to add High-Speed configuration" false;
   Must (RegisterAllClasses USBD_SPEED_HS) "Failed to add register classes" false;
   triple_step USBD_SPEED_HS].

Definition full_speed_plan (msg_cb : Z) : list usb_step :=
  [Must (AddConfiguration USBD_SPEED_FS sample_fs_config)
     "Failed to add Full-Speed configuration" false;
   Must (RegisterAllClasses USBD_SPEED_FS) "Failed to add register classes" false;
   triple_step USBD_SPEED_FS;
   May (SelfPowered (Z.land (attributes k) (USB_SCD_SELF_POWERED k)))] ++
  (if decide (msg_cb = 0) then []
   else [Must (RegisterCb msg_cb) "Failed to register message callback" false]) ++
  (if CONFIG_COMMON_USBD_20_EXTENSION_DESC k then
     [May (SetBcdUsb USBD_SPEED_FS 0x0201); May (SetBcdUsb USBD_SPEED_HS 0x0201);
      Must (AddDescriptor sample_usbext) "Failed to add USB 2.0 Extension Descriptor" false]
   else []).

Definition init_plan : list usb_step :=
  [Must InitDevice "Failed to initialize device support" false].

(** The controller is asked for its speed after the strings are in. *)
Definition high_speed (w : W) : bool * W :=
  if USBD_SUPPORTS_HIGH_SPEED k then
    let '(speed, w') := usbd_caps_speed api w in (bool_decide (speed = USBD_SPEED_HS), w')
  else (false, w).

Definition after_strings (msg_cb : Z) (hs : bool) : list usb_step :=
  (if hs then high_speed_plan else []) ++ full_speed_plan msg_cb ++ init_plan.

Definition usb_set_up (msg_cb : Z) (w : W) : option (string * list log_arg) * W :=
  match carry_out string_plan w with
  | (None, w1) => let '(hs, w2) := high_speed w1 in carry_out (after_strings msg_cb hs) w2
  | failed => failed
  end.

(** What the C function makes of the end of a plan. *)
Definition ended (r : option (string * list log_arg) * W) : outcome (bool * W * list usb_event) :=
  match r with
  | (None, w) => Done (true, w, [])
  | (Some (failure, args), w) => Done (false, w, [LOG_ERR failure args])
  end.

Definition follows (m : eff W usb_event bool) (plan : list usb_step) : Prop :=
  ∀ w, m w = ended (carry_out plan w).

Lemma follows_done : follows (mret true) [].
Proof. done. Qed.

Lemma follows_must c failure show (m : eff W usb_event bool) plan :
  follows m plan →
  follows (err ← call (perform c);
           if decide (err ≠ 0) then give_up_with failure (if show : bool then [AInt err] else [])
           else m) (Must c failure show :: plan).
Proof.
  intros Hm w. rewrite bind_run, call_run. cbn [carry_out]. destruct (perform c w) as [err w'].
  cbn [fst snd]. destruct (decide (err = 0)) as [->|Hne].
  - rewrite decide_False by tauto. rewrite Hm. by destruct (carry_out plan w') as [[[? ?]|] ?].
  - by rewrite decide_True by done.
Qed.

Lemma follows_may {A} c (f : W → A * W) (m : A → eff W usb_event bool) plan :
  (∀ w, (f w).2 = (perform c w).2) → (∀ a, follows (m a) plan) →
  follows (a ← call f; m a) (May c :: plan).
Proof.
  intros Hf Hm w. rewrite bind_run, call_run. cbn [carry_out]. rewrite Hf, Hm.
  by destruct (carry_out plan _) as [[[? ?]|] ?].
Qed.

Lemma carry_out_app p q w :
  carry_out (p ++ q) w =
    match carry_out p w with (None, w') => carry_out q w' | failed => failed end.
Proof.
  revert w. induction p as [|[c fl sh|c] p IH]; intros w; [done| |apply IH].
  cbn [app carry_out]. destruct (perform c w). case_decide; [apply IH|done].
Qed.

(** A function that returned with [NULL] is not continued. *)
Lemma follows_app m p (m' : eff W usb_event bool) q :
  follows m p → follows m' q →
  follows (ready ← m; if negb ready then mret false else m') (p ++ q).
Proof.
  intros Hm Hm' w. rewrite bind_run, Hm, carry_out_app.
  destruct (carry_out p w) as [[[? ?]|] w']; [done|]. cbn [ended negb]. rewrite Hm'.
  by destruct (carry_out q w') as [[[? ?]|] ?].
Qed.

Lemma follows_triple sp (m : eff W usb_event bool) plan :
  follows m plan → follows (sample_fix_code_triple k api sp;; m) (triple_step sp :: plan).
Proof.
  intros Hm w. rewrite bind_run. unfold sample_fix_code_triple, triple_step, multi_interface.
  cbn [carry_out]. destruct (_ || _); rewrite bind_run, call_run; cbn; rewrite Hm;
    by destruct (carry_out plan _) as [[[? ?]|] ?].
Qed.

Lemma setup_full_speed_follows msg_cb :
  follows (setup_full_speed k api msg_cb) (full_speed_plan msg_cb).
Proof.
  unfold setup_full_speed, full_speed_plan. cbn [app].
  apply (follows_must (AddConfiguration _ _) _ false), (follows_must (RegisterAllClasses _) _ false).
  apply follows_triple, follows_may; [done|]. intros _.
  assert (∀ m' plan, follows m' plan → follows
    (err ← (if decide (msg_cb ≠ 0) then call (usbd_msg_register_cb api msg_cb) else mret 0);
     if decide (err ≠ 0) then give_up_with "Failed to register message callback" [] else m')
    ((if decide (msg_cb = 0) then []
      else [Must (RegisterCb msg_cb) "Failed to register message callback" false]) ++ plan)) as Hcb.
  { intros m' plan Hm'. destruct (decide (msg_cb = 0)) as [->|Hne].
    - rewrite decide_False by tauto. intros w. by rewrite ret_bind, decide_False by tauto.
    - rewrite decide_True by done. by apply (follows_must (RegisterCb msg_cb) _ false). }
  apply Hcb. destruct (CONFIG_COMMON_USBD_20_EXTENSION_DESC k); [|apply follows_done].
  apply follows_may; [done|]. intros _. apply follows_may; [done|]. intros _.
  apply (follows_must (AddDescriptor sample_usbext) _ false), follows_done.
Qed.

Lemma setup_high_speed_follows : follows (setup_high_speed k api) high_speed_plan.
Proof.
  apply (follows_must (AddConfiguration _ _) _ false), (follows_must (RegisterAllClasses _) _ false).
  apply follows_triple, follows_done.
Qed.

(** From the speed query on. *)
Definition after_query (msg_cb : Z) (hs : bool) : eff W usb_event bool :=
  go_on ← (if hs then setup_high_speed k api else mret true);
  if negb (go_on : bool) then mret false else setup_full_speed k api msg_cb.

Lemma after_query_follows msg_cb hs :
  follows (after_query msg_cb hs) ((if hs then high_speed_plan else []) ++ full_speed_plan msg_cb).
Proof.
  apply follows_app; [|apply setup_full_speed_follows].
  destruct hs; [apply setup_high_speed_follows|apply follows_done].
Qed.

(** One string descriptor. *)
Lemma add_string d failure (m : Z → eff W usb_event bool) plan (r : option (string * list log_arg) * W → outcome (bool * W * list usb_event)) w :
  (∀ w', m 0 w' = r (carry_out plan w')) → (∀ e w', r (Some e, w') = ended (Some e, w')) →
  (err ← call (usbd_add_descriptor api d);
   if decide (err ≠ 0) then give_up_with failure [AInt err] else m err) w =
    r (carry_out (Must (AddDescriptor d) failure true :: plan) w).
Proof.
  intros Hm Hr. rewrite bind_run, call_run. cbn [carry_out perform].
  destruct (usbd_add_descriptor api d w) as [err w']. cbn [fst snd].
  destruct (decide (err = 0)) as [->|Hne].
  - rewrite decide_False by tauto. rewrite Hm. by destruct (r _) as [[[? ?] ?]|].
  - by rewrite decide_True, Hr by done.
Qed.

(** The strings, then the query, then the rest. *)
Definition query_and_go (msg_cb : Z) (r : option (string * list log_arg) * W)
    : outcome (bool * W * list usb_event) :=
  match r with
  | (None, w1) => let '(hs, w2) := high_speed w1 in after_query msg_cb hs w2
  | failed => ended failed
  end.

Lemma setup_device_run msg_cb w :
  sample_usbd_setup_device k api msg_cb w = query_and_go msg_cb (carry_out string_plan w).
Proof.
  unfold sample_usbd_setup_device, string_plan. cbn [app].
  assert (∀ w1, (hs ← (if USBD_SUPPORTS_HIGH_SPEED k then
                  speed ← call (usbd_caps_speed api); mret (bool_decide (speed = USBD_SPEED_HS))
                else mret false); after_query msg_cb hs) w1 = query_and_go msg_cb (None, w1)) as Hq.
  { intros w1. unfold query_and_go, high_speed. destruct (USBD_SUPPORTS_HIGH_SPEED k); rewrite bind_run.
    - rewrite bind_run, call_run. destruct (usbd_caps_speed api w1) as [sp w2]. cbn [fst snd mret eff_ret app].
      by destruct (after_query _ _ _) as [[[? ?] ?]|].
    - cbn [mret eff_ret]. by destruct (after_query _ _ _) as [[[? ?] ?]|]. }
  assert (∀ w1, (err ← (if CONFIG_HWINFO k then call (usbd_add_descriptor api sample_sn) else mret 0);
      if decide (err ≠ 0) then give_up_with "Failed to initialize SN descriptor (%d)" [AInt err]
      else hs ← (if USBD_SUPPORTS_HIGH_SPEED k then
                  speed ← call (usbd_caps_speed api); mret (bool_decide (speed = USBD_SPEED_HS))
                else mret false); after_query msg_cb hs) w1 =
    query_and_go msg_cb (carry_out (if CONFIG_HWINFO k
      then [Must (AddDescriptor sample_sn) "Failed to initialize SN descriptor (%d)" true] else []) w1)) as Hsn.
  { intros w1. destruct (CONFIG_HWINFO k).
    - by apply (add_string _ _ (λ _, hs ← _; after_query msg_cb hs)).
    - by rewrite ret_bind, decide_False by tauto. }
  apply (add_string _ _ (λ _, _)); [|done]. intros w1.
  apply (add_string _ _ (λ _, _)); [|done]. intros w2.
  apply (add_string _ _ (λ err, err ← (if CONFIG_HWINFO k then _ else mret err); _)); [|done].
  apply Hsn.
Qed.

(** C40. The device is handed out exactly when every checked call of the plan
    succeeded, each made once and in the order of the plan; otherwise the
    calls stop at the first one that failed, which is what the only error
    line says, and [NULL] is returned. *)
Theorem usb_set_up_follows_plan msg_cb w :
  sample_usbd_init_device k api msg_cb w = ended (usb_set_up msg_cb w).
Proof.
  unfold sample_usbd_init_device, usb_set_up. rewrite bind_run, setup_device_run.
  destruct (carry_out string_plan w) as [[[failure args]|] w1]; [done|]. cbn [query_and_go].
  destruct (high_speed w1) as [hs w2]. unfold after_strings. rewrite app_assoc.
  refine (follows_app (after_query msg_cb hs) _ _ init_plan _ _ w2);
    [apply after_query_follows|].
  apply (follows_must InitDevice _ false), follows_done.
Qed.
End Plan.
