(* ===== verification/App.v ===== *)
(** * The application (application/AppEntry.cpp, Sleep, ZephyrAppender)

    The application's callbacks, its start-up sequence, and the wiring that
    makes a scanner feed the driver and the driver call the application, for
    any scanner: the lemmas on one report here carry [AppPosix], [AppZephyr]
    and [Concurrency].
    A function's address is a number: [on_button_ptr] and the like. *)

From stdpp Require Import prelude list strings pretty.
From Stdlib Require Import ZArith Lia Ascii.
From S2P Require Import Prelude Logger ErrorHandler ErrorCodes Types AdParser Crypto Tlv.
From S2P Require Import Driver DriverRun DriverSafety DriverProps DriverWitness Sync Threads Ble Boards.

(** ** Callbacks *)

(** [a[5U], a[4U], ..., a[0U]] as arguments of [%02X]. *)
Definition addr_args (a : bytes) : outcome (list log_arg) :=
  a5 ← span_get a 5; a4 ← span_get a 4; a3 ← span_get a 3;
  a2 ← span_get a 2; a1 ← span_get a 1; a0 ← span_get a 0;
  Done [AInt a5; AInt a4; AInt a3; AInt a2; AInt a1; AInt a0].

(** [*o] on a [std::optional]. *)
Definition deref_opt {A} (o : option A) : outcome A :=
  match o with Some a => Done a | None => Stop Undefined end.

Definition on_button (device : EnoceanDevice) (action : ButtonAction) (changed : Z)
    : outcome (list LogCall) :=
  args ← addr_args (addr (ble_addr device));
  Done [LOGGER_NOTICE "EnOcean button %s | addr %02X:%02X:%02X:%02X:%02X:%02X | buttons 0x%02X"
          (AStr (match action with Press => "PRESS" | Release => "RELEASE" end) :: args ++
           [AInt changed])].

(** The temperature line: sign, whole degrees, hundredths. *)
Definition temp_args (t : Z) : list log_arg :=
  let ta := i16 (if decide (t < 0) then - t else t) in
  [AInt (if decide (t < 0) then 45 else 43); AInt (Z.quot ta 100); AInt (Z.rem ta 100)].

(** One [if (data.x.has_value()) LOGGER_NOTICE(...)]. *)
Definition line_if {A} (o : option A) (f : A → LogCall) : list LogCall :=
  match o with Some a => [f a] | None => [] end.

Definition accel_lines (data : SensorData) : outcome (list LogCall) :=
  match accel_status data with
  | None => Done []
  | Some status =>
      let first := LOGGER_NOTICE "  Accel status : %u" [AInt status] in
      if decide (status ≠ 3) then
        x ← deref_opt (accel_x_cg data);
        y ← deref_opt (accel_y_cg data);
        z ← deref_opt (accel_z_cg data);
        Done [first; LOGGER_NOTICE "  Accel (0.01g): X=%d Y=%d Z=%d" [AInt x; AInt y; AInt z]]
      else Done [first]
  end.

Definition on_sensor (device : EnoceanDevice) (data : SensorData) : outcome (list LogCall) :=
  args ← addr_args (addr (ble_addr device));
  accel ← accel_lines data;
  Done ([LOGGER_NOTICE "EnOcean sensor | addr %02X:%02X:%02X:%02X:%02X:%02X" args] ++
    line_if (temperature_cdeg data) (λ t,
      LOGGER_NOTICE "  Temp (°C)    : %c%d.%02d" (temp_args t)) ++
    line_if (humidity data) (λ v, LOGGER_NOTICE "  Humidity (%%) : %u" [AInt v]) ++
    line_if (occupancy data) (λ b : bool,
      LOGGER_NOTICE "  Occupancy    : %s" [AStr (if b then "yes" else "no")]) ++
    line_if (light_sensor data) (λ v, LOGGER_NOTICE "  Light (lx)   : %u" [AInt v]) ++
    line_if (light_solar_cell data) (λ v, LOGGER_NOTICE "  Solar (lx)   : %u" [AInt v]) ++
    line_if (energy_lvl data) (λ v, LOGGER_NOTICE "  Energy (%%)   : %u" [AInt v]) ++
    line_if (battery_voltage data) (λ v, LOGGER_NOTICE "  Battery (mV) : %u" [AInt v]) ++
    line_if (contact data) (λ b : bool,
      LOGGER_NOTICE "  Contact      : %s" [AStr (if b then "closed" else "open")]) ++
    accel).

Definition address_line (fmt : string) (device : EnoceanDevice) : outcome (list LogCall) :=
  args ← addr_args (addr (ble_addr device));
  Done [LOGGER_NOTICE fmt args].

Definition on_commissioned : EnoceanDevice → outcome (list LogCall) :=
  address_line "EnOcean device COMMISSIONED: %02X:%02X:%02X:%02X:%02X:%02X".
Definition on_decommissioned : EnoceanDevice → outcome (list LogCall) :=
  address_line "EnOcean device DECOMMISSIONED: %02X:%02X:%02X:%02X:%02X:%02X".
Definition on_loaded : EnoceanDevice → outcome (list LogCall) :=
  address_line "EnOcean device LOADED: %02X:%02X:%02X:%02X:%02X:%02X".

Definition on_button_ptr : nat := 1.
Definition on_sensor_ptr : nat := 2.
Definition on_commissioned_ptr : nat := 3.
Definition on_decommissioned_ptr : nat := 4.
Definition on_loaded_ptr : nat := 5.
Definition advertisement_cb_ptr : nat := 6.

(** The [callbacks] constant of [run_impl]. *)
Definition app_callbacks : EnoceanCallbacks :=
  mkCallbacks (Some on_button_ptr) (Some on_sensor_ptr) (Some on_commissioned_ptr)
    (Some on_decommissioned_ptr) (Some on_loaded_ptr).

(** Calling through a pointer. *)
Definition invoke (e : event) : outcome (list LogCall) :=
  match e with
  | EvLog l => Done [l]
  | EvButton fn device action changed _ _ =>
      if decide (fn = on_button_ptr) then on_button device action changed else Stop Undefined
  | EvSensor fn device data _ _ =>
      if decide (fn = on_sensor_ptr) then on_sensor device data else Stop Undefined
  | EvCommissioned fn device =>
      if decide (fn = on_commissioned_ptr) then on_commissioned device else Stop Undefined
  end.

Fixpoint invoke_all (t : list event) : outcome (list LogCall) :=
  match t with
  | [] => Done []
  | e :: t' => ls ← invoke e; rest ← invoke_all t'; Done (ls ++ rest)
  end.

(** ** Sleeping *)

Class SleepImplementation (W : Type) := do_sleep_ms : Z → W → () * W.
Definition sleep_ms {W} `{SleepImplementation W} (ms_sleep : Z) : W → () * W := do_sleep_ms ms_sleep.

(** [std::this_thread::sleep_for(milliseconds(ms))] and
    [k_msleep(static_cast<std::int32_t>(ms))]. *)
Definition posix_sleep {W} (sleep_for : Z → W → () * W) : SleepImplementation W := sleep_for.
Definition zephyr_sleep {W} (k_msleep : Z → W → () * W) : SleepImplementation W :=
  λ ms, k_msleep (signed 32 ms).

(** ** Start-up *)

Record AppState (C Sc W : Type) := mkApp {
  app_driver : EnoceanDriver C;
  app_scanner : Sc;
  app_world : W;
}.
Arguments mkApp {C Sc W} _ _ _.
Arguments app_driver {C Sc W} _.
Arguments app_scanner {C Sc W} _.
Arguments app_world {C Sc W} _.

Section AppEntry.
Context {C Sc W Ev : Type} `{CryptoImplementation C} `{LogEvent Ev} `{SourceLocation}.
Context `{BleImplementation Sc Ev} `{SleepImplementation W}.
(** The crypto object, the scanner's constructor and destructor, and the driver's address. *)
Context (crypto : C) (construct_scanner : Sc → Sc) (scanner_dtor : eff Sc Ev ()) (driver_ptr : Z).
Abbreviation M := (eff (AppState C Sc W) Ev).

(** A call of the driver; the callbacks it makes run in place. *)
Definition on_driver {A} (m : eff (EnoceanDriver C) event A) : M A :=
  λ s, match m (app_driver s) with
       | Done (a, d, t) =>
           match invoke_all t with
           | Done ls => Done (a, mkApp d (app_scanner s) (app_world s), ev_log <$> ls)
           | Stop r => Stop r
           end
       | Stop r => Stop r
       end.

Definition on_scanner {A} (m : eff Sc Ev A) : M A :=
  zoom app_scanner (λ sc s, mkApp (app_driver s) sc (app_world s)) id m.

(** What the scanner's callback does: [advertisement_cb] with its context. *)
Definition advertised (c : adv_call) : M () :=
  if decide (adv_fn c = advertisement_cb_ptr) then
    on_driver (advertisement_cb (bool_decide (adv_ctx c ≠ 0)) (adv_addr c) (adv_addr_type c)
                 (adv_adv_type c) (adv_rssi c) (adv_data c))
  else stopE Undefined.

(** The first [turns] turns of [while (true) { sleep.sleep_ms(1000); }]. *)
Fixpoint sleep_loop (turns : nat) : M () :=
  match turns with
  | O => mret ()
  | S turns' =>
      zoom app_world (λ w s, mkApp (app_driver s) (app_scanner s) w) id (call (sleep_ms 1000));;
      sleep_loop turns'
  end.

(** [run_impl]: [false] when it returned, [true] when it is in its endless loop. *)
Definition run_impl (turns : nat) : M bool :=
  log (LOGGER_NOTICE "Application starting..." []);;
  modify (λ s, mkApp (construct crypto app_callbacks) (app_scanner s) (app_world s));;
  init_result ← on_driver Driver.init;
  if negb (operator_bool init_result) then
    log (LOGGER_ERROR "EnOcean driver init failed" []);;
    mret false
  else
    modify (λ s, mkApp (app_driver s) (construct_scanner (app_scanner s)) (app_world s));;
    ble_init ← on_scanner (IBle.init (Some advertisement_cb_ptr) driver_ptr);
    if negb (operator_bool ble_init) then
      log (LOGGER_ERROR "BLE scanner init failed" []);;
      on_scanner scanner_dtor;;
      mret false
    else
      scan_start ← on_scanner IBle.start_scan;
      if negb (operator_bool scan_start) then
        log (LOGGER_ERROR "BLE scan start failed" []);;
        on_scanner scanner_dtor;;
        mret false
      else
        on_driver enable_commissioning;;
        log (LOGGER_NOTICE "EnOcean scanner ready - commissioning enabled." []);;
        sleep_loop turns;;
        mret true.
End AppEntry.

(** One event of a scanner: a log line, or a call of its callback. *)
Section Heard.
Context {C Sc W Ev : Type} `{CryptoImplementation C} `{LogEvent Ev}.
Abbreviation M := (eff (AppState C Sc W) Ev).

Definition heard (e : ble_event) : M () :=
  match e with BleLog l => log l | BleAdv c => advertised c end.

Fixpoint heard_all (t : list ble_event) : M () :=
  match t with
  | [] => mret ()
  | e :: t' => heard e;; heard_all t'
  end.

(** A handler of the scanner's, with the driver behind its callback. *)
Definition delivered (m : eff Sc ble_event ()) : M () :=
  λ s, match m (app_scanner s) with
       | Done (_, sc, t) => heard_all t (mkApp (app_driver s) sc (app_world s))
       | Stop r => Stop r
       end.
End Heard.

(** ** Pieces of the start-up *)

Section Pieces.
Context {C Sc W Ev : Type} `{CryptoImplementation C} `{LogEvent Ev}.
Context `{SleepImplementation W} (crypto : C).
Abbreviation State := (AppState C Sc W).
Implicit Types s : State.

Lemma sleep_loop_run turns s x s' t :
  sleep_loop turns s = Done (x, s', t : list Ev) →
  app_driver s' = app_driver s ∧ app_scanner s' = app_scanner s.
Proof.
  revert s t. induction turns as [|turns IH]; intros s t; cbn [sleep_loop].
  { by intros [= _ <- _]. }
  intros (? & s1 & ? & ? & Hz & Hr & _)%bind_Done. apply zoom_Done in Hz as (w & ? & _ & -> & _).
  by apply IH in Hr.
Qed.

(** The driver after [init], and with commissioning enabled or not. *)
Definition started (b : bool) : EnoceanDriver C :=
  mkDriver crypto app_callbacks true b (replicate k_max_devices default_device).

Lemma on_driver_init s :
  app_driver s = construct crypto app_callbacks →
  ∃ t, on_driver (Ev := Ev) Driver.init s =
    Done (is_ok, mkApp (started false) (app_scanner s) (app_world s), t).
Proof. intros E. unfold on_driver. rewrite E. eexists. reflexivity. Qed.

Lemma on_driver_enable s :
  app_driver s = started false →
  ∃ t, on_driver (Ev := Ev) enable_commissioning s =
    Done ((), mkApp (started true) (app_scanner s) (app_world s), t).
Proof. intros E. unfold on_driver. rewrite E. eexists. reflexivity. Qed.

Lemma started_inv b : driver_inv (started b).
Proof. by destruct (construct_inv crypto app_callbacks). Qed.

Lemma on_scanner_Done {A} (m : eff Sc Ev A) s x s' t :
  on_scanner (Ev := Ev) m s = Done (x, s', t) →
  ∃ sc, m (app_scanner s) = Done (x, sc, t) ∧ s' = mkApp (app_driver s) sc (app_world s).
Proof.
  unfold on_scanner. rewrite zoom_Done. intros (sc & t0 & Hm & -> & ->).
  exists sc. by rewrite list_fmap_id.
Qed.

End Pieces.

(** ** ZephyrAppender *)

Inductive zephyr_level := LOG_ERR | LOG_WRN | LOG_INF | LOG_DBG.

Definition level_of (s : plog.Severity) : zephyr_level :=
  match s with
  | plog.fatal | plog.error => LOG_ERR
  | plog.warning => LOG_WRN
  | plog.info | plog.none => LOG_INF
  | plog.debug | plog.verbose => LOG_DBG
  end.

(** [ZephyrAppender::write]: the level and text handed to Zephyr's logger. *)
Definition appender_write (r : plog_record) : outcome (zephyr_level * string) :=
  written ← Printf.snprintf 512 "%s: %s" [AStr (rec_func r); AStr (rec_message r)];
  let text := if decide (512 ≤ written.2)%nat then "<truncated>" else written.1 in
  Done (level_of (rec_severity r), text).

(** ** What the sensor line says *)

Lemma temperature_run t :
  is_i16 t →
  temp_args t =
    if decide (t = -32768) then [AInt 45; AInt (-327); AInt (-68)]
    else [AInt (if decide (t < 0) then 45 else 43); AInt (Z.abs t / 100); AInt (Z.abs t mod 100)].
Proof.
  unfold is_i16. intros Ht. case_decide as Hmin; [by subst|]. unfold temp_args.
  replace (i16 _) with (Z.abs t); [by rewrite Z.quot_div_nonneg, Z.rem_mod_nonneg by lia|].
  unfold i16, signed. change (2 ^ (16 - 1)) with 32768. change (2 ^ 16) with 65536.
  case_decide; Z.div_mod_to_equations; lia.
Qed.

(** The temperature line prints sign, whole degrees and two decimals that make
    up the reported hundredths - for every 16-bit value but -32768, whose
    negation does not fit: the line then reads -327 and -68. *)
Theorem temperature_text t :
  is_i16 t →
  if decide (t = -32768) then temp_args t = [AInt 45; AInt (-327); AInt (-68)]
  else ∃ whole hundredths,
    temp_args t = [AInt (if decide (t < 0) then 45 else 43); AInt whole; AInt hundredths] ∧
    0 ≤ whole ≤ 327 ∧ 0 ≤ hundredths < 100 ∧
    t = (if decide (t < 0) then -1 else 1) * (100 * whole + hundredths).
Proof.
  intros Ht. rewrite temperature_run by done. unfold is_i16 in Ht. case_decide as Hmin; [done|].
  exists (Z.abs t / 100), (Z.abs t mod 100). split; [done|].
  case_decide; Z.div_mod_to_equations; lia.
Qed.

Lemma temperature_text_witness :
  temp_args (-1205) = [AInt 45; AInt 12; AInt 5] ∧
  (∃ whole hundredths, temp_args (-1205) = [AInt 45; AInt whole; AInt hundredths] ∧
    0 ≤ whole ≤ 327 ∧ 0 ≤ hundredths < 100 ∧ -1205 = -1 * (100 * whole + hundredths)) ∧
  temp_args (-32768) = [AInt 45; AInt (-327); AInt (-68)].
Proof.
  split; [reflexivity|]. split.
  - apply (temperature_text (-1205)). unfold is_i16. lia.
  - apply (temperature_text (-32768)). unfold is_i16. lia.
Defined.

(** ** The callbacks are safe on what the driver reports *)

Lemma addr_args_reverse a : length a = k_addr_len → addr_args a = Done (AInt <$> reverse a).
Proof.
  intros Ha. unfold k_addr_len in Ha.
  do 7 (destruct a as [|? a]; [try discriminate Ha; try reflexivity|]). discriminate Ha.
Qed.

Lemma addr_args_run a : length a = k_addr_len → ∃ args, addr_args a = Done args.
Proof. intros ->%addr_args_reverse. by eexists. Qed.

Lemma on_button_run dev action changed :
  length (addr (ble_addr dev)) = k_addr_len → ∃ ls, on_button dev action changed = Done ls.
Proof. intros [args E]%addr_args_run. unfold on_button. rewrite E. by eexists. Qed.

Lemma on_sensor_run dev data :
  length (addr (ble_addr dev)) = k_addr_len → accel_complete data →
  ∃ ls, on_sensor dev data = Done ls.
Proof.
  intros [args E]%addr_args_run Hacc. unfold on_sensor. rewrite E. cbn [mbind outcome_bind].
  assert (∃ ls, accel_lines data = Done ls) as [ls ->]; [|by eexists].
  unfold accel_lines. destruct Hacc as [->|(x & y & z & -> & -> & ->)]; [by eexists|].
  destruct (accel_status data); [|by eexists]. case_decide; by eexists.
Qed.

Lemma invoke_all_run t :
  (∀ e, e ∈ callbacks t → ∃ ls, invoke e = Done ls) → ∃ ls, invoke_all t = Done ls.
Proof.
  induction t as [|e t IH]; intros Hcb; [by eexists|].
  assert (∃ ls, invoke e = Done ls) as [ls E].
  { destruct (is_log e) eqn:He; [destruct e; (discriminate He || by eexists)|].
    apply Hcb. unfold callbacks. apply list_elem_of_filter. split; [done|]. by left. }
  destruct IH as [rest Er].
  { intros e' He'. apply Hcb. unfold callbacks in *. apply list_elem_of_filter in He' as [? ?].
    apply list_elem_of_filter. split; [done|]. by right. }
  cbn [invoke_all]. rewrite E. cbn [mbind outcome_bind]. rewrite Er. by eexists.
Qed.

Lemma press_line dev action changed :
  length (addr (ble_addr dev)) = k_addr_len →
  on_button dev action changed = Done [LOGGER_NOTICE
    "EnOcean button %s | addr %02X:%02X:%02X:%02X:%02X:%02X | buttons 0x%02X"
    (AStr (match action with Press => "PRESS" | Release => "RELEASE" end) ::
     (AInt <$> reverse (addr (ble_addr dev))) ++ [AInt changed])].
Proof. intros Ha. unfold on_button. by rewrite addr_args_reverse. Qed.

Lemma address_line_run fmt dev :
  length (addr (ble_addr dev)) = k_addr_len →
  address_line fmt dev = Done [LOGGER_NOTICE fmt (AInt <$> reverse (addr (ble_addr dev)))].
Proof. intros Ha. unfold address_line. by rewrite addr_args_reverse. Qed.

Lemma callbacks_in e t : e ∈ callbacks t → e ∈ t.
Proof. by intros [_ ?]%list_elem_of_filter. Qed.

(** What one callback logs comes in one piece. *)
Lemma invoke_all_in t ls e :
  invoke_all t = Done ls → e ∈ t → ∃ le, invoke e = Done le ∧ le `sublist_of` ls ∧ le ⊆ ls.
Proof.
  revert ls. induction t as [|e' t IH]; intros ls; [intros _ He; by apply not_elem_of_nil in He|].
  cbn [invoke_all]. destruct (invoke e') as [l1|] eqn:E1; [|done]. cbn [mbind outcome_bind].
  destruct (invoke_all t) as [rest|] eqn:E2; [|done]. intros [= <-] He.
  apply elem_of_cons in He as [->|He].
  - exists l1. split_and!; [done|by apply sublist_inserts_r|by apply list_subseteq_app_l].
  - destruct (IH rest eq_refl He) as (le & E & Hsub & Hin). exists le.
    split_and!; [done|by apply sublist_inserts_l|by apply list_subseteq_app_r].
Qed.

(** The line a button makes. *)
Definition button_line (a : bytes) (st : Z) : LogCall :=
  LOGGER_NOTICE "EnOcean button %s | addr %02X:%02X:%02X:%02X:%02X:%02X | buttons 0x%02X"
    (AStr (if Z.odd st then "PRESS" else "RELEASE") :: (AInt <$> reverse a) ++ [AInt (st / 2)]).

Lemma button_logged t ls dev st opt n :
  invoke_all t = Done ls → length (addr (ble_addr dev)) = k_addr_len →
  EvButton on_button_ptr dev (if Z.odd st then Press else Release) (st / 2) opt n ∈ t →
  button_line (addr (ble_addr dev)) st ∈ ls.
Proof.
  intros Hls Ha Hin. destruct (invoke_all_in _ _ _ Hls Hin) as (le & Ele & _ & Hle).
  cbn [invoke] in Ele. rewrite decide_True, press_line in Ele by done. injection Ele as <-.
  apply Hle. unfold button_line. destruct (Z.odd st); by left.
Qed.

(** What the application is to log of a report: its address, then a line per
    value that is there, in this order. *)
Definition temp_digits (t : Z) : list log_arg :=
  if decide (t = -32768) then [AInt 45; AInt (-327); AInt (-68)]
  else [AInt (if decide (t < 0) then 45 else 43); AInt (Z.abs t / 100); AInt (Z.abs t mod 100)].

Definition value_lines (r : SensorData) : list (option LogCall) :=
  [(λ t, LOGGER_NOTICE "  Temp (°C)    : %c%d.%02d" (temp_digits t)) <$> temperature_cdeg r;
   (λ v, LOGGER_NOTICE "  Humidity (%%) : %u" [AInt v]) <$> humidity r;
   (λ b : bool, LOGGER_NOTICE "  Occupancy    : %s" [AStr (if b then "yes" else "no")]) <$> occupancy r;
   (λ v, LOGGER_NOTICE "  Light (lx)   : %u" [AInt v]) <$> light_sensor r;
   (λ v, LOGGER_NOTICE "  Solar (lx)   : %u" [AInt v]) <$> light_solar_cell r;
   (λ v, LOGGER_NOTICE "  Energy (%%)   : %u" [AInt v]) <$> energy_lvl r;
   (λ v, LOGGER_NOTICE "  Battery (mV) : %u" [AInt v]) <$> battery_voltage r;
   (λ b : bool, LOGGER_NOTICE "  Contact      : %s" [AStr (if b then "closed" else "open")]) <$> contact r;
   (λ v, LOGGER_NOTICE "  Accel status : %u" [AInt v]) <$> accel_status r;
   (v ← accel_status r; x ← accel_x_cg r; y ← accel_y_cg r; z ← accel_z_cg r;
    if decide (v = 3) then None
    else Some (LOGGER_NOTICE "  Accel (0.01g): X=%d Y=%d Z=%d" [AInt x; AInt y; AInt z]))].

Definition sensor_lines (a : bytes) (r : SensorData) : list LogCall :=
  LOGGER_NOTICE "EnOcean sensor | addr %02X:%02X:%02X:%02X:%02X:%02X" (AInt <$> reverse a) ::
  omap id (value_lines r).

Lemma temp_args_digits t : is_i16 t → temp_args t = temp_digits t.
Proof.
  intros Ht. pose proof (temperature_run t Ht) as E. unfold temp_digits.
  case_decide as Hmin; [done|]. exact E.
Qed.

Lemma line_if_list {A} (o : option A) f : line_if o f = option_list (f <$> o).
Proof. by destruct o. Qed.

Lemma omap_id_cons {A} (x : option A) l : omap id (x :: l) = option_list x ++ omap id l.
Proof. by destruct x. Qed.

Lemma accel_lines_spec r :
  accel_complete r →
  accel_lines r = Done (option_list ((λ v, LOGGER_NOTICE "  Accel status : %u" [AInt v]) <$> accel_status r) ++
    option_list (v ← accel_status r; x ← accel_x_cg r; y ← accel_y_cg r; z ← accel_z_cg r;
      if decide (v = 3) then None
      else Some (LOGGER_NOTICE "  Accel (0.01g): X=%d Y=%d Z=%d" [AInt x; AInt y; AInt z]))).
Proof.
  unfold accel_lines. intros [->|(x & y & z & -> & -> & ->)]; [done|].
  destruct (accel_status r) as [v|]; [|done]. cbn. by repeat case_decide.
Qed.

Lemma on_sensor_lines dev r :
  length (addr (ble_addr dev)) = k_addr_len → accel_complete r → opt_all is_i16 (temperature_cdeg r) →
  on_sensor dev r = Done (sensor_lines (addr (ble_addr dev)) r).
Proof.
  intros Ha Hacc Ht. unfold on_sensor. rewrite addr_args_reverse, accel_lines_spec by done.
  cbn [mbind outcome_bind]. rewrite !line_if_list. unfold sensor_lines, value_lines.
  rewrite !omap_id_cons, app_nil_r. do 3 f_equal.
  destruct (temperature_cdeg r); [|done]. cbn. by rewrite temp_args_digits.
Qed.

Lemma report_accel r : encodable r → accel_complete r.
Proof.
  intros [_ _ _ Hacc]. unfold accel_complete.
  destruct (accel_status r), (accel_x_cg r), (accel_y_cg r), (accel_z_cg r); try done;
    [right; by do 3 eexists|by left].
Qed.

(** What the driver itself logs of a sensor telegram. *)
Definition telegram_line (a : bytes) (size : nat) (seq : Z) : LogCall :=
  LOGGER_NOTICE ("EnoceanDriver: sensor pkt %02hhX:%02hhX:%02hhX:%02hhX:%02hhX:%02hhX " +:+
                 "payload[%zu] seq=%lu")
    ((AInt <$> reverse a) ++ [AInt (Z.of_nat size); AInt seq]).

Lemma sensor_log_line dev p :
  length (addr (ble_addr dev)) = k_addr_len →
  sensor_log dev p = telegram_line (addr (ble_addr dev)) (length p) (p_seq p).
Proof.
  intros Ha. unfold sensor_log, sensor_pkt_log, telegram_line.
  destruct (addr_destruct _ Ha) as (?&?&?&?&?&?&->). reflexivity.
Qed.

(** A trace of log lines and then a callback, printed. *)
Lemma invoke_all_logs l t :
  invoke_all ((EvLog <$> l) ++ t) = (ls ← invoke_all t; Done (l ++ ls)).
Proof.
  induction l as [|x l IH]; cbn; [by destruct (invoke_all t)|].
  rewrite IH. by destruct (invoke_all t).
Qed.

Lemma invoke_all_app t1 t2 l1 l2 :
  invoke_all t1 = Done l1 → invoke_all t2 = Done l2 → invoke_all (t1 ++ t2) = Done (l1 ++ l2).
Proof.
  revert l1. induction t1 as [|e t1 IH]; intros l1; cbn; [by intros [= <-]|].
  destruct (invoke e) as [le|]; [|done]. cbn. destruct (invoke_all t1) as [lr|]; [|done].
  intros [= <-] E2. rewrite (IH lr) by done. cbn. by rewrite app_assoc.
Qed.

Lemma invoke_button dev st opt n :
  length (addr (ble_addr dev)) = k_addr_len →
  invoke_all [EvButton on_button_ptr dev (if Z.odd st then Press else Release) (st / 2) opt n] =
    Done [button_line (addr (ble_addr dev)) st].
Proof.
  intros Ha. cbn [invoke_all invoke]. rewrite decide_True, press_line by done.
  unfold button_line. by destruct (Z.odd st).
Qed.

Section Wired.
Context {C Sc W Ev : Type} `{CryptoImplementation C} `{LogEvent Ev}.
Abbreviation State := (AppState C Sc W).
Implicit Types s : State.

(** What the driver reports, the application can take. *)
Lemma effect_invoked d a at_ rssi data d' t :
  driver_inv d → callbacks_ d = app_callbacks → effect d a at_ rssi data d' t →
  ∃ ls, invoke_all t = Done ls.
Proof.
  intros Hinv Hcb Heff. apply invoke_all_run.
  destruct Heff as [t Ht|i dev c' t Hi _ Ht|i dev p c' l ev t Hi _ Hx Hp Hl _ _ Hev Hc|
    i dev p t _ _ Hl _ _ Hi Hx Hp _ Hc].
  - rewrite callbacks_logs by done. intros e He. by apply not_elem_of_nil in He.
  - rewrite callbacks_logs by done. intros e He. by apply not_elem_of_nil in He.
  - rewrite Hc. pose proof (Forall_lookup_1 _ _ _ _ (inv_wf _ Hinv) Hi) as Hwd%wf_dev_addr_length.
    destruct Hev as [->| ->]; [intros e He; by apply not_elem_of_nil in He|].
    rewrite Hcb. unfold report_events, button_events, sensor_events. cbn [cb_button cb_sensor app_callbacks].
    case_decide; intros e ->%list_elem_of_singleton; cbn [invoke].
    + rewrite decide_True by done. by apply on_button_run.
    + rewrite decide_True by done. apply on_sensor_run; [done|].
      eapply decoded_accel; [|by apply p_report_run]. by apply p_fields_bytes.
  - rewrite Hc, Hcb. unfold commissioned_events. cbn [cb_commissioned app_callbacks].
    intros e ->%list_elem_of_singleton. cbn [invoke]. rewrite decide_True by done.
    unfold on_commissioned, address_line.
    destruct (addr_args_run (addr (ble_addr (new_device a at_ rssi p))) Hl) as [args ->]. by eexists.
Qed.

Lemma effect_callbacks d a at_ rssi data d' t :
  effect d a at_ rssi data d' t → callbacks_ d' = callbacks_ d.
Proof. by destruct 1. Qed.

(** A driver with the application behind it. *)
Record driver_wired (d : EnoceanDriver C) : Prop := {
  wired_inv : driver_inv d;
  wired_callbacks : callbacks_ d = app_callbacks;
}.

Lemma advertised_run c s u d' t :
  driver_wired (app_driver s) → adv_fn c = advertisement_cb_ptr → is_bytes (adv_data c) →
  advertisement_cb (bool_decide (adv_ctx c ≠ 0)) (adv_addr c) (adv_addr_type c)
    (adv_adv_type c) (adv_rssi c) (adv_data c) (app_driver s) = Done (u, d', t) →
  effect (app_driver s) (adv_addr c) (adv_addr_type c) (adv_rssi c) (adv_data c) d' t ∧
  ∃ ls, invoke_all t = Done ls ∧
    advertised (Ev := Ev) c s = Done (u, mkApp d' (app_scanner s) (app_world s), ev_log <$> ls).
Proof.
  intros [Hinv Hcb] Hfn Hb Hrun.
  assert (effect (app_driver s) (adv_addr c) (adv_addr_type c) (adv_rssi c) (adv_data c) d' t) as Heff.
  { revert Hrun. unfold advertisement_cb. case_bool_decide; cbn [negb].
    - apply process_effect; [apply Hinv|done].
    - intros [= _ <- <-]. apply eff_nothing. constructor. }
  split; [done|]. destruct (effect_invoked _ _ _ _ _ _ _ Hinv Hcb Heff) as [ls E].
  exists ls. split; [done|]. unfold advertised, on_driver. by rewrite decide_True, Hrun, E by done.
Qed.

(** Whatever advertisement the scanner hands over, if the driver processes it
    the application's callbacks run to the end without touching anything that
    is not there - six address bytes, and acceleration values only where the
    decoder has put all three - and the driver ends in the state it would have
    reached on its own. *)
Theorem callbacks_defined c s u d' t :
  driver_wired (app_driver s) → adv_fn c = advertisement_cb_ptr → is_bytes (adv_data c) →
  advertisement_cb (bool_decide (adv_ctx c ≠ 0)) (adv_addr c) (adv_addr_type c)
    (adv_adv_type c) (adv_rssi c) (adv_data c) (app_driver s) = Done (u, d', t) →
  ∃ ls, invoke_all t = Done ls ∧
    advertised (Ev := Ev) c s = Done (u, mkApp d' (app_scanner s) (app_world s), ev_log <$> ls).
Proof. intros Hw Hfn Hb Hrun. by destruct (advertised_run c s u d' t Hw Hfn Hb Hrun). Qed.

(** The walk over the AD structures of a report leaves it by one byte. *)
Definition overrun (c : adv_call) : Prop := ∃ i, ad_walk (adv_data c) i ∧ overruns_at (adv_data c) i.

(** A report for the driver, with arguments of the callback's types. *)
Record sound_report (c : adv_call) : Prop := {
  rep_fn : adv_fn c = advertisement_cb_ptr;
  rep_addr_len : length (adv_addr c) = k_addr_len;
  rep_addr : is_bytes (adv_addr c);
  rep_addr_type : is_u8 (adv_addr_type c);
  rep_rssi : is_i8 (adv_rssi c);
  rep_data : is_bytes (adv_data c);
}.

Lemma advertised_step `{!CryptoTotal C} c s :
  driver_wired (app_driver s) → sound_report c →
  (∃ s' ls, advertised (Ev := Ev) c s = Done ((), s', ev_log <$> ls) ∧ driver_wired (app_driver s') ∧
     app_scanner s' = app_scanner s) ∨
  (advertised (Ev := Ev) c s = Stop Undefined ∧ overrun c).
Proof.
  intros Hw [Hfn _ Hab Hat Hr Hd].
  destruct (advertisement_cb (bool_decide (adv_ctx c ≠ 0)) (adv_addr c) (adv_addr_type c)
    (adv_adv_type c) (adv_rssi c) (adv_data c) (app_driver s)) as [[[[] d'] t]|r] eqn:E.
  - left. destruct (advertised_run c s () d' t Hw Hfn Hd E) as (Heff & ls & _ & Hrun).
    exists (mkApp d' (app_scanner s) (app_world s)), ls. split; [done|]. split; [|done].
    destruct Hw as [Hinv Hcb]. split; cbn [app_driver]; [|by rewrite (effect_callbacks _ _ _ _ _ _ _ Heff)].
    eapply effect_inv; [exact Hab|exact Hat|exact Hr|exact Heff|exact Hinv].
  - right. unfold advertised. rewrite decide_True by done. unfold on_driver. rewrite E.
    unfold advertisement_cb in E. case_bool_decide; cbn [negb] in E; [|discriminate E].
    destruct (process_progress (adv_addr c) (adv_addr_type c) (adv_adv_type c) (adv_rssi c) (adv_data c)
      (app_driver s)) as [(? & ? & E')|(E' & _ & _ & _ & _ & Ho)]; [apply Hw|done..| |].
    + by rewrite E' in E.
    + rewrite E' in E. injection E as <-. by split.
Qed.

Lemma heard_all_step `{!CryptoTotal C} cs s :
  driver_wired (app_driver s) → Forall sound_report cs →
  (∃ s' ls, heard_all (Ev := Ev) (BleAdv <$> cs) s = Done ((), s', ev_log <$> ls) ∧ driver_wired (app_driver s') ∧
     app_scanner s' = app_scanner s) ∨
  (heard_all (Ev := Ev) (BleAdv <$> cs) s = Stop Undefined ∧ Exists overrun cs).
Proof.
  intros Hw Hcs. revert s Hw. induction Hcs as [|c cs Hc _ IH]; intros s Hw.
  { left. exists s, []. by split. }
  cbn [fmap list_fmap heard_all heard]. rewrite bind_run.
  destruct (advertised_step c s Hw Hc) as [(s1 & l1 & -> & Hw1 & Hs1)|[-> Ho]].
  - destruct (IH s1 Hw1) as [(s2 & l2 & -> & Hw2 & Hs2)|[-> Ho]]; [left|right].
    + exists s2, (l1 ++ l2). split_and!; [by rewrite fmap_app|done|congruence].
    + split; [done|]. by apply Exists_cons_tl.
  - right. split; [done|]. by apply Exists_cons_hd.
Qed.
(** *** Driver calls, and the commissioning flag *)

Lemma set_commissioning_wired b (d : EnoceanDriver C) :
  driver_wired d → driver_wired (set_commissioning b d).
Proof. intros [[] ?]. by split. Qed.

Lemma on_driver_flag b l s x s' t :
  on_driver (modify (set_commissioning b);; log l) s = Done (x, s', t : list Ev) →
  s' = mkApp (set_commissioning b (app_driver s)) (app_scanner s) (app_world s).
Proof. by intros [= _ <- _]. Qed.

Lemma on_driver_Done {A} (m : eff (EnoceanDriver C) event A) s x s' t :
  on_driver m s = Done (x, s', t : list Ev) →
  ∃ d t', m (app_driver s) = Done (x, d, t') ∧ app_driver s' = d.
Proof.
  unfold on_driver. destruct (m (app_driver s)) as [[[x' d] t']|]; [|done].
  destruct (invoke_all t'); [|done]. intros [= -> <- _]. by exists d, t'.
Qed.

(** A call of the driver. *)
Definition makes (o : op) (d d' : EnoceanDriver C) : Prop :=
  wf_op o ∧ is_init o = false ∧ ∃ t, run_op o d = Done ((), d', t).

Definition flag_app (b : bool) s : State :=
  mkApp (set_commissioning b (app_driver s)) (app_scanner s) (app_world s).

Lemma heard_flag b c s s' t :
  driver_wired (app_driver s) → sound_report c →
  ¬ candidate (app_driver s) (adv_addr c) (adv_addr_type c) (adv_adv_type c) (adv_data c) →
  heard (BleAdv c) s = Done ((), s', t : list Ev) →
  heard (BleAdv c) (flag_app b s) = Done ((), flag_app b s', t).
Proof.
  intros [Hinv _] [Hfn _ _ _ _ Hd] Hnc. cbn [heard]. unfold advertised. rewrite !decide_True by done.
  unfold on_driver, advertisement_cb. cbn [flag_app app_driver app_scanner app_world].
  case_bool_decide; cbn [negb]; [|by intros [= <- <-]].
  rewrite process_flag by (done || apply Hinv).
  destruct (process_advertisement _ _ _ _ _ _) as [[[? d'] t']|]; [|done]. cbn [flagged].
  destruct (invoke_all t') as [ls|]; [|done]. by intros [= -> <- <-].
Qed.

(** A report that is heard is one call of the driver. *)
Definition adv_op (c : adv_call) : op :=
  OAdv (bool_decide (adv_ctx c ≠ 0)) (adv_addr c) (adv_addr_type c) (adv_adv_type c) (adv_rssi c)
    (adv_data c).

Lemma heard_makes c s s' t :
  sound_report c → heard (BleAdv c) s = Done ((), s', t : list Ev) →
  makes (adv_op c) (app_driver s) (app_driver s').
Proof.
  intros Hc Hr. cbn [heard] in Hr. unfold advertised in Hr. rewrite decide_True in Hr by apply Hc.
  apply on_driver_Done in Hr as (d & t' & Hr & ->).
  split; [split_and!; apply Hc|]. split; [done|]. by exists t'.
Qed.

Lemma flag_makes (b : bool) s s' t :
  on_driver (if b then enable_commissioning else disable_commissioning) s = Done ((), s', t : list Ev) →
  makes (if b then OEnable else ODisable) (app_driver s) (app_driver s').
Proof.
  intros (d & t' & Hr & ->)%on_driver_Done. destruct b; (split; [done|]; split; [done|]; by exists t').
Qed.
End Wired.
