(* ===== verification/Mains.v ===== *)
(** * The two mains (posix_core/posix_main.cpp, zephyr_core/zephyr_main.cpp)

    The entry points of both platforms and of the application's thread: how a
    main ends and what it leaves running, and - on Zephyr, where the main
    thread feeds the watchdog between two sleeps - that the watchdog is always
    fed in time, under bounds on what the calls of the main take. *)

From stdpp Require Import prelude list strings pretty.
From Stdlib Require Import ZArith Lia Ascii.
From S2P Require Import Prelude Logger ErrorHandler ErrorCodes Types AdParser Crypto Tlv.
From S2P Require Import Driver DriverRun DriverSafety DriverProps DriverWitness Sync Threads Ble Boards App.

(** ** The application's thread *)

(** [concept ThreadRunnerImplementation]; [true] when the runner is still in an
    endless loop. *)
Class ThreadRunnerImplementation (St Ev : Type) :=
  do_run : ThreadParamVariant → eff St Ev bool.

Definition IThreadRunner_run {St Ev} `{ThreadRunnerImplementation St Ev}
    (params : ThreadParamVariant) : eff St Ev bool := do_run params.

(** [AppEntry], which does not look at its parameters. *)
Definition AppEntry {C Sc W Ev} `{CryptoImplementation C} `{LogEvent Ev} `{SourceLocation}
    `{BleImplementation Sc Ev} `{SleepImplementation W} (crypto : C) (construct_scanner : Sc → Sc)
    (scanner_dtor : eff Sc Ev ()) (driver_ptr : Z) (turns : nat) :
  ThreadRunnerImplementation (AppState C Sc W) Ev :=
  λ params, run_impl crypto construct_scanner scanner_dtor driver_ptr turns.

(** [main_thread] of posix_main.cpp and of zephyr_main.cpp; [params] is
    value-initialised, its first alternative. *)
Definition main_thread_posix {St Ev} `{ThreadRunnerImplementation St Ev} (thread_input : Z)
    : eff St Ev (option Z) :=
  running ← IThreadRunner_run (ThreadParam1 0);
  mret (if running : bool then None else Some 0).

Definition main_thread_zephyr {St Ev} `{ThreadRunnerImplementation St Ev} (p1 p2 p3 : Z)
    : eff St Ev (option ()) :=
  running ← IThreadRunner_run (ThreadParam1 0);
  mret (if running : bool then None else Some ()).

(** ** POSIX *)

(** [std::cerr << ...] *)
Class CerrEvent (Ev : Type) := ev_cerr : string → Ev.

Section Posix.
Context {Ev : Type} `{LogEvent Ev} `{SourceLocation} {W : Type}.
Context `{CerrEvent Ev} `{ThreadImplementation PosixThread.Members W Ev}.
Implicit Types s : ThreadObj PosixThread.Members W.

(** platform/posix_core/posix_main.cpp; [main_thread_ptr] is the entry point. *)
Definition posix_main (build_time git_commit : string) (main_thread_ptr : Z)
    : eff (ThreadObj PosixThread.Members W) Ev Z :=
  log (LOGGER_NOTICE "Build Time: %s" [AStr build_time]);;
  log (LOGGER_NOTICE "Git hash: %s" [AStr git_commit]);;
  th_result ← IThread.create (ThreadFunction1 main_thread_ptr) (mkStack 4096 0) 1;
  match internal_result th_result with
  | Unexpected e =>
      emit (ev_cerr ("Failed to create main thread, error: " +:+ pretty (ThreadError_code e) +:+ String (ascii_of_nat 10) ""));;
      mret (-1)
  | Value _ =>
      IThread.destroy;;
      mret 0
  end.

(** The POSIX main for any lawful thread backend: it returns -1 without having
    started a thread, or 0 after having started one - and then it has joined
    it, unless the join failed, in which case the object still says so. *)
Theorem posix_main_outcome `{!ThreadLaws PosixThread.Members W Ev} build_time git_commit ptr s code s' t :
  active s = false → posix_main build_time git_commit ptr s = Done (code, s', t) →
  (code = -1 ∧ active s' = false ∧ spawned (os s') = spawned (os s) ∧ joined (os s') = joined (os s)) ∨
  (code = 0 ∧ spawned (os s') = spawned (os s) + 1 ∧
   joined (os s') = joined (os s) + (if active s' then 0 else 1)).
Proof.
  intros Ha Hr. unfold posix_main in Hr.
  apply bind_Done in Hr as (? & s1 & ? & ? & Hl & Hr & _). injection Hl as _ <- _.
  apply bind_Done in Hr as (? & s2 & ? & ? & Hl & Hr & _). injection Hl as _ <- _.
  apply bind_Done in Hr as (r & s1 & ? & ? & Hc & Hr & _).
  apply (create_with_effect _ _ _ None) in Hc as (A1 & J1 & S1); [|done].
  destruct r as [[u|e]]; cbn [internal_result has_value] in *.
  - right. apply bind_Done in Hr as (r2 & s2 & ? & ? & Hd & Hr & _). injection Hr as <- <- _.
    apply destroy_effect in Hd as (A2 & S2 & J2); [|done].
    rewrite A2, S2, J2, S1, J1. split_and!; [done..|]. by destruct (has_value r2).
  - left. apply bind_Done in Hr as (? & s2 & ? & ? & He & Hr & _). injection He as _ <- _.
    injection Hr as <- <- _. split_and!; [done|done|lia|done].
Qed.
End Posix.

(** ** Zephyr *)

(** The objects of the main thread - the function-local channel id of the
    watchdog driver, the thread object - and the one system they all use. *)
Record ZephyrMain (W : Type) := mkZephyrMain {
  z_channel : Z;
  z_thread : ThreadObj ZephyrThread.Members ();
  z_world : W;
}.
Arguments mkZephyrMain {W} _ _ _.
Arguments z_channel {W} _.
Arguments z_thread {W} _.
Arguments z_world {W} _.

(** The thread object with the system [w] under it. *)
Definition with_os {D W1 W2} (th : ThreadObj D W1) (w : W2) : ThreadObj D W2 :=
  mkThread (active th) (thread_name th) (stack_info th) (thread_priority th) (derived th) w.

Section Zephyr.
Context `{Errno} `{SourceLocation} {Ev : Type} `{LogEvent Ev} {W : Type}.
Context (api : ZephyrWatchdog.WdtApi W) (k : ZephyrThread.Kthreads W) (k_msleep : Z → W → () * W).
#[local] Instance zephyr_watchdog : WatchdogImplementation (ZephyrWatchdog.Wdt W) Ev :=
  ZephyrWatchdog.WatchdogDriver api.
#[local] Instance zephyr_thread : ThreadImplementation ZephyrThread.Members W Ev :=
  ZephyrThread.Thread k.
#[local] Instance zephyr_sleeping : SleepImplementation W := zephyr_sleep k_msleep.
Abbreviation M := (eff (ZephyrMain W) Ev).
Implicit Types s : ZephyrMain W.

Definition z_on_watchdog {A} (m : eff (ZephyrWatchdog.Wdt W) Ev A) : M A :=
  zoom (λ s, ZephyrWatchdog.mkWdt (z_channel s) (z_world s))
    (λ d s, mkZephyrMain (ZephyrWatchdog.wdt_channel_id d) (z_thread s) (ZephyrWatchdog.device d)) id m.
Definition z_on_thread {A} (m : eff (ThreadObj ZephyrThread.Members W) Ev A) : M A :=
  zoom (λ s, with_os (z_thread s) (z_world s))
    (λ th s, mkZephyrMain (z_channel s) (with_os th ()) (os th)) id m.
Definition z_on_world {A} (f : W → A * W) : M A :=
  zoom z_world (λ w s, mkZephyrMain (z_channel s) (z_thread s) w) id (call f).

(** The first [turns] turns of the feeding loop. *)
Fixpoint feed_loop (turns : nat) : M () :=
  match turns with
  | O => mret ()
  | S turns' =>
      z_on_watchdog IWatchdog.feed;;
      z_on_world (sleep_ms 1000);;
      feed_loop turns'
  end.

(** platform/zephyr_core/zephyr_main.cpp: [None] when it is in the loop. *)
Definition zephyr_main (build_time git_commit version : string) (main_thread_ptr : Z)
    (stack : ThreadStackInfo) (bt_enable : W → Z * W) (turns : nat) : M (option Z) :=
  watchdog_result ← z_on_watchdog (IWatchdog.init 10000);
  if negb (operator_bool watchdog_result) then
    log (LOGGER_CRITICAL "Failed to initialize watchdog!" []);;
    mret (Some (-1))
  else
    log (LOGGER_NOTICE "Watchdog initialization passed." []);;
    log (LOGGER_NOTICE "Build Time: %s" [AStr build_time]);;
    log (LOGGER_NOTICE "Git hash: %s" [AStr git_commit]);;
    log (LOGGER_NOTICE "App Version: %s" [AStr version]);;
    bt_err ← z_on_world bt_enable;
    if decide (bt_err ≠ 0) then
      log (LOGGER_ERROR "bt_enable failed (%d)" [AInt bt_err]);;
      mret (Some (-1))
    else
      th_result ← z_on_thread (IThread.create (ThreadFunction3 main_thread_ptr) stack 1);
      match internal_result th_result with
      | Unexpected e =>
          log (LOGGER_ERROR "Failed to create main application thread, error: %d" [AInt (ThreadError_code e)]);;
          mret (Some (-1))
      | Value _ => feed_loop turns;; mret None
      end.

(** *** The pieces, computed *)

(** The device after the two attempts to install the timeout, and the channel. *)
Definition installed (w : W) : Z * W :=
  let w1 := (ZephyrWatchdog.device_is_ready api w).2 in
  let i1 := ZephyrWatchdog.wdt_install_timeout api 10000 w1 in
  if decide (i1.1 = - ENOTSUP) then ZephyrWatchdog.wdt_install_timeout api 10000 i1.2 else i1.

(** What [init] needs: a device that is ready, a channel, a set-up that works. *)
Definition wdt_starts (w : W) : Prop :=
  (ZephyrWatchdog.device_is_ready api w).1 = true ∧ 0 ≤ (installed w).1 ∧
  (ZephyrWatchdog.wdt_setup api (installed w).2).1 = 0.
(** The system after [init]. *)
Definition wdt_started (w : W) : W := (ZephyrWatchdog.wdt_setup api (installed w).2).2.

Lemma wsys_run {A} (f : W → A * W) d :
  ZephyrWatchdog.wsys (Ev := Ev) f d =
    Done ((f (ZephyrWatchdog.device d)).1,
      ZephyrWatchdog.mkWdt (ZephyrWatchdog.wdt_channel_id d) (f (ZephyrWatchdog.device d)).2, []).
Proof. unfold ZephyrWatchdog.wsys, zoom. by rewrite call_run. Qed.

Lemma install_run d :
  ZephyrWatchdog.install (Ev := Ev) api 10000 d =
    Done ((), ZephyrWatchdog.mkWdt
      (ZephyrWatchdog.wdt_install_timeout api 10000 (ZephyrWatchdog.device d)).1
      (ZephyrWatchdog.wdt_install_timeout api 10000 (ZephyrWatchdog.device d)).2, []).
Proof. unfold ZephyrWatchdog.install. by rewrite bind_run, wsys_run. Qed.

Lemma watchdog_init_run s :
  ∃ r s' t, z_on_watchdog (IWatchdog.init 10000) s = Done (r, s', t) ∧
    (operator_bool r = true ↔ wdt_starts (z_world s)) ∧ z_thread s' = z_thread s ∧
    (wdt_starts (z_world s) →
       z_channel s' = (installed (z_world s)).1 ∧ z_world s' = wdt_started (z_world s)).
Proof.
  unfold z_on_watchdog, zoom, IWatchdog.init. cbn [init_impl zephyr_watchdog ZephyrWatchdog.WatchdogDriver].
  unfold ZephyrWatchdog.init_impl_zephyr, wdt_starts, wdt_started, installed. rewrite bind_run, wsys_run.
  cbn [ZephyrWatchdog.device ZephyrWatchdog.wdt_channel_id].
  destruct (ZephyrWatchdog.device_is_ready api (z_world s)) as [[] w1]; cbn [fst snd negb]; cycle 1.
  { do 3 eexists. split; [reflexivity|]. split; [by split; [|intros []]|]. split; [done|]. by intros []. }
  rewrite bind_run, install_run, get_bind. cbn [ZephyrWatchdog.device ZephyrWatchdog.wdt_channel_id].
  set (i1 := ZephyrWatchdog.wdt_install_timeout api 10000 w1).
  set (i2 := if decide (i1.1 = - ENOTSUP) then _ else i1).
  assert ((if decide (i1.1 = - ENOTSUP) then ZephyrWatchdog.install api 10000 else mret ())
    (ZephyrWatchdog.mkWdt i1.1 i1.2) = Done ((), ZephyrWatchdog.mkWdt i2.1 i2.2, [] : list Ev)) as E.
  { subst i2. case_decide; [|done]. by rewrite install_run. }
  rewrite bind_run, E, get_bind. cbn [ZephyrWatchdog.wdt_channel_id].
  clear E. clearbody i2. clear i1. destruct (decide (i2.1 < 0)) as [Hneg|Hneg].
  { do 3 eexists. split; [reflexivity|]. split; [split; [done|]; intros (_ & ? & _); lia|].
    split; [done|]. intros (_ & ? & _). lia. }
  rewrite bind_run, wsys_run. cbn [ZephyrWatchdog.device ZephyrWatchdog.wdt_channel_id].
  destruct (decide ((ZephyrWatchdog.wdt_setup api i2.2).1 ≠ 0)) as [Hset|Hset].
  - do 3 eexists. split; [reflexivity|]. split; [by split; [|intros (_ & _ & ?)]|].
    split; [done|]. by intros (_ & _ & ?).
  - do 3 eexists. split; [reflexivity|].
    assert ((ZephyrWatchdog.wdt_setup api i2.2).1 = 0) as E0 by lia.
    split; [by split; [intros _; split_and!; [done|lia|]|]|]. split; [done|].
    by intros _.
Qed.

Lemma thread_create_run s ptr stack :
  active (z_thread s) = false →
  let tw := ZephyrThread.k_thread_create k (stack_pointer stack) (stack_size stack) ptr 0 0 0 1 (z_world s) in
  ∃ r s' t, z_on_thread (IThread.create (ThreadFunction3 ptr) stack 1) s = Done (r, s', t) ∧
    has_value r = bool_decide (tw.1 ≠ 0) ∧ active (z_thread s') = has_value r ∧
    z_channel s' = z_channel s ∧ z_world s' = tw.2.
Proof.
  intros Ha tw. unfold z_on_thread, zoom, IThread.create, IThread.create_with.
  rewrite get_bind. cbn [active with_os]. rewrite Ha, modify_bind.
  cbn [os_create zephyr_thread ZephyrThread.Thread].
  unfold ZephyrThread.os_create_zephyr, ZephyrThread.create_thread.
  rewrite bind_run, modify_bind, bind_run, tsys_run, modify_bind.
  cbn [os derived active IThread.set_thread_info IThread.set_thread_priority IThread.set_stack_info
    IThread.set_derived with_os]. fold tw.
  destruct (decide (tw.1 ≠ 0)) as [Htid|Htid].
  - rewrite (bool_decide_eq_true_2 _ Htid). do 3 eexists. split; [reflexivity|]. by split_and!.
  - rewrite (bool_decide_eq_false_2 _ Htid). do 3 eexists. split; [reflexivity|]. by split_and!.
Qed.

(** One turn of the feeding loop. *)
Definition turn (channel : Z) (w : W) : W := (k_msleep 1000 (ZephyrWatchdog.wdt_feed api channel w).2).2.

Lemma feed_run s :
  z_on_watchdog IWatchdog.feed s =
    Done ((), mkZephyrMain (z_channel s) (z_thread s)
                (ZephyrWatchdog.wdt_feed api (z_channel s) (z_world s)).2, []).
Proof.
  unfold z_on_watchdog, zoom, IWatchdog.feed. cbn [feed_impl zephyr_watchdog ZephyrWatchdog.WatchdogDriver].
  unfold ZephyrWatchdog.feed_impl_zephyr. by rewrite get_bind, bind_run, wsys_run.
Qed.

Lemma feed_loop_run turns s :
  feed_loop turns s =
    Done ((), mkZephyrMain (z_channel s) (z_thread s) (Nat.iter turns (turn (z_channel s)) (z_world s)), []).
Proof.
  revert s. induction turns as [|turns IH]; intros s; [by destruct s|].
  cbn [feed_loop]. rewrite bind_run, feed_run, bind_run. unfold z_on_world, zoom. rewrite call_run.
  cbn [z_world z_channel z_thread fmap list_fmap]. rewrite IH. cbn [z_world z_channel z_thread app].
  do 3 f_equal. change (Nat.iter (S turns) (turn (z_channel s)) (z_world s)) with
    (turn (z_channel s) (Nat.iter turns (turn (z_channel s)) (z_world s))).
  by rewrite <- Nat.iter_swap.
Qed.

(** What the start-up of the main needs, and the system it leaves. *)
Section Start.
Context (build_time git_commit version : string) (main_thread_ptr : Z).
Context (stack : ThreadStackInfo) (bt_enable : W → Z * W).

Definition thread_started (w : W) : Z * W :=
  ZephyrThread.k_thread_create k (stack_pointer stack) (stack_size stack) main_thread_ptr 0 0 0 1
    (bt_enable (wdt_started w)).2.

Definition starts (w : W) : Prop :=
  wdt_starts w ∧ (bt_enable (wdt_started w)).1 = 0 ∧ (thread_started w).1 ≠ 0.

Lemma zephyr_main_run turns s :
  active (z_thread s) = false →
  ∃ r s' t, zephyr_main build_time git_commit version main_thread_ptr stack bt_enable turns s =
      Done (r, s', t) ∧
    ((r = Some (-1) ∧ ¬ starts (z_world s) ∧ active (z_thread s') = false) ∨
     (r = None ∧ starts (z_world s) ∧ active (z_thread s') = true ∧
      z_channel s' = (installed (z_world s)).1 ∧
      z_world s' = Nat.iter turns (turn (z_channel s')) (thread_started (z_world s)).2)).
Proof.
  intros Ha. unfold zephyr_main, starts. rewrite bind_run.
  destruct (watchdog_init_run s) as (r1 & s1 & t1 & -> & Hr1 & Hth & Hs1).
  destruct (operator_bool r1); cbn [negb]; cycle 1.
  { do 3 eexists. split; [reflexivity|]. left. split; [done|]. split; [|by rewrite <- Ha, <- Hth].
    intros (Hw & _). by apply Hr1 in Hw. }
  pose proof (proj1 Hr1 eq_refl) as Hstarts. destruct (Hs1 Hstarts) as [Hch Hw].
  do 4 (rewrite bind_run; cbn [log emit]). rewrite bind_run. unfold z_on_world, zoom at 1.
  rewrite call_run, Hw. cbn [fmap list_fmap].
  destruct (decide ((bt_enable (wdt_started (z_world s))).1 ≠ 0)) as [Hbt|Hbt].
  { do 3 eexists. split; [reflexivity|]. left. split; [done|]. split; [by intros (_ & ? & _)|].
    cbn [z_thread]. by rewrite Hth. }
  rewrite bind_run.
  destruct (thread_create_run (mkZephyrMain (z_channel s1) (z_thread s1) (bt_enable (wdt_started (z_world s))).2)
    main_thread_ptr stack) as (r2 & s2 & t2 & -> & Hr2 & Hact & Hch2 & Hw2); [by cbn; rewrite Hth|].
  cbn [z_world z_channel] in *. fold (thread_started (z_world s)) in *.
  destruct r2 as [[[]|e]]; cbn [internal_result has_value] in *.
  - rewrite bind_run, feed_loop_run. do 3 eexists. split; [reflexivity|]. right.
    cbn [z_world z_channel z_thread]. rewrite Hw2, Hch2, Hact.
    symmetry in Hr2. apply bool_decide_eq_true in Hr2. split_and!; try done. lia.
  - do 3 eexists. split; [reflexivity|]. left. split; [done|]. split; [|done].
    symmetry in Hr2. apply bool_decide_eq_false in Hr2. by intros (_ & _ & ?).
Qed.

(** The Zephyr main comes back with -1, and without an application thread, when
    the watchdog cannot be started, Bluetooth cannot be enabled or the thread
    cannot be created; in all other cases it has started the thread and is in
    its feeding loop, with the channel [init] installed. *)
Theorem zephyr_main_outcome turns s :
  active (z_thread s) = false →
  ∃ r s' t, zephyr_main build_time git_commit version main_thread_ptr stack bt_enable turns s =
      Done (r, s', t) ∧
    ((r = Some (-1) ∧ ¬ starts (z_world s) ∧ active (z_thread s') = false) ∨
     (r = None ∧ starts (z_world s) ∧ active (z_thread s') = true ∧
      z_channel s' = (installed (z_world s)).1 ∧
      z_world s' = Nat.iter turns (turn (z_channel s')) (thread_started (z_world s)).2)).
Proof. apply zephyr_main_run. Qed.

(** *** The watchdog is fed in time *)

(** What the watchdog and the clock do: which channels have a timeout
    installed, of how many milliseconds, and how long ago each was reloaded. A
    channel is reloaded when the watchdog is set up and when that channel is
    fed while it is installed; all other calls let it age. At most [slack] of
    an age goes to a feed, a set-up or the wake-up from a sleep. *)
Record watchdog_timing (timeout : W → Z → option Z) (since : W → Z → Z)
    (slack bt_time create_time : Z) : Prop := {
  timing_ready : ∀ w, timeout (ZephyrWatchdog.device_is_ready api w).2 = timeout w;
  timing_install : ∀ ms w c,
    let r := (ZephyrWatchdog.wdt_install_timeout api ms w).1 in
    timeout (ZephyrWatchdog.wdt_install_timeout api ms w).2 c =
      if decide (c = r ∧ 0 ≤ r) then Some ms else timeout w c;
  timing_setup : ∀ w, timeout (ZephyrWatchdog.wdt_setup api w).2 = timeout w;
  timing_setup_since : ∀ w c, (ZephyrWatchdog.wdt_setup api w).1 = 0 →
    since (ZephyrWatchdog.wdt_setup api w).2 c ≤ slack;
  timing_feed : ∀ channel w, timeout (ZephyrWatchdog.wdt_feed api channel w).2 = timeout w;
  timing_feed_since : ∀ channel w c,
    since (ZephyrWatchdog.wdt_feed api channel w).2 c ≤
      (if decide (c = channel ∧ is_Some (timeout w c)) then 0 else since w c) + slack;
  timing_sleep : ∀ ms w, timeout (k_msleep ms w).2 = timeout w;
  timing_sleep_since : ∀ ms w c, 0 ≤ ms → since (k_msleep ms w).2 c ≤ since w c + ms + slack;
  timing_bt : ∀ w, timeout (bt_enable w).2 = timeout w;
  timing_bt_since : ∀ w c, since (bt_enable w).2 c ≤ since w c + bt_time;
  timing_create : ∀ sp sz f a b c prio w,
    timeout (ZephyrThread.k_thread_create k sp sz f a b c prio w).2 = timeout w;
  timing_create_since : ∀ sp sz f a b c prio w ch,
    since (ZephyrThread.k_thread_create k sp sz f a b c prio w).2 ch ≤ since w ch + create_time;
}.

Section Timing.
Context (timeout : W → Z → option Z) (since : W → Z → Z) (slack bt_time create_time : Z).
Context (Ht : watchdog_timing timeout since slack bt_time create_time).

(** [channel] is the one installed, and it waits for what [init] was told. *)
Definition only_channel (channel : Z) (w : W) : Prop :=
  ∀ c, timeout w c = if decide (c = channel) then Some 10000 else None.

Lemma only_installed w :
  (∀ c, timeout w c = None) → 0 ≤ (installed w).1 → only_channel (installed w).1 (installed w).2.
Proof using Ht.
  intros Hnone Hch c. unfold installed in *. set (w1 := (ZephyrWatchdog.device_is_ready api w).2) in *.
  assert (timeout w1 = timeout w) as E1 by apply (timing_ready _ _ _ _ _ Ht).
  pose proof (timing_install _ _ _ _ _ Ht 10000 w1) as Hi1. cbv zeta in Hi1.
  set (i1 := ZephyrWatchdog.wdt_install_timeout api 10000 w1) in *.
  case_decide as Hn.
  - rewrite (timing_install _ _ _ _ _ Ht 10000 i1.2 c), Hi1.
    rewrite (decide_False (P := c = i1.1 ∧ 0 ≤ i1.1)) by (rewrite Hn; pose proof errno_pos; lia).
    rewrite E1, Hnone. by repeat case_decide; try tauto.
  - rewrite Hi1, E1, Hnone. by repeat case_decide; try tauto.
Qed.

Lemma only_turns channel w turns :
  only_channel channel w → only_channel channel (Nat.iter turns (turn channel) w).
Proof using Ht.
  intros Hw. induction turns as [|turns IH]; [done|]. intros c.
  change (Nat.iter (S turns) (turn channel) w) with (turn channel (Nat.iter turns (turn channel) w)).
  unfold turn. by rewrite (timing_sleep _ _ _ _ _ Ht), (timing_feed _ _ _ _ _ Ht).
Qed.

Lemma only_started w :
  (∀ c, timeout w c = None) → wdt_starts w → only_channel (installed w).1 (thread_started w).2.
Proof using Ht.
  intros Hnone (_ & Hch & _) c. unfold thread_started, wdt_started.
  rewrite (timing_create _ _ _ _ _ Ht), (timing_bt _ _ _ _ _ Ht), (timing_setup _ _ _ _ _ Ht).
  by apply only_installed.
Qed.

(** The age of the channel at the end of the start-up and of a turn. *)
Lemma since_started w channel :
  wdt_starts w → since (thread_started w).2 channel ≤ bt_time + create_time + slack.
Proof using Ht.
  intros (_ & _ & Hset). unfold thread_started, wdt_started.
  pose proof (timing_setup_since _ _ _ _ _ Ht _ channel Hset).
  pose proof (timing_bt_since _ _ _ _ _ Ht (ZephyrWatchdog.wdt_setup api (installed w).2).2 channel).
  pose proof (timing_create_since _ _ _ _ _ Ht (stack_pointer stack) (stack_size stack) main_thread_ptr 0 0 0 1
    (bt_enable (ZephyrWatchdog.wdt_setup api (installed w).2).2).2 channel). lia.
Qed.

Lemma since_turn channel w :
  only_channel channel w → since (turn channel w) channel ≤ 1000 + 2 * slack.
Proof using Ht.
  intros Hw. unfold turn.
  pose proof (timing_sleep_since _ _ _ _ _ Ht 1000 (ZephyrWatchdog.wdt_feed api channel w).2 channel).
  pose proof (timing_feed_since _ _ _ _ _ Ht channel w channel) as Hf.
  rewrite decide_True in Hf; [lia|]. split; [done|]. rewrite Hw, decide_True by done. by eexists.
Qed.
End Timing.

(** C28. If Bluetooth and the thread start within ten seconds and a turn of the loop
    takes less, and no channel was installed before, then at every feed - the
    one after the start-up, and the one after any number of turns - the
    channel that is fed is installed, it is the only one, and its timeout is
    not over, even when the feed itself takes its time. *)
Theorem watchdog_fed_in_time timeout since slack bt_time create_time turns s s' t :
  watchdog_timing timeout since slack bt_time create_time →
  bt_time + create_time + 2 * slack < 10000 → 1000 + 3 * slack < 10000 →
  (∀ c, timeout (z_world s) c = None) → active (z_thread s) = false →
  zephyr_main build_time git_commit version main_thread_ptr stack bt_enable turns s =
    Done (None, s', t) →
  z_on_watchdog IWatchdog.feed s' =
    Done ((), mkZephyrMain (z_channel s') (z_thread s')
                (ZephyrWatchdog.wdt_feed api (z_channel s') (z_world s')).2, []) ∧
  is_Some (timeout (z_world s') (z_channel s')) ∧
  ∀ c ms, timeout (z_world s') c = Some ms →
    c = z_channel s' ∧ since (z_world s') c + slack < ms.
Proof.
  intros Ht Hstart Hloop Hnone Ha Hrun. split; [apply feed_run|].
  destruct (zephyr_main_run turns s Ha) as (r & s1 & t1 & E & Hcase). rewrite Hrun in E.
  injection E as <- <- <-. destruct Hcase as [(? & _)|(_ & (Hw & _ & _) & _ & Hch & Hworld)]; [done|].
  pose proof (only_started _ _ _ _ _ Ht _ Hnone Hw) as Honly. rewrite <- Hch in Honly.
  pose proof (only_turns _ _ _ _ _ Ht _ _ turns Honly) as Hturns. rewrite <- Hworld in Hturns.
  split; [rewrite Hturns, decide_True by done; by eexists|]. intros c ms. rewrite Hturns.
  case_decide as Hc; [intros [= <-]; subst c|done]. split; [done|]. rewrite Hworld. destruct turns as [|turns].
  - pose proof (since_started _ _ _ _ _ Ht _ (z_channel s') Hw). cbn [Nat.iter nat_rect]. lia.
  - pose proof (since_turn _ _ _ _ _ Ht _ _ (only_turns _ _ _ _ _ Ht _ _ turns Honly)).
    change (Nat.iter (S turns) ?f ?w) with (f (Nat.iter turns f w)). lia.
Qed.
End Start.
End Zephyr.

(** ** Concrete mains *)

#[local] Instance toy_location : SourceLocation := λ s, s.
#[local] Instance toy_cerr : CerrEvent LogCall := λ text, LOGGER_ERROR text [].
#[local] Instance toy_posix_thread : ThreadImplementation PosixThread.Members toy_system LogCall :=
  @PosixThread.Thread linux_errno _ LogCall _ _ toy_pthreads (Some 16384) None 3.

Definition no_thread : ThreadObj PosixThread.Members toy_system :=
  mkThread false (Names.name_buffer "MainApp") (mkStack 0 0) 0
    (PosixThread.mkMembers 0 0) (mkToy false 0 0 1).

Lemma posix_main_outcome_witness :
  ∃ s' t, posix_main "now" "abc" 64 no_thread = Done (0, s', t) ∧
    t_spawned (os s') = 1 ∧ t_joined (os s') = 1 ∧ active s' = false.
Proof.
  destruct (posix_main (Ev := LogCall) "now" "abc" 64 no_thread) as [[[code s'] t]|r] eqn:E;
    [|vm_compute in E; discriminate E].
  pose proof (@posix_main_outcome LogCall _ _ _ _ toy_posix_thread
    (@posix_thread_laws linux_errno _ LogCall _ _ toy_pthreads (Some 16384) None t_spawned t_joined
       toy_pthreads_laws 3) "now" "abc" 64 no_thread code s' t eq_refl E) as H.
  vm_compute in E. injection E as <- <- <-.
  eexists _, _. split; [reflexivity|]. destruct H as [[H _]|(_ & H1 & H2)]; [discriminate H|].
  split; [exact H1|]. split; [exact H2|reflexivity].
Defined.

#[local] Existing Instance linux_errno.

(** A board: a clock, and a watchdog with one channel, the third: its timeout
    if installed, and the time of its last reload. *)
Record board := mkBoard { clock : Z; reloaded : Z; third : option Z }.

Definition toy_api : ZephyrWatchdog.WdtApi board :=
  ZephyrWatchdog.mkApi board (λ w, (true, w))
    (λ ms w, match third w with
             | None => (3, mkBoard (clock w) (reloaded w) (Some ms))
             | Some _ => (-12, w)
             end)
    (λ w, (0, mkBoard (clock w) (clock w) (third w)))
    (λ c w, if decide (c = 3 ∧ is_Some (third w)) then (0, mkBoard (clock w) (clock w) (third w))
            else (-22, w)).
Definition toy_kernel : ZephyrThread.Kthreads board :=
  ZephyrThread.mkKthreads board
    (λ _ _ _ _ _ _ _ w, (7, mkBoard (clock w + 1) (reloaded w) (third w))) (λ _ w, (0, w)).
Definition toy_msleep (ms : Z) (w : board) : () * board :=
  ((), mkBoard (clock w + ms + 2) (reloaded w) (third w)).
Definition toy_bt_enable (w : board) : Z * board := (0, mkBoard (clock w + 300) (reloaded w) (third w)).
Definition powered : board := mkBoard 0 0 None.
Definition toy_main : ZephyrMain board :=
  mkZephyrMain (-1) (mkThread false (Names.name_buffer "MainApp") (mkStack 0 0) 0
    (ZephyrThread.mkMembers 0 0 0 0) ()) powered.
Abbreviation toy_zephyr_main :=
  (@zephyr_main linux_errno _ LogCall _ _ toy_api toy_kernel toy_msleep "now" "abc" "1.0" 64
     (mkStack 4096 1) toy_bt_enable).

Lemma zephyr_main_outcome_witness :
  ∃ r s' t, toy_zephyr_main 5 toy_main = Done (r, s', t) ∧
    ((r = Some (-1) ∧ ¬ starts toy_api toy_kernel 64 (mkStack 4096 1) toy_bt_enable powered ∧
        active (z_thread s') = false) ∨
     (r = None ∧ starts toy_api toy_kernel 64 (mkStack 4096 1) toy_bt_enable powered ∧
        active (z_thread s') = true ∧
        z_channel s' = (installed toy_api powered).1 ∧
        z_world s' = Nat.iter 5 (turn toy_api toy_msleep (z_channel s'))
          (thread_started toy_api toy_kernel 64 (mkStack 4096 1) toy_bt_enable powered).2)).
Proof. by apply zephyr_main_outcome. Defined.

Definition toy_timeout (w : board) (c : Z) : option Z := if decide (c = 3) then third w else None.
Definition toy_since (w : board) (c : Z) : Z := if decide (c = 3) then Z.max 0 (clock w - reloaded w) else 0.

Lemma toy_timing : watchdog_timing toy_api toy_kernel toy_msleep toy_bt_enable toy_timeout toy_since 2 300 1.
Proof.
  split; intros; unfold toy_timeout, toy_since in *; cbn; try (lia || done);
    try (repeat case_decide; cbn in *; lia || tauto || done).
  - subst r. cbn. destruct (third w) eqn:E; cbn; rewrite ?E; repeat case_decide; try done; try tauto; lia.
  - destruct (decide (c = 3)) as [->|]; [|case_decide; lia].
    destruct (decide (channel = 3 ∧ is_Some (third w))) as [[-> Hs]|]; cbn; repeat case_decide; try lia;
      naive_solver.
Qed.

Lemma watchdog_fed_in_time_witness :
  ∃ s' t, toy_zephyr_main 5 toy_main = Done (None, s', t) ∧
    @z_on_watchdog LogCall _ _ (IWatchdog.feed (H := @zephyr_watchdog linux_errno _ LogCall _ _ toy_api)) s' =
       Done ((), mkZephyrMain (z_channel s') (z_thread s')
                   (ZephyrWatchdog.wdt_feed toy_api (z_channel s') (z_world s')).2, []) ∧
    is_Some (toy_timeout (z_world s') (z_channel s')) ∧
    ∀ c ms, toy_timeout (z_world s') c = Some ms →
      c = z_channel s' ∧ toy_since (z_world s') c + 2 < ms.
Proof.
  destruct (toy_zephyr_main 5 toy_main) as [[[[z|] s'] t]|r] eqn:E; [vm_compute in E; discriminate E|
    |vm_compute in E; discriminate E].
  exists s', t. split; [reflexivity|].
  apply (watchdog_fed_in_time toy_api toy_kernel toy_msleep "now" "abc" "1.0" 64 (mkStack 4096 1)
    toy_bt_enable toy_timeout toy_since 2 300 1 5 toy_main s' t toy_timing); try lia; try exact E; [|reflexivity].
  intros c. unfold toy_timeout. by case_decide.
Defined.
