(* ===== verification/AppText.v ===== *)
(** * What the application's log lines look like

    A checker for format strings: from bounds on the arguments it computes a
    bound on the text, and when it succeeds the formatting is defined. With it,
    every line the callbacks log fits the 256-byte buffer of [LogDispatch]. *)

From stdpp Require Import prelude list strings pretty.
From Stdlib Require Import ZArith Lia Ascii.
From S2P Require Import Prelude Logger ErrorHandler ErrorCodes Types AdParser Crypto Tlv.
From S2P Require Import Driver DriverRun DriverSafety DriverProps DriverWitness DriverTyping App.

(** ** Lengths of conversions *)

Lemma append_length s1 s2 : String.length (s1 +:+ s2) = (String.length s1 + String.length s2)%nat.
Proof. induction s1 as [|c s1 IH]; [done|]. change (S (String.length (s1 +:+ s2)) = S (String.length s1 + String.length s2)). by rewrite IH. Qed.

Lemma pretty_N_go_length k x s :
  (x < 10 ^ N.of_nat k)%N → (String.length (pretty_N_go x s) ≤ k + String.length s)%nat.
Proof.
  revert x s. induction k as [|k IH]; intros x s Hx.
  { assert (x = 0)%N as -> by (change (10 ^ N.of_nat 0)%N with 1%N in Hx; lia).
    by rewrite pretty_N_go_0. }
  destruct (decide (x = 0)%N) as [->|Hne]; [rewrite pretty_N_go_0; lia|].
  rewrite pretty_N_go_step by lia.
  etrans; [apply IH|cbn; lia].
  rewrite Nat2N.inj_succ, N.pow_succ_r' in Hx. apply N.Div0.div_lt_upper_bound. lia.
Qed.

Lemma pretty_N_length k (x : N) :
  (0 < k)%nat → (x < 10 ^ N.of_nat k)%N → (String.length (pretty x) ≤ k)%nat.
Proof.
  intros Hk Hx. unfold pretty, pretty_N. case_decide; [cbn; lia|].
  etrans; [by apply (pretty_N_go_length k)|cbn; lia].
Qed.

Lemma pretty_Z_length k z :
  (0 < k)%nat → 0 ≤ z < 10 ^ Z.of_nat k → (String.length (pretty z) ≤ k)%nat.
Proof.
  intros Hk Hz. assert (pretty z = pretty (Z.to_N z)) as ->.
  { destruct z; [done|done|lia]. }
  apply pretty_N_length; [done|]. lia.
Qed.

Lemma hex_digits_length fuel k z :
  (0 < k)%nat → 0 ≤ z < 16 ^ Z.of_nat k → (String.length (Printf.hex_digits fuel z) ≤ k)%nat.
Proof.
  revert k z. induction fuel as [|fuel IH]; intros k z Hk Hz; [cbn; lia|]. cbn [Printf.hex_digits].
  case_decide; [cbn; lia|]. rewrite append_length. cbn [String.length].
  destruct k as [|[|k]]; [lia|change (16 ^ Z.of_nat 1) with 16 in Hz; lia|].
  enough (String.length (Printf.hex_digits fuel (z / 16)) ≤ S k)%nat by lia.
  apply IH; [lia|]. rewrite Nat2Z.inj_succ, Z.pow_succ_r in Hz by lia.
  split; [apply Z.div_pos; lia|apply Z.div_lt_upper_bound; lia].
Qed.

Lemma pad_length sp s :
  String.length (Printf.pad sp s) = (Printf.width sp `max` String.length s)%nat.
Proof.
  unfold Printf.pad. rewrite append_length.
  assert (∀ n c, String.length (Printf.repeat_char n c) = n) as ->; [|lia].
  intros n c. induction n as [|n IH]; [done|]. cbn. by rewrite IH.
Qed.

(** ** The checker *)

(** What is known of an argument: an integer of at most [n] digits, one that is
    not negative as well, a string of at most [n] bytes. *)
Inductive kind := KInt (n : nat) | KNat (n : nat) | KStr (n : nat).

Definition has_kind (a : log_arg) (k : kind) : Prop :=
  match a, k with
  | AInt z, KInt n => (0 < n)%nat ∧ - 10 ^ Z.of_nat n < z < 10 ^ Z.of_nat n
  | AInt z, KNat n => (0 < n)%nat ∧ 0 ≤ z < 10 ^ Z.of_nat n
  | AStr s, KStr n => (String.length s ≤ n)%nat
  | _, _ => False
  end.

(** The room a conversion takes at most; [None] where it is not defined. *)
Definition conversion_room (c : ascii) (sp : Printf.spec) (k : kind) : option nat :=
  match k with
  | KStr n => if Ascii.eqb c "s"%char then Some (Printf.width sp `max` n)%nat else None
  | KInt n =>
      if Ascii.eqb c "d"%char then Some (Printf.width sp `max` S n)%nat
      else if Ascii.eqb c "c"%char then Some 1%nat else None
  | KNat n =>
      if Ascii.eqb c "d"%char || Ascii.eqb c "u"%char || Ascii.eqb c "X"%char
      then Some (Printf.width sp `max` n)%nat
      else if Ascii.eqb c "c"%char then Some 1%nat else None
  end.

(** The room the text takes at most: [Printf.format] on kinds. *)
Fixpoint room (fmt : string) (ks : list kind) (cur : option Printf.spec) : option nat :=
  match fmt with
  | EmptyString => match cur with None => Some 0%nat | Some _ => None end
  | String c rest =>
      match cur with
      | None =>
          if Ascii.eqb c "%"%char then room rest ks (Some (Printf.Spec false 0 32))
          else S <$> room rest ks None
      | Some sp =>
          if Ascii.eqb c "%"%char then S <$> room rest ks None
          else if Ascii.eqb c "h"%char then
            room rest ks (Some (Printf.Spec (Printf.zero_flag sp) (Printf.width sp) (Printf.bits sp / 2)))
          else if Ascii.eqb c "l"%char then
            room rest ks (Some (Printf.Spec (Printf.zero_flag sp) (Printf.width sp) 64))
          else if Ascii.eqb c "z"%char then
            room rest ks (Some (Printf.Spec (Printf.zero_flag sp) (Printf.width sp) 64))
          else if Ascii.eqb c "0"%char && Nat.eqb (Printf.width sp) 0 then
            room rest ks (Some (Printf.Spec true 0 (Printf.bits sp)))
          else if Printf.is_digit c then
            room rest ks (Some (Printf.Spec (Printf.zero_flag sp)
              (Printf.width sp * 10 + (nat_of_ascii c - 48))%nat (Printf.bits sp)))
          else
            match ks with
            | [] => None
            | k :: ks' =>
                match conversion_room c sp k, room rest ks' None with
                | Some n, Some m => Some (n + m)%nat
                | _, _ => None
                end
            end
      end
  end.

Lemma show_signed_length sp n z :
  (0 < n)%nat → - 10 ^ Z.of_nat n < z < 10 ^ Z.of_nat n →
  (String.length (Printf.show_signed sp z) ≤ Printf.width sp `max` S n)%nat.
Proof.
  intros Hn Hz. unfold Printf.show_signed. destruct (decide (z < 0)) as [Hneg|Hneg].
  - pose proof (pretty_Z_length n (- z) Hn ltac:(lia)) as Hp.
    destruct (Printf.zero_flag sp); cbn [andb].
    + rewrite bool_decide_eq_true_2 by done. cbn [String.length]. rewrite pad_length. cbn. lia.
    + rewrite pad_length. destruct z as [|z|z]; [lia..|]. change (- Z.neg z) with (Z.pos z) in Hp.
      change (pretty (Z.neg z)) with ("-" +:+ pretty (Z.pos z)). rewrite append_length. cbn [String.length].
      lia.
  - rewrite bool_decide_eq_false_2, andb_false_r, pad_length by done.
    pose proof (pretty_Z_length n z Hn ltac:(lia)). lia.
Qed.

Lemma mod_range z n b : 0 ≤ z < n → 0 ≤ b → 0 ≤ z mod 2 ^ b < n.
Proof.
  intros Hz Hb. assert (0 < 2 ^ b) as Hp by by apply Z.pow_pos_nonneg.
  pose proof (Z.mod_pos_bound z _ Hp). pose proof (Z.mod_le z (2 ^ b) ltac:(lia) Hp). lia.
Qed.

(** One argument, converted. *)
Definition convert (c : ascii) (sp : Printf.spec) (a : log_arg) : outcome string :=
  match a with
  | AStr s => if Ascii.eqb c "s"%char then Done (Printf.pad sp s) else Stop Undefined
  | AInt z =>
      if Ascii.eqb c "d"%char then Done (Printf.show_signed sp z)
      else if Ascii.eqb c "u"%char then Done (Printf.show_unsigned sp z)
      else if Ascii.eqb c "X"%char then Done (Printf.show_hex sp z)
      else if Ascii.eqb c "c"%char then Done (String (ascii_of_N (Z.to_N (z mod 256))) "")
      else Stop Undefined
  end.

Lemma convert_room c sp a k n :
  has_kind a k → 0 ≤ Printf.bits sp → conversion_room c sp k = Some n →
  ∃ s, convert c sp a = Done s ∧ (String.length s ≤ n)%nat.
Proof.
  intros Ha Hb Hn. unfold conversion_room, convert in *.
  destruct a as [z|s], k as [m|m|m]; try done; cbn [has_kind] in Ha.
  - destruct Ha as [Hm Hz]. destruct (Ascii.eqb c "d") eqn:Ed.
    { injection Hn as <-. eexists. split; [done|]. by apply show_signed_length. }
    destruct (Ascii.eqb c "c") eqn:Ec; [|done]. injection Hn as <-.
    apply Ascii.eqb_eq in Ec as ->. eexists. split; [done|]. cbn. lia.
  - destruct Ha as [Hm Hz]. destruct (Ascii.eqb c "d") eqn:Ed.
    { injection Hn as <-. eexists. split; [done|]. unfold Printf.show_signed.
      rewrite bool_decide_eq_false_2, andb_false_r, pad_length by lia.
      pose proof (pretty_Z_length m z Hm Hz). lia. }
    pose proof (mod_range z _ _ Hz Hb) as Hz'.
    destruct (Ascii.eqb c "u") eqn:Eu.
    { injection Hn as <-. eexists. split; [done|]. unfold Printf.show_unsigned. rewrite pad_length.
      pose proof (pretty_Z_length m _ Hm Hz'). lia. }
    destruct (Ascii.eqb c "X") eqn:Ex.
    { injection Hn as <-. eexists. split; [done|]. unfold Printf.show_hex. rewrite pad_length.
      enough (String.length (Printf.hex_digits 16 (z mod 2 ^ Printf.bits sp)) ≤ m)%nat by lia.
      apply hex_digits_length; [done|].
      assert (10 ^ Z.of_nat m ≤ 16 ^ Z.of_nat m) by (apply Z.pow_le_mono_l; lia). lia. }
    cbn [orb] in Hn. destruct (Ascii.eqb c "c") eqn:Ec; [|done]. injection Hn as <-.
    eexists. split; [done|]. cbn. lia.
  - destruct (Ascii.eqb c "s"); [|done]. injection Hn as <-. eexists. split; [done|].
    rewrite pad_length. lia.
Qed.

(** The checker is right. *)
Lemma room_sound fmt args ks cur n :
  Forall2 has_kind args ks → (∀ sp, cur = Some sp → 0 ≤ Printf.bits sp) →
  room fmt ks cur = Some n →
  ∃ s, Printf.format fmt args cur = Done s ∧ (String.length s ≤ n)%nat.
Proof.
  revert args ks cur n. induction fmt as [|c fmt IH]; intros args ks cur n Hargs Hcur Hn.
  { destruct cur; [done|]. injection Hn as <-. exists "". split; [done|]. cbn. lia. }
  assert (∀ n', S <$> room fmt ks None = Some n' → ∃ s,
    (r ← Printf.format fmt args None; Done (String c r)) = Done s ∧ (String.length s ≤ n')%nat) as Hchar.
  { intros n' (m & Hm & ->)%fmap_Some. destruct (IH args ks None m Hargs ltac:(done) Hm) as (s & -> & Hl).
    eexists. split; [done|]. cbn. lia. }
  cbn [room Printf.format] in *. destruct cur as [sp|].
  - specialize (Hcur sp eq_refl).
    destruct (Ascii.eqb c "%"); [by apply Hchar|].
    repeat (match goal with H : (if ?b then _ else _) = Some _ |- _ =>
      destruct b eqn:?; [apply (IH args ks _ n Hargs) in Hn;
        [exact Hn|intros ? [= <-]; cbn; (done || lia || apply Z.div_pos; lia)]|] end).
    destruct Hargs as [|a k args ks Ha Hargs]; [done|].
    destruct (conversion_room c sp k) as [m1|] eqn:E1; [|done].
    destruct (room fmt ks None) as [m2|] eqn:E2; [|done]. injection Hn as <-.
    destruct (convert_room c sp a k m1 Ha Hcur E1) as (s1 & C1 & L1).
    destruct (IH args ks None m2 Hargs ltac:(done) E2) as (s2 & C2 & L2).
    unfold convert in C1. rewrite C1. cbn [mbind outcome_bind]. rewrite C2. cbn [mbind outcome_bind].
    eexists. split; [done|]. rewrite append_length. lia.
  - destruct (Ascii.eqb c "%"); [|by apply Hchar].
    apply (IH args ks _ n Hargs) in Hn; [exact Hn|]. intros ? [= <-]. cbn. lia.
Qed.

(** ** The application's lines *)

(** A line whose formatting is defined, which the buffer of [LogDispatch] holds as
    a whole, and which [ZephyrAppender] passes on as a whole for every function
    whose name is shorter than 255 bytes. *)
Definition printed_whole (l : LogCall) : Prop :=
  ∃ s, log_text l = Done s ∧ ∀ chk loc, chk (log_severity l) = true →
    let r := mkRecord (log_severity l) (function_name loc) (line loc) (file_name loc) s in
    run_log (Some chk) loc l = Done [r] ∧
    ((String.length (function_name loc) < 255)%nat →
     appender_write r = Done (level_of (log_severity l), function_name loc +:+ ": " +:+ s)).

Lemma substring_all n s : (String.length s ≤ n)%nat → String.substring 0 n s = s.
Proof.
  revert n. induction s as [|c s IH]; intros [|n] Hn; cbn in *; [done..|lia|]. by rewrite IH by lia.
Qed.

Lemma appender_text r :
  (String.length (rec_func r) + String.length (rec_message r) < 510)%nat →
  appender_write r = Done (level_of (rec_severity r), rec_func r +:+ ": " +:+ rec_message r).
Proof.
  intros Hl. unfold appender_write, Printf.snprintf.
  assert (Printf.format "%s: %s" [AStr (rec_func r); AStr (rec_message r)] None =
    Done (rec_func r +:+ ": " +:+ rec_message r)) as ->.
  { change (Printf.format "%s: %s" [AStr (rec_func r); AStr (rec_message r)] None) with
      (Done (rec_func r +:+ ": " +:+ (rec_message r +:+ ""))). by rewrite append_nil_r. }
  assert (String.length (rec_func r +:+ ": " +:+ rec_message r) < 512)%nat as Hlen
    by (rewrite !append_length; cbn; lia).
  cbn [mbind outcome_bind snd fst]. rewrite decide_False by lia. by rewrite substring_all by lia.
Qed.

Lemma line_fits ks n l :
  Forall2 has_kind (log_args l) ks → room (log_fmt l) ks None = Some n →
  log_args l ≠ [] → (n < k_log_buf_size)%nat → printed_whole l.
Proof.
  intros Hargs Hn Hne Hlt. destruct (room_sound _ _ _ None n Hargs ltac:(done) Hn) as (s & E & Hl).
  assert (log_text l = Done s) as Ht by (unfold log_text; by destruct (log_args l)).
  unfold k_log_buf_size in Hlt. exists s. split; [done|]. intros chk loc Hchk. split.
  - rewrite (run_log_text _ _ _ s) by done. by rewrite substring_all by lia.
  - intros Hf. apply appender_text. cbn [rec_func rec_message]. lia.
Qed.

Lemma byte_kind z : is_u8 z → has_kind (AInt z) (KNat 3).
Proof. unfold is_u8. cbn. lia. Qed.

Lemma addr_kinds a : length a = k_addr_len → is_bytes a →
  Forall2 has_kind (AInt <$> reverse a) (replicate 6 (KNat 3)).
Proof.
  intros Ha Hb. apply Forall2_replicate_r; [by rewrite length_fmap, length_reverse|].
  apply Forall_fmap, Forall_reverse. eapply Forall_impl; [exact Hb|]. intros z. apply byte_kind.
Qed.

Lemma button_lines_fit dev action changed ls :
  wf_device dev → 0 ≤ changed < 16 → on_button dev action changed = Done ls → Forall printed_whole ls.
Proof.
  intros [[Ha Hb] _ _ _ _] Hc. rewrite press_line by done. intros [= <-].
  apply Forall_singleton. eapply (line_fits (KStr 7 :: replicate 6 (KNat 3) ++ [KNat 2]));
    [|vm_compute; reflexivity|done|apply Nat.ltb_lt; reflexivity].
  constructor; [destruct action; cbn; lia|]. apply Forall2_app; [by apply addr_kinds|].
  constructor; [cbn; lia|constructor].
Qed.

Lemma address_lines_fit fmt dev ls :
  wf_device dev → (∃ n, room fmt (replicate 6 (KNat 3)) None = Some n ∧ (n < 256)%nat) →
  address_line fmt dev = Done ls → Forall printed_whole ls.
Proof.
  intros [[Ha Hb] _ _ _ _] (n & Hn & Hlt). rewrite address_line_run by done. intros [= <-].
  apply Forall_singleton. eapply line_fits; [by apply addr_kinds|exact Hn| |exact Hlt].
  cbn [log_args LOGGER_NOTICE]. intros E%(f_equal length). rewrite length_fmap, length_reverse, Ha in E. done.
Qed.

Lemma line_if_fit {A} (P : A → Prop) o (f : A → LogCall) :
  opt_all P o → (∀ a, P a → printed_whole (f a)) → Forall printed_whole (line_if o f).
Proof. destruct o as [a|]; [|constructor]. intros Ha Hf. by apply Forall_singleton, Hf. Qed.

(** One line with one argument. *)
Lemma line1_fits k fmt a :
  has_kind a k → (∃ n, room fmt [k] None = Some n ∧ (n < k_log_buf_size)%nat) →
  printed_whole (LOGGER_NOTICE fmt [a]).
Proof. intros Ha (n & Hn & Hlt). by eapply line_fits; [by repeat constructor|exact Hn|..]. Qed.

Ltac line1 k := apply (line1_fits k); [|eexists; split; [vm_compute; reflexivity|apply Nat.ltb_lt; reflexivity]].

Lemma temp_line_fits t : is_i16 t → printed_whole (LOGGER_NOTICE "  Temp (°C)    : %c%d.%02d" (temp_args t)).
Proof.
  unfold is_i16. intros Ht. eapply (line_fits [KNat 2; KInt 3; KInt 2]);
    [|vm_compute; reflexivity|done|apply Nat.ltb_lt; reflexivity].
  unfold temp_args. set (ta := i16 _).
  assert (-32768 ≤ ta < 32768) as Hta.
  { subst ta. unfold i16, signed. change (2 ^ (16 - 1)) with 32768. change (2 ^ 16) with 65536.
    case_decide; Z.div_mod_to_equations; lia. }
  repeat constructor; cbn [has_kind]; try lia.
  - case_decide; lia.
  - case_decide; cbn; lia.
  - change (10 ^ Z.of_nat 3) with 1000. Z.quot_rem_to_equations. lia.
  - change (10 ^ Z.of_nat 3) with 1000. Z.quot_rem_to_equations. lia.
  - change (10 ^ Z.of_nat 2) with 100. Z.quot_rem_to_equations. lia.
  - change (10 ^ Z.of_nat 2) with 100. Z.quot_rem_to_equations. lia.
Qed.

Lemma accel_lines_fit data ls :
  report_ranges data → accel_lines data = Done ls → Forall printed_whole ls.
Proof.
  intros [_ _ Hst Hx Hy Hz]. unfold accel_lines.
  destruct (accel_status data) as [st|]; [|intros [= <-]; constructor]. cbn [opt_all] in Hst.
  assert (printed_whole (LOGGER_NOTICE "  Accel status : %u" [AInt st])) as H1
    by (line1 (KNat 1); cbn; lia).
  case_decide; [|intros [= <-]; by apply Forall_singleton].
  destruct (accel_x_cg data) as [x|], (accel_y_cg data) as [y|], (accel_z_cg data) as [z|]; try done.
  cbn [opt_all deref_opt mbind outcome_bind] in *. intros [= <-].
  constructor; [done|]. apply Forall_singleton.
  eapply (line_fits [KInt 3; KInt 3; KInt 3]); [|vm_compute; reflexivity|done|apply Nat.ltb_lt; reflexivity].
  repeat constructor; cbn; lia.
Qed.

Lemma sensor_lines_fit dev data ls :
  wf_device dev → report_ranges data → on_sensor dev data = Done ls → Forall printed_whole ls.
Proof.
  intros [[Ha Hb] _ _ _ _] Hr. unfold on_sensor. rewrite addr_args_reverse by done.
  cbn [mbind outcome_bind]. destruct (accel_lines data) as [accel|] eqn:Eacc; [|done].
  intros [= <-]. pose proof (accel_lines_fit _ _ Hr Eacc) as Hacc.
  destruct Hr as [[Hl Hbat Hsol Hen Ht Hh _ _ _ _] _ _ _ _ _].
  repeat ((apply Forall_cons; split) || (apply Forall_app; split)); try exact Hacc; try apply Forall_nil_2.
  - eapply line_fits; [by apply addr_kinds|vm_compute; reflexivity| |apply Nat.ltb_lt; reflexivity].
    cbn [log_args LOGGER_NOTICE]. intros E%(f_equal length). by rewrite length_fmap, length_reverse, Ha in E.
  - eapply line_if_fit; [exact Ht|]. exact temp_line_fits.
  - eapply line_if_fit; [exact Hh|]. intros v Hv. line1 (KNat 3). unfold is_u8 in Hv. cbn. lia.
  - eapply (line_if_fit (λ _, True)); [by destruct (occupancy data)|]. intros b _. line1 (KStr 3).
    destruct b; cbn; lia.
  - eapply line_if_fit; [exact Hl|]. intros v Hv. line1 (KNat 5). unfold is_u16 in Hv. cbn. lia.
  - eapply line_if_fit; [exact Hsol|]. intros v Hv. line1 (KNat 5). unfold is_u16 in Hv. cbn. lia.
  - eapply line_if_fit; [exact Hen|]. intros v Hv. line1 (KNat 3). unfold is_u8 in Hv. cbn. lia.
  - eapply line_if_fit; [exact Hbat|]. intros v Hv. line1 (KNat 5). unfold is_u16 in Hv. cbn. lia.
  - eapply (line_if_fit (λ _, True)); [by destruct (contact data)|]. intros b _. line1 (KStr 6).
    destruct b; cbn; lia.
Qed.

(** C34. Whatever the driver reports, the lines the application logs about it are
    formatted without a conversion missing or misreading its argument, the
    logger's buffer holds them as a whole, and Zephyr's appender passes them on
    behind the name of the function: none is ever truncated. *)
Theorem lines_fit e ls :
  typed_event e → is_log e = false → invoke e = Done ls → Forall printed_whole ls.
Proof.
  destruct e as [l|fn dev action changed opt len|fn dev data opt len|fn dev]; [done|..];
    intros Hty _; cbn [invoke]; (case_decide; [|done]).
  - destruct Hty as (Hwf & _ & _ & Hc & _). by apply button_lines_fit.
  - destruct Hty as (Hwf & _ & _ & Hr & _). by apply sensor_lines_fit.
  - destruct Hty as [Hwf _]. unfold on_commissioned. apply address_lines_fit; [done|].
    eexists. split; [vm_compute; reflexivity|apply Nat.ltb_lt; reflexivity].
Qed.

(** The line of a press, as it is printed. *)
Lemma lines_fit_witness :
  ∃ s, Printf.format "EnOcean button %s | addr %02X:%02X:%02X:%02X:%02X:%02X | buttons 0x%02X"
        [AStr "PRESS"; AInt 0x03; AInt 0xDA; AInt 0x44; AInt 0x33; AInt 0x22; AInt 0x11; AInt 1] None = Done s ∧
    s = "EnOcean button PRESS | addr 03:DA:44:33:22:11 | buttons 0x01" ∧
    run_log (Some (λ _, true)) (SourceLocation "on_button" 20 "AppEntry.cpp")
      (LOGGER_NOTICE "EnOcean button %s | addr %02X:%02X:%02X:%02X:%02X:%02X | buttons 0x%02X"
        [AStr "PRESS"; AInt 0x03; AInt 0xDA; AInt 0x44; AInt 0x33; AInt 0x22; AInt 0x11; AInt 1]) =
      Done [mkRecord plog.info "on_button" 20 "AppEntry.cpp" s] ∧
    appender_write (mkRecord plog.info "on_button" 20 "AppEntry.cpp" s) =
      Done (LOG_INF, "on_button: EnOcean button PRESS | addr 03:DA:44:33:22:11 | buttons 0x01").
Proof.
  assert (Forall printed_whole
    [LOGGER_NOTICE "EnOcean button %s | addr %02X:%02X:%02X:%02X:%02X:%02X | buttons 0x%02X"
        [AStr "PRESS"; AInt 0x03; AInt 0xDA; AInt 0x44; AInt 0x33; AInt 0x22; AInt 0x11; AInt 1]]) as Hf.
  { apply (lines_fit (EvButton 1 (set_seq_num 6 switch_entry) Press 1 None 0)).
    - split_and!; [|reflexivity|reflexivity|lia|lia|reflexivity].
      apply wf_set_seq; [|unfold is_u32; lia].
      exact (Forall_lookup_1 _ _ 0%nat _ (inv_wf _ sample_inv) eq_refl).
    - reflexivity.
    - reflexivity. }
  inversion Hf as [|? ? (s & E & Hrun) _]. exists s. split; [exact E|].
  assert (s = "EnOcean button PRESS | addr 03:DA:44:33:22:11 | buttons 0x01") as ->
    by (vm_compute in E; by injection E as <-).
  destruct (Hrun (λ _, true) (SourceLocation "on_button" 20 "AppEntry.cpp") eq_refl) as [H1 H2].
  split; [reflexivity|]. split; [exact H1|]. apply H2. apply Nat.ltb_lt. reflexivity.
Defined.
