(* ===== verification/AppPosix.v ===== *)
(** * The application on POSIX (application/AppEntry.cpp over posix_core/ble)

    Packet handler, driver and application composed: what one HCI packet does
    to the whole - whatever is in it, and with the telegram of a switch, a
    sensor or a new device in it -, what start-up leaves behind, and concrete
    runs. *)

From stdpp Require Import prelude list strings.
From Stdlib Require Import ZArith Lia.
From S2P Require Import Prelude Logger ErrorHandler ErrorCodes Types AdParser Crypto Tlv.
From S2P Require Import Driver DriverRun DriverSafety DriverProps DriverWitness Sync Threads Ble Boards App.

Section Packets.
Context {C W X Ev : Type} `{CryptoImplementation C} `{LogEvent Ev}.
Abbreviation State := (AppState C (HciScanner.Scanner X) W).
Implicit Types s : State.

(** A packet of the POSIX scan thread, with the driver behind its callback. *)
Definition on_packet (packet : bytes) : eff State Ev () := delivered (HciScanner.handle_packet packet).

(** The application as [run_impl] leaves it behind, up to the scanner's
    context. *)
Record wired s : Prop := {
  wired_driver : driver_wired (app_driver s);
  wired_scanner : HciScanner.callback_ (app_scanner s) = Some advertisement_cb_ptr;
}.

(** What a report that went into a packet of bytes is made of. *)
Lemma encoded_sound c :
  adv_fn c = advertisement_cb_ptr → wf_report c → is_bytes (encode_report c) → sound_report c.
Proof.
  unfold encode_report. intros Hfn [Ha _ Hr] Hb.
  repeat (apply Forall_app in Hb as [? Hb] || apply Forall_cons in Hb as [? Hb]).
  repeat match goal with H : Forall _ (_ ++ _) |- _ => apply Forall_app in H as [? ?] end.
  repeat match goal with H : Forall _ (_ :: _) |- _ => apply Forall_cons in H as [? ?] end.
  by split.
Qed.

(** Any packet of bytes makes the scanner call its callback on reports that
    are in the packet. *)
Lemma packet_reports packet (sc : HciScanner.Scanner X) :
  is_bytes packet → HciScanner.callback_ sc = Some advertisement_cb_ptr →
  ∃ cs rest, HciScanner.handle_packet (Ev := ble_event) packet sc = Done ((), sc, BleAdv <$> cs) ∧
    (length cs ≤ 15)%nat ∧ Forall sound_report cs ∧
    (cs = [] ∨ drop 5 packet = concat (encode_report <$> cs) ++ rest).
Proof.
  intros Hb Hsc. destruct (handle_packet_total (Ev := ble_event) packet sc Hb)
    as (cs & rest & Hrun & Hlen & Hwf & Hcb & Hin).
  exists cs, rest. split_and!; [done..| |done].
  apply Forall_forall. intros c Hc. rewrite Forall_forall in Hwf, Hcb.
  destruct (Hcb c Hc) as [Efn _]. rewrite Hsc in Efn. injection Efn as Efn.
  apply encoded_sound; [done|by apply Hwf|]. destruct Hin as [->|Hin]; [by apply not_elem_of_nil in Hc|].
  assert (is_bytes (drop 5 packet)) as Hb' by by apply Forall_drop.
  rewrite Hin in Hb'. apply Forall_app in Hb' as [Hb' _].
  apply list_elem_of_split in Hc as (c1 & c2 & ->).
  rewrite fmap_app, concat_app in Hb'. apply Forall_app in Hb' as [_ Hb'].
  cbn [fmap list_fmap concat] in Hb'. by apply Forall_app in Hb' as [? _].
Qed.

(** Any packet of bytes, processed. *)
Lemma packet_survives `{!CryptoTotal C} packet s :
  wired s → is_bytes packet →
  (∃ s' ls, on_packet packet s = Done ((), s', ev_log <$> ls) ∧ wired s') ∨
  (on_packet packet s = Stop Undefined ∧
   ∃ cs rest, drop 5 packet = concat (encode_report <$> cs) ++ rest ∧ Exists overrun cs).
Proof.
  intros Hw Hb. unfold on_packet, delivered.
  destruct (packet_reports packet (app_scanner s) Hb (wired_scanner _ Hw))
    as (cs & rest & -> & _ & Hcs & Hin).
  replace (mkApp (app_driver s) (app_scanner s) (app_world s)) with s by by destruct s.
  destruct (heard_all_step cs s (wired_driver _ Hw) Hcs) as [(s' & ls & -> & Hd & Hsc)|[-> Ho]].
  - left. exists s', ls. split; [done|]. split; [done|]. rewrite Hsc. apply Hw.
  - right. split; [done|]. destruct Hin as [->|Hin]; [by inversion Ho|by eauto].
Qed.

(** C8. Whatever bytes the radio delivers as one packet, the scan thread, the
    driver behind its callback and the application behind the driver's
    callbacks process it to the end and are ready for the next one - unless
    one of the reports in it carries an advertisement whose AD structures
    overrun it by one byte. *)
Theorem application_survives `{!CryptoTotal C} packet s :
  wired s → is_bytes packet →
  (∃ s' ls, on_packet packet s = Done ((), s', ev_log <$> ls) ∧ wired s') ∨
  (on_packet packet s = Stop Undefined ∧
   ∃ cs rest, drop 5 packet = concat (encode_report <$> cs) ++ rest ∧ Exists overrun cs).
Proof. apply packet_survives. Qed.

(** One report in one packet, with what the driver makes of it. *)
Section OneReport.
Context (plen : Z) (a : bytes) (rssi ctx : Z) (data : bytes) (s : State).
Context (Hw : wired s) (Hctx : HciScanner.callback_ctx_ (app_scanner s) = ctx) (Hne : ctx ≠ 0).
Context (Hinit : initialised_ (app_driver s) = true) (Hdb : is_bytes data).

Definition report : adv_call :=
  mkAdv advertisement_cb_ptr ctx a k_addr_random k_adv_nonconn_ind rssi data.

Context (Hwf : wf_report report).

Lemma one_report_run p d' t :
  carries data p →
  process_advertisement a k_addr_random k_adv_nonconn_ind rssi data (app_driver s) = Done ((), d', t) →
  ∃ ls, on_packet (adv_packet plen [report]) s =
      Done ((), mkApp d' (app_scanner s) (app_world s), ev_log <$> ls) ∧ invoke_all t = Done ls.
Proof using All.
  intros Hc Hrun. assert (adv_data report ≠ []) as Hdata.
  { destruct Hc as (ads & ? & ? & _ & _ & _ & _ & E). cbn [adv_data report]. rewrite E.
    destruct ads; discriminate. }
  destruct (advertised_run (Ev := Ev) report s () d' t (wired_driver _ Hw) eq_refl Hdb) as (_ & ls & Hls & Hadv).
  { cbn [adv_ctx adv_addr adv_addr_type adv_adv_type adv_rssi adv_data report].
    rewrite bool_decide_eq_true_2 by done. exact Hrun. }
  exists ls. split; [|done].
  unfold on_packet, delivered. rewrite (handle_packet_reports (Ev := ble_event) plen [report]).
  - rewrite decide_False by done. change (ev_adv report) with (BleAdv report).
    cbn [heard_all heard]. rewrite bind_run.
    replace (mkApp (app_driver s) (app_scanner s) (app_world s)) with s by by destruct s.
    rewrite Hadv. cbn. by rewrite app_nil_r.
  - cbn. lia.
  - apply Forall_singleton. split_and!; [done|by apply wired_scanner|done].
Qed.

Lemma report_addr_length : length a = k_addr_len.
Proof using Hwf. by destruct Hwf. Qed.

(** A verified, fresh switch telegram in one packet, computed. *)
Lemma press_run seq st opt tag i dev c l :
  find_slot a (devices_ (app_driver s)) = Some i →
  devices_ (app_driver s) !! i = Some dev → type dev = Switch →
  is_u32 seq → seq_num dev < seq → is_u8 st → is_bytes opt → is_bytes tag → length tag = k_tag_len →
  let p := data_payload seq (st :: opt) tag in
  carries data p → (length p ≤ 252)%nat →
  check_tag (crypto_ (app_driver s)) dev p = Done (true, c, l) →
  let dev' := set_seq_num seq (set_rssi rssi dev) in
  let valid := bool_decide (st < 32) && bool_decide (length opt ≤ 4)%nat in
  let reported := valid && negb (bool_decide (length opt = 3%nat)) in
  on_packet (adv_packet plen [report]) s =
    Done ((), mkApp (if valid then set_slot i dev' (set_crypto c (app_driver s))
                     else set_slot i (set_rssi rssi dev) (app_driver s)) (app_scanner s) (app_world s),
          ev_log <$> (if valid then l else []) ++ (if reported then [button_line a st] else [])).
Proof using All.
  intros Hf Hi Hty Hs Hlt Hst Hob Htb Ht p Hc Hp Htag dev' valid reported.
  pose proof (switch_event_run a rssi data seq st opt tag (app_driver s) i dev c l on_button_ptr
    (wired_inv _ (wired_driver _ Hw)) Hinit) as Hrun.
  rewrite (wired_callbacks _ (wired_driver _ Hw)) in Hrun.
  specialize (Hrun eq_refl Hf Hi Hty Hs Hlt Hst Hob Htb Ht Hc Hp Htag). cbv zeta in Hrun.
  fold valid dev' in Hrun. fold reported in Hrun.
  destruct (one_report_run p _ _ Hc Hrun) as (ls & Hpk & Hls).
  pose proof (find_slot_addr _ _ _ _ Hf Hi) as Ea. pose proof report_addr_length as Hla.
  change (addr (ble_addr dev)) with (addr (ble_addr dev')) in Ea. rewrite <- Ea in Hla.
  rewrite Hpk. do 3 f_equal. destruct valid; cbn [andb] in reported; subst reported.
  - rewrite invoke_all_logs in Hls. destruct (negb _); cbn [mbind outcome_bind] in Hls.
    + rewrite invoke_button, Ea in Hls by done. by injection Hls as <-.
    + by injection Hls as <-.
  - by injection Hls as <-.
Qed.

(** C9. A fresh telegram of a commissioned switch whose tag the back end accepts,
    in an HCI packet. If its reserved bits are clear and no more than four
    bytes of user data follow, the counter of the switch advances, and the
    application logs that button and nothing else - or, with three bytes of
    user data, nothing. Otherwise the back end is not even asked, nothing is
    logged and only the signal strength is noted. *)
Theorem press_is_logged seq st opt tag i dev c l :
  find_slot a (devices_ (app_driver s)) = Some i →
  devices_ (app_driver s) !! i = Some dev → type dev = Switch →
  is_u32 seq → seq_num dev < seq → is_u8 st → is_bytes opt → is_bytes tag → length tag = k_tag_len →
  let p := data_payload seq (st :: opt) tag in
  carries data p → (length p ≤ 252)%nat →
  check_tag (crypto_ (app_driver s)) dev p = Done (true, c, l) →
  let dev' := set_seq_num seq (set_rssi rssi dev) in
  let valid := bool_decide (st < 32) && bool_decide (length opt ≤ 4)%nat in
  let reported := valid && negb (bool_decide (length opt = 3%nat)) in
  on_packet (adv_packet plen [report]) s =
    Done ((), mkApp (if valid then set_slot i dev' (set_crypto c (app_driver s))
                     else set_slot i (set_rssi rssi dev) (app_driver s)) (app_scanner s) (app_world s),
          ev_log <$> (if valid then l else []) ++ (if reported then [button_line a st] else [])).
Proof using All. apply press_run. Qed.

(** C10. The reading of a commissioned sensor, with at least one value in it: the
    HCI packet with its advertisement makes the driver log the telegram, the back end log what it has to, and the
    application log the report that was encoded - its address, and one line for
    each value that is in it -, and advances the counter of the sensor. *)
Theorem reading_is_logged seq r tag i dev c l :
  find_slot a (devices_ (app_driver s)) = Some i →
  devices_ (app_driver s) !! i = Some dev → type dev ≠ Switch →
  is_u32 seq → seq_num dev < seq → encodable r → report_items r ≠ [] →
  is_bytes tag → length tag = k_tag_len →
  let p := data_payload seq (encode_items (report_items r)) tag in
  carries data p → (length p ≤ 252)%nat →
  check_tag (crypto_ (app_driver s)) dev p = Done (true, c, l) →
  on_packet (adv_packet plen [report]) s =
    Done ((), mkApp (set_slot i (set_seq_num seq (set_rssi rssi dev)) (set_crypto c (app_driver s)))
                (app_scanner s) (app_world s),
          ev_log <$> telegram_line a (length p) seq :: l ++ sensor_lines a r).
Proof using All.
  intros Hf Hi Hty Hs Hlt Henc Hitems Htb Ht p Hc Hp Htag.
  pose proof (sensor_report_run a rssi data seq r tag (app_driver s) i dev c l on_sensor_ptr
    (wired_inv _ (wired_driver _ Hw)) Hinit) as Hrun.
  rewrite (wired_callbacks _ (wired_driver _ Hw)) in Hrun.
  specialize (Hrun eq_refl Hf Hi Hty Hs Hlt Henc Hitems Htb Ht Hc Hp Htag). cbv zeta in Hrun.
  destruct (one_report_run p _ _ Hc Hrun) as (ls & Hpk & Hls). rewrite Hpk.
  pose proof (find_slot_addr _ _ _ _ Hf Hi) as Ea. pose proof report_addr_length as Hla.
  rewrite <- Ea in Hla.
  do 3 f_equal. cbn [invoke_all invoke mbind outcome_bind] in Hls. fold p in Hls.
  rewrite invoke_all_logs in Hls. cbn [invoke_all invoke] in Hls. rewrite decide_True in Hls by done.
  rewrite on_sensor_lines in Hls; [|done|by eapply report_accel|by apply Henc].
  cbn [mbind outcome_bind app] in Hls. rewrite app_nil_r in Hls. injection Hls as <-.
  cbn [ble_addr set_seq_num set_rssi]. rewrite Ea. f_equal.
  rewrite sensor_log_line by done. rewrite Ea.
  destruct (data_payload_fields seq (encode_items (report_items r)) tag Hs Ht) as (Eseq & _).
  fold p in Eseq. by rewrite Eseq.
Qed.

(** C11. A commissioning telegram of an unknown device, in commissioning mode and
    with a slot free: the packet fills the slot, and the application logs the
    address. *)
Theorem commissioning_is_logged p i :
  commissioning_enabled_ (app_driver s) = true →
  find_slot a (devices_ (app_driver s)) = None → free_slot (devices_ (app_driver s)) = Some i →
  carries data p → is_bytes p → (22 ≤ length p ≤ 252)%nat →
  device_type a ≠ Sensor ∨ p_stm p = true →
  ∃ ls, on_packet (adv_packet plen [report]) s =
      Done ((), mkApp (set_slot i (new_device a k_addr_random rssi p) (app_driver s))
                  (app_scanner s) (app_world s), ev_log <$> ls) ∧
    LOGGER_NOTICE "EnOcean device COMMISSIONED: %02X:%02X:%02X:%02X:%02X:%02X" (AInt <$> reverse a) ∈ ls.
Proof using All.
  intros Hce Hf Hfree Hc Hpb Hp Hadm.
  destruct (commissioning_run a rssi data p (app_driver s)) as (t & Hrun & Hcalls);
    try done; [apply Hw|apply report_addr_length|lia|].
  assert (bool_decide (device_type a ≠ Sensor) || p_stm p = true) as Eadm.
  { apply orb_true_iff. destruct Hadm; [left; by apply bool_decide_eq_true|by right]. }
  rewrite Hfree, Hce, Eadm, (bool_decide_eq_true_2 (22 ≤ _)%nat) in Hrun, Hcalls by lia.
  cbn [andb] in Hrun, Hcalls.
  destruct (one_report_run p _ _ Hc Hrun) as (ls & Hpk & Hls). exists ls. split; [exact Hpk|].
  rewrite (wired_callbacks _ (wired_driver _ Hw)) in Hcalls.
  edestruct (invoke_all_in t ls) as (le & Ele & _ & Hin);
    [exact Hls|apply callbacks_in; rewrite Hcalls; by left|].
  cbn [invoke] in Ele. unfold on_commissioned in Ele.
  rewrite decide_True, address_line_run in Ele by (done || apply report_addr_length).
  injection Ele as <-. apply Hin. by left.
Qed.
End OneReport.
End Packets.

(** ** Start-up on the POSIX platform *)

Section Startup.
Context {C W X : Type} `{CryptoImplementation C} {Ev : Type} `{LogEvent Ev} `{AdvEvent Ev}.
Context `{SourceLocation} `{ThreadImplementation PosixThread.Members X Ev} `{SleepImplementation W}.
Context (bt : HciScanner.Bluez X) (scan_thread_fn_ptr scanner_ptr : Z).
Context (crypto : C) (th : ThreadObj PosixThread.Members X) (driver_ptr : Z).
#[local] Instance scanner_impl : BleImplementation (HciScanner.Scanner X) Ev :=
  HciScanner.hci_scanner bt scan_thread_fn_ptr scanner_ptr.
Abbreviation State := (AppState C (HciScanner.Scanner X) W).
Implicit Types s : State.

Definition posix_run (turns : nat) : eff State Ev bool :=
  run_impl crypto (λ _, HciScanner.new_scanner th) (HciScanner.destroy_scanner bt) driver_ptr turns.

Lemma bail_run msg s b s' t :
  (log (LOGGER_ERROR msg []);; on_scanner (HciScanner.destroy_scanner bt);; mret false) s =
    Done (b, s', t : list Ev) →
  b = false ∧ app_driver s' = app_driver s.
Proof.
  intros (? & s1 & ? & ? & Hl & Hr & _)%bind_Done. injection Hl as _ <- _.
  apply bind_Done in Hr as (? & s2 & ? & ? & Hd & Hr & _).
  apply on_scanner_Done in Hd as (sc & _ & ->). by injection Hr as <- <- _.
Qed.

(** The two ends of the start-up, computed. *)
Lemma startup_run turns s b s' t :
  posix_run turns s = Done (b, s', t) →
  app_driver s' = started crypto b ∧
  (b = true →
     wired s' ∧ HciScanner.callback_ctx_ (app_scanner s') = driver_ptr ∧
     HciScanner.running_ (app_scanner s') = true ∧ 0 ≤ HciScanner.hci_fd_ (app_scanner s')).
Proof.
  unfold posix_run, run_impl. intros (? & s1 & ? & ? & Hl & Hr & _)%bind_Done.
  injection Hl as _ <- _. rewrite modify_bind in Hr.
  apply bind_Done in Hr as (r0 & s2 & ? & ? & Hi & Hr & _).
  destruct (on_driver_init crypto (mkApp (construct crypto app_callbacks) (app_scanner s) (app_world s)))
    as [t1 E1]; [done|]. rewrite E1 in Hi. injection Hi as <- <- _. cbn [operator_bool negb] in Hr.
  change (negb (operator_bool is_ok)) with false in Hr. cbv iota in Hr.
  rewrite modify_bind in Hr. cbn [app_driver app_scanner app_world] in Hr.
  apply bind_Done in Hr as (r1 & s3 & ? & ? & Hb & Hr & _). unfold operator_bool in Hr.
  apply on_scanner_Done in Hb as (sc1 & Hb & ->). cbn [app_driver app_scanner app_world] in *.
  apply init_scan_run in Hb as (Hcb & Hctx & Hrun & Hact & Hfd).
  destruct (has_value r1); cbn [negb] in Hr; [|by apply bail_run in Hr as [-> ->]].
  apply bind_Done in Hr as (r2 & s4 & ? & ? & Hst & Hr & _).
  apply on_scanner_Done in Hst as (sc2 & Hst & ->). cbn [app_driver app_scanner app_world] in *.
  apply start_scan_run in Hst as (Hrun2 & Hfd2 & Hok); [|done].
  destruct (has_value r2); cbn [negb] in Hr; [|by apply bail_run in Hr as [-> ->]].
  destruct (Hok eq_refl) as (Hpos & _ & _ & Hcb2 & Hctx2).
  apply bind_Done in Hr as (? & s5 & ? & ? & He & Hr & _).
  destruct (on_driver_enable crypto (mkApp (started crypto false) sc2 (app_world s))) as [t2 E2]; [done|].
  rewrite E2 in He. injection He as _ <- _.
  apply bind_Done in Hr as (? & s6 & ? & ? & Hl & Hr & _). injection Hl as _ <- _.
  apply bind_Done in Hr as (? & s7 & ? & ? & Hsl & Hr & _). injection Hr as <- <- _.
  apply sleep_loop_run in Hsl as [Hd Hsc]. cbn [app_driver app_scanner] in *.
  split; [done|]. intros _. rewrite Hsc. split_and!; [|congruence|done|lia].
  split; [split|]; rewrite ?Hd, ?Hsc; [apply started_inv|done|congruence].
Qed.

(** C22. Start-up ends in one of two ways. Either the sleeping loop is reached: then
    the scan is running with the driver's [advertisement_cb] and the driver's
    address registered, the driver is initialised, empty and open for
    commissioning, and the application's callbacks are behind it. Or
    [run_impl] has returned, and commissioning was never enabled. *)
Theorem startup_wires turns s b s' t :
  posix_run turns s = Done (b, s', t) →
  app_driver s' = started crypto b ∧
  (b = true →
     wired s' ∧ HciScanner.callback_ctx_ (app_scanner s') = driver_ptr ∧
     HciScanner.running_ (app_scanner s') = true ∧ 0 ≤ HciScanner.hci_fd_ (app_scanner s')).
Proof. apply startup_run. Qed.
End Startup.

(** ** A running application *)
#[local] Instance toy_location : SourceLocation := λ s, s.

Definition listening : HciScanner.Scanner toy_system :=
  HciScanner.mkScanner (Some advertisement_cb_ptr) 77 7 0 true
    (mkThread true (Names.name_buffer "BleScanner") (mkStack 8192 0) 5
       (PosixThread.mkMembers 9 5) (mkToy true 1 0 0)).

Definition running_app : AppState () (HciScanner.Scanner toy_system) () :=
  mkApp (mkDriver () app_callbacks true false (devices_ sample)) listening ().

Lemma running_app_wired : wired running_app.
Proof. split; [split|]; [|done..]. by destruct sample_inv. Qed.

Definition press_report : adv_call :=
  mkAdv advertisement_cb_ptr 77 switch_addr 1 3 (-70) (adv_of (data_payload 6 [0x03] toy_tag)).

Lemma callbacks_defined_witness :
  ∃ d' t ls, advertisement_cb true switch_addr 1 3 (-70) (adv_data press_report)
      (app_driver running_app) = Done ((), d', t) ∧
    invoke_all t = Done ls ∧
    advertised (Ev := LogCall) press_report running_app = Done ((), mkApp d' listening (), ls).
Proof.
  destruct (advertisement_cb true switch_addr 1 3 (-70) (adv_data press_report)
      (app_driver running_app)) as [[[[] d'] t]|r] eqn:E; [|vm_compute in E; discriminate E].
  destruct (callbacks_defined (Ev := LogCall) press_report running_app () d' t) as (ls & E1 & E2).
  - apply (wired_driver _ running_app_wired).
  - reflexivity.
  - apply is_bytes_dec. reflexivity.
  - exact E.
  - exists d', t, ls. split; [reflexivity|]. split; [exact E1|].
    rewrite list_fmap_id in E2. exact E2.
Defined.

(** A packet with the press, and one whose report is the single byte [01]. *)
Lemma application_survives_witness :
  (∃ s' ls, on_packet (Ev := LogCall) (adv_packet 30 [press_report]) running_app =
     Done ((), s', ev_log <$> ls) ∧ wired s') ∧
  let bad := mkAdv advertisement_cb_ptr 77 switch_addr 1 3 (-70) [0x01] in
  on_packet (Ev := LogCall) (adv_packet 12 [bad] ++ [0; 0; 0; 0]) running_app = Stop Undefined ∧
  ∃ cs rest, drop 5 (adv_packet 12 [bad] ++ [0; 0; 0; 0]) = concat (encode_report <$> cs) ++ rest ∧
    Exists overrun cs.
Proof.
  split.
  - destruct (application_survives (Ev := LogCall) (adv_packet 30 [press_report]) running_app)
      as [H|[H _]].
    + apply running_app_wired.
    + apply is_bytes_dec. reflexivity.
    + exact H.
    + vm_compute in H. discriminate H.
  - intros bad. destruct (application_survives (Ev := LogCall)
      (adv_packet 12 [bad] ++ [0; 0; 0; 0]) running_app) as [(? & ? & H & _)|H].
    + apply running_app_wired.
    + apply is_bytes_dec. reflexivity.
    + vm_compute in H. discriminate H.
    + exact H.
Defined.

Lemma press_report_wf : wf_report press_report.
Proof. split; [reflexivity|apply Nat.ltb_lt; reflexivity|unfold is_i8; cbn; lia]. Qed.

Lemma press_is_logged_witness :
  let dev' := set_seq_num 6 (set_rssi (-70) switch_entry) in
  on_packet (Ev := LogCall) (adv_packet 30 [press_report]) running_app =
    Done ((), mkApp (set_slot 0 dev' (app_driver running_app)) listening (),
      [LOGGER_NOTICE "EnOcean button %s | addr %02X:%02X:%02X:%02X:%02X:%02X | buttons 0x%02X"
        [AStr "PRESS"; AInt 0x03; AInt 0xDA; AInt 0x44; AInt 0x33; AInt 0x22; AInt 0x11; AInt 1]]).
Proof.
  refine (press_is_logged (Ev := LogCall) 30 switch_addr (-70) 77
    (adv_of (data_payload 6 [0x03] toy_tag)) running_app running_app_wired eq_refl _ eq_refl _
    press_report_wf 6 0x03 [] toy_tag 0 switch_entry () [] _ eq_refl eq_refl _ _ _ _ _ eq_refl _ _ _).
  - discriminate.
  - apply is_bytes_dec. reflexivity.
  - vm_compute. reflexivity.
  - unfold is_u32. lia.
  - cbn. lia.
  - unfold is_u8. lia.
  - by apply Forall_nil.
  - apply is_bytes_dec. reflexivity.
  - apply adv_of_carries.
  - apply Nat.leb_le. vm_compute. reflexivity.
  - vm_compute. reflexivity.
Defined.

Definition fresh_thread : ThreadObj PosixThread.Members toy_system :=
  mkThread false (Names.name_buffer "BleScanner") (mkStack 0 0) 0
    (PosixThread.mkMembers 0 0) (mkToy false 0 0 0).

(** A temperature and a humidity from the commissioned sensor. *)
Definition reading : SensorData :=
  {| temperature_cdeg := Some 2150; battery_voltage := None; energy_lvl := None;
     light_solar_cell := None; light_sensor := None; humidity := Some 55; accel_status := None;
     accel_x_cg := None; accel_y_cg := None; accel_z_cg := None; contact := None; occupancy := None |}.

Definition reading_payload : bytes := data_payload 10 (encode_items (report_items reading)) toy_tag.

Lemma reading_is_logged_witness :
  let dev' := set_seq_num 10 (set_rssi (-60) sensor_entry) in
  on_packet (Ev := LogCall)
      (adv_packet 40 [report sensor_addr (-60) 77 (adv_of reading_payload)]) running_app =
    Done ((), mkApp (set_slot 1 dev' (app_driver running_app)) listening (),
      [telegram_line sensor_addr 13 10;
       LOGGER_NOTICE "EnOcean sensor | addr %02X:%02X:%02X:%02X:%02X:%02X"
         [AInt 0xE5; AInt 0x99; AInt 0x88; AInt 0x77; AInt 0x66; AInt 0x55];
       LOGGER_NOTICE "  Temp (°C)    : %c%d.%02d" [AInt 43; AInt 21; AInt 50];
       LOGGER_NOTICE "  Humidity (%%) : %u" [AInt 55]]).
Proof.
  refine (reading_is_logged (Ev := LogCall) 40 sensor_addr (-60) 77 (adv_of reading_payload)
    running_app running_app_wired eq_refl _ eq_refl _ _
    10 reading toy_tag 1 sensor_entry () [] _ eq_refl _ _ _ _ _ _ eq_refl _ _ _).
  - discriminate.
  - apply is_bytes_dec. reflexivity.
  - split; [reflexivity|apply Nat.ltb_lt; reflexivity|unfold is_i8; cbn; lia].
  - vm_compute. reflexivity.
  - discriminate.
  - unfold is_u32. lia.
  - cbn. lia.
  - repeat constructor; cbn; lia.
  - discriminate.
  - apply is_bytes_dec. reflexivity.
  - apply adv_of_carries.
  - apply Nat.leb_le. vm_compute. reflexivity.
  - vm_compute. reflexivity.
Defined.

(** The same application in commissioning mode, with the switch only. *)
Definition commissioning_app : AppState () (HciScanner.Scanner toy_system) () :=
  mkApp (mkDriver () app_callbacks true true (devices_ sample_open)) listening ().

Lemma commissioning_app_wired : wired commissioning_app.
Proof. split; [split|]; [|done..]. by destruct sample_open_inv. Qed.

Lemma commissioning_is_logged_witness :
  ∃ ls, on_packet (Ev := LogCall)
        (adv_packet 40 [report sensor_addr (-60) 77 (adv_of sensor_comm)]) commissioning_app =
      Done ((), mkApp (set_slot 1 sensor_entry (app_driver commissioning_app)) listening (), ev_log <$> ls) ∧
    LOGGER_NOTICE "EnOcean device COMMISSIONED: %02X:%02X:%02X:%02X:%02X:%02X"
      [AInt 0xE5; AInt 0x99; AInt 0x88; AInt 0x77; AInt 0x66; AInt 0x55] ∈ ls.
Proof.
  refine (commissioning_is_logged (Ev := LogCall) 40 sensor_addr (-60) 77 (adv_of sensor_comm)
    commissioning_app commissioning_app_wired eq_refl _ eq_refl _ _
    sensor_comm 1 eq_refl _ _ _ _ _ (or_intror eq_refl)).
  - discriminate.
  - apply is_bytes_dec. reflexivity.
  - split; [reflexivity|apply Nat.ltb_lt; reflexivity|unfold is_i8; cbn; lia].
  - vm_compute. reflexivity.
  - vm_compute. reflexivity.
  - apply adv_of_carries.
  - apply is_bytes_dec. reflexivity.
  - split; apply Nat.leb_le; vm_compute; reflexivity.
Defined.

Lemma startup_wires_witness :
  let s := mkApp (construct () toy_callbacks) (HciScanner.new_scanner fresh_thread) () in
  ∃ s' t, posix_run (Ev := ble_event) (H3 := toy_thread) (H4 := λ _ w, ((), w))
      toy_bluez 64 9 () fresh_thread 77 3 s = Done (true, s', t) ∧
    app_driver s' = started () true ∧
    (true = true → wired s' ∧ HciScanner.callback_ctx_ (app_scanner s') = 77 ∧
       HciScanner.running_ (app_scanner s') = true ∧ 0 ≤ HciScanner.hci_fd_ (app_scanner s')).
Proof.
  intros s.
  destruct (posix_run (Ev := ble_event) (H3 := toy_thread) (H4 := λ _ w, ((), w))
      toy_bluez 64 9 () fresh_thread 77 3 s) as [[[[] s'] t]|r] eqn:E;
    [|vm_compute in E; discriminate E..].
  exists s', t. split; [reflexivity|]. exact (startup_wires _ _ _ _ _ _ _ _ _ _ _ E).
Defined.
