(* ===== verification/AppZephyr.v ===== *)
(** * The application on Zephyr (application/AppEntry.cpp over zephyr_core/ble)

    The Bluetooth stack's callback, the driver behind it, and what start-up
    leaves behind - also when the scan cannot be started. *)

From stdpp Require Import prelude list strings gmap.
From Stdlib Require Import ZArith Lia.
From S2P Require Import Prelude Logger ErrorHandler ErrorCodes Types AdParser Crypto Tlv.
From S2P Require Import Driver DriverRun DriverSafety DriverProps DriverWitness Sync Threads Ble Boards App.

Section Zephyr.
Context {C W X Ev : Type} `{CryptoImplementation C} `{LogEvent Ev}.
Abbreviation State := (AppState C (ZephyrScanner.Scanners X) W).
Implicit Types s : State.

(** The Bluetooth stack calls [zephyr_scan_cb]. *)
Definition on_recv (info : option ZephyrScanner.recv_info) (buf : option bytes) : eff State Ev () :=
  delivered (ZephyrScanner.zephyr_scan_cb info buf).

(** The scanner object at [this] is alive, registered, and calls the driver. *)
Record listens (this : nat) (ctx : Z) s : Prop := {
  lis_driver : driver_wired (app_driver s);
  lis_instance : ZephyrScanner.s_instance_ (app_scanner s) = Some this;
  lis_object : ZephyrScanner.objects (app_scanner s) !! this =
    Some (ZephyrScanner.mkScanner (Some advertisement_cb_ptr) ctx);
}.

(** What the stack hands over: a six-byte address, a [uint8_t] type, an
    [int8_t] signal strength. *)
Definition wf_info (info : ZephyrScanner.recv_info) : Prop :=
  is_i8 (ZephyrScanner.info_rssi info) ∧
  match ZephyrScanner.info_addr info with
  | Some (val, addr_type) => length val = k_addr_len ∧ is_bytes val ∧ is_u8 addr_type
  | None => True
  end.

(** The report made of it, if there is one. *)
Definition recv_report (ctx : Z) (info : ZephyrScanner.recv_info) (buf : bytes) : option adv_call :=
  p ← ZephyrScanner.info_addr info;
  Some (mkAdv advertisement_cb_ptr ctx p.1 p.2 (ZephyrScanner.info_adv_type info)
          (ZephyrScanner.info_rssi info) buf).

Lemma scan_cb_run this ctx s info buf :
  listens this ctx s → (∀ i, info = Some i → wf_info i) →
  ZephyrScanner.zephyr_scan_cb (Ev := ble_event) info buf (app_scanner s) =
    Done ((), app_scanner s,
      BleAdv <$> match info, buf with
                 | Some i, Some b => option_list (recv_report ctx i b)
                 | _, _ => []
                 end).
Proof.
  intros [_ Hi Ho] Hinfo. unfold ZephyrScanner.zephyr_scan_cb. rewrite get_bind, Hi, Ho.
  cbn [ZephyrScanner.callback_ ZephyrScanner.callback_ctx_].
  destruct info as [i|]; [|done]. destruct buf as [b|]; [|done].
  destruct (Hinfo i eq_refl) as [_ Ha]. unfold recv_report.
  destruct (ZephyrScanner.info_addr i) as [[val at_]|]; [|done]. destruct Ha as (Ha & _).
  rewrite bind_run, subspan_in by (unfold ZephyrScanner.BT_ADDR_SIZE, k_addr_len in *; lia).
  cbn [liftO]. rewrite drop_0, take_ge by by rewrite Ha. done.
Qed.

(** Whatever the Bluetooth stack hands to the scanner's callback - null pointers
    included - the driver behind it and the application behind the driver's
    callbacks process it to the end and are ready for the next call, unless the
    advertisement has AD structures that overrun it by one byte. *)
Theorem zephyr_survives `{!CryptoTotal C} this ctx s info buf :
  listens this ctx s → (∀ i, info = Some i → wf_info i) → (∀ b, buf = Some b → is_bytes b) →
  (∃ s' ls, on_recv info buf s = Done ((), s', ev_log <$> ls) ∧ listens this ctx s') ∨
  (on_recv info buf s = Stop Undefined ∧
   ∃ i b c, info = Some i ∧ buf = Some b ∧ recv_report ctx i b = Some c ∧ overrun c).
Proof.
  intros Hl Hinfo Hbuf. unfold on_recv, delivered. rewrite (scan_cb_run this ctx) by done.
  replace (mkApp (app_driver s) (app_scanner s) (app_world s)) with s by by destruct s.
  set (cs := match info, buf with Some i, Some b => option_list (recv_report ctx i b) | _, _ => [] end).
  assert (Forall sound_report cs) as Hcs.
  { subst cs. destruct info as [i|]; [|constructor]. destruct buf as [b|]; [|constructor].
    destruct (Hinfo i eq_refl) as [Hr Ha]. unfold recv_report.
    destruct (ZephyrScanner.info_addr i) as [[val at_]|]; [|constructor].
    apply Forall_singleton. destruct Ha as (Ha & Hab & Hat). split; try done. by apply Hbuf. }
  destruct (heard_all_step (Ev := Ev) cs s (lis_driver _ _ _ Hl) Hcs) as [(s' & ls & -> & Hd & Hsc)|[-> Ho]].
  - left. exists s', ls. split; [done|]. split; [done|..]; rewrite Hsc; apply Hl.
  - right. split; [done|]. subst cs. destruct info as [i|]; [|by inversion Ho].
    destruct buf as [b|]; [|by inversion Ho].
    destruct (recv_report ctx i b) as [c|] eqn:E; [|by inversion Ho]. exists i, b, c.
    split_and!; [done..|]. cbn in Ho. by apply Exists_cons in Ho as [?|Ho%Exists_nil].
Qed.

(** One call of the Bluetooth stack, with what the driver makes of it. *)
Lemma one_recv_run this ctx s a rssi data d' evs :
  listens this ctx s → ctx ≠ 0 → length a = k_addr_len → is_bytes a → is_i8 rssi → is_bytes data →
  process_advertisement a k_addr_random k_adv_nonconn_ind rssi data (app_driver s) = Done ((), d', evs) →
  ∃ ls, on_recv (Some (ZephyrScanner.mkInfo (Some (a, k_addr_random)) k_adv_nonconn_ind rssi))
      (Some data) s = Done ((), mkApp d' (app_scanner s) (app_world s), ev_log <$> ls) ∧
    invoke_all evs = Done ls.
Proof.
  intros Hl Hne Ha Hab Hr Hb Hrun. unfold on_recv, delivered.
  rewrite (scan_cb_run this ctx); [|done|intros ? [= <-]; split; [done|]; split_and!; [done..|unfold is_u8, k_addr_random; lia]].
  replace (mkApp (app_driver s) (app_scanner s) (app_world s)) with s by by destruct s.
  unfold recv_report. cbn [ZephyrScanner.info_addr ZephyrScanner.info_adv_type ZephyrScanner.info_rssi
    option_list mbind option_bind fst snd fmap list_fmap heard_all].
  set (c := mkAdv _ _ _ _ _ _ _).
  destruct (advertised_run (Ev := Ev) c s () d' evs (lis_driver _ _ _ Hl) eq_refl Hb) as (_ & ls & Hls & E).
  { subst c. cbn [adv_ctx adv_addr adv_addr_type adv_adv_type adv_rssi adv_data].
    rewrite bool_decide_eq_true_2 by done. exact Hrun. }
  exists ls. split; [|done]. transitivity ((heard (BleAdv c);; mret ()) s : outcome (() * State * list Ev)); [reflexivity|].
  rewrite bind_run. cbn [heard]. rewrite E. cbn. by rewrite app_nil_r.
Qed.

(** ** Start-up *)
Context `{SourceLocation} `{SleepImplementation W} (bt : ZephyrScanner.Bt X).
Context (scanner_ptr : nat) (crypto : C) (driver_ptr : Z).
#[local] Instance zephyr_impl : BleImplementation (ZephyrScanner.Scanners X) Ev :=
  ZephyrScanner.zephyr_scanner bt scanner_ptr.

Definition zephyr_run (turns : nat) : eff State Ev bool :=
  run_impl crypto (ZephyrScanner.construct_scanner scanner_ptr)
    (ZephyrScanner.destroy_scanner scanner_ptr) driver_ptr turns.

Lemma sleep_loop_ends turns s :
  ∃ w, sleep_loop turns s = Done ((), mkApp (app_driver s) (app_scanner s) w, [] : list Ev).
Proof.
  revert s. induction turns as [|turns IH]; intros s; cbn [sleep_loop].
  { exists (app_world s). by destruct s. }
  rewrite bind_run. unfold zoom at 1, call. destruct (sleep_ms 1000 (app_world s)) as [[] w].
  destruct (IH (mkApp (app_driver s) (app_scanner s) w)) as [w' E].
  exists w'. cbn [fmap list_fmap]. by rewrite E.
Qed.

(** The stack after the scanner's callback has been registered. *)
Definition registered (s : State) : X :=
  (ZephyrScanner.bt_le_scan_cb_register bt scanner_ptr (ZephyrScanner.stack (app_scanner s))).2.

Lemma zephyr_init_run s :
  on_scanner (IBle.init (Some advertisement_cb_ptr) driver_ptr) s =
    Done (is_ok (E := BleError),
      mkApp (app_driver s)
        (ZephyrScanner.mkScanners
           (<[scanner_ptr := ZephyrScanner.mkScanner (Some advertisement_cb_ptr) driver_ptr]>
              (ZephyrScanner.objects (app_scanner s)))
           (Some scanner_ptr) (registered s))
        (app_world s), [] : list Ev).
Proof.
  unfold on_scanner, zoom. cbn [IBle.init Ble.init_impl zephyr_impl ZephyrScanner.zephyr_scanner].
  unfold ZephyrScanner.init_impl_zephyr. rewrite modify_bind, bind_run.
  unfold ZephyrScanner.sys, zoom at 1, call, registered.
  cbn [ZephyrScanner.stack ZephyrScanner.objects ZephyrScanner.s_instance_].
  by destruct (ZephyrScanner.bt_le_scan_cb_register bt scanner_ptr _) as [[] w].
Qed.

Lemma zephyr_start_run s :
  ∃ r w t, on_scanner IBle.start_scan s =
    Done (r : ErrorHandler () BleError,
      mkApp (app_driver s)
        (ZephyrScanner.mkScanners (ZephyrScanner.objects (app_scanner s))
           (ZephyrScanner.s_instance_ (app_scanner s)) w) (app_world s), t : list Ev) ∧
    has_value r = bool_decide ((ZephyrScanner.bt_le_scan_start bt ZephyrScanner.scan_params (ZephyrScanner.stack (app_scanner s))).1 = 0).
Proof.
  unfold on_scanner, zoom. cbn [IBle.start_scan Ble.start_scan_impl zephyr_impl ZephyrScanner.zephyr_scanner].
  unfold ZephyrScanner.start_scan_zephyr. rewrite bind_run. unfold ZephyrScanner.sys, zoom at 1, call.
  destruct (ZephyrScanner.bt_le_scan_start bt ZephyrScanner.scan_params _) as [err w]. cbn [fst].
  destruct (decide (err = 0)) as [->|Herr].
  - rewrite decide_False by tauto. eexists _, w, _. by split.
  - rewrite decide_True by done. rewrite bool_decide_eq_false_2 by done. eexists _, w, _. by split.
Qed.

(** C24. Start-up on Zephyr ends with the scan running, the driver empty and open for
    commissioning and the callbacks behind it, if the stack lets the scan
    start. If it does not, [run_impl] returns and its scanner is destroyed -
    but the stack keeps the callback, and the static instance pointer still
    points to where the scanner was: the next advertisement it delivers, say
    for another user of the stack, makes the callback read a dead object. *)
Theorem zephyr_startup turns s :
  let started_scan := bool_decide ((ZephyrScanner.bt_le_scan_start bt ZephyrScanner.scan_params (registered s)).1 = 0) in
  ∃ s' t, zephyr_run turns s = Done (started_scan, s', t) ∧
    app_driver s' = started crypto started_scan ∧
    if started_scan then listens scanner_ptr driver_ptr s'
    else ∀ info buf, on_recv info buf s' = Stop Undefined.
Proof.
  cbv zeta. unfold zephyr_run, run_impl. rewrite bind_run. cbn [log emit].
  rewrite modify_bind, bind_run.
  edestruct (on_driver_init crypto (mkApp (construct crypto app_callbacks) (app_scanner s) (app_world s)))
    as [t1 ->]; [done|]. change (negb (operator_bool is_ok)) with false. cbv iota.
  rewrite modify_bind, bind_run, zephyr_init_run. cbn [app_driver app_scanner app_world].
  change (negb (operator_bool is_ok)) with false. cbv iota.
  cbn [ZephyrScanner.construct_scanner ZephyrScanner.objects].
  match goal with |- context [registered ?x] => change (registered x) with (registered s) end.
  rewrite bind_run.
  match goal with |- context [on_scanner IBle.start_scan ?x] =>
    destruct (zephyr_start_run x) as (r & w & t2 & -> & Er) end.
  cbn [app_driver app_scanner app_world ZephyrScanner.objects ZephyrScanner.s_instance_
    ZephyrScanner.stack] in *. rewrite <- Er. unfold operator_bool.
  destruct (has_value r); cbn [negb].
  - rewrite bind_run.
    match goal with |- context [on_driver enable_commissioning ?x] =>
      destruct (on_driver_enable (Ev := Ev) crypto x) as [t3 ->]; [done|] end.
    rewrite bind_run. cbn [log emit]. rewrite bind_run.
    match goal with |- context [sleep_loop turns ?x] => destruct (sleep_loop_ends turns x) as [w' ->] end.
    eexists _, _. split; [reflexivity|]. split; [done|].
    split; [split; [apply started_inv|done]|done|apply lookup_insert_eq].
  - rewrite bind_run. cbn [log emit]. rewrite bind_run. unfold on_scanner, zoom.
    cbn [ZephyrScanner.destroy_scanner modify app_scanner ZephyrScanner.objects].
    eexists _, _. split; [reflexivity|]. split; [done|]. intros info buf.
    unfold on_recv, delivered, ZephyrScanner.zephyr_scan_cb. rewrite get_bind.
    cbn [app_scanner ZephyrScanner.s_instance_ ZephyrScanner.objects]. by rewrite lookup_delete_eq.
Qed.
End Zephyr.

(** ** A running application *)

Definition zephyr_app : AppState () (ZephyrScanner.Scanners ()) () :=
  mkApp (mkDriver () app_callbacks true false (devices_ sample))
    (ZephyrScanner.mkScanners {[ 5%nat := ZephyrScanner.mkScanner (Some advertisement_cb_ptr) 77 ]}
       (Some 5%nat) ()) ().

Lemma zephyr_app_listens : listens 5 77 zephyr_app.
Proof. split; [split|..]; [|done..]. by destruct sample_inv. Qed.

(** The press of a button, and an advertisement of the single byte [01]. *)
Lemma zephyr_survives_witness :
  let info := ZephyrScanner.mkInfo (Some (switch_addr, 1)) 3 (-70) in
  (∃ s' ls, on_recv (Ev := LogCall) (Some info) (Some (adv_of press_payload)) zephyr_app =
     Done ((), s', ev_log <$> ls) ∧ listens 5 77 s') ∧
  on_recv (Ev := LogCall) (Some info) (Some [0x01]) zephyr_app = Stop Undefined.
Proof.
  intros info.
  assert (∀ i, Some info = Some i → wf_info i) as Hinfo.
  { intros i [= <-]. split; [unfold is_i8; cbn; lia|]. split; [reflexivity|].
    split; [apply is_bytes_dec; reflexivity|unfold is_u8; lia]. }
  split.
  - destruct (zephyr_survives (Ev := LogCall) 5 77 zephyr_app (Some info) (Some (adv_of press_payload))
      zephyr_app_listens Hinfo) as [Hrun|[Hrun _]].
    + intros b [= <-]. apply is_bytes_dec. reflexivity.
    + exact Hrun.
    + vm_compute in Hrun. discriminate Hrun.
  - destruct (zephyr_survives (Ev := LogCall) 5 77 zephyr_app (Some info) (Some [0x01])
      zephyr_app_listens Hinfo) as [(? & ? & Hrun & _)|[Hrun _]].
    + intros b [= <-]. apply is_bytes_dec. reflexivity.
    + vm_compute in Hrun. discriminate Hrun.
    + exact Hrun.
Defined.
