(* ===== verification/Concurrency.v ===== *)
(** * The scan thread and its owner (posix_core/ble/Ble.cpp with AppEntry.cpp)

    After [start_scan] two threads share the driver and the scanner: the scan
    thread in [scan_loop], and the thread that owns the objects, which enables
    commissioning while the scan is running and may stop and destroy the
    scanner. Their interleavings are a labelled step relation: a step of the
    scan thread is a line of its loop or one callback, a step of the owner one
    call, a step of the environment what the kernel answers to a [read]. Shown
    are the invariant of all interleavings, when the two threads commute and
    when they race, and what happens to the scan thread when the scanner is
    stopped and destroyed. *)

From stdpp Require Import prelude list strings relations.
From Stdlib Require Import ZArith Lia.
From S2P Require Import Prelude Logger ErrorHandler ErrorCodes Types AdParser Crypto Tlv.
From S2P Require Import Driver DriverRun DriverSafety DriverProps DriverWitness Sync Threads Ble Boards.
From S2P Require Import App AppPosix.

(** ** The step relation *)

(** What the owner does: calls on the driver and the scanner, and the end of
    the scanner's life. *)
Inductive command := CEnable | CDisable | CStop | CDestroy.

(** Where the owner is: before its next command, or in the destruction of the
    scanner between the body of [~Scanner] and the destructors of the members. *)
Inductive owner_pc :=
| At (cs : list command)
| Leaving (cs : list command).

(** Where the scan thread is: at the loop test, before [read], inside it, with
    events of a packet to deliver, at the test after a failed [read]. *)
Inductive scan_pc :=
| AtTest
| AtRead
| InRead
| Handling (todo : list ble_event)
| AtRetest
| Ended.

(** A step, with what it does for others to see: the owner's command and what
    is logged; the event the scan thread takes up, if any, and what is logged;
    the kernel's answer to a [read], with the events the scan thread makes of
    the bytes. *)
Inductive label (Ev : Type) :=
| Owner (c : command) (t : list Ev)
| Scan (e : option ble_event) (t : list Ev)
| Kernel (answer : option (list ble_event)).
Arguments Owner {Ev} _ _.
Arguments Scan {Ev} _ _.
Arguments Kernel {Ev} _.

Record conf (State : Type) := mkConf {
  shared : State;
  owner : owner_pc;
  scan : scan_pc;
}.
Arguments mkConf {State} _ _ _.
Arguments shared {State} _.
Arguments owner {State} _.
Arguments scan {State} _.

Section Threads.
Context {C W X : Type} `{CryptoImplementation C} {Ev : Type} `{LogEvent Ev}.
Context `{ThreadImplementation PosixThread.Members X Ev}.
Context `{SourceLocation} (bt : HciScanner.Bluez X).
Abbreviation State := (AppState C (HciScanner.Scanner X) W).
Implicit Types (s : State) (cf : conf State) (l : label Ev).

Definition run_command (c : command) : eff State Ev () :=
  match c with
  | CEnable => on_driver enable_commissioning
  | CDisable => on_driver disable_commissioning
  | CStop => on_scanner (HciScanner.stop_scan_posix bt);; mret ()
  | CDestroy => on_scanner (HciScanner.Scanner_dtor bt)
  end.

Definition after (c : command) (cs : list command) : owner_pc :=
  match c with CDestroy => Leaving cs | _ => At cs end.

(** The destructor of the member [scan_thread_]. *)
Definition members_dtor : eff State Ev () :=
  on_scanner (HciScanner.thread_call IThread.Thread_dtor).

Definition thread_active s : bool :=
  IThread.is_active (HciScanner.scan_thread_ (app_scanner s)).

(** [~Thread] joins an active thread: it waits until the scan thread is over. *)
Inductive step : conf State → label Ev → conf State → Prop :=
| step_owner s s' c cs pc t :
    run_command c s = Done ((), s', t) →
    step (mkConf s (At (c :: cs)) pc) (Owner c t) (mkConf s' (after c cs) pc)
| step_members s s' cs pc t :
    (thread_active s = true → pc = Ended) → members_dtor s = Done ((), s', t) →
    step (mkConf s (Leaving cs) pc) (Owner CDestroy t) (mkConf s' (At cs) pc)
| step_test s o :
    step (mkConf s o AtTest) (Scan None [])
         (mkConf s o (if HciScanner.running_ (app_scanner s) then AtRead else Ended))
| step_read s o :
    0 ≤ HciScanner.hci_fd_ (app_scanner s) →
    step (mkConf s o AtRead) (Scan None []) (mkConf s o InRead)
| step_bad_fd s o :
    HciScanner.hci_fd_ (app_scanner s) < 0 →
    step (mkConf s o AtRead) (Scan None []) (mkConf s o AtRetest)
| step_packet s o packet t :
    is_bytes packet → HciScanner.handle_packet packet (app_scanner s) = Done ((), app_scanner s, t) →
    step (mkConf s o InRead) (Kernel (Some t)) (mkConf s o (Handling t))
| step_interrupted s o :
    step (mkConf s o InRead) (Kernel None) (mkConf s o AtRetest)
| step_retest s o :
    step (mkConf s o AtRetest) (Scan None [])
         (mkConf s o (if HciScanner.running_ (app_scanner s) then AtTest else Ended))
| step_callback s s' o e todo t :
    heard (Ev := Ev) e s = Done ((), s', t) →
    step (mkConf s o (Handling (e :: todo))) (Scan (Some e) t) (mkConf s' o (Handling todo))
| step_handled s o :
    step (mkConf s o (Handling [])) (Scan None []) (mkConf s o AtTest).

Definition any_step cf cf' : Prop := ∃ l, step cf l cf'.

(** Several steps, with their labels. *)
Inductive steps : conf State → list (label Ev) → conf State → Prop :=
| steps_nil cf : steps cf [] cf
| steps_cons cf l cf1 ls cf2 : step cf l cf1 → steps cf1 ls cf2 → steps cf (l :: ls) cf2.

Lemma steps_one cf l cf' : step cf l cf' → steps cf [l] cf'.
Proof. intros. eapply steps_cons; [done|apply steps_nil]. Qed.

Lemma steps_app cf ls1 cf1 ls2 cf2 : steps cf ls1 cf1 → steps cf1 ls2 cf2 → steps cf (ls1 ++ ls2) cf2.
Proof. induction 1; [done|]. intros. eapply steps_cons; [done|by auto]. Qed.

(** Who takes a step. *)
Definition by_owner l : bool := match l with Owner _ _ => true | _ => false end.
Definition by_kernel l : bool := match l with Kernel _ => true | _ => false end.

(** ** What every interleaving keeps *)

Definition sound_event (e : ble_event) : Prop := ∃ c, e = BleAdv c ∧ sound_report c.

Record sound cf : Prop := {
  sound_wired : wired (shared cf);
  sound_todo : match scan cf with
               | Handling todo => Forall sound_event todo ∧ (length todo ≤ 15)%nat
               | _ => True
               end;
}.

Lemma run_command_wired c s s' t :
  run_command c s = Done ((), s', t) → wired s → wired s'.
Proof.
  intros Hr [Hd Hsc]. destruct c; cbn [run_command] in Hr.
  - apply on_driver_flag in Hr as ->. split; [by apply set_commissioning_wired|done].
  - apply on_driver_flag in Hr as ->. split; [by apply set_commissioning_wired|done].
  - apply bind_Done in Hr as (? & s1 & ? & ? & Hs & Hr & _). injection Hr as <- _.
    apply on_scanner_Done in Hs as (sc & Hs & ->). apply stop_scan_keeps in Hs as [E _].
    split; [done|]. cbn. congruence.
  - apply on_scanner_Done in Hr as (sc & Hs & ->). apply dtor_run in Hs as (_ & E & _).
    split; [done|]. cbn. congruence.
Qed.

(** The destructor of the thread object leaves the scanner's own members. *)
Lemma members_run s s' t :
  members_dtor s = Done ((), s', t) →
  app_driver s' = app_driver s ∧
  HciScanner.callback_ (app_scanner s') = HciScanner.callback_ (app_scanner s) ∧
  HciScanner.running_ (app_scanner s') = HciScanner.running_ (app_scanner s) ∧
  HciScanner.hci_fd_ (app_scanner s') = HciScanner.hci_fd_ (app_scanner s).
Proof. intros (sc & (th & ? & _ & -> & _)%zoom_Done & ->)%on_scanner_Done. done. Qed.

Lemma heard_wired `{!CryptoTotal C} e s :
  sound_event e → wired s →
  (∃ s' t, heard e s = Done ((), s', t : list Ev) ∧ wired s' ∧ app_scanner s' = app_scanner s) ∨
  (∃ c, e = BleAdv c ∧ heard (Ev := Ev) e s = Stop Undefined ∧ overrun c).
Proof.
  intros (c & -> & Hc) [Hd Hsc]. cbn [heard].
  destruct (advertised_step (Ev := Ev) c s Hd Hc) as [(s' & ls & E & Hd' & Hsc')|[E Ho]].
  - left. exists s', (ev_log <$> ls). split_and!; [done| |done]. split; [done|]. by rewrite Hsc'.
  - right. by exists c.
Qed.

Lemma step_sound `{!CryptoTotal C} cf l cf' : step cf l cf' → sound cf → sound cf'.
Proof.
  intros Hs [Hw Htodo]. destruct Hs as [s s' c cs pc t Hr|s s' cs pc t _ Hr|s cs|s cs|s cs|s cs packet t Hb Hp|
    s cs|s cs|s s' cs e todo t Hr|s cs]; cbn [shared scan] in *; try by split.
  - split; [by eapply run_command_wired|done].
  - split; [|done]. apply members_run in Hr as (Ed & Ec & _). destruct Hw as [Hd Hsc].
    split; cbn [shared]; [by rewrite Ed|congruence].
  - split; [done|]. by destruct (HciScanner.running_ _).
  - split; [done|]. destruct (packet_reports packet _ Hb (wired_scanner _ Hw)) as (cs' & rest & E & Hlen & Hcs & _).
    rewrite E in Hp. injection Hp as <-. cbn [scan]. rewrite length_fmap. split; [|done].
    apply Forall_fmap. eapply Forall_impl; [exact Hcs|]. intros c Hc. by exists c.
  - split; [done|]. by destruct (HciScanner.running_ _).
  - destruct Htodo as [[He Htodo]%Forall_cons Hlen]. cbn in Hlen.
    destruct (heard_wired e s He Hw) as [(s1 & t1 & E & Hw1 & _)|(c & _ & E & _)];
      rewrite Hr in E; [injection E as <- _|discriminate E]. split; [done|]. split; [done|lia].
Qed.

(** The scan thread is never stuck: it is over, waits for the kernel, can go
    on, or is about to process a report whose AD structures overrun it. *)
Definition goes_on cf : Prop :=
  scan cf = Ended ∨ scan cf = InRead ∨ (∃ e t cf', step cf (Scan e t) cf') ∨
  ∃ c todo, scan cf = Handling (BleAdv c :: todo) ∧ overrun c.

Lemma sound_goes_on `{!CryptoTotal C} cf : sound cf → goes_on cf.
Proof.
  intros [Hw Htodo]. destruct cf as [s o [| | |[|e todo]| |]]; cbn [shared scan] in *; unfold goes_on;
    try (by eauto); right; right.
  - left. do 3 eexists. apply step_test.
  - left. destruct (decide (0 ≤ HciScanner.hci_fd_ (app_scanner s))); do 3 eexists;
      [by apply step_read|apply step_bad_fd; lia].
  - left. do 3 eexists. apply step_handled.
  - destruct Htodo as [[He _]%Forall_cons _].
    destruct (heard_wired e s He Hw) as [(s1 & t1 & E & _)|(c & -> & _ & Ho)];
      [left; do 3 eexists; by eapply step_callback|right; by exists c, todo].
  - left. do 3 eexists. apply step_retest.
Qed.

(** C16. However the calls of the owner, the turns of the scan loop and the packets
    the kernel delivers are interleaved, the driver's table invariant and the
    wiring of the callbacks hold in every state that is reached, the reports
    in flight are well formed, and the scan thread is never stuck except on a
    report whose AD structures overrun it. *)
Theorem interleavings_safe `{!CryptoTotal C} cf cf' :
  sound cf → rtc any_step cf cf' → sound cf' ∧ goes_on cf'.
Proof.
  intros Hs Hsteps. enough (sound cf') by (split; [done|by apply sound_goes_on]).
  induction Hsteps as [|x y z [l Hl] _ IH]; [done|]. apply IH. by eapply step_sound.
Qed.

(** ** Every interleaving of whole calls is a sequence of driver calls *)

(** The call a step makes on the driver, and what is logged by that call. *)
Definition driver_call l : option op :=
  match l with
  | Owner CEnable _ => Some OEnable
  | Owner CDisable _ => Some ODisable
  | Scan (Some (BleAdv c)) _ => Some (adv_op c)
  | _ => None
  end.
Definition driver_log l : list Ev :=
  match driver_call l, l with
  | Some _, Owner _ t | Some _, Scan _ t => t
  | _, _ => []
  end.

(** What goes through the scan thread: events made of a packet, events taken
    up, events in between. *)
Definition received l : list ble_event := match l with Kernel (Some t) => t | _ => [] end.
Definition taken l : list ble_event := match l with Scan (Some e) _ => [e] | _ => [] end.
Definition in_flight (pc : scan_pc) : list ble_event :=
  match pc with Handling todo => todo | _ => [] end.

Lemma on_driver_printed (m : eff (EnoceanDriver C) event ()) s s' t :
  on_driver (Ev := Ev) m s = Done ((), s', t) →
  ∃ t0 lines, m (app_driver s) = Done ((), app_driver s', t0) ∧ invoke_all t0 = Done lines ∧
    t = ev_log <$> lines.
Proof.
  unfold on_driver. destruct (m (app_driver s)) as [[[[] d] t0]|]; [|done].
  destruct (invoke_all t0) as [lines|] eqn:E; [|done]. intros [= <- <-]. by exists t0, lines.
Qed.

(** A step and the call it makes, if it makes one. *)
Lemma step_call cf l cf' :
  sound cf → step cf l cf' →
  match driver_call l with
  | None => app_driver (shared cf') = app_driver (shared cf)
  | Some o => wf_op o ∧ is_init o = false ∧
      ∃ t lines, run_op o (app_driver (shared cf)) = Done ((), app_driver (shared cf'), t) ∧
        invoke_all t = Done lines ∧ driver_log l = ev_log <$> lines
  end.
Proof.
  intros [_ Htodo] Hs. destruct Hs as [s s' c cs pc t Hr|s s' cs pc t _ Hr| | | | | | |s s' o e todo t Hr|];
    cbn [shared scan driver_call driver_log] in *; try done.
  - destruct c; cbn [run_command driver_call] in *.
    + apply on_driver_printed in Hr as (t0 & lines & Hr & Hl & ->). split; [done|]. split; [done|]. by exists t0, lines.
    + apply on_driver_printed in Hr as (t0 & lines & Hr & Hl & ->). split; [done|]. split; [done|]. by exists t0, lines.
    + apply bind_Done in Hr as (? & s1 & ? & ? & Hs & Hr & _). injection Hr as <- _.
      by apply on_scanner_Done in Hs as (sc & _ & ->).
    + by apply on_scanner_Done in Hr as (sc & _ & ->).
  - by apply members_run in Hr as [? _].
  - destruct Htodo as [[(c & -> & Hc) _]%Forall_cons _]. cbn [driver_call driver_log].
    cbn [heard] in Hr. unfold advertised in Hr. rewrite decide_True in Hr by apply Hc.
    apply on_driver_printed in Hr as (t0 & lines & Hr & Hl & ->).
    split; [split_and!; apply Hc|]. split; [done|]. by exists t0, lines.
Qed.

Lemma step_events cf l cf' :
  step cf l cf' → in_flight (scan cf) ++ received l = taken l ++ in_flight (scan cf').
Proof. destruct 1; cbn; rewrite ?app_nil_r; try done; by destruct (HciScanner.running_ _). Qed.

(** The driver of an interleaving of whole calls: it goes through the calls
    that the labels carry, one after the other, and what the labels say is
    logged is what the application prints of the events of that run; the scan
    thread takes up the events of the packets in the order they came. *)
Lemma sequential_run `{!CryptoTotal C} cf ls cf' :
  sound cf → steps cf ls cf' →
  let ops := omap driver_call ls in
  Forall wf_op ops ∧ Forall (λ o, is_init o = false) ops ∧
  (∃ t lines, exec ops (app_driver (shared cf)) = Done ((), app_driver (shared cf'), t) ∧
     invoke_all t = Done lines ∧ ls ≫= driver_log = ev_log <$> lines) ∧
  in_flight (scan cf) ++ (ls ≫= received) = (ls ≫= taken) ++ in_flight (scan cf').
Proof.
  intros Hs Hsteps. cbv zeta. induction Hsteps as [cf|cf l cf1 ls cf2 Hl _ IH].
  { split; [constructor|]. split; [constructor|]. split; [by exists [], []|]. apply app_nil_r. }
  destruct IH as (Hwf & Hni & (t & lines & Hexec & Hinv & Hlog) & Hev); [by eapply step_sound|].
  pose proof (step_call cf l cf1 Hs Hl) as Hcall. pose proof (step_events cf l cf1 Hl) as Hev1.
  split_and!.
  - cbn. destruct (driver_call l); [|done]. constructor; [apply Hcall|done].
  - cbn. destruct (driver_call l); [|done]. constructor; [apply Hcall|done].
  - cbn [omap list_omap mbind list_bind]. destruct (driver_call l) as [o|] eqn:Eo.
    + destruct Hcall as (_ & _ & t1 & lines1 & Hr & Hi1 & Hl1).
      exists (t1 ++ t), (lines1 ++ lines). split_and!.
      * cbn [exec]. by rewrite bind_run, Hr, Hexec.
      * by apply invoke_all_app.
      * rewrite fmap_app, <- Hl1. by f_equal.
    + exists t, lines. rewrite <- Hcall. split_and!; [done..|].
      unfold driver_log at 1. rewrite Eo. by destruct l.
  - cbn [mbind list_bind]. rewrite app_assoc, Hev1, <- !app_assoc. f_equal. exact Hev.
Qed.

(** ** Enabling commissioning while the scan is running *)

Definition flag_command (b : bool) : command := if b then CEnable else CDisable.

(** The scan thread is about to process a report the flag decides about. *)
Definition contested cf : Prop :=
  ∃ c todo, scan cf = Handling (BleAdv c :: todo) ∧
    candidate (app_driver (shared cf)) (adv_addr c) (adv_addr_type c) (adv_adv_type c) (adv_data c).

Definition flag_line (b : bool) : LogCall :=
  LOGGER_NOTICE (if b then "EnOcean commissioning enabled" else "EnOcean commissioning disabled") [].
Definition flag_label (b : bool) : label Ev := Owner (flag_command b) [ev_log (flag_line b)].

Lemma flag_command_run b s :
  run_command (flag_command b) s = Done ((), flag_app b s, [ev_log (flag_line b)]).
Proof. by destruct b. Qed.

Lemma flag_step b s cs pc :
  step (mkConf s (At (flag_command b :: cs)) pc) (flag_label b) (mkConf (flag_app b s) (At cs) pc).
Proof.
  replace (At cs) with (after (flag_command b) cs) by by destruct b.
  apply step_owner, flag_command_run.
Qed.

(** C21. Setting the commissioning flag commutes with every step of the scan thread
    and the kernel, except with the processing of a report the flag decides
    about: for everything else it makes no difference that the main thread
    enables commissioning only after the scan has been started. *)
Theorem enabling_commutes b cs cf l1 cf1 l cf2 :
  sound cf → owner cf = At (flag_command b :: cs) → by_owner l = false →
  step cf l1 cf1 → by_owner l1 = true → step cf l cf2 → ¬ contested cf →
  ∃ cf', step cf1 l cf' ∧ step cf2 l1 cf'.
Proof.
  intros [Hw Htodo] Hcs Hl Hs1 Hl1 Hs2 Hnc.
  assert (l1 = flag_label b ∧ cf1 = mkConf (flag_app b (shared cf)) (At cs) (scan cf)) as [-> ->].
  { destruct Hs1 as [s s1 c cs0 pc t Hr|s s1 cs0 pc t _ Hr| | | | | | | |]; try discriminate Hl1;
      cbn [owner shared scan] in *; [|discriminate Hcs].
    injection Hcs as -> ->. rewrite flag_command_run in Hr. injection Hr as <- <-. by destruct b. }
  clear Hs1 Hl1. destruct Hs2; try discriminate Hl; cbn [owner shared scan] in *; subst.
  - eexists. split; [apply step_test|apply flag_step].
  - eexists. split; [by apply step_read|apply flag_step].
  - eexists. split; [by apply step_bad_fd|apply flag_step].
  - eexists. split; [by eapply step_packet|apply flag_step].
  - eexists. split; [by apply step_interrupted|apply flag_step].
  - eexists. split; [apply step_retest|apply flag_step].
  - destruct Htodo as [[(c & -> & Hc) _]%Forall_cons _].
    eexists. split; [eapply step_callback, (heard_flag b); [apply Hw|done| |eassumption]|apply flag_step].
    intros Hcand. apply Hnc. by eexists _, _.
  - eexists. split; [apply step_handled|apply flag_step].
Qed.

Lemma flag_app_same b s : commissioning_enabled_ (app_driver s) = b → flag_app b s = s.
Proof. intros <-. by destruct s as [[] ? ?]. Qed.

(** A commissioning report of an unknown device, for which a slot is free. *)
Section Contested.
Context (s : State) (c : adv_call) (p : bytes) (i : nat).
Context (Hw : driver_wired (app_driver s)) (Hinit : initialised_ (app_driver s) = true).
Context (Hfn : adv_fn c = advertisement_cb_ptr) (Hctx : adv_ctx c ≠ 0).
Context (Haddr : length (adv_addr c) = k_addr_len).
Context (Hat : adv_addr_type c = k_addr_random) (Hadv : adv_adv_type c = k_adv_nonconn_ind).
Context (Hb : is_bytes (adv_data c)) (Hc : carries (adv_data c) p).
Context (Hpb : is_bytes p) (Hp : (22 ≤ length p ≤ 252)%nat).
Context (Hadm : device_type (adv_addr c) ≠ Sensor ∨ p_stm p = true).
Context (Hf : find_slot (adv_addr c) (devices_ (app_driver s)) = None).
Context (Hfree : free_slot (devices_ (app_driver s)) = Some i).

Definition commissioned_app : State :=
  mkApp (set_slot i (new_device (adv_addr c) k_addr_random (adv_rssi c) p)
           (set_commissioning true (app_driver s))) (app_scanner s) (app_world s).

Lemma contested_run b :
  ∃ t, heard (Ev := Ev) (BleAdv c) (flag_app b s) =
    Done ((), if b then commissioned_app else flag_app false s, t).
Proof using All.
  destruct (commissioning_run (adv_addr c) (adv_rssi c) (adv_data c) p
    (set_commissioning b (app_driver s))) as (t & E & _); try done; [|lia|].
  { apply (set_commissioning_wired b (app_driver s) Hw). }
  cbn [set_commissioning devices_ commissioning_enabled_] in E. rewrite Hfree in E.
  rewrite (bool_decide_eq_true_2 (22 ≤ _)%nat) in E by lia.
  assert (bool_decide (device_type (adv_addr c) ≠ Sensor) || p_stm p = true) as Eadm.
  { apply orb_true_iff. destruct Hadm; [left; by apply bool_decide_eq_true|by right]. }
  rewrite Eadm, !andb_true_r in E.
  edestruct (advertised_run (Ev := Ev) c (flag_app b s)) as (_ & ls & _ & Hadvd);
    [exact (set_commissioning_wired b _ Hw)|exact Hfn|exact Hb| |].
  { rewrite bool_decide_eq_true_2, Hat, Hadv by done. exact E. }
  eexists. cbn [heard]. rewrite Hadvd. by destruct b.
Qed.

(** The exception: with such a report in flight, the device is in the table
    afterwards if the main thread was first, and still unknown if the scan
    thread was. *)
Theorem commissioning_race cs todo :
  commissioning_enabled_ (app_driver s) = false →
  let cf := mkConf s (At (CEnable :: cs)) (Handling (BleAdv c :: todo)) in
  ∃ s1 s2 t1 t2,
    steps cf [Scan (Some (BleAdv c)) t1; flag_label true] (mkConf s1 (At cs) (Handling todo)) ∧
    find_slot (adv_addr c) (devices_ (app_driver s1)) = None ∧
    steps cf [flag_label true; Scan (Some (BleAdv c)) t2] (mkConf s2 (At cs) (Handling todo)) ∧
    devices_ (app_driver s2) !! i = Some (new_device (adv_addr c) k_addr_random (adv_rssi c) p).
Proof using All.
  intros Hce cf. destruct (contested_run false) as [t1 E1], (contested_run true) as [t2 E2].
  rewrite (flag_app_same _ _ Hce) in E1.
  exists (flag_app true s), commissioned_app, t1, t2. split_and!.
  - eapply steps_cons; [eapply step_callback, E1|apply steps_one, (flag_step true)].
  - exact Hf.
  - eapply steps_cons; [apply (flag_step true)|eapply steps_one, step_callback, E2].
  - apply set_slot_lookup. by destruct (free_slot_Some _ _ Hfree) as [(dev & Hi%lookup_lt_Some & _) _].
Qed.
End Contested.

(** ** Stopping and destroying a scanner *)

Definition running cf : bool := HciScanner.running_ (app_scanner (shared cf)).

(** The steps the scan thread and the kernel have left once the scanner has
    been stopped; a packet holds at most fifteen reports. *)
Definition remaining (pc : scan_pc) : nat :=
  match pc with
  | Ended => 0
  | AtTest | AtRetest => 1
  | Handling todo => length todo + 2
  | InRead => 18
  | AtRead => 19
  end.

Definition by_others : list (label Ev) → nat :=
  sum_list_with (λ l, if by_owner l then 0 else 1)%nat.

Lemma run_command_stopped c s s' t :
  HciScanner.running_ (app_scanner s) = false → run_command c s = Done ((), s', t) →
  HciScanner.running_ (app_scanner s') = false.
Proof.
  intros Hst Hr. destruct c; cbn [run_command] in Hr.
  - by apply on_driver_flag in Hr as ->.
  - by apply on_driver_flag in Hr as ->.
  - apply bind_Done in Hr as (? & s1 & ? & ? & Hs & Hr & _). injection Hr as <- _.
    apply on_scanner_Done in Hs as (sc & Hs & ->).
    unfold HciScanner.stop_scan_posix in Hs. rewrite get_bind, Hst in Hs. cbn [negb] in Hs.
    injection Hs as _ <- _. exact Hst.
  - apply on_scanner_Done in Hr as (sc & Hs & ->). by apply dtor_run in Hs as (? & _).
Qed.

Lemma stopped_step `{!CryptoTotal C} cf l cf' :
  sound cf → running cf = false → step cf l cf' →
  running cf' = false ∧ (by_others [l] + remaining (scan cf') ≤ remaining (scan cf))%nat.
Proof.
  intros [Hw Htodo] Hst Hs. unfold running in *.
  pose proof (λ c s1 s2 t, run_command_stopped c s1 s2 t) as Hcmd.
  destruct Hs as [s s' c cs pc t Hr|s s' cs pc t _ Hr|s cs|s cs|s cs|s cs packet t Hb Hp|
    s cs|s cs|s s' cs e todo t Hr|s cs]; cbn [shared scan] in *;
    try (split; [done|]); rewrite ?Hst; cbn; try lia.
  - split; [by eapply Hcmd|]. lia.
  - split; [|lia]. apply members_run in Hr as (_ & _ & -> & _). done.
  - destruct (packet_reports packet _ Hb (wired_scanner _ Hw)) as (cs' & rest & E & Hlen & _).
    rewrite E in Hp. injection Hp as <-. rewrite length_fmap. lia.
  - destruct Htodo as [[He _]%Forall_cons _]. split; [|lia].
    destruct (heard_wired e s He Hw) as [(s1 & t1 & E & _ & Esc)|(c & _ & E & _)];
      rewrite Hr in E; [injection E as <- _|discriminate E]. congruence.
Qed.

Lemma remaining_bound cf : sound cf → (remaining (scan cf) ≤ 19)%nat.
Proof. intros [_ Htodo]. destruct (scan cf); cbn; (lia || destruct Htodo; lia). Qed.

Lemma stopped_steps `{!CryptoTotal C} cf ls cf' :
  sound cf → running cf = false → steps cf ls cf' →
  sound cf' ∧ running cf' = false ∧ (by_others ls + remaining (scan cf') ≤ remaining (scan cf))%nat.
Proof.
  intros Hs Hst Hsteps. induction Hsteps as [|cf l cf1 ls cf2 Hl _ IH]; [split_and!; (done || cbn; lia)|].
  destruct (stopped_step cf l cf1 Hs Hst Hl) as [Hst1 Hle1].
  destruct IH as (Hs2 & Hst2 & Hle2); [by eapply step_sound|done|]. split_and!; [done..|].
  unfold by_others in *. rewrite (sum_list_with_app _ [l] ls). lia.
Qed.

(** C20. Once the scanner has been stopped, and whatever the owner goes on to do, the
    scan thread and the kernel together take at most nineteen more steps; and
    wherever they are then, there is a next one - unless the thread is over,
    or is about to process a report whose AD structures overrun it. *)
Theorem stopped_scan_ends `{!CryptoTotal C} cf ls cf' :
  sound cf → running cf = false → steps cf ls cf' →
  (by_others ls ≤ 19)%nat ∧
  (scan cf' = Ended ∨ (∃ l cf'', by_owner l = false ∧ step cf' l cf'') ∨
   ∃ c todo, scan cf' = Handling (BleAdv c :: todo) ∧ overrun c).
Proof.
  intros Hs Hst Hsteps. destruct (stopped_steps cf ls cf' Hs Hst Hsteps) as (Hs' & _ & Hle).
  split; [pose proof (remaining_bound cf Hs); lia|].
  destruct (sound_goes_on cf' Hs') as [E|[E|[E|E]]]; [by left|right; left|right; left|by right; right].
  - destruct cf' as [s o pc]. cbn in E. subst pc. exists (Kernel None). by eexists; split; [|apply step_interrupted].
  - destruct E as (e & t & cf'' & E). by exists (Scan e t), cf''.
Qed.

(** *** The destruction *)

(** When nobody interferes, the owner's two steps are [destroy_scanner]. *)
Lemma destruction_steps s s1 s2 cs t1 t2 :
  run_command CDestroy s = Done ((), s1, t1) → members_dtor s1 = Done ((), s2, t2) →
  steps (mkConf s (At (CDestroy :: cs)) Ended) [Owner CDestroy t1; Owner CDestroy t2] (mkConf s2 (At cs) Ended) ∧
  on_scanner (HciScanner.destroy_scanner bt) s = Done ((), s2, t1 ++ t2).
Proof.
  intros H1' H2'. split.
  - eapply steps_cons; [by apply (step_owner s s1 CDestroy)|]. by apply steps_one, step_members.
  - cbn [run_command] in H1'. apply on_scanner_Done in H1' as (sc1 & E1 & ->).
    apply on_scanner_Done in H2' as (sc2 & E2 & ->). cbn [app_driver app_scanner app_world] in *.
    unfold on_scanner, zoom, HciScanner.destroy_scanner. rewrite bind_run, E1, E2. by rewrite list_fmap_id.
Qed.

(** Neither the owner nor the scan thread can do anything. *)
Definition halted cf : Prop := ∀ l cf', step cf l cf' → by_kernel l = true.

(** What the operating system answers to [pthread_join] on a thread that is
    over, the backend passes on. *)
Class JoinReturns : Prop :=
  join_returns : ∀ th : ThreadObj PosixThread.Members X, ∃ r th' t, os_destroy (Ev := Ev) th = Done (r, th', t).

Lemma members_done `{!JoinReturns} s : ∃ s' t, members_dtor s = Done ((), s', t).
Proof.
  assert (∃ th t, IThread.Thread_dtor (Ev := Ev) (HciScanner.scan_thread_ (app_scanner s)) = Done ((), th, t))
    as (th & t & E).
  { unfold IThread.Thread_dtor, IThread.destroy. rewrite get_bind. unfold IThread.is_active.
    destruct (active _) eqn:Ea; [|by do 2 eexists]. rewrite bind_run, get_bind, Ea. cbn [negb].
    rewrite bind_run. destruct (join_returns (HciScanner.scan_thread_ (app_scanner s))) as (r & th & t & ->).
    rewrite bind_run. destruct (operator_bool r); by do 2 eexists. }
  unfold members_dtor, on_scanner, HciScanner.thread_call, zoom. rewrite E. by do 2 eexists.
Qed.

(** Where the owner can be after the body of [~Scanner], when the destruction
    is the last thing it does. *)
Definition leaving (th : bool) cf : Prop :=
  match owner cf with
  | Leaving [] => thread_active (shared cf) = th
  | At [] => th = true → scan cf = Ended
  | _ => False
  end.

Lemma leaving_step `{!CryptoTotal C} th cf l cf' :
  sound cf → leaving th cf → step cf l cf' →
  leaving th cf' ∧ ((if by_owner l then 1 else 0) + (match owner cf' with Leaving _ => 1 | _ => 0 end)
    ≤ match owner cf with Leaving _ => 1 | _ => 0 end)%nat.
Proof.
  intros [Hw Htodo] Hlv Hs. unfold leaving in *.
  destruct Hs as [s s' c cs pc t Hr|s s' cs pc t Hj Hr|s o|s o|s o|s o packet t Hb Hp|
    s o|s o|s s' o e todo t Hr|s o]; cbn [owner shared scan by_owner] in *;
    try (destruct o as [[|]|[|]]; try done; (split; [|lia]); try done; intros Eth; by specialize (Hlv Eth)).
  - done.
  - destruct cs; [|done]. split; [|lia]. intros ->. by apply Hj.
  - destruct o as [[]|[]]; try done; (split; [|lia]); [intros Eth; by specialize (Hlv Eth)|].
    destruct Htodo as [[He _]%Forall_cons _].
    destruct (heard_wired e s He Hw) as [(s1 & t1 & E & _ & Esc)|(c & _ & E & _)];
      rewrite Hr in E; [injection E as <- _|discriminate E]. unfold thread_active. by rewrite Esc.
Qed.

Lemma leaving_steps `{!CryptoTotal C} th cf ls cf' :
  sound cf → leaving th cf → steps cf ls cf' →
  leaving th cf' ∧ (length ls ≤ by_others ls + match owner cf with Leaving _ => 1 | _ => 0 end)%nat.
Proof.
  intros Hs Hlv Hsteps. induction Hsteps as [cf|cf l cf1 ls cf2 Hl _ IH]; [split; [done|cbn; lia]|].
  destruct (leaving_step th cf l cf1 Hs Hlv Hl) as [Hlv1 Hle1].
  destruct IH as [Hlv2 Hle2]; [by eapply step_sound|done|]. split; [done|].
  unfold by_others in *. cbn. destruct (by_owner l), (owner cf1), (owner cf); lia.
Qed.

Lemma destroy_body cf t cf1 cs :
  owner cf = At (CDestroy :: cs) → step cf (Owner CDestroy t) cf1 →
  owner cf1 = Leaving cs ∧ scan cf1 = scan cf ∧ running cf1 = false ∧
  thread_active (shared cf1) = thread_active (shared cf) ∧
  HciScanner.hci_fd_ (app_scanner (shared cf1)) < 0.
Proof.
  intros Ho Hs. inversion Hs as [s s' c cs' pc t' Hr|s s' cs' pc t' _ Hr| | | | | | | |]; subst;
    cbn [owner scan shared] in *; [|discriminate Ho].
  injection Ho as ->. cbn [run_command] in Hr. apply on_scanner_Done in Hr as (sc & Hr & ->).
  pose proof (dtor_run bt _ _ _ _ Hr) as (? & _ & _ & ?). pose proof (dtor_active bt _ _ _ _ Hr).
  by split_and!.
Qed.

(** The places where neither of the two can go on. *)
Lemma halted_leaving `{!CryptoTotal C} `{!JoinReturns} cf :
  sound cf → leaving true cf → halted cf →
  owner cf = At [] ∧ scan cf = Ended ∨
  owner cf = Leaving [] ∧
    (scan cf = InRead ∨ ∃ c todo, scan cf = Handling (BleAdv c :: todo) ∧ overrun c).
Proof.
  intros Hs Hlv Hh. unfold leaving in Hlv. destruct (owner cf) as [[|]|[|]] eqn:Ho; try done.
  { left. by split; [|apply Hlv]. }
  right. split; [done|]. destruct (sound_goes_on cf Hs) as [E|[E|[(e & t & cf' & E)|E]]]; [|by left| |by right].
  - destruct cf as [s o pc]. cbn in Ho, E. subst o pc. destruct (members_done s) as (s' & t & Hr).
    specialize (Hh _ _ (step_members s s' [] Ended t (λ _, eq_refl) Hr)). discriminate Hh.
  - specialize (Hh _ _ E). discriminate Hh.
Qed.

(** A thread in [read] and an owner that joins it. *)
Lemma waits_steps cf ls cf' cs :
  owner cf = Leaving cs → scan cf = InRead → thread_active (shared cf) = true →
  steps cf ls cf' → Forall (λ l, by_kernel l = false) ls → cf' = cf.
Proof.
  intros Ho Hpc Hact Hsteps Hk. destruct Hsteps as [|cf l cf1 ls cf2 Hl _]; [done|].
  apply Forall_cons in Hk as [Hk _]. exfalso.
  destruct Hl as [s s' c cs' pc t Hr|s s' cs' pc t Hj Hr| | | | | | | |]; cbn [owner scan shared by_kernel] in *;
    try discriminate. specialize (Hj Hact). congruence.
Qed.

(** C33. The destruction of a scanner whose thread object is active, as the last thing
    the owner does: once the body of the destructor has run there are at most
    twenty more steps, of whoever; and when neither the owner nor the scan
    thread can go on, the destruction has returned and the thread is over, or
    the owner still waits for the thread, and the thread sits in its [read] or
    before a report whose AD structures overrun it. Whoever closed the
    descriptor under the thread has not woken it up: a thread that was in
    [read] at the beginning is there for as long as the kernel answers
    nothing, and so is the owner in its join. *)
Theorem destruction_outcome `{!CryptoTotal C} `{!JoinReturns} cf t cf1 ls cf2 :
  sound cf → owner cf = At [CDestroy] → thread_active (shared cf) = true →
  step cf (Owner CDestroy t) cf1 → steps cf1 ls cf2 →
  (length ls ≤ 20)%nat ∧ running cf2 = false ∧
  (halted cf2 →
     owner cf2 = At [] ∧ scan cf2 = Ended ∨
     owner cf2 = Leaving [] ∧
       (scan cf2 = InRead ∨ ∃ c todo, scan cf2 = Handling (BleAdv c :: todo) ∧ overrun c)) ∧
  (scan cf = InRead → Forall (λ l, by_kernel l = false) ls →
     cf2 = cf1 ∧ owner cf2 = Leaving [] ∧ scan cf2 = InRead ∧
     HciScanner.hci_fd_ (app_scanner (shared cf2)) < 0).
Proof.
  intros Hs Ho Hact Hbody Hsteps. pose proof (step_sound _ _ _ Hbody Hs) as Hs1.
  destruct (destroy_body cf t cf1 [] Ho Hbody) as (Ho1 & Hpc1 & Hst1 & Hact1 & Hfd1). rewrite Hact in Hact1.
  destruct (stopped_steps cf1 ls cf2 Hs1 Hst1 Hsteps) as (Hs2 & Hst2 & Hle).
  assert (leaving true cf1) as Hlv1 by (unfold leaving; by rewrite Ho1).
  destruct (leaving_steps true cf1 ls cf2 Hs1 Hlv1 Hsteps) as [Hlv2 Hlen]. rewrite Ho1 in Hlen.
  pose proof (remaining_bound cf1 Hs1). split_and!; [lia|done| |].
  - intros Hh. by apply halted_leaving.
  - intros Hpc Hk. rewrite Hpc in Hpc1.
    assert (cf2 = cf1) as -> by by eapply waits_steps. done.
Qed.

(** ** The whole program *)

(** Where the threads are once [start_scan] has returned and [enable_commissioning]
    is next: the scan thread at its loop test. Start-up as [posix_run] computes
    it, with the two threads one after the other, ends in the same state up to
    the flag. *)
Lemma startup_sound `{SleepImplementation W} `{AdvEvent Ev}
    fn self crypto th driver_ptr turns s s' t cs :
  posix_run bt fn self crypto th driver_ptr turns s = Done (true, s', t) →
  sound (mkConf (flag_app false s') (At (CEnable :: cs)) AtTest).
Proof.
  intros Hrun. apply startup_run in Hrun as (_ & Hwired). destruct (Hwired eq_refl) as ([Hd Hsc] & _).
  split; [|done]. split; [by apply set_commissioning_wired|done].
Qed.
End Threads.

(** ** Concrete interleavings *)

#[local] Instance toy_location : SourceLocation := λ s, s.
#[local] Instance toy_pthread : ThreadImplementation PosixThread.Members toy_system LogCall :=
  @PosixThread.Thread linux_errno _ LogCall _ _ toy_pthreads (Some 16384) None 1.
Abbreviation toy_conf := (conf (AppState () (HciScanner.Scanner toy_system) ())).
Abbreviation toy_step := (step (Ev := LogCall) toy_bluez).
Abbreviation toy_steps := (steps (Ev := LogCall) toy_bluez).

(** The scan loop at its test, with commissioning about to be enabled. *)
Definition scanning : toy_conf := mkConf running_app (At [CEnable]) AtTest.
Definition hearing : toy_conf := mkConf running_app (At [CEnable]) (Handling [BleAdv press_report]).

Lemma scanning_hears : rtc (any_step (Ev := LogCall) toy_bluez) scanning hearing.
Proof.
  eapply rtc_l; [eexists; apply step_test|].
  eapply rtc_l; [eexists; apply step_read; apply Z.leb_le; reflexivity|].
  eapply rtc_l; [eexists; eapply (step_packet _ _ _ (adv_packet 30 [press_report]))|apply rtc_refl].
  - apply is_bytes_dec. reflexivity.
  - vm_compute. reflexivity.
Qed.

Lemma interleavings_safe_witness : sound hearing ∧ goes_on (Ev := LogCall) toy_bluez hearing.
Proof.
  apply (interleavings_safe (Ev := LogCall) toy_bluez scanning hearing).
  - split; [apply running_app_wired|exact I].
  - apply scanning_hears.
Defined.

Lemma hearing_sound : sound hearing.
Proof.
  split; [apply running_app_wired|]. split; [|apply Nat.leb_le; reflexivity].
  constructor; [|constructor]. exists press_report. split; [done|].
  apply encoded_sound; [done|apply press_report_wf|]. apply is_bytes_dec. reflexivity.
Qed.

Lemma enabling_commutes_witness :
  ∃ l cf1 cf2 cf', toy_step hearing (flag_label true) cf1 ∧ toy_step hearing l cf2 ∧
    toy_step cf1 l cf' ∧ toy_step cf2 (flag_label true) cf'.
Proof.
  destruct (heard (Ev := LogCall) (BleAdv press_report) running_app) as [[[[] s'] t]|r] eqn:E;
    [|vm_compute in E; discriminate E].
  assert (toy_step hearing (Scan (Some (BleAdv press_report)) t) (mkConf s' (At [CEnable]) (Handling [])))
    as Hs by by eapply step_callback.
  pose proof (flag_step (Ev := LogCall) toy_bluez true running_app [] (Handling [BleAdv press_report])) as Ho.
  destruct (enabling_commutes (Ev := LogCall) toy_bluez true [] hearing _ _ (Scan _ t) _
    hearing_sound eq_refl eq_refl Ho eq_refl Hs) as (cf' & E1 & E2).
  - intros (c & todo & Ec & p & _ & Hf & _). injection Ec as <- _. vm_compute in Hf. discriminate Hf.
  - do 3 eexists. exists cf'. split; [exact Ho|]. split; [exact Hs|]. split; [exact E1|exact E2].
Defined.

(** A sensor's commissioning telegram while the table has a free slot. *)
Definition commissioning_report : adv_call :=
  mkAdv advertisement_cb_ptr 77 sensor_addr 1 3 (-60) (adv_of sensor_comm).
Definition open_app : AppState () (HciScanner.Scanner toy_system) () :=
  mkApp (mkDriver () app_callbacks true false (devices_ sample_open)) listening ().

Lemma open_app_wired : driver_wired (app_driver open_app).
Proof. split; [|done]. by destruct sample_open_inv. Qed.

Lemma commissioning_race_witness :
  let cf := mkConf open_app (At [CEnable]) (Handling [BleAdv commissioning_report]) in
  ∃ s1 s2 t1 t2,
    toy_steps cf [Scan (Some (BleAdv commissioning_report)) t1; flag_label true] (mkConf s1 (At []) (Handling [])) ∧
    find_slot sensor_addr (devices_ (app_driver s1)) = None ∧
    toy_steps cf [flag_label true; Scan (Some (BleAdv commissioning_report)) t2] (mkConf s2 (At []) (Handling [])) ∧
    devices_ (app_driver s2) !! 1%nat = Some sensor_entry.
Proof.
  apply (commissioning_race (Ev := LogCall) toy_bluez open_app commissioning_report sensor_comm 1
    open_app_wired); try reflexivity; try discriminate.
  - apply is_bytes_dec. reflexivity.
  - apply adv_of_carries.
  - apply is_bytes_dec. reflexivity.
  - split; apply Nat.leb_le; vm_compute; reflexivity.
  - by right.
Defined.

Definition stopped_app : AppState () (HciScanner.Scanner toy_system) () :=
  mkApp (app_driver running_app) (HciScanner.set_running false listening) ().

(** The thread is about to [read] when the scanner is stopped; the read is
    interrupted. *)
Lemma stopped_scan_ends_witness :
  let ls := [Scan None []; Kernel None; Scan None []] in
  (by_others (Ev := LogCall) ls ≤ 19)%nat ∧
  let cf' := mkConf stopped_app (At []) Ended : toy_conf in
  (scan cf' = Ended ∨ (∃ l cf'', by_owner l = false ∧ toy_step cf' l cf'') ∨
   ∃ c todo, scan cf' = Handling (BleAdv c :: todo) ∧ overrun c).
Proof.
  intros ls.
  apply (stopped_scan_ends (Ev := LogCall) toy_bluez (mkConf stopped_app (At []) AtRead)).
  - split; [split; [split|]|]; [|done..]. apply running_app_wired.
  - reflexivity.
  - eapply steps_cons; [apply step_read; apply Z.leb_le; reflexivity|].
    eapply steps_cons; [apply step_interrupted|apply steps_one, (step_retest _ stopped_app)].
Defined.

(** An operating system whose [pthread_join] is not interrupted. *)
Definition calm_pthreads : PosixThread.Pthreads toy_system :=
  PosixThread.mkPthreads toy_system (λ w, (0, w)) (λ w, (0, w)) (λ _ w, (0, w)) (λ _ w, (0, w))
    (λ _ w, (0, w)) (λ _ w, (0, w)) (λ _ w, (1, w)) (λ _ w, (99, w)) (λ _ _ w, (0, 5, w))
    (λ _ w, (0, mkToy (t_inherit w) (t_spawned w) (t_joined w + 1) 0)).
Definition calm_thread : ThreadImplementation PosixThread.Members toy_system LogCall :=
  @PosixThread.Thread linux_errno _ LogCall _ _ calm_pthreads (Some 16384) None 1.

Lemma calm_joins : JoinReturns (Ev := LogCall) (H1 := calm_thread).
Proof. intros th. do 3 eexists. reflexivity. Qed.

(** The thread waits in [read] when the scanner is destroyed; the read is
    interrupted, the thread ends and is joined. *)
Lemma destruction_outcome_witness :
  let step := step (Ev := LogCall) (H1 := calm_thread) toy_bluez in
  let steps := steps (Ev := LogCall) (H1 := calm_thread) toy_bluez in
  let cf : toy_conf := mkConf running_app (At [CDestroy]) InRead in
  ∃ t cf1 t' s2, step cf (Owner CDestroy t) cf1 ∧
    let ls := [Kernel None; Scan None []; Owner CDestroy t'] in
    let cf2 := mkConf s2 (At []) Ended in
    steps cf1 ls cf2 ∧
    (length ls ≤ 20)%nat ∧ running cf2 = false ∧
    (halted (Ev := LogCall) (H1 := calm_thread) toy_bluez cf2 →
       owner cf2 = At [] ∧ scan cf2 = Ended ∨
       owner cf2 = Leaving [] ∧
         (scan cf2 = InRead ∨ ∃ c todo, scan cf2 = Handling (BleAdv c :: todo) ∧ overrun c)) ∧
    (scan cf = InRead → Forall (λ l, by_kernel l = false) ls →
       cf2 = cf1 ∧ owner cf2 = Leaving [] ∧ scan cf2 = InRead ∧
       HciScanner.hci_fd_ (app_scanner (shared cf2)) < 0).
Proof.
  intros step0 steps0 cf.
  destruct (run_command (Ev := LogCall) toy_bluez CDestroy running_app) as [[[[] s1] t]|r] eqn:E;
    [|vm_compute in E; discriminate E].
  destruct (members_dtor (Ev := LogCall) (H1 := calm_thread) s1) as [[[[] s2] t']|r] eqn:E2;
    [|vm_compute in E; injection E as <- <-; vm_compute in E2; discriminate E2].
  exists t, (mkConf s1 (Leaving []) InRead), t', s2.
  assert (step0 cf (Owner CDestroy t) (mkConf s1 (Leaving []) InRead)) as Hb by by apply step_owner.
  assert (HciScanner.running_ (app_scanner s1) = false) as Hr by (vm_compute in E; by injection E as <- _).
  assert (steps0 (mkConf s1 (Leaving []) InRead) [Kernel None; Scan None []; Owner CDestroy t']
    (mkConf s2 (At []) Ended)) as Hs.
  { eapply steps_cons; [apply step_interrupted|]. eapply steps_cons; [apply step_retest|].
    rewrite Hr. apply steps_one, step_members; [reflexivity|exact E2]. }
  split; [exact Hb|]. split; [exact Hs|].
  pose proof calm_joins as Hj.
  apply (destruction_outcome (Ev := LogCall) (H1 := calm_thread) toy_bluez cf t
    (mkConf s1 (Leaving []) InRead)); [|reflexivity|reflexivity|exact Hb|exact Hs].
  split; [apply running_app_wired|exact I].
Defined.
