(* ===== verification/Atomicity.v ===== *)
(** * The driver's calls are atomic (src/enocean/EnoceanDriver.ipp under two threads)

    [Concurrency] lets the owner and the scan thread interleave whole calls of
    the driver. They do not: the owner may set [commissioning_enabled_] while
    the scan thread is in the middle of [process_advertisement]. The flag is
    the one member that both touch once the scan is running - the other thread
    only stores it, and logs -, so a call is cut here where it reads the flag:
    what it does before, the read, and what it does after. Every interleaving
    of these pieces does what an interleaving of whole calls does, and each
    thread says the same things in the same order. A load and a store of the
    flag are one access each, which is what the machine makes of the unlocked
    [bool]. *)

From stdpp Require Import prelude list strings relations.
From Stdlib Require Import ZArith Lia.
From S2P Require Import Prelude Logger ErrorHandler ErrorCodes Types AdParser Crypto Tlv.
From S2P Require Import Driver DriverRun DriverSafety DriverProps DriverWitness Sync Threads Ble Boards.
From S2P Require Import App AppPosix Concurrency.

(** ** process_advertisement, cut at the flag *)

Section Halves.
Context {C : Type} `{CryptoImplementation C}.
Abbreviation M := (eff (EnoceanDriver C) event).
Implicit Types d : EnoceanDriver C.

(** Everything up to the read of [commissioning_enabled_]; the payload if it
    comes to that. *)
Definition until_flag (a : bytes) (addr_type adv_type rssi : Z) (data : bytes) : M (option bytes) :=
  d ← get;
  if negb (initialised_ d) then mret None
  else if decide (length a ≠ k_addr_len) then mret None
  else if decide (adv_type ≠ k_adv_nonconn_ind ∨ addr_type ≠ k_addr_random) then mret None
  else
    mfr_payload ← liftO (extract_manufacturer_data data);
    if decide (mfr_payload = []) then mret None
    else if decide (length mfr_payload < k_data_payload_min)%nat then mret None
    else
      device ← find_device a;
      match device with
      | Some i =>
          assign i (set_rssi rssi);;
          device ← deref i;
          if decide (type device = Switch) then
            handle_switch i mfr_payload;; mret None
          else
            handle_sensor i mfr_payload;; mret None
      | None =>
          if decide (k_commissioning_payload_min ≤ length mfr_payload)%nat
          then mret (Some mfr_payload) else mret None
      end.

(** What follows the read. *)
Definition from_flag (a : bytes) (addr_type rssi : Z) (mfr_payload : bytes) (enabled : bool) : M () :=
  if enabled then handle_commissioning a addr_type rssi mfr_payload;; mret () else mret ().

Lemma until_flag_eq a at_ adv rssi data d :
  Forall wf_device (devices_ d) →
  until_flag a at_ adv rssi data d =
    match incoming d a at_ adv data with
    | Stop r => Stop r
    | Done None => Done (None, d, [])
    | Done (Some p) =>
        match find_slot a (devices_ d) with
        | Some i =>
            match process_advertisement a at_ adv rssi data d with
            | Done (_, d', t) => Done (None, d', t)
            | Stop r => Stop r
            end
        | None => Done (if decide (22 ≤ length p)%nat then Some p else None, d, [])
        end
    end.
Proof.
  intros Hwf. destruct (incoming d a at_ adv data) as [[p|]|r] eqn:Hin.
  - pose proof Hin as (Hinit & Ha & -> & -> & Hx & Hp)%incoming_Some.
    rewrite process_advertisement_eq, Hin by done.
    unfold until_flag. rewrite bind_run. cbn [get]. rewrite Hinit. cbn [negb].
    rewrite !decide_False by (tauto || lia).
    rewrite bind_run. unfold liftO at 1. rewrite Hx.
    rewrite decide_False by (destruct p; [cbn in Hp; lia|done]).
    rewrite decide_False by (unfold k_data_payload_min; lia).
    rewrite bind_run. unfold find_device. rewrite bind_run. cbn [get].
    rewrite find_from_run by done. cbn [liftO].
    destruct (find_slot a (devices_ d)) as [i|] eqn:Hf; cbn [fmap option_fmap option_map Nat.add].
    + apply find_slot_Some in Hf as [(dev & Hi & _) _].
      rewrite (list_lookup_total_correct _ _ _ Hi).
      rewrite bind_run, (assign_run _ _ _ dev) by done.
      rewrite bind_run, deref_set_slot by by eapply lookup_lt_Some.
      cbn [type set_rssi]. cbv zeta. case_decide; rewrite bind_run.
      * by destruct (handle_switch _ _ _) as [[[? ?] ?]|]; cbn; rewrite ?app_nil_r.
      * by destruct (handle_sensor _ _ _) as [[[? ?] ?]|]; cbn; rewrite ?app_nil_r.
    + unfold k_commissioning_payload_min. by case_decide.
  - revert Hin. unfold incoming, until_flag. rewrite bind_run. cbn [get].
    destruct (initialised_ d); [|done]. cbn [negb andb].
    case_bool_decide as Ha; [|by rewrite decide_True]. rewrite decide_False by tauto. cbn [andb].
    case_bool_decide as Hv; [|by rewrite decide_True by tauto]. cbn [andb].
    case_bool_decide as Ht; [|by rewrite decide_True by tauto]. rewrite decide_False by tauto.
    destruct (extract_manufacturer_data data) as [p|] eqn:Hx; cbn; [|done]. case_decide as Hp; [done|].
    intros _. rewrite bind_run. cbn [liftO]. case_decide; [done|].
    by rewrite decide_True by (unfold k_data_payload_min; lia).
  - revert Hin. unfold incoming, until_flag. rewrite bind_run. cbn [get].
    destruct (initialised_ d); [|done]. cbn [negb andb].
    case_bool_decide as Ha; [|done]. rewrite decide_False by tauto. cbn [andb].
    case_bool_decide as Hv; [|done]. case_bool_decide as Ht; [|done]. rewrite decide_False by tauto.
    rewrite bind_run. destruct (extract_manufacturer_data data) as [p|] eqn:Hx; cbn; [by case_decide|].
    by intros [= ->].
Qed.

(** The pieces make up the call. *)
Lemma process_halves a at_ adv rssi data d :
  Forall wf_device (devices_ d) →
  process_advertisement a at_ adv rssi data d =
    (r ← until_flag a at_ adv rssi data;
     match r with
     | None => mret ()
     | Some p => d ← get; from_flag a at_ rssi p (commissioning_enabled_ d)
     end) d.
Proof.
  intros Hwf. rewrite bind_run, until_flag_eq by done.
  destruct (incoming d a at_ adv data) as [[p|]|r] eqn:Hin;
    [|by rewrite process_advertisement_eq, Hin by done..].
  destruct (find_slot a (devices_ d)) as [i|] eqn:Hf.
  - destruct (process_advertisement _ _ _ _ _ _) as [[[[] d'] t]|]; cbn; by rewrite ?app_nil_r.
  - rewrite process_advertisement_eq, Hin, Hf by done. unfold from_flag.
    destruct (decide (22 ≤ length p)%nat) as [Hp|Hp].
    + rewrite bool_decide_eq_true_2 by done. rewrite bind_run. cbn [get andb].
      destruct (commissioning_enabled_ d); [|done]. rewrite bind_run.
      by destruct (handle_commissioning _ _ _ _ _) as [[[? ?] ?]|]; cbn; rewrite ?app_nil_r.
    + by rewrite bool_decide_eq_false_2.
Qed.

(** [c] comes to the read with payload [p]. *)
Record asks (c : adv_call) (p : bytes) d : Prop := {
  ask_in : incoming d (adv_addr c) (adv_addr_type c) (adv_adv_type c) (adv_data c) = Done (Some p);
  ask_unknown : find_slot (adv_addr c) (devices_ d) = None;
  ask_long : (22 ≤ length p)%nat;
}.

Lemma asks_flag c p d b : asks c p d → asks c p (set_commissioning b d).
Proof. intros []. by split. Qed.

(** Commissioning does not look at the flag again. *)
Lemma from_flag_flag c p d e b :
  Forall wf_device (devices_ d) → asks c p d →
  from_flag (adv_addr c) (adv_addr_type c) (adv_rssi c) p e (set_commissioning b d) =
    flagged b (from_flag (adv_addr c) (adv_addr_type c) (adv_rssi c) p e d).
Proof.
  intros Hwf [Hin Hf Hp]. apply incoming_Some in Hin as (_ & Ha & _). unfold from_flag.
  destruct e; [|done]. rewrite !bind_run, !handle_commissioning_eq by done.
  change (devices_ (set_commissioning b d)) with (devices_ d). rewrite Hf.
  destruct (_ && _); [done|]. by destruct (free_slot (devices_ d)).
Qed.
End Halves.

(** ** The machine of the pieces *)

(** The owner between its commands, or between the store of a flag and the
    line about it; the scan thread between its lines and calls, or in a call
    before or after its read of the flag. *)
Inductive fine_owner := Steady (o : owner_pc) | Telling (b : bool) (cs : list command).
Inductive fine_scan :=
| Between (pc : scan_pc)
| Asking (c : adv_call) (p : bytes) (todo : list ble_event)
| Deciding (c : adv_call) (p : bytes) (enabled : bool) (todo : list ble_event).

Definition owner_of (fo : fine_owner) : owner_pc :=
  match fo with Steady o => o | Telling _ cs => At cs end.
Definition pc_of (fs : fine_scan) : scan_pc :=
  match fs with
  | Between pc => pc
  | Asking c _ todo | Deciding c _ _ todo => Handling (BleAdv c :: todo)
  end.

Record fine (State : Type) := mkFine {
  f_shared : State;
  f_owner : fine_owner;
  f_scan : fine_scan;
}.
Arguments mkFine {State} _ _ _.
Arguments f_shared {State} _.
Arguments f_owner {State} _.
Arguments f_scan {State} _.

(** A configuration in which no call is under way. *)
Definition whole {State} (cf : conf State) : fine State :=
  mkFine (shared cf) (Steady (owner cf)) (Between (scan cf)).

Inductive party := TheOwner | TheScan | TheKernel.
#[export] Instance party_eq_dec : EqDecision party.
Proof. solve_decision. Defined.

(** A turn: whose it is, what is logged in it, the event that has been dealt
    with, the events that have come in. *)
Record fine_turn (Ev : Type) := mkTurn {
  who : party;
  says : list Ev;
  takes : list ble_event;
  gets : list ble_event;
}.
Arguments mkTurn {Ev} _ _ _ _.
Arguments who {Ev} _.
Arguments says {Ev} _.
Arguments takes {Ev} _.
Arguments gets {Ev} _.

Definition turn_of {Ev} (l : label Ev) : fine_turn Ev :=
  match l with
  | Owner _ t => mkTurn TheOwner t [] []
  | Scan _ t => mkTurn TheScan t (taken l) []
  | Kernel _ => mkTurn TheKernel [] [] (received l)
  end.

Section Machine.
Context {C W X : Type} `{CryptoImplementation C} {Ev : Type} `{LogEvent Ev}.
Context `{ThreadImplementation PosixThread.Members X Ev}.
Context `{SourceLocation} (bt : HciScanner.Bluez X).
Abbreviation State := (AppState C (HciScanner.Scanner X) W).
Implicit Types (s : State) (cf : conf State).

(** The halves of the callback of report [c]. *)
Definition before (c : adv_call) : eff State Ev (option bytes) :=
  on_driver (if bool_decide (adv_ctx c ≠ 0)
             then until_flag (adv_addr c) (adv_addr_type c) (adv_adv_type c) (adv_rssi c) (adv_data c)
             else mret None).
Definition afterwards (c : adv_call) (p : bytes) (enabled : bool) : eff State Ev () :=
  on_driver (from_flag (adv_addr c) (adv_addr_type c) (adv_rssi c) p enabled).

Inductive fine_step : fine State → fine_turn Ev → fine State → Prop :=
| fine_scan_step s fo pc l s' pc' :
    by_owner l = false → driver_call l = None →
    step bt (mkConf s (owner_of fo) pc) l (mkConf s' (owner_of fo) pc') →
    fine_step (mkFine s fo (Between pc)) (turn_of l) (mkFine s' fo (Between pc'))
| fine_owner_step s o fs l s' o' :
    by_owner l = true → driver_call l = None →
    step bt (mkConf s o (pc_of fs)) l (mkConf s' o' (pc_of fs)) →
    fine_step (mkFine s (Steady o) fs) (turn_of l) (mkFine s' (Steady o') fs)
| fine_store b s cs fs :
    fine_step (mkFine s (Steady (At (flag_command b :: cs))) fs) (mkTurn TheOwner [] [] [])
              (mkFine (flag_app b s) (Telling b cs) fs)
| fine_tell b s cs fs :
    fine_step (mkFine s (Telling b cs) fs) (mkTurn TheOwner [ev_log (flag_line b)] [] [])
              (mkFine s (Steady (At cs)) fs)
| fine_done s s' fo c todo t :
    adv_fn c = advertisement_cb_ptr → before c s = Done (None, s', t) →
    fine_step (mkFine s fo (Between (Handling (BleAdv c :: todo)))) (mkTurn TheScan t [BleAdv c] [])
              (mkFine s' fo (Between (Handling todo)))
| fine_ask s s' fo c p todo t :
    adv_fn c = advertisement_cb_ptr → before c s = Done (Some p, s', t) →
    fine_step (mkFine s fo (Between (Handling (BleAdv c :: todo)))) (mkTurn TheScan t [] [])
              (mkFine s' fo (Asking c p todo))
| fine_read s fo c p todo :
    fine_step (mkFine s fo (Asking c p todo)) (mkTurn TheScan [] [] [])
              (mkFine s fo (Deciding c p (commissioning_enabled_ (app_driver s)) todo))
| fine_decide s s' fo c p b todo t :
    afterwards c p b s = Done ((), s', t) →
    fine_step (mkFine s fo (Deciding c p b todo)) (mkTurn TheScan t [BleAdv c] [])
              (mkFine s' fo (Between (Handling todo))).

Inductive fine_steps : fine State → list (fine_turn Ev) → fine State → Prop :=
| fine_nil fc : fine_steps fc [] fc
| fine_cons fc l fc1 ls fc2 : fine_step fc l fc1 → fine_steps fc1 ls fc2 → fine_steps fc (l :: ls) fc2.

(** The owner's two steps are the call it makes. *)
Lemma flag_pieces b s cs fs :
  fine_steps (mkFine s (Steady (At (flag_command b :: cs))) fs)
    [mkTurn TheOwner [] [] []; mkTurn TheOwner [ev_log (flag_line b)] [] []]
    (mkFine (flag_app b s) (Steady (At cs)) fs) ∧
  run_command (Ev := Ev) bt (flag_command b) s = Done ((), flag_app b s, [ev_log (flag_line b)]).
Proof.
  split; [|apply flag_command_run].
  eapply fine_cons; [apply fine_store|]. eapply fine_cons; [apply fine_tell|apply fine_nil].
Qed.

(** *** A call in progress and the whole call *)

Lemma heard_before c s :
  driver_wired (app_driver s) → adv_fn c = advertisement_cb_ptr →
  (∀ s' t, before c s = Done (None, s', t) → heard (BleAdv c) s = Done ((), s', t : list Ev)) ∧
  (∀ s' t p, before c s = Done (Some p, s', t) →
     s' = s ∧ t = [] ∧ asks c p (app_driver s) ∧
     heard (BleAdv c) s = afterwards c p (commissioning_enabled_ (app_driver s)) s).
Proof.
  intros [Hinv _] Hfn. cbn [heard]. unfold advertised, before, afterwards, on_driver.
  rewrite decide_True by done. unfold advertisement_cb.
  destruct (bool_decide (adv_ctx c ≠ 0)); cbn [negb]; cycle 1.
  { split; [|by intros]. by intros s' t [= <- <-]. }
  rewrite process_halves by apply Hinv. rewrite bind_run.
  rewrite until_flag_eq by apply Hinv.
  destruct (incoming _ _ _ _ _) as [[p|]|r] eqn:Hin; cbn; [|split; [|by intros]|by split].
  - destruct (find_slot _ _) as [i|] eqn:Hf.
    + destruct (process_advertisement _ _ _ _ _ _) as [[[[] d'] t0]|]; [|by split].
      cbn. rewrite app_nil_r. destruct (invoke_all t0); (split; [|by intros]); intros s' t; [by intros [= <- <-]|done].
    + destruct (decide _) as [Hp|Hp]; cbn; cycle 1.
      { split; [|by intros]. intros s' t [= <- <-]. by destruct s. }
      split; [by intros|]. intros s' t q [= <- <- <-]. split; [by destruct s|]. split; [done|].
      split; [by split|]. rewrite bind_run. cbn [get].
      by destruct (from_flag _ _ _ _ _ _) as [[[? ?] ?]|].
  - intros s' t [= <- <-]. by destruct s.
Qed.

Lemma afterwards_flag c p e b s s' t :
  Forall wf_device (devices_ (app_driver s)) → asks c p (app_driver s) →
  afterwards c p e s = Done ((), s', t : list Ev) →
  afterwards c p e (flag_app b s) = Done ((), flag_app b s', t).
Proof.
  intros Hwf Ha. unfold afterwards, on_driver. cbn [flag_app app_driver app_scanner app_world].
  rewrite from_flag_flag by done. destruct (from_flag _ _ _ _ _ _) as [[[? d'] t']|]; [|done]. cbn [flagged].
  destruct (invoke_all t'); [|done]. by intros [= -> <- <-].
Qed.

Lemma afterwards_driver c p e s s' t sc w :
  afterwards c p e s = Done ((), s', t : list Ev) →
  app_scanner s' = app_scanner s ∧ app_world s' = app_world s ∧
  afterwards c p e (mkApp (app_driver s) sc w) = Done ((), mkApp (app_driver s') sc w, t).
Proof.
  unfold afterwards, on_driver. cbn [app_driver app_scanner app_world].
  destruct (from_flag _ _ _ _ _ _) as [[[? d'] t']|]; [|done].
  destruct (invoke_all t'); [|done]. by intros [= -> <- <-].
Qed.

(** Owner's steps that leave the driver alone do the same over another driver. *)
Lemma owner_step_driver s o pc l s' o' d pc2 :
  by_owner l = true → driver_call l = None →
  step bt (mkConf s o pc) l (mkConf s' o' pc) → pc ≠ Ended →
  app_driver s' = app_driver s ∧ app_world s' = app_world s ∧
  step bt (mkConf (mkApp d (app_scanner s) (app_world s)) o pc2) l
          (mkConf (mkApp d (app_scanner s') (app_world s)) o' pc2).
Proof.
  intros Hl Hc Hs Hne.
  inversion Hs as [s0 s1 c cs pc0 t Hr|s0 s1 cs pc0 t Hj Hr| | | | | | | |]; subst; try done.
  - destruct c; try done; cbn [run_command] in Hr.
    + apply bind_Done in Hr as (r & s2 & t1 & t2 & Hst & Hr & ->). injection Hr as <- <-.
      unfold on_scanner in Hst. apply zoom_Done in Hst as (sc & t0 & Hm & -> & ->). cbn.
      split; [done|]. split; [done|]. apply (step_owner bt _ _ CStop). cbn [run_command].
      rewrite bind_run. unfold on_scanner, zoom. cbn [app_scanner]. by rewrite Hm.
    + unfold on_scanner in Hr. apply zoom_Done in Hr as (sc & t0 & Hm & -> & ->). cbn.
      split; [done|]. split; [done|]. apply (step_owner bt _ _ CDestroy). cbn [run_command].
      unfold on_scanner, zoom. cbn [app_scanner]. by rewrite Hm.
  - unfold members_dtor, on_scanner in Hr. apply zoom_Done in Hr as (sc & t0 & Hm & -> & ->). cbn.
    split; [done|]. split; [done|]. apply step_members; [intros Ha; by specialize (Hj Ha)|].
    unfold members_dtor, on_scanner, zoom. cbn [app_scanner]. by rewrite Hm.
Qed.

(** *** The simulation *)

(** Whole calls run ahead: they tell of a flag when it is stored, and have
    processed a report when its call has read the flag. What is still owed:
    lines of the owner, lines of the scan thread, the event being dealt with. *)
Definition owed (fo : fine_owner) : list Ev :=
  match fo with Telling b _ => [ev_log (flag_line b)] | Steady _ => [] end.

Inductive sim : fine State → conf State → list Ev → list ble_event → Prop :=
| sim_between s fo pc : sim (mkFine s fo (Between pc)) (mkConf s (owner_of fo) pc) [] []
| sim_asking s fo c p todo :
    adv_fn c = advertisement_cb_ptr → adv_ctx c ≠ 0 → asks c p (app_driver s) →
    sim (mkFine s fo (Asking c p todo)) (mkConf s (owner_of fo) (Handling (BleAdv c :: todo))) [] []
| sim_deciding s s' fo c p b todo t :
    Forall wf_device (devices_ (app_driver s)) → asks c p (app_driver s) →
    afterwards c p b s = Done ((), s', t) →
    sim (mkFine s fo (Deciding c p b todo)) (mkConf s' (owner_of fo) (Handling todo)) t [BleAdv c].

(** What one party has said in some turns. *)
Definition said (q : party) (ls : list (fine_turn Ev)) : list Ev :=
  ls ≫= λ l, if decide (who l = q) then says l else [].

(** The turns [cls] of whole calls and the turns [ls] of pieces tell the same,
    given what was owed before and is owed after. *)
Record same_tale (po : list Ev) (ps : list Ev) (pe : list ble_event) (cls ls : list (fine_turn Ev))
    (po' ps' : list Ev) (pe' : list ble_event) : Prop := {
  tale_owner : po ++ said TheOwner cls = said TheOwner ls ++ po';
  tale_scan : ps ++ said TheScan cls = said TheScan ls ++ ps';
  tale_kernel : said TheKernel cls = said TheKernel ls;
  tale_takes : pe ++ (cls ≫= takes) = (ls ≫= takes) ++ pe';
  tale_gets : cls ≫= gets = ls ≫= gets;
}.

Lemma said_app q l1 l2 : said q (l1 ++ l2) = said q l1 ++ said q l2.
Proof. unfold said. apply bind_app. Qed.

Lemma same_tale_app po ps pe cls1 ls1 po1 ps1 pe1 cls2 ls2 po2 ps2 pe2 :
  same_tale po ps pe cls1 ls1 po1 ps1 pe1 → same_tale po1 ps1 pe1 cls2 ls2 po2 ps2 pe2 →
  same_tale po ps pe (cls1 ++ cls2) (ls1 ++ ls2) po2 ps2 pe2.
Proof.
  intros [A1 A2 A3 A4 A5] [B1 B2 B3 B4 B5]. split; rewrite ?said_app, ?bind_app.
  - by rewrite app_assoc, A1, <- !app_assoc, B1.
  - by rewrite app_assoc, A2, <- !app_assoc, B2.
  - by rewrite A3, B3.
  - by rewrite app_assoc, A4, <- !app_assoc, B4.
  - by rewrite A5, B5.
Qed.

(** A step that both make. *)
Lemma same_tale_step po ps pe l :
  (who (turn_of l) = TheOwner → po = []) → (who (turn_of l) = TheScan → ps = [] ∧ pe = []) →
  same_tale po ps pe [turn_of l] [turn_of l] po ps pe.
Proof.
  intros Ho Hs. destruct l; cbn in *; split; cbn; rewrite ?app_nil_r; try done.
  - by rewrite Ho, app_nil_r.
  - destruct (Hs eq_refl) as [-> ->]. by rewrite app_nil_r.
  - destruct (Hs eq_refl) as [-> ->]. by rewrite app_nil_r.
Qed.

Ltac tale := split; cbn; rewrite ?app_nil_r; done.

Lemma asking_heard c p s :
  driver_wired (app_driver s) → adv_fn c = advertisement_cb_ptr → adv_ctx c ≠ 0 →
  asks c p (app_driver s) →
  heard (BleAdv c) s = afterwards c p (commissioning_enabled_ (app_driver s)) s.
Proof.
  intros Hw Hfn Hctx Ha.
  assert (before c s = Done (Some p, s, [])) as E.
  { unfold before, on_driver. rewrite bool_decide_eq_true_2 by done.
    rewrite until_flag_eq by apply Hw. destruct Ha as [-> -> Hp]. rewrite decide_True by done. by destruct s. }
  by destruct (proj2 (heard_before c s Hw Hfn) s [] p E) as (_ & _ & _ & ?).
Qed.

Lemma before_ctx c p s s' t : before c s = Done (Some p, s', t) → adv_ctx c ≠ 0.
Proof. unfold before, on_driver. case_bool_decide; [done|]. discriminate. Qed.

Lemma sim_scan cf fc ps pe l s' pc' :
  sim fc cf ps pe → ∀ s fo pc, fc = mkFine s fo (Between pc) → by_owner l = false →
  step bt (mkConf s (owner_of fo) pc) l (mkConf s' (owner_of fo) pc') →
  ∃ cls cf' ps' pe', steps bt cf cls cf' ∧ sim (mkFine s' fo (Between pc')) cf' ps' pe' ∧
    same_tale (owed fo) ps pe (turn_of <$> cls) [turn_of l] (owed fo) ps' pe'.
Proof.
  intros Hsim s fo pc -> Hl Hs. inversion Hsim; subst. exists [l]. do 3 eexists.
  split; [by apply steps_one|]. split; [apply sim_between|].
  apply same_tale_step; [by destruct l|done].
Qed.

(** A step of the owner on the scanner, whatever the scan thread is doing. *)
Lemma sim_owner cf s o fs ps pe l s' o' :
  sim (mkFine s (Steady o) fs) cf ps pe → by_owner l = true → driver_call l = None →
  step bt (mkConf s o (pc_of fs)) l (mkConf s' o' (pc_of fs)) →
  ∃ cls cf' ps' pe', steps bt cf cls cf' ∧ sim (mkFine s' (Steady o') fs) cf' ps' pe' ∧
    same_tale [] ps pe (turn_of <$> cls) [turn_of l] [] ps' pe'.
Proof.
  intros Hsim Hl Hc Hs. exists [l].
  assert (same_tale [] ps pe [turn_of l] [turn_of l] [] ps pe) as Htale
    by (apply same_tale_step; [done|by destruct l]).
  inversion Hsim as [|s0 fo c p todo Hfn Hctx Ha|s0 s2 fo c p b todo t Hwf Ha Hr]; subst;
    cbn [pc_of owner_of] in *.
  - do 3 eexists. split; [by apply steps_one|]. by split; [apply (sim_between s' (Steady o'))|].
  - destruct (owner_step_driver s o _ l s' o' (app_driver s) AtTest Hl Hc Hs) as (Ed & _); [done|].
    do 3 eexists. split; [by apply steps_one|].
    split; [by apply (sim_asking s' (Steady o')); rewrite ?Ed|done].
  - destruct (owner_step_driver s o _ l s' o' (app_driver s2) (Handling todo) Hl Hc Hs)
      as (Ed & Ew & Hs2); [done|].
    destruct (afterwards_driver _ _ _ _ _ _ (app_scanner s') (app_world s) Hr) as (E1 & E2 & Hr').
    replace (mkApp (app_driver s2) (app_scanner s) (app_world s)) with s2 in Hs2
      by (rewrite <- E1, <- E2; by destruct s2).
    replace (mkApp (app_driver s) (app_scanner s') (app_world s)) with s' in Hr'
      by (rewrite <- Ed, <- Ew; by destruct s').
    do 3 eexists. split; [by apply steps_one|].
    split; [by eapply (sim_deciding s' _ (Steady o')); rewrite ?Ed|done].
Qed.

(** The store of a flag. *)
Lemma sim_store cf b s cs fs ps pe :
  sim (mkFine s (Steady (At (flag_command b :: cs))) fs) cf ps pe →
  ∃ cf', step bt cf (flag_label b) cf' ∧ sim (mkFine (flag_app b s) (Telling b cs) fs) cf' ps pe.
Proof.
  intros Hsim. inversion Hsim as [|s0 fo c p todo Hfn Hctx Ha|s0 s2 fo c p e todo t Hwf Ha Hr]; subst;
    cbn [owner_of].
  - eexists. split; [apply flag_step|apply (sim_between _ (Telling b cs))].
  - eexists. split; [apply flag_step|]. apply (sim_asking _ (Telling b cs)); [done..|]. by apply asks_flag.
  - eexists. split; [apply flag_step|]. apply (sim_deciding _ _ (Telling b cs)); [done|by apply asks_flag|].
    by apply afterwards_flag.
Qed.

Lemma sim_tell cf b s cs fs ps pe :
  sim (mkFine s (Telling b cs) fs) cf ps pe → sim (mkFine s (Steady (At cs)) fs) cf ps pe.
Proof.
  intros Hsim. inversion Hsim; subst;
    [apply (sim_between _ (Steady (At cs)))|by apply (sim_asking _ (Steady (At cs)))
    |by eapply (sim_deciding _ _ (Steady (At cs)))].
Qed.

(** The read of the flag: the whole call is made here. *)
Lemma sim_read `{!CryptoTotal C} cf s fo c p todo ps pe :
  sound cf → sim (mkFine s fo (Asking c p todo)) cf ps pe →
  let b := commissioning_enabled_ (app_driver s) in
  ∃ cf' t, step bt cf (Scan (Some (BleAdv c)) t) cf' ∧ ps = [] ∧ pe = [] ∧
    sim (mkFine s fo (Deciding c p b todo)) cf' t [BleAdv c].
Proof.
  intros Hsound Hsim b. inversion Hsim as [|s0 fo0 c0 p0 todo0 Hfn Hctx Ha|]; subst.
  destruct Hsound as [Hw [[He _]%Forall_cons _]]. cbn [shared] in Hw.
  pose proof (asking_heard c p s (wired_driver _ Hw) Hfn Hctx Ha) as Eh.
  destruct (heard_wired (Ev := Ev) (BleAdv c) s He Hw) as [(s1 & t1 & E & _)|(c' & [= <-] & _ & i & Hwalk & Ho)].
  - exists (mkConf s1 (owner_of fo) (Handling todo)), t1. split; [by apply step_callback|].
    split; [done|]. split; [done|]. apply sim_deciding; [apply (wired_driver _ Hw)|done|by rewrite Eh in E].
  - destruct He as (c' & [= <-] & Hc). pose proof (incoming_Some _ _ _ _ _ _ (ask_in _ _ _ Ha))
      as (_ & _ & _ & _ & Hx & _).
    rewrite (overruns_undefined _ i (rep_data _ Hc) Hwalk Ho) in Hx. discriminate Hx.
Qed.

Lemma sim_step `{!CryptoTotal C} fc cf ps pe l fc' :
  sound cf → sim fc cf ps pe → fine_step fc l fc' →
  ∃ cls cf' ps' pe', steps bt cf cls cf' ∧ sim fc' cf' ps' pe' ∧
    same_tale (owed (f_owner fc)) ps pe (turn_of <$> cls) [l] (owed (f_owner fc')) ps' pe'.
Proof.
  intros Hsound Hsim Hl.
  destruct Hl as [s fo pc l s' pc' Hl Hc Hs|s o fs l s' o' Hl Hc Hs|b s cs fs|b s cs fs|
    s s' fo c todo t Hfn Hr|s s' fo c p todo t Hfn Hr|s fo c p todo|s s' fo c p b todo t Hr];
    cbn [f_owner owed].
  - by eapply sim_scan.
  - by eapply sim_owner.
  - destruct (sim_store _ _ _ _ _ _ _ Hsim) as (cf' & Hs & Hsim').
    exists [flag_label b]. do 3 eexists. split; [by apply steps_one|]. split; [exact Hsim'|].
    destruct b; tale.
  - exists []. do 3 eexists. split; [apply steps_nil|]. split; [by apply sim_tell in Hsim|tale].
  - inversion Hsim; subst. destruct (heard_before c s (wired_driver _ (sound_wired _ Hsound)) Hfn) as [Hh _].
    exists [Scan (Some (BleAdv c)) t]. do 3 eexists. split; [by apply steps_one, step_callback, Hh|].
    split; [apply sim_between|tale].
  - inversion Hsim; subst. pose proof (before_ctx _ _ _ _ _ Hr) as Hctx.
    destruct (proj2 (heard_before c s (wired_driver _ (sound_wired _ Hsound)) Hfn) _ _ _ Hr) as (-> & -> & Ha & _).
    exists []. do 3 eexists. split; [apply steps_nil|]. split; [by apply sim_asking|tale].
  - destruct (sim_read _ _ _ _ _ _ _ _ Hsound Hsim) as (cf' & t & Hs & -> & -> & Hsim').
    exists [Scan (Some (BleAdv c)) t]. do 3 eexists. split; [by apply steps_one|]. split; [exact Hsim'|tale].
  - inversion Hsim as [| |s0 s2 fo0 c0 p0 b0 todo0 t0 Hwf Ha Hr0]; subst. rewrite Hr in Hr0.
    injection Hr0 as <- <-. exists []. do 3 eexists. split; [apply steps_nil|]. split; [apply sim_between|tale].
Qed.

Lemma steps_sound `{!CryptoTotal C} cf ls cf' : steps bt cf ls cf' → sound cf → sound cf'.
Proof. induction 1; [done|]. intros. by eauto using step_sound. Qed.

Lemma sim_steps `{!CryptoTotal C} fc cf ps pe ls fc' :
  sound cf → sim fc cf ps pe → fine_steps fc ls fc' →
  ∃ cls cf' ps' pe', steps bt cf cls cf' ∧ sim fc' cf' ps' pe' ∧
    same_tale (owed (f_owner fc)) ps pe (turn_of <$> cls) ls (owed (f_owner fc')) ps' pe'.
Proof.
  intros Hsound Hsim Hls. revert cf ps pe Hsound Hsim.
  induction Hls as [fc|fc l fc1 ls fc2 Hl _ IH]; intros cf ps pe Hsound Hsim.
  { exists []. do 3 eexists. split; [apply steps_nil|]. split; [exact Hsim|tale]. }
  destruct (sim_step _ _ _ _ _ _ Hsound Hsim Hl) as (cls1 & cf1 & ps1 & pe1 & Hs1 & Hsim1 & T1).
  destruct (IH cf1 ps1 pe1) as (cls2 & cf2 & ps2 & pe2 & Hs2 & Hsim2 & T2); [by eapply steps_sound|done|].
  exists (cls1 ++ cls2). do 3 eexists. split; [by eapply steps_app|]. split; [exact Hsim2|].
  rewrite fmap_app. by eapply (same_tale_app _ _ _ _ [l]).
Qed.

(** C17. Let the owner's stores to the flag fall anywhere into the scan thread's
    calls of the driver. When no call is under way at the beginning and at the
    end, an interleaving of whole calls leads from the one configuration to
    the other in which every thread logs the same lines in the same order,
    takes up the same events, and gets the same packets. In it the driver goes
    through the calls that its labels carry one after the other, the lines
    logged in these calls are what the application prints of their events, and
    the reports are taken up in the order the packets brought them. So what
    holds along every sequential run of the driver holds with the threads. *)
Theorem interleavings_sequential `{!CryptoTotal C} cf ls cf' :
  sound cf → fine_steps (whole cf) ls (whole cf') →
  ∃ cls, steps bt cf cls cf' ∧
    (∀ q, said q (turn_of <$> cls) = said q ls) ∧
    (turn_of <$> cls) ≫= takes = ls ≫= takes ∧ (turn_of <$> cls) ≫= gets = ls ≫= gets ∧
    let ops := omap driver_call cls in
    Forall wf_op ops ∧ Forall (λ o, is_init o = false) ops ∧
    (∃ t lines, exec ops (app_driver (shared cf)) = Done ((), app_driver (shared cf'), t) ∧
       invoke_all t = Done lines ∧ cls ≫= driver_log = ev_log <$> lines) ∧
    in_flight (scan cf) ++ (cls ≫= received) = (cls ≫= taken) ++ in_flight (scan cf').
Proof.
  intros Hsound Hls. destruct cf as [s o pc], cf' as [s' o' pc'].
  destruct (sim_steps _ _ _ _ _ _ Hsound (sim_between s (Steady o) pc) Hls)
    as (cls & cf2 & ps & pe & Hs & Hsim & [To Tsc Tk Tt Tg]).
  inversion Hsim; subst. cbn [whole f_owner owed owner shared scan owner_of] in *.
  rewrite app_nil_r in To, Tsc, Tt. exists cls. split; [done|]. split; [by intros []|].
  split; [done|]. split; [done|]. exact (sequential_run bt (mkConf s o pc) cls (mkConf s' o' pc') Hsound Hs).
Qed.
End Machine.

(** ** A concrete interleaving *)

#[local] Instance toy_location : SourceLocation := λ s, s.
#[local] Instance toy_pthread : ThreadImplementation PosixThread.Members toy_system LogCall :=
  @PosixThread.Thread linux_errno _ LogCall _ _ toy_pthreads (Some 16384) None 1.
Abbreviation toy_fine_steps := (fine_steps (Ev := LogCall) toy_bluez).

(** A commissioning telegram is being processed while the owner enables
    commissioning: the store falls between what the call does before it reads
    the flag and the read. *)
Definition overtaken : toy_conf := mkConf open_app (At [CEnable]) (Handling [BleAdv commissioning_report]).

Lemma overtaken_sound : sound overtaken.
Proof.
  split; [split; [apply open_app_wired|reflexivity]|]. split; [|apply Nat.leb_le; reflexivity].
  constructor; [|constructor]. exists commissioning_report. split; [done|].
  split; try done; try (apply is_bytes_dec; reflexivity); try (cbn; lia).
Qed.

Lemma interleavings_sequential_witness :
  ∃ t s', let turns :=
      [mkTurn TheScan [] [] []; mkTurn TheOwner [] [] []; mkTurn TheScan [] [] [];
       mkTurn TheOwner [ev_log (flag_line true)] [] [];
       mkTurn TheScan t [BleAdv commissioning_report] []] in
    let cf' : toy_conf := mkConf s' (At []) (Handling []) in
    toy_fine_steps (whole overtaken) turns (whole cf') ∧
    ∃ cls, toy_steps overtaken cls cf' ∧
      (∀ q, said q (turn_of <$> cls) = said q turns) ∧
      (turn_of <$> cls) ≫= takes = turns ≫= takes ∧ (turn_of <$> cls) ≫= gets = turns ≫= gets ∧
      let ops := omap driver_call cls in
      Forall wf_op ops ∧ Forall (λ o, is_init o = false) ops ∧
      (∃ t lines, exec ops (app_driver (shared overtaken)) = Done ((), app_driver (shared cf'), t) ∧
         invoke_all t = Done lines ∧ cls ≫= driver_log = ev_log <$> lines) ∧
      in_flight (scan overtaken) ++ (cls ≫= received) = (cls ≫= taken) ++ in_flight (scan cf').
Proof.
  destruct (before (Ev := LogCall) commissioning_report open_app) as [[[[p|] s1] t0]|r] eqn:E1;
    [|vm_compute in E1; discriminate E1..].
  assert (s1 = open_app ∧ t0 = []) as [-> ->] by (vm_compute in E1; by injection E1 as _ <- <-).
  destruct (afterwards (Ev := LogCall) commissioning_report p true (flag_app true open_app))
    as [[[[] s'] t]|r] eqn:E2;
    [|vm_compute in E1; injection E1 as <-; vm_compute in E2; discriminate E2].
  exists t, s'. intros turns cf'.
  assert (toy_fine_steps (whole overtaken) turns (whole cf')) as Hs.
  { eapply fine_cons; [by eapply fine_ask|]. eapply fine_cons; [apply (fine_store _ true)|].
    eapply fine_cons; [apply fine_read|]. eapply fine_cons; [apply fine_tell|].
    eapply fine_cons; [by apply fine_decide|apply fine_nil]. }
  split; [exact Hs|]. by apply (interleavings_sequential (Ev := LogCall) toy_bluez overtaken turns cf' overtaken_sound).
Defined.
