(* ===== verification/ConcurrencyZephyr.v ===== *)
(** * The Bluetooth stack and the application's thread (zephyr_core/ble/Ble.cpp with AppEntry.cpp)

    On Zephyr the scanner has no thread of its own: the stack calls
    [zephyr_scan_cb] from its receive work-queue while the application's thread
    is anywhere in its start-up - between the stores of [init_impl], before or
    after the scan is started, while commissioning is enabled - or destroys the
    scanner. A step of the owner is one store or one call, a step of the stack
    one callback, at any time. *)

From stdpp Require Import prelude list strings gmap relations.
From Stdlib Require Import ZArith Lia.
From S2P Require Import Prelude Logger ErrorHandler ErrorCodes Types AdParser Crypto Tlv.
From S2P Require Import Driver DriverRun DriverSafety DriverProps DriverWitness Sync Threads Ble Boards.
From S2P Require Import App AppZephyr.

(** What the owner does: the three stores and the registration of [init_impl],
    the other calls, and the destructor. *)
Inductive owner_action :=
| SetCallback | SetContext | StoreInstance | Register
| StartScan | StopScan | Enable | Disable | Destroy.

#[export] Instance owner_action_eq_dec : EqDecision owner_action.
Proof. solve_decision. Defined.

(** Whose turn it is; the stack's with what it passes. *)
Inductive turn :=
| OwnerTurn
| StackTurn (info : option ZephyrScanner.recv_info) (buf : option bytes).

Section Threads.
Context {C W X : Type} `{CryptoImplementation C} {Ev : Type} `{LogEvent Ev}.
Context `{SourceLocation} (bt : ZephyrScanner.Bt X) (this : nat) (driver_ptr : Z).
Abbreviation State := (AppState C (ZephyrScanner.Scanners X) W).
Implicit Types s : State.
#[local] Instance zephyr_impl : BleImplementation (ZephyrScanner.Scanners X) Ev :=
  ZephyrScanner.zephyr_scanner bt this.

(** A store to a member of the scanner at [this]. *)
Definition store_member (f : ZephyrScanner.Scanner → ZephyrScanner.Scanner)
    : eff (ZephyrScanner.Scanners X) Ev () :=
  sc ← get;
  match ZephyrScanner.objects sc !! this with
  | Some o => modify (λ sc, ZephyrScanner.mkScanners (<[this := f o]> (ZephyrScanner.objects sc))
                              (ZephyrScanner.s_instance_ sc) (ZephyrScanner.stack sc))
  | None => stopE Undefined
  end.

Definition run_owner (c : owner_action) : eff State Ev () :=
  match c with
  | SetCallback => on_scanner (store_member (λ o,
      ZephyrScanner.mkScanner (Some advertisement_cb_ptr) (ZephyrScanner.callback_ctx_ o)))
  | SetContext => on_scanner (store_member (λ o,
      ZephyrScanner.mkScanner (ZephyrScanner.callback_ o) driver_ptr))
  | StoreInstance => on_scanner (modify (λ sc,
      ZephyrScanner.mkScanners (ZephyrScanner.objects sc) (Some this) (ZephyrScanner.stack sc)))
  | Register => on_scanner (ZephyrScanner.sys (ZephyrScanner.bt_le_scan_cb_register bt this))
  | StartScan => on_scanner (ZephyrScanner.start_scan_zephyr bt);; mret ()
  | StopScan => on_scanner (ZephyrScanner.stop_scan_zephyr bt);; mret ()
  | Enable => on_driver enable_commissioning
  | Disable => on_driver disable_commissioning
  | Destroy => on_scanner (ZephyrScanner.destroy_scanner this)
  end.

(** Arguments the stack may pass. *)
Definition wf_recv (info : option ZephyrScanner.recv_info) (buf : option bytes) : Prop :=
  (∀ i, info = Some i → wf_info i) ∧ (∀ b, buf = Some b → is_bytes b).

Inductive stack_step : State * list owner_action → turn → State * list owner_action → Prop :=
| turn_owner s s' c cs t :
    run_owner c s = Done ((), s', t) → stack_step (s, c :: cs) OwnerTurn (s', cs)
| turn_stack s s' cs info buf t :
    wf_recv info buf → on_recv (Ev := Ev) info buf s = Done ((), s', t) →
    stack_step (s, cs) (StackTurn info buf) (s', cs).

Inductive stack_steps : State * list owner_action → list turn → State * list owner_action → Prop :=
| stack_nil cf : stack_steps cf [] cf
| stack_cons cf l cf1 ls cf2 : stack_step cf l cf1 → stack_steps cf1 ls cf2 → stack_steps cf (l :: ls) cf2.

(** The driver call [o] is made in the turn [l], with the arguments the stack
    passes. *)
Definition carried (l : turn) (o : op) : Prop :=
  match l, o with
  | OwnerTurn, OEnable | OwnerTurn, ODisable => True
  | StackTurn (Some i) (Some b), OAdv _ a at_ adv rssi data =>
      ZephyrScanner.info_addr i = Some (a, at_) ∧ ZephyrScanner.info_adv_type i = adv ∧
      ZephyrScanner.info_rssi i = rssi ∧ b = data
  | _, _ => False
  end.

(** The owner's first four steps are [init]. *)
Definition init_actions : list owner_action := [SetCallback; SetContext; StoreInstance; Register].

Fixpoint owner_runs (cs : list owner_action) : eff State Ev () :=
  match cs with
  | [] => mret ()
  | c :: cs' => run_owner c;; owner_runs cs'
  end.

(** The state with another scanner at [this]. *)
Definition with_scanner (o : ZephyrScanner.Scanner) s : State :=
  mkApp (app_driver s)
    (ZephyrScanner.mkScanners (<[this := o]> (ZephyrScanner.objects (app_scanner s)))
       (ZephyrScanner.s_instance_ (app_scanner s)) (ZephyrScanner.stack (app_scanner s)))
    (app_world s).

Lemma store_run f s o :
  ZephyrScanner.objects (app_scanner s) !! this = Some o →
  on_scanner (store_member f) s = Done ((), with_scanner (f o) s, [] : list Ev).
Proof. intros Ho. unfold on_scanner, zoom, store_member. by rewrite get_bind, Ho. Qed.

Lemma init_is_stores s o :
  ZephyrScanner.objects (app_scanner s) !! this = Some o →
  ∃ s' t, owner_runs init_actions s = Done ((), s', t) ∧
    on_scanner (IBle.init (Some advertisement_cb_ptr) driver_ptr) s = Done (is_ok, s', t).
Proof.
  intros Ho. eexists _, _. split; [|refine (zephyr_init_run (Ev := Ev) bt this driver_ptr _)].
  cbn [owner_runs init_actions run_owner].
  rewrite bind_run, (store_run _ _ o) by done.
  rewrite bind_run, (store_run _ _ (ZephyrScanner.mkScanner (Some advertisement_cb_ptr)
    (ZephyrScanner.callback_ctx_ o))) by apply lookup_insert_eq.
  rewrite bind_run. unfold on_scanner at 1, zoom at 1. cbn [modify].
  rewrite bind_run. unfold on_scanner, zoom, ZephyrScanner.sys, zoom. rewrite call_run.
  unfold registered. cbn. by rewrite insert_insert_eq.
Qed.

(** *** What every interleaving keeps *)

(** The scanner exists, the static pointer is null or points to it, its
    callback is null or the driver's; and the driver is wired. *)
Record alive s : Prop := {
  alive_driver : driver_wired (app_driver s);
  alive_instance : ZephyrScanner.s_instance_ (app_scanner s) = None ∨
                   ZephyrScanner.s_instance_ (app_scanner s) = Some this;
  alive_object : ∃ o, ZephyrScanner.objects (app_scanner s) !! this = Some o ∧
    (ZephyrScanner.callback_ o = None ∨ ZephyrScanner.callback_ o = Some advertisement_cb_ptr);
}.

(** [run_impl] when the driver is ready and the scanner has been constructed. *)
Lemma startup_alive crypto s :
  ZephyrScanner.s_instance_ (app_scanner s) = None →
  alive (mkApp (started crypto false) (ZephyrScanner.construct_scanner this (app_scanner s)) (app_world s)).
Proof.
  intros Hi. split; [split; [apply started_inv|done]|by left|].
  eexists. split; [apply lookup_insert_eq|by left].
Qed.

(** Where [zephyr_scan_cb] returns early. *)
#[local] Ltac no_report := by exists []; split_and!; [|constructor|cbn; lia|constructor].

(** What a call of the stack reports: at most one advertisement. *)
Lemma alive_recv s info buf :
  alive s → wf_recv info buf →
  ∃ cs, ZephyrScanner.zephyr_scan_cb (Ev := ble_event) info buf (app_scanner s) =
      Done ((), app_scanner s, BleAdv <$> cs) ∧ Forall sound_report cs ∧ (length cs ≤ 1)%nat ∧
    Forall (λ c, carried (StackTurn info buf) (adv_op c)) cs.
Proof.
  intros [_ Hi (o & Ho & Hcb)] [Hinfo Hbuf]. unfold ZephyrScanner.zephyr_scan_cb. rewrite get_bind.
  destruct Hi as [->| ->]; [no_report|]. rewrite Ho.
  destruct Hcb as [->| ->]; [no_report|].
  destruct info as [i|]; [|no_report].
  destruct buf as [b|]; [|no_report].
  destruct (Hinfo i eq_refl) as [Hr Ha].
  destruct (ZephyrScanner.info_addr i) as [[val at_]|] eqn:Ei; [|no_report].
  destruct Ha as (Ha & Hab & Hat).
  exists [mkAdv advertisement_cb_ptr (ZephyrScanner.callback_ctx_ o) val at_
            (ZephyrScanner.info_adv_type i) (ZephyrScanner.info_rssi i) b].
  split_and!; [|apply Forall_singleton; split; try done; by apply Hbuf|done|].
  2: { by apply Forall_singleton. }
  rewrite bind_run, subspan_in by (unfold ZephyrScanner.BT_ADDR_SIZE, k_addr_len in *; lia).
  cbn [liftO]. rewrite drop_0, take_ge by by rewrite Ha. done.
Qed.

Lemma with_scanner_alive o s :
  alive s → ZephyrScanner.callback_ o = None ∨ ZephyrScanner.callback_ o = Some advertisement_cb_ptr →
  alive (with_scanner o s).
Proof. intros [Hd Hi _] Ho. split; [done|done|]. exists o. split; [apply lookup_insert_eq|done]. Qed.

Lemma sys_alive {A} (f : X → A * X) s (a : A) s' t :
  on_scanner (ZephyrScanner.sys f) s = Done (a, s', t : list Ev) → alive s → alive s'.
Proof.
  intros (sc & Hs & ->)%on_scanner_Done [Hd Hi Ho]. unfold ZephyrScanner.sys in Hs.
  apply zoom_Done in Hs as (w & t0 & Hs & -> & _). by split.
Qed.

(** The two scan calls touch nothing but the stack. *)
Lemma scan_calls_keep (m : eff (ZephyrScanner.Scanners X) Ev (ErrorHandler () BleError)) sc r sc' t :
  m = ZephyrScanner.start_scan_zephyr bt ∨ m = ZephyrScanner.stop_scan_zephyr bt →
  m sc = Done (r, sc', t) →
  ZephyrScanner.objects sc' = ZephyrScanner.objects sc ∧
  ZephyrScanner.s_instance_ sc' = ZephyrScanner.s_instance_ sc.
Proof.
  intros [->| ->]; unfold ZephyrScanner.start_scan_zephyr, ZephyrScanner.stop_scan_zephyr;
    intros (err & sc1 & ? & ? & Hs & Hr & _)%bind_Done; apply zoom_Done in Hs as (w & ? & _ & -> & _);
    (case_decide; [apply bind_Done in Hr as (? & ? & ? & ? & Hl & Hr & _); injection Hl as _ <- _;
      by apply fail_Done in Hr as [-> _]|by apply ok_Done in Hr as [-> _]]).
Qed.

Lemma run_owner_alive c s s' t :
  c ≠ Destroy → run_owner c s = Done ((), s', t) → alive s → alive s'.
Proof.
  intros Hc Hr Hal. pose proof Hal as [Hd Hi (o & Ho & Hcb)]. destruct c; cbn [run_owner] in Hr; try done.
  - rewrite (store_run _ _ o Ho) in Hr. injection Hr as <- _. apply with_scanner_alive; [done|by right].
  - rewrite (store_run _ _ o Ho) in Hr. injection Hr as <- _. by apply with_scanner_alive.
  - injection Hr as <- _. split; [done|by right|by exists o].
  - by eapply sys_alive.
  - apply bind_Done in Hr as (? & s1 & ? & ? & Hs & Hr & _). injection Hr as <- _.
    apply on_scanner_Done in Hs as (sc & Hs & ->). apply scan_calls_keep in Hs as [E1 E2]; [|by left].
    split; cbn [app_scanner app_driver]; rewrite ?E1, ?E2; [done|done|by exists o].
  - apply bind_Done in Hr as (? & s1 & ? & ? & Hs & Hr & _). injection Hr as <- _.
    apply on_scanner_Done in Hs as (sc & Hs & ->). apply scan_calls_keep in Hs as [E1 E2]; [|by right].
    split; cbn [app_scanner app_driver]; rewrite ?E1, ?E2; [done|done|by exists o].
  - apply on_driver_flag in Hr as ->. split; [by apply set_commissioning_wired|done|by exists o].
  - apply on_driver_flag in Hr as ->. split; [by apply set_commissioning_wired|done|by exists o].
Qed.

(** One call of the stack: it is processed, or overruns. *)
Lemma recv_step `{!CryptoTotal C} s info buf :
  alive s → wf_recv info buf →
  (∃ s' ls, on_recv (Ev := Ev) info buf s = Done ((), s', ev_log <$> ls) ∧ alive s') ∨
  (on_recv (Ev := Ev) info buf s = Stop Undefined ∧
   ∃ cs, ZephyrScanner.zephyr_scan_cb info buf (app_scanner s) =
     Done ((), app_scanner s, BleAdv <$> cs) ∧ Exists overrun cs).
Proof.
  intros Hal Hwf. pose proof Hal as [Hd Hi Ho].
  destruct (alive_recv s info buf Hal Hwf) as (cs & E & Hcs & _ & _). unfold on_recv, delivered. rewrite E.
  replace (mkApp (app_driver s) (app_scanner s) (app_world s)) with s by by destruct s.
  destruct (heard_all_step (Ev := Ev) cs s Hd Hcs) as [(s' & ls & -> & Hd' & Hsc)|[-> Hov]].
  - left. exists s', ls. split; [done|]. by split; rewrite ?Hsc.
  - right. split; [done|]. by exists cs.
Qed.

Lemma stack_step_alive `{!CryptoTotal C} cf l cf' :
  Destroy ∉ cf.2 → stack_step cf l cf' → alive cf.1 → alive cf'.1 ∧ Destroy ∉ cf'.2.
Proof.
  intros Hn Hs Hal. destruct Hs as [s s' c cs t Hr|s s' cs info buf t Hwf Hr]; cbn [fst snd] in *.
  - apply not_elem_of_cons in Hn as [Hc Hn]. split; [|done]. by eapply run_owner_alive.
  - split; [|done]. destruct (recv_step s info buf Hal Hwf) as [(s1 & ls & E & Hal')|[E _]];
      rewrite Hr in E; [by injection E as <- _|discriminate E].
Qed.

(** A call of the stack reaches the driver at most once. *)
Lemma recv_call s info buf s' t :
  alive s → wf_recv info buf → on_recv info buf s = Done ((), s', t : list Ev) →
  app_driver s' = app_driver s ∨
  ∃ o, carried (StackTurn info buf) o ∧ makes o (app_driver s) (app_driver s').
Proof.
  intros Hal Hwf. destruct (alive_recv s info buf Hal Hwf) as (cs & E & Hcs & Hlen & Hcar).
  unfold on_recv, delivered. rewrite E.
  replace (mkApp (app_driver s) (app_scanner s) (app_world s)) with s by by destruct s.
  destruct cs as [|c [|c2 cs]]; [intros [= <- _]; by left| |cbn in Hlen; lia].
  rewrite Forall_singleton in Hcs, Hcar. cbn [fmap list_fmap heard_all].
  intros (u & s1 & ? & ? & Hr & Hrest & _)%bind_Done. injection Hrest as <- _. right.
  destruct u. eexists. split; [exact Hcar|]. by eapply heard_makes.
Qed.

Lemma stack_step_call cf l cf' :
  Destroy ∉ cf.2 → alive cf.1 → stack_step cf l cf' →
  app_driver cf'.1 = app_driver cf.1 ∨
  ∃ o, carried l o ∧ makes o (app_driver cf.1) (app_driver cf'.1).
Proof.
  intros Hn Hal Hs. destruct Hs as [s s' c cs t Hr|s s' cs info buf t Hwf Hr]; cbn [fst snd] in *;
    [|by eapply recv_call].
  apply not_elem_of_cons in Hn as [Hc _]. destruct c; cbn [run_owner] in Hr; try done.
  - left. by apply on_scanner_Done in Hr as (sc & _ & ->).
  - left. by apply on_scanner_Done in Hr as (sc & _ & ->).
  - left. by apply on_scanner_Done in Hr as (sc & _ & ->).
  - left. by apply on_scanner_Done in Hr as (sc & _ & ->).
  - left. apply bind_Done in Hr as (? & s1 & ? & ? & Hs & Hr & _). injection Hr as <- _.
    by apply on_scanner_Done in Hs as (sc & _ & ->).
  - left. apply bind_Done in Hr as (? & s1 & ? & ? & Hs & Hr & _). injection Hr as <- _.
    by apply on_scanner_Done in Hs as (sc & _ & ->).
  - right. exists OEnable. split; [done|]. by apply (flag_makes true) in Hr.
  - right. exists ODisable. split; [done|]. by apply (flag_makes false) in Hr.
Qed.

(** The driver calls of a run, in order, each carried by one of its turns. *)
Lemma stack_run `{!CryptoTotal C} cf ls cf' :
  alive cf.1 → Destroy ∉ cf.2 → stack_steps cf ls cf' →
  alive cf'.1 ∧
  ∃ ops t, Forall wf_op ops ∧ Forall (λ o, is_init o = false) ops ∧
    Forall (λ o, ∃ l, l ∈ ls ∧ carried l o) ops ∧
    exec ops (app_driver cf.1) = Done ((), app_driver cf'.1, t).
Proof.
  intros Hal Hn Hsteps. induction Hsteps as [cf|cf l cf1 ls cf2 Hl _ IH].
  { split; [done|]. exists [], []. by split_and!. }
  destruct (stack_step_alive _ _ _ Hn Hl Hal) as [Hal1 Hn1].
  destruct (IH Hal1 Hn1) as (Hal2 & ops & t & Hwf & Hni & Hcar & Hexec). split; [done|].
  assert (Forall (λ o, ∃ l', l' ∈ l :: ls ∧ carried l' o) ops) as Hcar'.
  { eapply Forall_impl; [exact Hcar|]. intros o (l' & Hin & Ho). exists l'. split; [by right|done]. }
  destruct (stack_step_call cf l cf1 Hn Hal Hl) as [E|(o & Hc & Ho & Hi & t1 & Hr)].
  - exists ops, t. split_and!; [done..|]. by rewrite <- E.
  - exists (o :: ops), (t1 ++ t). split_and!; [by constructor..| |].
    + constructor; [|done]. exists l. split; [by left|done].
    + cbn [exec]. by rewrite bind_run, Hr, Hexec.
Qed.

(** C23. However the stack's calls fall between the stores and calls of the owner,
    as long as the scanner is not destroyed: the table invariant and the wiring
    hold throughout, the next call of the stack, whatever it passes, is
    processed to the end unless its advertisement overruns by a byte, and the
    driver makes a sequential run of the calls that carry what the stack passed. *)
Theorem stack_calls_safe `{!CryptoTotal C} cf ls cf' info buf :
  alive cf.1 → Destroy ∉ cf.2 → stack_steps cf ls cf' → wf_recv info buf →
  alive cf'.1 ∧
  ((∃ s' lines, on_recv info buf cf'.1 = Done ((), s', ev_log <$> lines : list Ev)) ∨
   on_recv (Ev := Ev) info buf cf'.1 = Stop Undefined ∧
   ∃ cs, ZephyrScanner.zephyr_scan_cb info buf (app_scanner cf'.1) =
     Done ((), app_scanner cf'.1, BleAdv <$> cs) ∧ Exists overrun cs) ∧
  ∃ ops t, Forall wf_op ops ∧ Forall (λ o, is_init o = false) ops ∧
    Forall (λ o, ∃ l, l ∈ ls ∧ carried l o) ops ∧
    exec ops (app_driver cf.1) = Done ((), app_driver cf'.1, t).
Proof.
  intros Hal Hn Hsteps Hwf. destruct (stack_run _ _ _ Hal Hn Hsteps) as [Hal' Hseq].
  split; [done|]. split; [|done].
  destruct (recv_step _ info buf Hal' Hwf) as [(s' & lines & E & _)|Hov]; [left; eauto|by right].
Qed.

(** *** Setting the flag between two calls of the stack *)

Definition flag_action (b : bool) : owner_action := if b then Enable else Disable.

(** The flag decides about a report of the call. *)
Definition call_contested s info buf : Prop :=
  ∃ c cs, ZephyrScanner.zephyr_scan_cb info buf (app_scanner s) =
      Done ((), app_scanner s, BleAdv <$> cs) ∧ c ∈ cs ∧
    candidate (app_driver s) (adv_addr c) (adv_addr_type c) (adv_adv_type c) (adv_data c).

(** A call of the stack and the owner's setting of the commissioning flag
    commute, unless the call carries a commissioning telegram of an unknown
    device: that [run_impl] enables commissioning after the scan is running
    decides about nothing else. *)
Theorem stack_calls_commute b s cs info buf s1 s2 t1 t2 :
  alive s → wf_recv info buf → ¬ call_contested s info buf →
  run_owner (flag_action b) s = Done ((), s1, t1) →
  on_recv info buf s = Done ((), s2, t2 : list Ev) →
  ∃ s', stack_step (s1, cs) (StackTurn info buf) (s', cs) ∧ stack_step (s2, flag_action b :: cs) OwnerTurn (s', cs).
Proof.
  intros Hal Hwf Hnc Hflag Hr. pose proof Hal as [Hd Hi Ho].
  assert (∀ s, ∃ t, run_owner (flag_action b) s = Done ((), flag_app b s, t)) as Hset
    by (intros; destruct b; by eexists).
  destruct (Hset s) as [t0 E0]. rewrite E0 in Hflag. injection Hflag as <- _.
  destruct (alive_recv s info buf Hal Hwf) as (cs' & E & Hcs & Hlen & _).
  exists (flag_app b s2). split; [|destruct (Hset s2) as [t3 E3]; by eapply turn_owner].
  apply (turn_stack _ _ _ info buf t2); [done|]. revert Hr. unfold on_recv, delivered.
  change (app_scanner (flag_app b s)) with (app_scanner s). rewrite E.
  replace (mkApp (app_driver s) (app_scanner s) (app_world s)) with s by by destruct s.
  change (mkApp (app_driver (flag_app b s)) (app_scanner s) (app_world (flag_app b s))) with (flag_app b s).
  destruct cs' as [|c [|c2 cs']]; [by intros [= <- <-]| |cbn in Hlen; lia].
  rewrite Forall_singleton in Hcs. cbn [fmap list_fmap heard_all].
  intros (u & s3 & ta & tb & Hh & Hrest & ->)%bind_Done. injection Hrest as <- <-. destruct u.
  rewrite bind_run, (heard_flag b c s s3 ta); [done|done|done| |done].
  intros Hcand. apply Hnc. exists c, [c]. split_and!; [done|by left|done].
Qed.
End Threads.

(** ** Concrete interleavings *)

#[local] Instance toy_location : SourceLocation := λ s, s.
Definition toy_bt : ZephyrScanner.Bt () :=
  ZephyrScanner.mkBt _ (λ _ w, ((), w)) (λ _ w, (0, w)) (λ w, (0, w)).

(** The driver is ready, the scanner constructed at address 5. *)
Definition constructed_app : AppState () (ZephyrScanner.Scanners ()) () :=
  mkApp (app_driver zephyr_app)
    (ZephyrScanner.mkScanners {[ 5%nat := ZephyrScanner.mkScanner None 0 ]} None ()) ().

(** The same with both members and the static pointer stored. *)
Definition stored_app : AppState () (ZephyrScanner.Scanners ()) () :=
  mkApp (app_driver zephyr_app)
    (ZephyrScanner.mkScanners {[ 5%nat := ZephyrScanner.mkScanner (Some advertisement_cb_ptr) 77 ]}
       (Some 5%nat) ()) ().

Definition switch_info : option ZephyrScanner.recv_info :=
  Some (ZephyrScanner.mkInfo (Some (switch_addr, 1)) 3 (-70)).
Definition press_buf : option bytes := Some (adv_of press_payload).

Lemma switch_recv_wf : wf_recv switch_info press_buf.
Proof.
  split; [intros i [= <-]|intros b [= <-]; apply is_bytes_dec; reflexivity].
  split; [unfold is_i8; cbn; lia|]. split; [reflexivity|].
  split; [apply is_bytes_dec; reflexivity|unfold is_u8; lia].
Qed.

Lemma zephyr_driver_wired : driver_wired (app_driver zephyr_app).
Proof. split; [|done]. by destruct sample_inv. Qed.

Lemma constructed_alive : alive 5 constructed_app.
Proof.
  split; [apply zephyr_driver_wired|by left|]. eexists. split; [reflexivity|by left].
Qed.

Lemma stored_alive : alive 5 stored_app.
Proof.
  split; [apply zephyr_driver_wired|by right|]. eexists. split; [reflexivity|by right].
Qed.

Lemma init_keeps : Destroy ∉ init_actions.
Proof. apply (bool_decide_unpack _). reflexivity. Qed.

(** [init] as far as the static pointer, interrupted by the press of a button
    after its first store (still unheard) and once more before the
    registration (heard: another user of the stack may have it scan). *)
Lemma stack_calls_safe_witness :
  ∃ s' lines ops t,
    stack_steps (Ev := LogCall) toy_bt 5 77 (constructed_app, init_actions)
      [OwnerTurn; StackTurn switch_info press_buf; OwnerTurn; OwnerTurn] (stored_app, [Register]) ∧
    on_recv (Ev := LogCall) switch_info press_buf stored_app = Done ((), s', ev_log <$> lines) ∧
    exec ops (app_driver constructed_app) = Done ((), app_driver stored_app, t).
Proof.
  assert (stack_steps (Ev := LogCall) toy_bt 5 77 (constructed_app, init_actions)
      [OwnerTurn; StackTurn switch_info press_buf; OwnerTurn; OwnerTurn] (stored_app, [Register])) as Hsteps.
  { eapply stack_cons; [eapply turn_owner; vm_compute; reflexivity|].
    eapply stack_cons; [eapply (turn_stack _ _ _ _ _ _ switch_info press_buf);
      [apply switch_recv_wf|vm_compute; reflexivity]|].
    eapply stack_cons; [eapply turn_owner; vm_compute; reflexivity|].
    eapply stack_cons; [eapply turn_owner; vm_compute; reflexivity|].
    apply stack_nil. }
  destruct (stack_calls_safe (Ev := LogCall) toy_bt 5 77 (constructed_app, init_actions) _ _
    switch_info press_buf constructed_alive init_keeps Hsteps switch_recv_wf)
    as (_ & [(s' & lines & E)|[E _]] & ops & t & _ & _ & _ & Hexec).
  - exists s', lines, ops, t. split; [exact Hsteps|]. split; [exact E|exact Hexec].
  - vm_compute in E. discriminate E.
Defined.

(** Commissioning is enabled while the press comes in. *)
Lemma stack_calls_commute_witness :
  ∃ s1 s2 s' : AppState () (ZephyrScanner.Scanners ()) (), stack_step (Ev := LogCall) toy_bt 5 77 (s1, []) (StackTurn switch_info press_buf) (s', []) ∧
    stack_step (Ev := LogCall) toy_bt 5 77 (s2, [Enable]) OwnerTurn (s', []).
Proof.
  destruct (on_recv (Ev := LogCall) switch_info press_buf stored_app) as [[[[] s2] t2]|r] eqn:E;
    [|vm_compute in E; discriminate E].
  destruct (run_owner (Ev := LogCall) toy_bt 5 77 Enable stored_app) as [[[[] s1] t1]|r] eqn:E1;
    [|vm_compute in E1; discriminate E1].
  destruct (stack_calls_commute (Ev := LogCall) toy_bt 5 77 true stored_app [] switch_info press_buf
    s1 s2 t1 t2 stored_alive switch_recv_wf) as (s' & H1 & H2); [|exact E1|exact E|].
  - intros (c & cs & Ec & Hin & p & _ & Hf & _). vm_compute in Ec. injection Ec as Ec.
    destruct cs as [|c' [|? ?]]; cbn in Ec; [discriminate Ec| |discriminate Ec].
    apply list_elem_of_singleton in Hin as ->. injection Ec as <-. vm_compute in Hf. discriminate Hf.
  - exists s1, s2, s'. split; [exact H1|exact H2].
Defined.
