(* ===== verification/Deployment.v ===== *)
(** * The two gateways as deployed

    The application over the crypto backends it is built with: what the POSIX
    gateway, whose backend overlooks the verdict on the tag, does with forged
    telegrams, and what stands behind every event of the Zephyr gateway. The
    crypto libraries stay parameters; of OpenSSL the documented return values
    are assumed, of Zephyr's [bt_ccm_decrypt] nothing. *)

From stdpp Require Import prelude list strings.
From Stdlib Require Import ZArith Lia.
From S2P Require Import Prelude Logger ErrorHandler ErrorCodes Types AdParser Crypto Tlv.
From S2P Require Import Driver DriverRun DriverSafety DriverProps DriverWitness Sync Threads Ble Boards.
From S2P Require Import App AppPosix AppZephyr Concurrency.

(** ** POSIX: OpenSSL behind the driver *)

Section PosixGateway.
Context {L W X Ev : Type} `{LogEvent Ev} (ssl : PosixAesCcm.OpenSSL L).
#[local] Instance posix_crypto : CryptoImplementation L := PosixAesCcm.AesCcm ssl.
#[local] Instance posix_crypto_total : CryptoTotal L := PosixAesCcm.AesCcm_total ssl.
Abbreviation State := (AppState L (HciScanner.Scanner X) W).

(** The library behaves as documented, and the set-up calls for this payload
    of [dev] succeed. *)
Definition ssl_ready (dev : EnoceanDevice) (p : bytes) (w : L) : Prop :=
  PosixAesCcm.update_returns_0_1 ssl ∧
  PosixAesCcm.set_up_succeeds ssl (key dev) (nonce_of (addr (ble_addr dev)) (p_seq p))
    (p_aad p) (p_tag p) w.

Lemma any_payload_verified dev p w :
  wf_device dev → ssl_ready dev p w → ∃ w' l, check_tag w dev p = Done (true, w', l).
Proof.
  intros [[Ha _] _ [Hk _] _ _] [H01 Hset].
  destruct (PosixAesCcm.posix_accepts_any_tag ssl _ _ _ _ w H01 Hset Hk) as (w' & l & E).
  { by apply nonce_of_length. }
  exists w', l. unfold check_tag, posix_crypto. rewrite E. done.
Qed.

(** A telegram of a commissioned switch [dev], made by anyone: the address and
    the counter travel in the clear, the tag is any four bytes. *)
Section Forged.
Context (plen : Z) (a : bytes) (rssi ctx : Z) (data : bytes) (s : State).
Context (Hw : wired s) (Hctx : HciScanner.callback_ctx_ (app_scanner s) = ctx) (Hne : ctx ≠ 0).
Context (Hinit : initialised_ (app_driver s) = true).
Context (Hwf : wf_report (report a rssi ctx data)).
Context (Hpb : is_bytes (adv_packet plen [report a rssi ctx data])).
Context (i : nat) (dev : EnoceanDevice) (seq st : Z) (tag : bytes).
Context (Hf : find_slot a (devices_ (app_driver s)) = Some i).
Context (Hi : devices_ (app_driver s) !! i = Some dev) (Hty : type dev = Switch).
Context (Hs : is_u32 seq) (Hlt : seq_num dev < seq) (Hst : is_u8 st) (Hst' : st < 32).
Context (Htb : is_bytes tag) (Ht : length tag = k_tag_len).
Context (Hc : carries data (data_payload seq [st] tag)).
Context (Hssl : ssl_ready dev (data_payload seq [st] tag) (crypto_ (app_driver s))).

Lemma forged_data_bytes : is_bytes data.
Proof using Hwf Hpb.
  unfold adv_packet in Hpb. cbn [fmap list_fmap concat] in Hpb. rewrite app_nil_r in Hpb.
  apply Forall_app in Hpb as [_ Hb].
  exact (rep_data _ (encoded_sound (report a rssi ctx data) eq_refl Hwf Hb)).
Qed.

Lemma forged_run :
  ∃ s' ls, on_packet (Ev := Ev) (adv_packet plen [report a rssi ctx data]) s =
      Done ((), s', ev_log <$> ls) ∧
    button_line a st ∈ ls ∧ has_seq (app_driver s') a seq ∧ wired s'.
Proof using All.
  pose proof (Forall_lookup_1 _ _ _ _ (inv_wf _ (wired_inv _ (wired_driver _ Hw))) Hi) as Hwd.
  destruct (any_payload_verified _ _ _ Hwd Hssl) as (w' & l & Htag).
  assert (length (data_payload seq [st] tag) = 9%nat) as Hp.
  { by destruct (data_payload_fields seq [st] tag Hs Ht) as (_ & _ & _ & _ & El). }
  assert (on_packet (Ev := Ev) (adv_packet plen [report a rssi ctx data]) s =
    Done ((), mkApp (set_slot i (set_seq_num seq (set_rssi rssi dev)) (set_crypto w' (app_driver s)))
                (app_scanner s) (app_world s), ev_log <$> l ++ [button_line a st])) as E.
  { rewrite (press_run plen a rssi ctx data s Hw Hctx Hne Hinit forged_data_bytes Hwf seq st [] tag i dev w' l)
      by (done || by apply Forall_nil || (rewrite Hp; lia)). by rewrite bool_decide_eq_true_2. }
  eexists _, (l ++ [button_line a st]). split; [exact E|].
  split; [apply elem_of_app; right; by left|]. split.
  - exists i, (set_seq_num seq (set_rssi rssi dev)). split; [|split; [|done]].
    + apply set_slot_lookup. by eapply lookup_lt_Some.
    + pose proof (find_slot_addr _ _ _ _ Hf Hi) as Ea.
      apply find_slot_Some in Hf as [(dev0 & Hi0 & [Hact _]) _]. rewrite Hi in Hi0. by injection Hi0 as <-.
  - destruct (packet_survives (Ev := Ev) _ s Hw Hpb) as [(s1 & ls1 & E1 & Hw1)|[E1 _]];
      rewrite E in E1; [|discriminate E1]. injection E1 as <- _. exact Hw1.
Qed.

(** C12. On POSIX a switch telegram with any tag is obeyed: the application logs the
    button, and the counter of the switch becomes the one in the telegram. *)
Theorem forged_press_is_logged :
  ∃ s' ls, on_packet (Ev := Ev) (adv_packet plen [report a rssi ctx data]) s =
      Done ((), s', ev_log <$> ls) ∧
    button_line a st ∈ ls ∧ has_seq (app_driver s') a seq ∧ wired s'.
Proof using All. apply forged_run. Qed.

(** C13. If the counter in it is the largest one, the switch is deaf from then on:
    however the threads and the kernel take the gateway on, whatever packets
    arrive and whatever the owner calls, the calls that this makes on the
    driver, run one after the other, report nothing from that address any
    more - what the application logs in them is what it prints of those
    events - and the driver ends with the exhausted counter. *)
Theorem one_packet_silences `{ThreadImplementation PosixThread.Members X Ev} `{SourceLocation}
    (bt : HciScanner.Bluez X) :
  seq = 2 ^ 32 - 1 →
  ∃ s' t, on_packet (Ev := Ev) (adv_packet plen [report a rssi ctx data]) s = Done ((), s', t) ∧
    ∀ o ls cf', steps (Ev := Ev) bt (mkConf s' o AtTest) ls cf' →
    ∃ t' lines,
      exec (omap driver_call ls) (app_driver s') = Done ((), app_driver (shared cf'), t') ∧
      invoke_all t' = Done lines ∧ ls ≫= driver_log = ev_log <$> lines ∧
      Forall (λ r, r.1 ≠ a) (accepted t') ∧ has_seq (app_driver (shared cf')) a (2 ^ 32 - 1).
Proof using All.
  intros Emax. destruct forged_run as (s' & ls0 & E & _ & Hseq & Hw'). rewrite Emax in Hseq.
  exists s', (ev_log <$> ls0). split; [exact E|]. intros o ls cf' Hsteps.
  destruct (sequential_run (Ev := Ev) bt _ _ _ (Build_sound (mkConf s' o AtTest) Hw' I) Hsteps)
    as (Hops & Hni & (t' & lines & Hexec & Hinv' & Hlog) & _). cbn [shared] in Hexec.
  pose proof (wired_inv _ (wired_driver _ Hw')) as Hinv.
  exists t', lines. split_and!; [done..|by eapply exhausted_silent|by eapply exhausted_stays].
Qed.
End Forged.
End PosixGateway.

(** ** Zephyr: bt_ccm_decrypt behind the driver *)

Section ZephyrGateway.
Context {W X Ev : Type} `{LogEvent Ev} (bt_ccm_decrypt : ZephyrAesCcm.bt_ccm_decrypt_t).
#[local] Instance zephyr_crypto : CryptoImplementation () := ZephyrAesCcm.AesCcm bt_ccm_decrypt.
#[local] Instance zephyr_crypto_total : CryptoTotal () := ZephyrAesCcm.AesCcm_total bt_ccm_decrypt.
Abbreviation State := (AppState () (ZephyrScanner.Scanners X) W).
Implicit Types s : State.

(** The advertisement [buf] contains the record of payload [p], and the
    controller's library has accepted its tag for [dev]: under the key of
    [dev], the nonce of its address and the payload's counter, over the bytes
    of the record from the length byte up to the tag. *)
Definition vouched (dev : EnoceanDevice) (p buf : bytes) : Prop :=
  (∃ pre suf, buf = pre ++ ZephyrAesCcm.record_header (p_aad p) ++ p_tag p ++ suf) ∧
  (length (p_aad p) ≤ ZephyrAesCcm.k_max_aad)%nat ∧
  ZephyrAesCcm.verify bt_ccm_decrypt (key dev) (nonce_of (addr (ble_addr dev)) (p_seq p))
    (p_aad p) (p_tag p) = 0.

Lemma verdict_vouched dev p buf pt w w' l :
  wf_device dev → is_bytes buf → extract_manufacturer_data buf = Done p → (4 ≤ length p)%nat →
  aes_ccm_decrypt (key dev) (nonce_of (addr (ble_addr dev)) (p_seq p)) (p_aad p) [] (p_tag p) [] w =
    Done ((true, pt), w', l) →
  vouched dev p buf.
Proof.
  intros [[Ha _] _ [Hk _] _ _] Hb Hx Hp Hrun. destruct (aad_tag p Hp) as [Ep Ht].
  rewrite <- Ep in Hx.
  destruct (ZephyrAesCcm.zephyr_authenticates_record bt_ccm_decrypt buf (p_aad p) (p_tag p) (key dev)
    (nonce_of (addr (ble_addr dev)) (p_seq p)) w Hb Hx Ht Hk) as [Hin [t E]].
  { by apply nonce_of_length. }
  unfold zephyr_crypto in Hrun. rewrite E in Hrun. injection Hrun as Hok _ _ _.
  apply bool_decide_eq_true in Hok as [Hlen Hv]. split_and!; [|done..].
  destruct Hin as (pre & suf & Eb). exists pre, suf. exact Eb.
Qed.

(** C14. What the application logs about an advertisement is what its callbacks
    print of the events of the driver's call for it, and of nothing else; and
    each of these events is a log line, the commissioning of an unknown device
    in commissioning mode, or the report of a commissioned device, fresh and
    vouched for. *)
Theorem zephyr_events_vouched this ctx s i buf s' t :
  listens this ctx s → wf_info i → is_bytes buf →
  on_recv (Some i) (Some buf) s = Done ((), s', t : list Ev) →
  match ZephyrScanner.info_addr i with
  | None => s' = s ∧ t = []
  | Some (a, at_) => ∃ evs ls,
      advertisement_cb (bool_decide (ctx ≠ 0)) a at_ (ZephyrScanner.info_adv_type i)
        (ZephyrScanner.info_rssi i) buf (app_driver s) = Done ((), app_driver s', evs) ∧
      invoke_all evs = Done ls ∧ t = ev_log <$> ls ∧
      ∀ e, e ∈ evs → is_log e = false →
      ∃ p, extract_manufacturer_data buf = Done p ∧
        ((commissioning_enabled_ (app_driver s) = true ∧ find_slot a (devices_ (app_driver s)) = None ∧
            e = EvCommissioned on_commissioned_ptr
                  (new_device a at_ (ZephyrScanner.info_rssi i) p)) ∨
         ∃ j dev, devices_ (app_driver s) !! j = Some dev ∧ is_device a dev ∧
           seq_num dev < p_seq p ∧ vouched dev p buf ∧
           let dev' := set_seq_num (p_seq p) (set_rssi (ZephyrScanner.info_rssi i) dev) in
           devices_ (app_driver s') !! j = Some dev' ∧
           e ∈ report_events app_callbacks dev' p)
  end.
Proof.
  intros Hl Hi Hb. unfold on_recv, delivered.
  rewrite (scan_cb_run this ctx) by (done || by intros ? [= <-]).
  replace (mkApp (app_driver s) (app_scanner s) (app_world s)) with s by by destruct s.
  unfold recv_report. destruct (ZephyrScanner.info_addr i) as [[a at_]|] eqn:Ei; cycle 1.
  { cbn. by intros [= <- <-]. }
  cbn [option_list mbind option_bind fst snd fmap list_fmap heard_all heard].
  intros (? & s1 & t1 & t2 & Hadv & Hrest & ->)%bind_Done. injection Hrest as <- <-.
  rewrite app_nil_r. set (c := mkAdv _ _ _ _ _ _ _) in Hadv.
  destruct (lis_driver _ _ _ Hl) as [Hinv Hcb].
  unfold heard, advertised, on_driver in Hadv. rewrite decide_True in Hadv by done.
  cbn [c adv_ctx adv_addr adv_addr_type adv_adv_type adv_rssi adv_data] in Hadv. clear c.
  destruct (advertisement_cb _ _ _ _ _ _ _) as [[[[] d'] evs]|] eqn:Hrun; [|done].
  destruct (invoke_all evs) as [ls|] eqn:Hls; [|done]. injection Hadv as _ <- <-.
  exists evs, ls. split_and!; [done..|]. intros e He Hev.
  unfold advertisement_cb in Hrun. case_bool_decide; cbn [negb] in Hrun;
    [|injection Hrun as _ <-; by apply not_elem_of_nil in He].
  destruct (events_authentic _ _ _ _ _ _ _ _ _ e Hinv Hb Hrun He Hev) as (p & Hx & Hcase).
  exists p. split; [done|].
  destruct Hcase as [(fn & Hce & Hfn & Hf & ->)|(j & dev & cc & l & pt & Hj & Hd & Hlt & Hdec & Hj' & Hin)].
  - left. rewrite Hcb in Hfn. injection Hfn as <-. done.
  - right. exists j, dev. pose proof (Forall_lookup_1 _ _ _ _ (inv_wf _ Hinv) Hj) as Hwd.
    rewrite Hcb in Hin. split_and!; try done.
    destruct (decide (4 ≤ length p)%nat) as [Hp|Hp]; cycle 1.
    { rewrite p_seq_short in Hlt by lia. destruct (wf_dev_seq _ Hwd). lia. }
    destruct Hd as [_ Ea]. rewrite <- Ea in Hdec. by eapply verdict_vouched.
Qed.

(** C15. On Zephyr the fate of a fresh telegram of a commissioned switch, with a
    valid status byte and no user data, is decided by the controller's verdict
    on its tag, and by nothing else: if the tag
    verifies, the application logs the button and nothing else, and the
    counter advances; if it does not, the refusal is logged and nothing else,
    and only the signal strength is noted. *)
Theorem zephyr_press_decided this ctx s a rssi data i dev seq st tag :
  listens this ctx s → ctx ≠ 0 → initialised_ (app_driver s) = true →
  is_i8 rssi → is_bytes data →
  find_slot a (devices_ (app_driver s)) = Some i →
  devices_ (app_driver s) !! i = Some dev → type dev = Switch →
  is_u32 seq → seq_num dev < seq → is_u8 st → st < 32 → is_bytes tag → length tag = k_tag_len →
  carries data (data_payload seq [st] tag) →
  let err := ZephyrAesCcm.verify bt_ccm_decrypt (key dev) (nonce_of a seq) (to_le 4 seq ++ [st]) tag in
  on_recv (Ev := Ev) (Some (ZephyrScanner.mkInfo (Some (a, k_addr_random)) k_adv_nonconn_ind rssi))
    (Some data) s =
  if decide (err = 0) then
    Done ((), mkApp (set_slot i (set_seq_num seq (set_rssi rssi dev)) (app_driver s)) (app_scanner s)
                (app_world s), [ev_log (button_line a st)])
  else
    Done ((), mkApp (set_slot i (set_rssi rssi dev) (app_driver s)) (app_scanner s) (app_world s),
          [ev_log (ZephyrAesCcm.refusal_line err (key dev) (nonce_of a seq) (to_le 4 seq ++ [st]) tag);
           ev_log (LOGGER_WARNING "EnoceanDriver: switch auth failed" [])]).
Proof.
  intros Hl Hne Hinit Hr Hb Hf Hi Hty Hs Hlt Hst Hst' Htb Ht Hc err.
  destruct (lis_driver _ _ _ Hl) as [Hinv Hcb].
  pose proof (Forall_lookup_1 _ _ _ _ (inv_wf _ Hinv) Hi) as [[Hla Hba] _ [Hk _] _ _].
  pose proof (find_slot_addr _ _ _ _ Hf Hi) as Ea. rewrite Ea in Hla, Hba.
  set (p := data_payload seq [st] tag) in *.
  destruct (data_payload_fields seq [st] tag Hs Ht) as (Eseq & Etag & Eaad & _ & Elen).
  fold p in Eseq, Etag, Eaad, Elen. cbn [length] in Elen.
  assert (check_tag (crypto_ (app_driver s)) dev p =
    Done (bool_decide (err = 0), (), if decide (err = 0) then [] else
      [ZephyrAesCcm.refusal_line err (key dev) (nonce_of a seq) (to_le 4 seq ++ [st]) tag])) as Hcheck.
  { unfold check_tag, aes_ccm_decrypt. rewrite Ea, Eseq, Etag, Eaad.
    rewrite !decide_False by (rewrite ?nonce_of_length; tauto). destruct (crypto_ (app_driver s)).
    unfold aes_ccm_decrypt_impl, zephyr_crypto, ZephyrAesCcm.AesCcm.
    by rewrite (ZephyrAesCcm.impl_run bt_ccm_decrypt)
      by (done || by apply nonce_of_length || (cbn; unfold ZephyrAesCcm.k_max_aad; lia)). }
  assert (∀ d : EnoceanDriver (), set_crypto () d = d) as Hunit by by intros [[]].
  destruct (decide (err = 0)) as [Hv|Hv].
  - rewrite bool_decide_eq_true_2 in Hcheck by done.
    pose proof (switch_event_run a rssi data seq st [] tag (app_driver s) i dev () [] on_button_ptr) as Hrun.
    rewrite Hcb in Hrun. fold p in Hrun.
    specialize (Hrun Hinv Hinit eq_refl Hf Hi Hty Hs Hlt Hst (Forall_nil_2 _) Htb Ht Hc ltac:(lia) Hcheck).
    cbv zeta in Hrun. rewrite bool_decide_eq_true_2, Hunit in Hrun by done. cbn [length] in Hrun.
    destruct (one_recv_run (Ev := Ev) _ _ _ _ _ _ _ _ Hl Hne Hla Hba Hr Hb Hrun) as (ls & E & Hls).
    rewrite E. do 3 f_equal. cbn [fmap list_fmap app andb negb bool_decide] in Hls.
    change (invoke_all [EvButton on_button_ptr (set_seq_num seq (set_rssi rssi dev))
      (if Z.odd st then Press else Release) (st / 2) None 0] = Done ls) in Hls.
    rewrite invoke_button in Hls by (cbn; by rewrite Ea). injection Hls as <-. cbn. by rewrite Ea.
  - rewrite bool_decide_eq_false_2 in Hcheck by done.
    pose proof (switch_refused_run a rssi data seq st tag (app_driver s) i dev () _
      Hinv Hinit Hf Hi Hty Hs Hlt Hst Hst' Htb Ht Hc Hcheck) as Hrun. rewrite Hunit in Hrun.
    destruct (one_recv_run (Ev := Ev) _ _ _ _ _ _ _ _ Hl Hne Hla Hba Hr Hb Hrun) as (ls & E & Hls).
    rewrite E. injection Hls as <-. done.
Qed.
End ZephyrGateway.

(** ** Concrete gateways *)

#[local] Instance toy_location : SourceLocation := λ s, s.

(** The running application over a library that rejects every tag but
    [0; 0; 0; 0]. *)
Definition posix_gateway : AppState (list Z) (HciScanner.Scanner toy_system) () :=
  mkApp (mkDriver [] app_callbacks true false (devices_ sample)) listening ().

Lemma posix_gateway_wired : wired posix_gateway.
Proof. split; [split|]; [|done..]. by destruct sample_inv. Qed.

(** A press of the switch, with a tag nobody computed. *)
Definition forgery (seq : Z) : bytes := adv_of (data_payload seq [0x03] [9; 9; 9; 9]).

Lemma forgery_ready seq w :
  ssl_ready PosixAesCcm.toy_ssl switch_entry (data_payload seq [0x03] [9; 9; 9; 9]) w.
Proof.
  split.
  - intros [] out inp n v. cbn. destruct out; [|by right]. cbn. case_decide; auto.
  - eexists (), _. split; [reflexivity|]. eexists. reflexivity.
Qed.

Ltac forged_facts :=
  first [exact toy_location | discriminate | reflexivity | apply adv_of_carries | apply posix_gateway_wired
        | apply forgery_ready | apply is_bytes_dec; reflexivity
        | unfold is_u32; cbn; lia | unfold is_u8; lia
        | split; [reflexivity|apply Nat.ltb_lt; reflexivity|unfold is_i8; cbn; lia] ].

Lemma forged_press_is_logged_witness :
  ∃ s' ls, on_packet (H := posix_crypto PosixAesCcm.toy_ssl) (Ev := LogCall)
        (adv_packet 30 [report switch_addr (-70) 77 (forgery 6)]) posix_gateway =
      Done ((), s', ev_log <$> ls) ∧
    button_line switch_addr 0x03 ∈ ls ∧ has_seq (app_driver s') switch_addr 6 ∧ wired s'.
Proof.
  apply (forged_press_is_logged (Ev := LogCall) PosixAesCcm.toy_ssl 30 switch_addr (-70) 77
    (forgery 6) posix_gateway) with (i := 0%nat) (dev := switch_entry) (tag := [9; 9; 9; 9]); forged_facts.
Defined.

Lemma one_packet_silences_witness :
  ∃ s' t, on_packet (H := posix_crypto PosixAesCcm.toy_ssl) (Ev := LogCall)
        (adv_packet 30 [report switch_addr (-70) 77 (forgery (2 ^ 32 - 1))]) posix_gateway =
      Done ((), s', t) ∧
    ∀ o ls cf', steps (H := posix_crypto PosixAesCcm.toy_ssl) (H1 := calm_thread) (Ev := LogCall) toy_bluez
        (mkConf s' o AtTest) ls cf' →
    ∃ t' lines, exec (H := posix_crypto PosixAesCcm.toy_ssl) (omap driver_call ls) (app_driver s') =
        Done ((), app_driver (shared cf'), t') ∧
      invoke_all t' = Done lines ∧ ls ≫= driver_log = ev_log <$> lines ∧
      Forall (λ r, r.1 ≠ switch_addr) (accepted t') ∧
      has_seq (app_driver (shared cf')) switch_addr (2 ^ 32 - 1).
Proof.
  apply (one_packet_silences (Ev := LogCall) PosixAesCcm.toy_ssl 30 switch_addr (-70) 77
    (forgery (2 ^ 32 - 1)) posix_gateway) with (i := 0%nat) (dev := switch_entry)
    (seq := 2 ^ 32 - 1) (st := 0x03) (tag := [9; 9; 9; 9]); forged_facts.
Defined.

(** A controller that accepts the tag [1; 2; 3; 4], and a press it accepts. *)
Definition toy_controller : ZephyrAesCcm.bt_ccm_decrypt_t :=
  λ _ _ enc _ _ _ _ _, (if decide (take 4 enc = toy_tag) then 0 else -22, []).

Lemma zephyr_events_vouched_witness :
  let info := ZephyrScanner.mkInfo (Some (switch_addr, 1)) 3 (-70) in
  ∃ s' e, on_recv (H := zephyr_crypto toy_controller) (Ev := LogCall) (Some info)
      (Some (adv_of press_payload)) zephyr_app = Done ((), s', [e]) ∧
    ∃ evs ls,
      advertisement_cb (H := zephyr_crypto toy_controller) (bool_decide (77 ≠ 0)) switch_addr 1 3 (-70)
        (adv_of press_payload) (app_driver zephyr_app) = Done ((), app_driver s', evs) ∧
      invoke_all evs = Done ls ∧ [e] = ev_log <$> ls ∧
      ∀ e, e ∈ evs → is_log e = false →
      ∃ p, extract_manufacturer_data (adv_of press_payload) = Done p ∧
        ((commissioning_enabled_ (app_driver zephyr_app) = true ∧
            find_slot switch_addr (devices_ (app_driver zephyr_app)) = None ∧
            e = EvCommissioned on_commissioned_ptr (new_device switch_addr 1 (-70) p)) ∨
         ∃ j dev, devices_ (app_driver zephyr_app) !! j = Some dev ∧ is_device switch_addr dev ∧
           seq_num dev < p_seq p ∧ vouched toy_controller dev p (adv_of press_payload) ∧
           let dev' := set_seq_num (p_seq p) (set_rssi (-70) dev) in
           devices_ (app_driver s') !! j = Some dev' ∧ e ∈ report_events app_callbacks dev' p).
Proof.
  intros info.
  destruct (on_recv (H := zephyr_crypto toy_controller) (Ev := LogCall) (Some info)
    (Some (adv_of press_payload)) zephyr_app) as [[[[] s'] t]|r] eqn:E; [|vm_compute in E; discriminate E].
  destruct t as [|e [|e2 t]]; [vm_compute in E; discriminate E| |vm_compute in E; discriminate E].
  exists s', e. split; [reflexivity|].
  apply (zephyr_events_vouched (Ev := LogCall) toy_controller 5 77 zephyr_app info _ s' [e]);
    [apply zephyr_app_listens| |apply is_bytes_dec; reflexivity|exact E].
  split; [unfold is_i8; cbn; lia|]. split; [reflexivity|].
  split; [apply is_bytes_dec; reflexivity|unfold is_u8; lia].
Defined.

(** The same press with that tag and with another one. *)
Lemma zephyr_press_decided_witness :
  let info := ZephyrScanner.mkInfo (Some (switch_addr, 1)) 3 (-70) in
  let run tag := on_recv (H := zephyr_crypto toy_controller) (Ev := LogCall) (Some info)
    (Some (adv_of (data_payload 6 [0x03] tag))) zephyr_app in
  let left_behind d := mkApp d (app_scanner zephyr_app) (app_world zephyr_app) in
  run toy_tag =
    Done ((), left_behind (set_slot 0 (set_seq_num 6 (set_rssi (-70) switch_entry)) (app_driver zephyr_app)),
      [button_line switch_addr 0x03]) ∧
  run [9; 9; 9; 9] =
    Done ((), left_behind (set_slot 0 (set_rssi (-70) switch_entry) (app_driver zephyr_app)),
      [ZephyrAesCcm.refusal_line (-22) (key switch_entry) (nonce_of switch_addr 6)
         (to_le 4 6 ++ [0x03]) [9; 9; 9; 9];
       LOGGER_WARNING "EnoceanDriver: switch auth failed" []]).
Proof.
  split.
  - etransitivity; [apply (zephyr_press_decided (Ev := LogCall) toy_controller 5 77 zephyr_app switch_addr (-70)
      (adv_of (data_payload 6 [0x03] toy_tag)) 0 switch_entry 6 0x03 toy_tag zephyr_app_listens);
      first [forged_facts | unfold is_i8; lia | cbn; lia]|reflexivity].
  - etransitivity; [apply (zephyr_press_decided (Ev := LogCall) toy_controller 5 77 zephyr_app switch_addr (-70)
      (adv_of (data_payload 6 [0x03] [9; 9; 9; 9])) 0 switch_entry 6 0x03 [9; 9; 9; 9] zephyr_app_listens);
      first [forged_facts | unfold is_i8; lia | cbn; lia]|reflexivity].
Defined.
