(* ===== verification/Availability.v ===== *)
(** * A press gets through (the Zephyr gateway under hostile traffic)

    The composition of the components on Zephyr: Bluetooth stack, start-up and
    owner, scanner, driver and application callbacks, over any crypto backend
    that decides about tags by a function ([CryptoVerifier], the Zephyr backend
    among them). Whatever the stack hands over, however its calls fall between
    the steps of the owner, and whatever is forged, replayed or commissioned
    meanwhile: a genuine press with a counter above all those that the switch
    itself has used is logged. *)

From stdpp Require Import prelude list strings.
From Stdlib Require Import ZArith Lia.
From S2P Require Import Prelude Logger ErrorHandler ErrorCodes Types AdParser Crypto Tlv.
From S2P Require Import Driver DriverRun DriverSafety DriverProps DriverWitness DriverSpec DriverIsolation.
From S2P Require Import Sync Threads Ble Boards App AppZephyr ConcurrencyZephyr.

(** A backend that decides by a function always answers. *)
#[export] Instance verifier_total {C} `{CryptoVerifier C} : CryptoTotal C.
Proof.
  intros key nonce aad tag c Hk Hn Ht.
  destruct (verify_spec key nonce aad tag c Hk Hn Ht) as (c' & l & E). by exists (verify key nonce aad tag), c', l.
Qed.

Section Zephyr.
Context {C W X Ev : Type} `{CryptoVerifier C} `{LogEvent Ev} `{SourceLocation}.
Context (bt : ZephyrScanner.Bt X) (this : nat) (driver_ptr : Z).
Abbreviation State := (AppState C (ZephyrScanner.Scanners X) W).
Implicit Types s : State.

(** What the stack passes in this turn is no telegram made with the key of
    [dev], or one with a counter below [seq]. *)
Definition below (dev : EnoceanDevice) (seq : Z) (l : turn) : Prop :=
  ∀ o rp, carried l o → telegram (addr (ble_addr dev)) o = Some rp →
    genuine verify (key dev) (addr (ble_addr dev)) rp → p_seq rp.2 < seq.

Lemma owner_below dev seq : below dev seq OwnerTurn.
Proof. intros [| | |] rp Hc Ht; first [discriminate Ht|destruct Hc]. Qed.

Lemma stack_below dev seq info b p :
  extract_manufacturer_data b = Done p →
  (genuine verify (key dev) (addr (ble_addr dev)) (ZephyrScanner.info_rssi info, p) → p_seq p < seq) →
  below dev seq (StackTurn (Some info) (Some b)).
Proof.
  intros Ex Hp [| | |ctx a at_ adv rssi data] rp Hc; [destruct Hc..|].
  destruct Hc as (_ & <- & <- & <-). cbn [telegram]. destruct (_ && _); [|done]. rewrite Ex.
  case_bool_decide; [|done]. intros [= <-]. exact Hp.
Qed.

Lemma wired_observed s :
  driver_wired (app_driver s) → initialised_ (app_driver s) = true → observed (app_driver s).
Proof. intros [_ Hcb] Hi. by split; rewrite ?Hcb. Qed.

(** C7. Whatever the stack has handed over since the switch was commissioned, a
    genuine press with a counter above those of the switch's own telegrams so
    far makes the application log the button. *)
Theorem zephyr_press_gets_through cf ls cf' ctx i dev seq st tag rssi data :
  alive this cf.1 → Destroy ∉ cf.2 → initialised_ (app_driver cf.1) = true →
  devices_ (app_driver cf.1) !! i = Some dev → Types.active dev = true → type dev = Switch →
  stack_steps (Ev := Ev) bt this driver_ptr cf ls cf' →
  Forall (below dev seq) ls → seq_num dev < seq →
  listens this ctx cf'.1 → ctx ≠ 0 →
  is_u32 seq → is_u8 st → st < 32 → is_bytes tag → length tag = k_tag_len →
  is_i8 rssi → is_bytes data → carries data (data_payload seq [st] tag) →
  genuine verify (key dev) (addr (ble_addr dev)) (rssi, data_payload seq [st] tag) →
  let a := addr (ble_addr dev) in
  ∃ s' lines,
    on_recv (Some (ZephyrScanner.mkInfo (Some (a, k_addr_random)) k_adv_nonconn_ind rssi)) (Some data)
      cf'.1 = Done ((), s', ev_log <$> lines : list Ev) ∧
    button_line a st ∈ lines.
Proof.
  intros Hal Hn Hinit Hi Hact Hty Hsteps Hbelow Hlt Hl Hctx Hs Hst Hst' Htb Ht Hr Hb Hc Hg a.
  destruct (stack_run (Ev := Ev) bt this driver_ptr _ _ _ Hal Hn Hsteps)
    as (_ & ops & t & Hwf & Hni & Hcar & Hexec).
  pose proof (alive_driver _ _ Hal) as Hw. pose proof (wired_inv _ Hw) as Hinv.
  destruct (press_after (app_driver cf.1) i dev ops (wired_observed _ Hw Hinit) Hinv Hi Hact Hwf Hni
    () (app_driver cf'.1) t seq st tag rssi data on_button_ptr) as (d'' & evs & Hrun & Hev); try done.
  - by rewrite (wired_callbacks _ (lis_driver _ _ _ Hl)).
  - eapply Forall_impl; [exact Hcar|]. intros o (l & Hin & Ho) rp Htel Hgen.
    rewrite Forall_forall in Hbelow. by apply (Hbelow l Hin o rp).
  - pose proof (Forall_lookup_1 _ _ _ _ (inv_wf _ Hinv) Hi) as [[Hla Hba] _ _ _ _].
    destruct (one_recv_run (Ev := Ev) this ctx _ a rssi data _ _ Hl Hctx Hla Hba Hr Hb Hrun)
      as (lines & E & Hls).
    eexists _, lines. split; [exact E|].
    apply (button_logged evs lines (set_seq_num seq (set_rssi rssi dev)) st None 0 Hls); [exact Hla|].
    apply callbacks_in. rewrite Hev. by left.
Qed.
End Zephyr.

(** ** A forged press during start-up *)

#[local] Instance toy_location : SourceLocation := λ s, s.

(** The largest counter, and a tag nobody computed. *)
Definition forged_info : option ZephyrScanner.recv_info :=
  Some (ZephyrScanner.mkInfo (Some (switch_addr, 1)) 3 (-60)).
Definition forged_buf : option bytes := Some (adv_of (data_payload (2 ^ 32 - 1) [0x03] [9; 9; 9; 9])).

Lemma forged_recv_wf : wf_recv forged_info forged_buf.
Proof.
  split; [intros i [= <-]|intros b [= <-]; apply is_bytes_dec; reflexivity].
  split; [unfold is_i8; cbn; lia|]. split; [reflexivity|].
  split; [apply is_bytes_dec; reflexivity|unfold is_u8; lia].
Qed.

Definition start_up_turns : list turn :=
  [OwnerTurn; StackTurn switch_info press_buf; OwnerTurn; OwnerTurn;
   StackTurn forged_info forged_buf; OwnerTurn].

Lemma start_up_steps :
  stack_steps (Ev := LogCall) toy_bt 5 77 (constructed_app, init_actions) start_up_turns (stored_app, []).
Proof.
  eapply stack_cons; [eapply turn_owner; vm_compute; reflexivity|].
  eapply stack_cons; [eapply turn_stack; [apply switch_recv_wf|vm_compute; reflexivity]|].
  eapply stack_cons; [eapply turn_owner; vm_compute; reflexivity|].
  eapply stack_cons; [eapply turn_owner; vm_compute; reflexivity|].
  eapply stack_cons; [eapply turn_stack; [apply forged_recv_wf|vm_compute; reflexivity]|].
  eapply stack_cons; [eapply turn_owner; vm_compute; reflexivity|].
  apply stack_nil.
Qed.

Lemma start_up_below : Forall (below switch_entry 7) start_up_turns.
Proof.
  assert (∀ p, is_bytes p → (length p ≤ 252)%nat → extract_manufacturer_data (adv_of p) = Done p) as Hx
    by (intros p Hb Hl; apply extract_carries; [apply adv_of_carries|done..]).
  repeat (apply Forall_cons; split; [try apply owner_below|]); [..|apply Forall_nil; exact I].
  - apply (stack_below _ _ _ _ press_payload);
      [apply Hx; [apply is_bytes_dec|apply Nat.leb_le; vm_compute]|]; reflexivity.
  - apply (stack_below _ _ _ _ (data_payload (2 ^ 32 - 1) [0x03] [9; 9; 9; 9]));
      [apply Hx; [apply is_bytes_dec|apply Nat.leb_le; vm_compute]; reflexivity|].
    intros Hg. vm_compute in Hg. discriminate Hg.
Qed.

Lemma zephyr_press_gets_through_witness :
  ∃ s' lines,
    on_recv (Ev := LogCall)
      (Some (ZephyrScanner.mkInfo (Some (switch_addr, k_addr_random)) k_adv_nonconn_ind (-50)))
      (Some (adv_of (data_payload 7 [0x03] toy_tag))) stored_app = Done ((), s', ev_log <$> lines) ∧
    button_line switch_addr 0x03 ∈ lines.
Proof.
  apply (zephyr_press_gets_through (Ev := LogCall) toy_bt 5 77 (constructed_app, init_actions)
    start_up_turns (stored_app, []) 77 0 switch_entry 7 0x03 toy_tag (-50)
    (adv_of (data_payload 7 [0x03] toy_tag))); try reflexivity; try (unfold is_u32, is_u8, is_i8; lia).
  - apply constructed_alive.
  - apply init_keeps.
  - apply start_up_steps.
  - apply start_up_below.
  - split; [apply zephyr_driver_wired|reflexivity|reflexivity].
  - apply is_bytes_dec. reflexivity.
  - apply is_bytes_dec. reflexivity.
  - apply adv_of_carries.
Defined.
